(* ===== verification/_CoqProject ===== *)
-Q . S2P
Prelude.v
Endian.v
Sync.v
Monitor.v
Thread.v
Life.v
Util.v
Address.v
ByteArray.v
Timer.v
Epoller.v
SocketStream.v
HttpMessage.v
HttpParser.v
HttpRoundTrip.v
HttpServlet.v
HttpMain.v
RWLock.v
Codec.v
Talk.v
Worker.v
Scheduler.v
Condition.v
AsyncLog.v
Log.v
Hook.v
Runtime.v
Lifetime.v
Sleep.v
Socket.v
Wire.v
OverHooks.v
OnWorker.v
Server.v
