(* ===== verification/Prelude.v ===== *)
(** * Reyao in Rocq

    A verification library for reyao, a C++ network library with coroutines:
    hooked system calls that suspend a coroutine instead of a thread, workers
    that run coroutines over epoll, timers, byte buffers, an HTTP server, an
    RPC codec on protobuf and an asynchronous log.  File names below are
    relative to src/reyao/.

    ** The program and the files of this library

    - Prelude.v (this file): the state-and-error monad all stateful code is
      written in ([M S A]; a call returns, throws, fails an assertion or is
      undefined, and the state survives), the rules [bind_ok], [bind_inv] and
      [wp] to run it, refinement [sim], machine integers ([wrap], [swrap]),
      byte sequences addressed by [size_t] ([slice], [memput]), the hint
      database [reyao].
    - Endian.v (endian.h): object representations and byte swaps on hosts of
      both byte orders.
    - Sync.v (mutex.cc, coroutine.h, stackalloc.cc): the latch, the timed
      wait, the spin lock as step functions of any number of threads; stacks.
    - Monitor.v (mutex.cc): the latch again, at the level of its mutex and its
      condition variable.
    - Thread.v (thread.cc): the life of a thread object, interleaved with the
      thread it creates; what a thread keeps for itself.
    - Life.v (scheduler.cc, workerthread.cc): starting, stopping and joining a
      scheduler, step by step over its threads; which queues hold tasks and
      whether a timer is left, which [canStop] asks for, is part of each step.
    - Util.v (util.cc): hexadecimal and decimal numbers, [stoi], files.
    - Address.v (address.cc): IPv4 socket addresses.
    - ByteArray.v (bytearray.cc): the growing buffer under every stream.
    - Timer.v (timer.cc): the ordered set of timers; timers are objects in a
      heap, since users and manager share them.
    - Epoller.v (epoller.cc): registration and dispatch of events; the
      kernel's interest list is the class [Epoll].  The eventfd the constructor
      has it watch is an instance of that class around another.
    - SocketStream.v (socket_stream.cc): reads and writes over a connection
      that cuts the byte stream anywhere, and the destructor that closes the
      socket.  What a stream needs of its socket is the class [Conn];
      HttpParser.v, HttpServlet.v and Codec.v are written against it.
    - HttpMessage.v, HttpParser.v, HttpRoundTrip.v, HttpServlet.v (http/):
      messages and their text, the incremental parsers, text against parser,
      servlets, sessions and the server loop.
    - HttpMain.v (cmd/http_server.cc): the pages of the example server.
    - RWLock.v (mutex.cc): reader-writer locks with their guards, and calls
      that work step by step under them; used for the servlet dispatch.
    - Codec.v (rpc/): framing, the receiving state machine, server and client.
    - Talk.v: programs that only use [Conn] as trees of its calls; the HTTP and
      RPC servers and clients are such programs ([Says]), for every connection.
    - Worker.v (coroutine.cc, worker.cc): coroutines, the queue and loop of a
      worker.  What user code does between two switches is a program tree
      [Prog], with continuations for the answers of the poller.
    - Scheduler.v (scheduler.cc, workerthread.cc): the workers of all threads.
    - Condition.v (coroutine.cc): conditions coroutines wait on, over the
      scheduler's workers.
    - AsyncLog.v (fixedbuffer.h, asynclog.cc): buffers, log files, and the
      front end and the log thread as a machine whose steps interleave.
    - Log.v (log.cc): patterns, items, levels; client of AsyncLog.v.
    - Hook.v (fdmanager.cc, hook.cc): the table of descriptors, [do_io] and
      every call built on it; the flags of the kernel are the class [Sys], in
      which duplicated descriptors share them.
    - Runtime.v (hook.cc, worker.cc, epoller.cc together): hooked calls inside
      the program of a coroutine on a worker.
    - Lifetime.v (coroutine.cc): who holds a coroutine, and its destructor.
    - Sleep.v (hook.cc, timer.cc, worker.cc, epoller.cc together): sleeping
      coroutines, the timers of the scheduler under the loop of a worker.
    - Socket.v (socket.cc, tcp_server.cc, tcp_client.cc): socket objects over
      Hook.v, the accept loop, the connecting client.
    - Wire.v (socket_stream.cc, socket.cc, hook.cc together): the connection of
      Socket.v as an instance of [Conn], with the kernel's answers behind every
      hooked call; what a program does over it, it does on pieces.
    - OverHooks.v (http/, rpc/ over the above): the HTTP and RPC servers and
      their clients running over hooked calls, from end to end.
    - OnWorker.v (the same over worker.cc, epoller.cc): such a program as the
      program of a coroutine that suspends in the poller of its worker.
    - Server.v (tcp_server.cc): the server over Socket.v and Scheduler.v.

    Records have the members of the C++ classes under their names; one
    definition stands for one function, in the order of its statements, and
    the loops and early returns are those of the code.  Where one C++ name
    serves several classes the file tells them apart ([Hook.accept],
    [Socket.accept]).

    ** What the theorems show

    - Buffers: every sequence of calls on a ByteArray acts like a byte queue,
      across growth and compaction; values and strings of every type are read
      back; addresses and hexadecimal numbers convert as they should.
    - HTTP: a parser's answer does not depend on how the bytes are cut into
      reads; dumped requests and responses are parsed back; the parser
      returns on every stream; header maps are case-insensitive maps;
      servlets are matched in their order; a connection is served in order:
      the requests answered are those read off the stream, and the connection
      is closed whatever the parser throws; a client parses the response the servlet made for its request; the
      example server answers every path.
    - RPC: a message sent is received; [receive] is safe on every stream; the
      callback of a client gets what the server's handler made of its request.
    - Both over hooked calls: on non-blocking descriptors, whose every [recv] and
      [send] may be interrupted and may suspend the coroutine, the servers do
      what they do on a sequence of pieces; so the exchanges above hold from
      end to end ([http_over_hooks], [rpc_over_hooks], [http_serves_over_hooks]),
      under the conditions of the code: no [send] takes a part of a response,
      of which the rest would be lost ([short_send_cuts]), and each RPC frame
      arrives in one read ([split_frame_rejected]).
      Such a server in a coroutine of a worker comes to its end through the turns
      of the loop, however often it suspends ([http_on_worker]).  There no timer
      of a call expires; for that see [do_io_times_out] and [timeout_wakes].
    - Events and timers: registrations act as a registry that keeps the
      kernel in step, calls succeed exactly when it allows, ready events wake
      their tasks; the eventfd stays watched; timers stay sorted, fire when due
      and in order; the function of a cancelled one is not handed out any more,
      although one handed out before still runs ([cancel_too_late]).
    - Hooked calls: user code sees blocking calls whatever the kernel answers
      ([do_io_answers], [do_io_never_would_block], [do_io_times_out]); sockets
      in the table stay non-blocking for the kernel while the user sees his
      own flag, but for the calls that clear it behind the table
      ([ioctl_makes_blocking], [duplicate_makes_blocking]); closing wakes the
      waiters registered with the poller of the caller's worker.
    - The runtime as a whole: a hooked call suspends its coroutine, the loop of
      the worker goes on, and the event or the timer brings the coroutine back
      behind its suspension with nothing left registered
      ([blocking_call_completes], [timeout_wakes]), and it is held meanwhile
      ([blocked_is_held]); sleepers wake when their time has come and not
      before, in the order of their deadlines ([sleepers_wake]).  A timer that
      another worker collects does not wake the coroutine ([timeout_wakes]).
    - Workers: every turn of the loop keeps the invariant of coroutines, queue
      and poller and takes the first task; after [stop] the loop ends with an
      empty queue; the scheduler deals tasks in turn and stops every worker;
      its start, stop and wait keep their promises in every interleaving, unless
      the stop comes before a worker has entered its loop, or a timer is left
      ([scheduler_life], [stop_ends_all], [early_stop_hangs]); a
      coroutine that waits on a condition is woken whichever comes first, its
      suspension or the notification.
    - Threads: a thread object that is started once keeps what [start], [getId]
      and [join] promise, in every interleaving, unless it is detached by hand
      or destroyed before its thread has called the callback.
    - Sockets: calls on a socket refine its life cycle; the server makes every
      accepted connection a task, in order, with its timeout, and the scheduler
      deals these to the workers.
    - Logs: in every interleaving of callers and log thread no byte is lost,
      doubled or reordered and no null buffer is followed; a file stays within
      its limit unless it is opened twice ([rolled_file_grows]); a stopped log is
      flushed in a bounded number of steps; a logger writes exactly the
      records at its level in its pattern.
    - Locks: the spin lock excludes, and can deadlock; the latch opens neither
      early nor late, and the one made of a mutex and a condition variable is
      that latch; the servlet dispatch is linearizable under its lock.

    Other theorems state what does not work as meant: a socket left out of
    epoll after one of two events, requests lost in a pipelined connection,
    frames rejected when they arrive in two reads, wakeups lost between
    [canStop] and [epoll_wait], a stop that is overwritten, TCP_NODELAY never
    set, a server that listens after a failed [bind], and so on.

    ** Scripts, fuel and bounds

    The environment is data: what [recv] finds, what the original system calls
    return, what wakes a suspended coroutine, what other threads do while a
    worker idles, what the clock says.  Theorems quantify over these scripts,
    so they hold for every course of events.  Loops of the code that end by a
    condition on the environment are recursive on such a script or on fuel
    computed from it ([retry] on the wakes, [again_on_EINTR] on the calls,
    [parseLoop] on the bytes to come); [NoFuel] marks a script that ends
    before the code returns, and the termination theorems
    ([parse_request_returns], [receive_safe], [stop_terminates],
    [pattern_pieces]) show that it does not occur.  Decimal output uses
    [log2 n + 1] rounds, the pattern loop the length of the pattern.

    Integers have their width where it matters ([size_t] positions, lengths on
    the wire, timeouts); counters that would need 2^63 steps to overflow are
    kept small by hypotheses on sizes.  Deadlines of timers are unbounded in
    the operations; [deadlines_fit] shows that they and every sum on the way
    stay in [int64_t] while the clock and the intervals are below 2^62.

    ** What is not modelled

    - Machine contexts: a context is the rest of a [Prog], so memory errors of
      user code are out of scope.  Reference counts of coroutines are the
      holders on their worker (Lifetime.v).
    - Data races as such: unlocked accesses are steps of their own where
      their order matters (worker and adder, log and thread), but memory is
      sequentially consistent.
    - The parts that only call the system: creation and destruction of pthread
      objects, loading of the original symbols, DNS.
    - Protobuf, [fnmatch], [strftime], [printf], [inet_pton] and the kernel are
      parameters, with their documented behaviour as laws where it is used.
    - The failure of [pthread_create] in Life.v (Thread.v has it); which worker's coroutine calls
      [stop], in Life.v any thread may.
    - The test programs and the generated code; of the example server the
      reading of its arguments. *)

From stdpp Require Export base tactics list numbers strings gmap sorting.
From Stdlib Require Export ZArith Lia Ascii String.

Open Scope Z_scope.
Open Scope list_scope.

Abbreviation bytes := (list ascii).
Abbreviation length := List.length.

(** ** Errors and the state-and-error monad

    The C++ code leaves a call normally, by an exception, by a failed
    [assert], or it has no defined behaviour.  The state survives an
    exception, so the monad returns it in both cases. *)

Inductive err : Type :=
| OutOfRange        (** [std::out_of_range] *)
| LengthError       (** [std::length_error] *)
| InvalidArgument   (** [std::invalid_argument] *)
| AssertFail        (** a failed [assert] *)
| Undefined         (** undefined behaviour: out of bounds or invalid iterator *)
| NoFuel.           (** the model's fuel ran out before the code returned *)

#[export] Instance err_eq_dec : EqDecision err.
Proof. solve_decision. Defined.

Inductive result (A : Type) : Type :=
| Ok (a : A)
| Throw (e : err).
Arguments Ok {A} a.
Arguments Throw {A} e.

#[export] Instance result_eq_dec `{EqDecision A} : EqDecision (result A).
Proof. solve_decision. Defined.

Definition is_ok {A} (r : result A) : bool :=
  match r with Ok _ => true | Throw _ => false end.

Definition M (S A : Type) : Type := S -> result A * S.

Definition ret {S A} (a : A) : M S A := fun s => (Ok a, s).

Definition throw {S A} (e : err) : M S A := fun s => (Throw e, s).

Definition bind {S A B} (m : M S A) (k : A -> M S B) : M S B :=
  fun s => match m s with
           | (Ok a, s') => k a s'
           | (Throw e, s') => (Throw e, s')
           end.

Definition gets {S A} (f : S -> A) : M S A := fun s => (Ok (f s), s).

Definition modify {S} (f : S -> S) : M S unit := fun s => (Ok tt, f s).

Definition check {S} (b : bool) (e : err) : M S unit :=
  if b then ret tt else throw e.

(** A computation on a part of the state. *)
Definition zoom {S T A} (get : S -> T) (set : T -> S -> S) (m : M T A) : M S A :=
  fun s => let '(r, t) := m (get s) in (r, set t s).

Definition assert_ {S} (b : bool) : M S unit := check b AssertFail.

Declare Scope reyao_scope.
Delimit Scope reyao_scope with reyao.

Notation "x <-- m ;; k" := (bind m (fun x => k))
  (at level 100, m at next level, right associativity) : reyao_scope.
Notation "m ;;; k" := (bind m (fun _ => k))
  (at level 100, right associativity) : reyao_scope.

Open Scope reyao_scope.

Lemma bind_ok {S A B} (m : M S A) (k : A -> M S B) s a s' :
  m s = (Ok a, s') -> bind m k s = k a s'.
Proof. unfold bind. by intros ->. Qed.

Lemma bind_throw {S A B} (m : M S A) (k : A -> M S B) s e s' :
  m s = (Throw e, s') -> bind m k s = (Throw e, s').
Proof. unfold bind. by intros ->. Qed.

Lemma bind_gets {S A B} (f : S -> A) (k : A -> M S B) s : bind (gets f) k s = k (f s) s.
Proof. done. Qed.

Lemma bind_ret {S A B} (a : A) (k : A -> M S B) s : bind (ret a) k s = k a s.
Proof. done. Qed.

Lemma bind_modify {S A} (f : S -> S) (k : unit -> M S A) s : bind (modify f) k s = k tt (f s).
Proof. done. Qed.

Lemma bind_inv {S A B} (m : M S A) (k : A -> M S B) s b s' :
  bind m k s = (Ok b, s') -> exists a s1, m s = (Ok a, s1) /\ k a s1 = (Ok b, s').
Proof. unfold bind. destruct (m s) as [[a|e] s1]; [by exists a, s1|done]. Qed.

(** Runs a returning computation backwards, one [bind] after the other. *)
Ltac inv_bind H :=
  lazymatch type of H with
  | bind _ _ _ = (Ok _, _) =>
      let a := fresh "a" in let s := fresh "s" in let E := fresh "E" in
      apply bind_inv in H as (a & s & E & H); inv_bind H
  | _ => idtac
  end.

(** [wp m s Q]: if [m] returns from [s], its value and state satisfy [Q]. *)
Definition wp {S A} (m : M S A) (s : S) (Q : A -> S -> Prop) : Prop :=
  forall a s', m s = (Ok a, s') -> Q a s'.

Section Wp.
Context {S : Type}.

Lemma wp_ret {A} (a : A) (s : S) Q : Q a s -> wp (ret a) s Q.
Proof. by intros Hq a' s' [= <- <-]. Qed.

Lemma wp_throw {A} e (s : S) (Q : A -> S -> Prop) : wp (throw e) s Q.
Proof. by intros a s'. Qed.

Lemma wp_bind {A B} (m : M S A) (k : A -> M S B) s Q : wp m s (fun a s1 => wp (k a) s1 Q) -> wp (bind m k) s Q.
Proof. intros Hm b s' (a & s1 & E1 & E2)%bind_inv. exact (Hm _ _ E1 _ _ E2). Qed.

Lemma wp_gets {A} (f : S -> A) s (Q : A -> S -> Prop) : Q (f s) s -> wp (gets f) s Q.
Proof. by intros Hq a s' [= <- <-]. Qed.

Lemma wp_modify (f : S -> S) s (Q : unit -> S -> Prop) : Q tt (f s) -> wp (modify f) s Q.
Proof. by intros Hq a s' [= <- <-]. Qed.

Lemma wp_mono {A} (m : M S A) s (P Q : A -> S -> Prop) : wp m s P -> (forall a s', P a s' -> Q a s') -> wp m s Q.
Proof. intros Hp Hpq a s' E. apply Hpq, Hp, E. Qed.

Lemma wp_zoom {T A} (get : S -> T) (set : T -> S -> S) (m : M T A) s Q :
  wp m (get s) (fun a t => Q a (set t s)) -> wp (zoom get set m) s Q.
Proof.
  intros Hm a s' E. unfold zoom in E. destruct (m (get s)) as [r t] eqn:Em. injection E as -> <-. by apply Hm.
Qed.
End Wp.

(** ** Refinement

    [sim R m n]: from related states both computations give the same result
    and related states again. *)
Definition sim {S T A} (R : S -> T -> Prop) (m : M S A) (n : M T A) : Prop :=
  forall s t, R s t -> fst (m s) = fst (n t) /\ R (snd (m s)) (snd (n t)).

Section Sim.
Context {S T : Type} (R : S -> T -> Prop).

Lemma sim_ret {A} (a : A) : sim R (ret a) (ret a).
Proof. by intros s t. Qed.

Lemma sim_throw {A} e : sim R (@throw S A e) (throw e).
Proof. by intros s t. Qed.

Lemma sim_bind {A B} (m : M S A) (n : M T A) (k : A -> M S B) (h : A -> M T B) :
  sim R m n -> (forall a, sim R (k a) (h a)) -> sim R (bind m k) (bind n h).
Proof.
  intros Hm Hk s t Hst. unfold bind. destruct (Hm s t Hst) as [E Hr].
  destruct (m s) as [[a|e] s'], (n t) as [[b|f] t']; cbn in *; simplify_eq; [by apply Hk|done].
Qed.

(** Reading the state: the continuations only run on related states. *)
Lemma sim_gets {A B} (f : S -> A) (g : T -> A) (k : A -> M S B) (h : A -> M T B) :
  (forall s t, R s t -> f s = g t) -> (forall a, sim R (k a) (h a)) ->
  sim R (bind (gets f) k) (bind (gets g) h).
Proof.
  intros Hfg Hk s t Hst. unfold bind, gets. rewrite (Hfg s t Hst). by apply Hk.
Qed.

Lemma sim_modify (f : S -> S) (g : T -> T) :
  (forall s t, R s t -> R (f s) (g t)) -> sim R (modify f) (modify g).
Proof. intros Hfg s t Hst. split; [done|by apply Hfg]. Qed.

Lemma sim_if {A} (b : bool) (m1 m2 : M S A) (n1 n2 : M T A) :
  sim R m1 n1 -> sim R m2 n2 -> sim R (if b then m1 else m2) (if b then n1 else n2).
Proof. by destruct b. Qed.
End Sim.

(** ** Machine integers *)

(** [wrap w z] is the value of [z] in the unsigned type of [w] bits,
    [swrap w z] in the signed one (two's complement). *)
Definition wrap (w z : Z) : Z := z mod 2 ^ w.
Definition swrap (w z : Z) : Z := (z + 2 ^ (w - 1)) mod 2 ^ w - 2 ^ (w - 1).

Abbreviation u16 := (wrap 16).
Abbreviation u32 := (wrap 32).
Abbreviation u64 := (wrap 64).
Abbreviation i32 := (swrap 32).
Abbreviation i64 := (swrap 64).

Lemma wrap_small w z : 0 <= z < 2 ^ w -> wrap w z = z.
Proof. apply Z.mod_small. Qed.

Lemma pow2_half w : 0 < w -> 2 ^ w = 2 * 2 ^ (w - 1).
Proof. intros. rewrite <- Z.pow_succ_r by lia. f_equal. lia. Qed.

Lemma swrap_small w z : 0 < w -> - 2 ^ (w - 1) <= z < 2 ^ (w - 1) -> swrap w z = z.
Proof.
  intros Hw Hz. pose proof (pow2_half w Hw). unfold swrap.
  rewrite Z.mod_small; lia.
Qed.

Lemma wrap_range w z : 0 <= w -> 0 <= wrap w z < 2 ^ w.
Proof. intros. apply Z.mod_pos_bound, Z.pow_pos_nonneg; lia. Qed.

Lemma wrap_wrap w z : 0 <= w -> wrap w (wrap w z) = wrap w z.
Proof. intros. by apply wrap_small, wrap_range. Qed.

Lemma swrap_range w z : 0 < w -> - 2 ^ (w - 1) <= swrap w z < 2 ^ (w - 1).
Proof.
  intros Hw. pose proof (pow2_half w Hw). unfold swrap.
  pose proof (Z.mod_pos_bound (z + 2 ^ (w - 1)) (2 ^ w) ltac:(lia)). lia.
Qed.

(** Unsigned and signed readings of the same bits. *)
Lemma wrap_swrap w z : 0 < w -> wrap w (swrap w z) = wrap w z.
Proof.
  intros Hw. unfold wrap, swrap.
  rewrite Zminus_mod_idemp_l. f_equal. lia.
Qed.

Lemma swrap_wrap w z : 0 < w -> swrap w (wrap w z) = swrap w z.
Proof.
  intros Hw. unfold wrap, swrap.
  by rewrite Zplus_mod_idemp_l.
Qed.

(** Cutting to [w] bits forgets an earlier cut to [w' >= w] bits. *)
Lemma wrap_wrap_le w w' z : 0 <= w <= w' -> wrap w (wrap w' z) = wrap w z.
Proof.
  intros. unfold wrap. apply Z.mod_mod_divide.
  exists (2 ^ (w' - w)). rewrite <- Z.pow_add_r by lia. f_equal. lia.
Qed.

Lemma swrap_wrap_le w w' z : 0 < w <= w' -> swrap w (wrap w' z) = swrap w z.
Proof.
  intros. rewrite <- swrap_wrap, wrap_wrap_le, swrap_wrap by lia. done.
Qed.

(** One bit of a number. *)
Lemma land_bit ev n : 0 <= n -> Z.land ev (2 ^ n) = if Z.testbit ev n then 2 ^ n else 0.
Proof.
  intros Hn0. apply Z.bits_inj'. intros m Hm. rewrite Z.land_spec.
  destruct (decide (m = n)) as [->|].
  - rewrite Z.pow2_bits_true by done. destruct (Z.testbit ev n); [by rewrite Z.pow2_bits_true|].
    by rewrite Z.bits_0.
  - rewrite (Z.pow2_bits_false n m) by lia. rewrite andb_false_r.
    destruct (Z.testbit ev n); [by rewrite Z.pow2_bits_false by lia|by rewrite Z.bits_0].
Qed.

(** ** Characters and byte strings *)

Notation "'bs' s" := (list_ascii_of_string s%string) (at level 9, s at level 9) : reyao_scope.

Definition code (c : ascii) : Z := Z.of_N (N_of_ascii c).
Definition chr (z : Z) : ascii := ascii_of_N (Z.to_N (z mod 256)).

Definition zeroc : ascii := "000"%char.

Lemma code_range c : 0 <= code c < 256.
Proof. unfold code. pose proof (N_ascii_bounded c). lia. Qed.

Lemma chr_code c : chr (code c) = c.
Proof.
  unfold chr. rewrite Z.mod_small by apply code_range.
  unfold code. by rewrite N2Z.id, ascii_N_embedding.
Qed.

Lemma code_chr z : code (chr z) = z mod 256.
Proof.
  unfold code, chr. pose proof (Z.mod_pos_bound z 256 ltac:(lia)).
  rewrite N_ascii_embedding; lia.
Qed.

(** ** Memory: byte sequences addressed by [size_t] positions *)

Definition zlen {A} (l : list A) : Z := Z.of_nat (length l).

(** The bytes of [l] in [[from, to)]. *)
Definition slice {A} (from to : Z) (l : list A) : list A :=
  take (Z.to_nat (to - from)) (drop (Z.to_nat from) l).

(** [memcpy(&l[pos], d, |d|)] *)
Definition memput {A} (pos : Z) (d l : list A) : list A :=
  take (Z.to_nat pos) l ++ d ++ drop (Z.to_nat pos + length d)%nat l.

Lemma zlen_nonneg {A} (l : list A) : 0 <= zlen l.
Proof. unfold zlen. lia. Qed.

Lemma zlen_nil {A} : zlen (@nil A) = 0.
Proof. done. Qed.

Lemma zlen_cons {A} x (l : list A) : zlen (x :: l) = 1 + zlen l.
Proof. unfold zlen. cbn [length]. lia. Qed.

Lemma zlen_app {A} (l k : list A) : zlen (l ++ k) = zlen l + zlen k.
Proof. unfold zlen. rewrite length_app. lia. Qed.

Lemma zlen_0 {A} (l : list A) : zlen l = 0 -> l = [].
Proof. destruct l; [done|]. rewrite zlen_cons. pose proof (zlen_nonneg l). lia. Qed.

Lemma zlen_slice {A} from to (l : list A) :
  0 <= from <= to -> to <= zlen l -> zlen (slice from to l) = to - from.
Proof. unfold zlen, slice. intros. rewrite length_take, length_drop. lia. Qed.

Lemma zlen_memput {A} pos (d l : list A) :
  0 <= pos -> pos + zlen d <= zlen l -> zlen (memput pos d l) = zlen l.
Proof.
  unfold zlen, memput. intros.
  rewrite !length_app, length_take, length_drop. lia.
Qed.

Lemma zlen_resize {A} n (x : A) l : 0 <= n -> zlen (resize (Z.to_nat n) x l) = n.
Proof. intros. unfold zlen. rewrite length_resize. lia. Qed.

Lemma slice_empty {A} p (l : list A) : slice p p l = [].
Proof. unfold slice. by rewrite Z.sub_diag. Qed.

Lemma slice_full {A} (l : list A) : slice 0 (zlen l) l = l.
Proof. unfold slice, zlen. rewrite drop_0, firstn_all2; [done|lia]. Qed.

Lemma slice_app {A} a b c (l : list A) :
  0 <= a <= b -> b <= c -> slice a c l = slice a b l ++ slice b c l.
Proof.
  intros. unfold slice.
  replace (Z.to_nat (c - a)) with (Z.to_nat (b - a) + Z.to_nat (c - b))%nat by lia.
  rewrite <- take_take_drop. f_equal. f_equal. rewrite drop_drop. f_equal. lia.
Qed.

Lemma take_slice {A} n a b (l : list A) :
  (Z.of_nat n <= b - a) -> take n (slice a b l) = slice a (a + Z.of_nat n) l.
Proof. intros. unfold slice. rewrite take_take. f_equal. lia. Qed.

Lemma drop_slice {A} n a b (l : list A) :
  0 <= a -> drop n (slice a b l) = slice (a + Z.of_nat n) b l.
Proof.
  intros. unfold slice. rewrite skipn_firstn_comm, drop_drop.
  f_equal; [lia|f_equal; lia].
Qed.

(** What a [memput] leaves readable before, inside and after the write. *)
Lemma slice_memput_before {A} a b pos (d l : list A) :
  0 <= a <= b -> b <= pos -> pos <= zlen l -> slice a b (memput pos d l) = slice a b l.
Proof.
  unfold zlen, slice, memput. intros.
  rewrite drop_app_le by (rewrite length_take; lia).
  rewrite take_app_le by (rewrite length_drop, length_take; lia).
  rewrite skipn_firstn_comm, take_take. f_equal. lia.
Qed.

Lemma slice_memput_at {A} pos (d l : list A) :
  0 <= pos <= zlen l -> slice pos (pos + zlen d) (memput pos d l) = d.
Proof.
  unfold zlen, slice, memput. intros.
  rewrite drop_app_ge by (rewrite length_take; lia).
  rewrite length_take.
  replace (Z.to_nat pos - _)%nat with 0%nat by lia. rewrite drop_0.
  rewrite take_app_le by lia. rewrite firstn_all2; [done|lia].
Qed.

Lemma slice_memput_after {A} a b pos (d l : list A) :
  0 <= pos -> pos + zlen d <= a -> pos + zlen d <= zlen l ->
  slice a b (memput pos d l) = slice a b l.
Proof.
  unfold zlen, slice, memput. intros. f_equal.
  rewrite app_assoc, drop_app_ge by (rewrite length_app, length_take; lia).
  rewrite drop_drop, length_app, length_take. f_equal. lia.
Qed.

Lemma slice_resize {A} a b n (x : A) l :
  0 <= a <= b -> b <= n -> b <= zlen l -> slice a b (resize (Z.to_nat n) x l) = slice a b l.
Proof.
  unfold zlen, slice. intros.
  destruct (decide (Z.to_nat n <= length l)%nat).
  - rewrite resize_le by lia. rewrite skipn_firstn_comm, take_take. f_equal. lia.
  - rewrite resize_ge by lia. rewrite drop_app_le by lia.
    rewrite take_app_le; [done|]. rewrite length_drop. lia.
Qed.

Create HintDb reyao discriminated.
Create Rewrite HintDb reyao.
#[export] Hint Resolve zlen_nonneg code_range : reyao.
#[export] Hint Rewrite @zlen_nil @zlen_cons @zlen_app @length_app @app_nil_r @app_nil_l : reyao.

(** Bounds of sub-terms that [lia] does not see. *)
Ltac zlens :=
  repeat match goal with
  | |- context [zlen ?l] =>
      lazymatch goal with
      | _ : 0 <= zlen l |- _ => fail
      | _ => pose proof (zlen_nonneg l)
      end
  | _ : context [zlen ?l] |- _ =>
      lazymatch goal with
      | _ : 0 <= zlen l |- _ => fail
      | _ => pose proof (zlen_nonneg l)
      end
  end.
Ltac zlia := zlens; lia.
#[export] Hint Resolve sim_ret sim_throw sim_bind sim_if : reyao.
