(* ===== verification/Endian.v ===== *)
(** * Byte order (src/reyao/endian.h)

    Integers and their object representation, the host's byte order, the
    [byteSwap] templates and the conditional swaps of the [#if] at the end
    of the header. *)

From S2P Require Import Prelude.

(** The values glibc's [<endian.h>] gives to its macros. *)
Definition LITTLE_ENDIAN : Z := 1234.
Definition BIG_ENDIAN : Z := 4321.

(** The machine the code is compiled for. *)
Class Host := {
  BYTE_ORDER : Z;
  byte_order_ok : BYTE_ORDER = LITTLE_ENDIAN \/ BYTE_ORDER = BIG_ENDIAN
}.

#[export] Instance byte_order_dec (h : Host) (z : Z) : Decision (BYTE_ORDER = z).
Proof. apply _. Defined.

Definition x86 : Host := {| BYTE_ORDER := LITTLE_ENDIAN; byte_order_ok := or_introl eq_refl |}.
Definition s390 : Host := {| BYTE_ORDER := BIG_ENDIAN; byte_order_ok := or_intror eq_refl |}.

(** ** Integer types *)

(** A fixed-width integer type: its size in bytes and its signedness. *)
Record IntTy := { ity_bytes : nat; ity_signed : bool }.

Definition bits (t : IntTy) : Z := 8 * Z.of_nat (ity_bytes t).

Definition int8_t := {| ity_bytes := 1; ity_signed := true |}.
Definition uint8_t := {| ity_bytes := 1; ity_signed := false |}.
Definition int16_t := {| ity_bytes := 2; ity_signed := true |}.
Definition uint16_t := {| ity_bytes := 2; ity_signed := false |}.
Definition int32_t := {| ity_bytes := 4; ity_signed := true |}.
Definition uint32_t := {| ity_bytes := 4; ity_signed := false |}.
Definition int64_t := {| ity_bytes := 8; ity_signed := true |}.
Definition uint64_t := {| ity_bytes := 8; ity_signed := false |}.

(** Conversion of a value to the type, [(T)v]. *)
Definition cast (t : IntTy) (v : Z) : Z :=
  if ity_signed t then swrap (bits t) v else wrap (bits t) v.

(** The values of the type. *)
Definition in_ty (t : IntTy) (v : Z) : Prop :=
  if ity_signed t then - 2 ^ (bits t - 1) <= v < 2 ^ (bits t - 1) else 0 <= v < 2 ^ bits t.

#[export] Instance in_ty_dec t v : Decision (in_ty t v).
Proof. unfold in_ty. destruct (ity_signed t); apply _. Defined.

(** ** Object representations *)

(** The [n] low bytes of [v], least significant first. *)
Fixpoint le_bytes (n : nat) (v : Z) : bytes :=
  match n with
  | O => []
  | S n => chr v :: le_bytes n (v / 256)
  end.

Fixpoint le_value (l : bytes) : Z :=
  match l with
  | [] => 0
  | c :: l => code c + 256 * le_value l
  end.

Section Host.
Context `{Host}.

(** The bytes of an object that holds the [n]-byte integer [v], and the
    unsigned value of such bytes. *)
Definition to_mem (n : nat) (v : Z) : bytes :=
  if decide (BYTE_ORDER = LITTLE_ENDIAN) then le_bytes n v else rev (le_bytes n v).
Definition of_mem (l : bytes) : Z :=
  if decide (BYTE_ORDER = LITTLE_ENDIAN) then le_value l else le_value (rev l).

(** [bswap_16], [bswap_32], [bswap_64] on [n] bytes. *)
Definition bswap (n : nat) (v : Z) : Z := le_value (rev (le_bytes n v)).

Definition byteSwap (t : IntTy) (v : Z) : Z :=
  cast t (bswap (ity_bytes t) (wrap (bits t) v)).

(** [BIG_ORDER] is defined nowhere, so the preprocessor reads it as 0. *)
Definition BIG_ORDER : Z := 0.

Definition byteSwapOnLittleEndian (t : IntTy) (v : Z) : Z :=
  if decide (BYTE_ORDER = BIG_ORDER) then v else byteSwap t v.

Definition byteSwapOnBigEndian (t : IntTy) (v : Z) : Z :=
  if decide (BYTE_ORDER = BIG_ORDER) then byteSwap t v else v.
End Host.

(** ** Facts *)

Lemma length_le_bytes n v : length (le_bytes n v) = n.
Proof. revert v. induction n; intros; cbn; [done|]. by rewrite IHn. Qed.

Lemma le_value_bytes n v : le_value (le_bytes n v) = wrap (8 * Z.of_nat n) v.
Proof.
  unfold wrap. revert v. induction n as [|n IH]; intros v; cbn [le_bytes le_value].
  - by rewrite Z.mod_1_r.
  - rewrite IH, code_chr.
    replace (8 * Z.of_nat (S n)) with (8 + 8 * Z.of_nat n) by lia.
    rewrite Z.pow_add_r by lia. change (2 ^ 8) with 256.
    rewrite Z.rem_mul_r by lia. done.
Qed.

Lemma le_bytes_value l : le_bytes (length l) (le_value l) = l.
Proof.
  induction l as [|c l IH]; cbn [length le_bytes le_value]; [done|].
  rewrite <- IH at 4. pose proof (code_range c) as Hc.
  f_equal.
  - unfold chr. rewrite Z.mul_comm, Z_mod_plus_full. apply chr_code.
  - f_equal. rewrite Z.mul_comm, Z.div_add by lia. rewrite Z.div_small; lia.
Qed.

Lemma le_bytes_wrap n v : le_bytes n (wrap (8 * Z.of_nat n) v) = le_bytes n v.
Proof.
  rewrite <- le_value_bytes.
  rewrite <- (length_le_bytes n v) at 1. apply le_bytes_value.
Qed.

Lemma le_value_range l : 0 <= le_value l < 2 ^ (8 * zlen l).
Proof.
  rewrite <- (le_bytes_value l), le_value_bytes.
  unfold zlen. rewrite length_le_bytes. apply wrap_range. lia.
Qed.

Lemma cast_in_ty t v : in_ty t v -> (0 < ity_bytes t)%nat -> cast t v = v.
Proof.
  unfold in_ty, cast, bits. destruct (ity_signed t); intros ? ?.
  - apply swrap_small; lia.
  - by apply wrap_small.
Qed.

Lemma in_ty_cast t v : (0 < ity_bytes t)%nat -> in_ty t (cast t v).
Proof.
  unfold in_ty, cast, bits. destruct (ity_signed t); intros ?.
  - apply swrap_range. lia.
  - apply wrap_range. lia.
Qed.

Lemma cast_wrap t v : (0 < ity_bytes t)%nat -> cast t (wrap (bits t) v) = cast t v.
Proof.
  unfold cast, bits. destruct (ity_signed t); intros ?.
  - apply swrap_wrap. lia.
  - apply wrap_wrap. lia.
Qed.

Lemma wrap_cast t v : (0 < ity_bytes t)%nat -> wrap (bits t) (cast t v) = wrap (bits t) v.
Proof.
  unfold cast, bits. destruct (ity_signed t); intros ?.
  - apply wrap_swrap. lia.
  - apply wrap_wrap. lia.
Qed.

Section Host_facts.
Context `{Host}.

Lemma length_to_mem n v : length (to_mem n v) = n.
Proof. unfold to_mem. case_decide; rewrite ?length_rev; apply length_le_bytes. Qed.

Lemma zlen_to_mem n v : zlen (to_mem n v) = Z.of_nat n.
Proof. unfold zlen. by rewrite length_to_mem. Qed.

Lemma to_mem_wrap n v : to_mem n (wrap (8 * Z.of_nat n) v) = to_mem n v.
Proof. unfold to_mem. by rewrite le_bytes_wrap. Qed.

Lemma of_to_mem n v : of_mem (to_mem n v) = wrap (8 * Z.of_nat n) v.
Proof.
  unfold of_mem, to_mem. case_decide; rewrite ?rev_involutive; apply le_value_bytes.
Qed.

Lemma le_bytes_bswap n v : le_bytes n (bswap n v) = rev (le_bytes n v).
Proof.
  unfold bswap. pose proof (le_bytes_value (rev (le_bytes n v))) as E.
  by rewrite length_rev, length_le_bytes in E.
Qed.

Lemma le_bytes_byteSwap t v :
  (0 < ity_bytes t)%nat ->
  le_bytes (ity_bytes t) (byteSwap t v) = rev (le_bytes (ity_bytes t) v).
Proof.
  intros Ht. unfold byteSwap.
  rewrite <- le_bytes_wrap. fold (bits t). rewrite wrap_cast by done.
  unfold bits. by rewrite le_bytes_wrap, le_bytes_bswap, le_bytes_wrap.
Qed.

Lemma to_mem_byteSwap t v :
  (0 < ity_bytes t)%nat ->
  to_mem (ity_bytes t) (byteSwap t v) = rev (to_mem (ity_bytes t) v).
Proof. intros. unfold to_mem. by case_decide; rewrite le_bytes_byteSwap. Qed.

Lemma byteSwap_in_ty t v : (0 < ity_bytes t)%nat -> in_ty t (byteSwap t v).
Proof. intros. by apply in_ty_cast. Qed.

Lemma byteSwap_involutive t v :
  (0 < ity_bytes t)%nat -> in_ty t v -> byteSwap t (byteSwap t v) = v.
Proof.
  intros Ht Hv. rewrite <- (cast_in_ty t v) at 2 by done.
  rewrite <- (cast_wrap t v) by done.
  unfold byteSwap at 1. unfold bswap.
  unfold bits. rewrite le_bytes_wrap, le_bytes_byteSwap by done.
  by rewrite rev_involutive, le_value_bytes.
Qed.
End Host_facts.

(** The byte sequence that stands for [v] in a stream of byte order [e]. *)
Definition wire (e : Z) (n : nat) (v : Z) : bytes :=
  if decide (e = LITTLE_ENDIAN) then le_bytes n v else rev (le_bytes n v).

Lemma length_wire e n v : length (wire e n v) = n.
Proof. unfold wire. case_decide; rewrite ?length_rev; apply length_le_bytes. Qed.

Lemma zlen_wire e n v : zlen (wire e n v) = Z.of_nat n.
Proof. unfold zlen. by rewrite length_wire. Qed.

Lemma wire_wrap e n v : wire e n (wrap (8 * Z.of_nat n) v) = wire e n v.
Proof. unfold wire. by rewrite le_bytes_wrap. Qed.

(** The value a stream of byte order [e] carries in the bytes [l]. *)
Definition unwire (e : Z) (l : bytes) : Z :=
  if decide (e = LITTLE_ENDIAN) then le_value l else le_value (rev l).

Lemma unwire_wire e n v : unwire e (wire e n v) = wrap (8 * Z.of_nat n) v.
Proof. unfold unwire, wire. case_decide; rewrite ?rev_involutive; apply le_value_bytes. Qed.

Definition valid_endian (e : Z) : Prop := e = LITTLE_ENDIAN \/ e = BIG_ENDIAN.

(** Case analysis on the host's and the stream's byte order. *)
Ltac by_order :=
  repeat case_decide; rewrite ?rev_involutive;
  try done; exfalso; unfold LITTLE_ENDIAN, BIG_ENDIAN in *; congruence || lia.

Section Wire.
Context `{Host}.

Lemma le_value_rev_rev n v : le_value (rev (rev (le_bytes n v))) = wrap (8 * Z.of_nat n) v.
Proof. rewrite rev_involutive. apply le_value_bytes. Qed.

(** Storing [v], swapped when the stream's order is not the host's, puts
    the same bytes into memory on every host. *)
Lemma to_mem_wire e t v :
  (0 < ity_bytes t)%nat -> valid_endian e ->
  to_mem (ity_bytes t) (if decide (e = BYTE_ORDER) then v else byteSwap t v)
  = wire e (ity_bytes t) v.
Proof.
  intros Ht He. case_decide as E.
  - subst e. done.
  - rewrite to_mem_byteSwap by done. unfold to_mem, wire.
    destruct byte_order_ok as [B|B], He as [->| ->]; by_order.
Qed.

(** The converse for loads. *)
Lemma of_mem_wire e t l :
  (0 < ity_bytes t)%nat -> length l = ity_bytes t -> valid_endian e ->
  (let v := cast t (of_mem l) in if decide (e = BYTE_ORDER) then v else byteSwap t v)
  = cast t (unwire e l).
Proof.
  intros Ht Hl He. cbv zeta. case_decide as E.
  - subst e. done.
  - unfold byteSwap. rewrite wrap_cast by done.
    assert (W : forall z, bswap (ity_bytes t) (wrap (bits t) z) = bswap (ity_bytes t) z)
      by (intros; unfold bswap, bits; by rewrite le_bytes_wrap).
    rewrite W. unfold of_mem, unwire, bswap.
    destruct byte_order_ok as [B|B], He as [->| ->];
      repeat case_decide; try congruence; f_equal.
    + rewrite <- Hl. by rewrite le_bytes_value.
    + replace (ity_bytes t) with (length (rev l)) by (by rewrite length_rev).
      by rewrite le_bytes_value, rev_involutive.
Qed.
End Wire.

(** [byteSwapOnLittleEndian] writes network order on a little-endian host.
    The [#if] never holds, so it swaps on a big-endian host as well. *)
Lemma byteSwapOnLittleEndian_swaps (h : Host) t v :
  byteSwapOnLittleEndian t v = byteSwap t v.
Proof.
  unfold byteSwapOnLittleEndian, BIG_ORDER. case_decide as E; [|done].
  destruct byte_order_ok as [B|B]; rewrite B in E; done.
Qed.

(** The bytes [byteSwapOnLittleEndian] leaves in memory: network order on a
    little-endian host, the reverse of it on a big-endian one. *)
Theorem byteSwapOnLittleEndian_bytes (h : Host) t v :
  (0 < ity_bytes t)%nat ->
  to_mem (ity_bytes t) (byteSwapOnLittleEndian t v)
  = wire (if decide (BYTE_ORDER = LITTLE_ENDIAN) then BIG_ENDIAN else LITTLE_ENDIAN)
         (ity_bytes t) v.
Proof.
  intros Ht. rewrite byteSwapOnLittleEndian_swaps, to_mem_byteSwap by done.
  unfold to_mem, wire. by_order.
Qed.
