(* ===== verification/Sync.v ===== *)
(** * Locks, latches and stacks (src/reyao/mutex.cc, coroutine.h, stackalloc.cc)

    The synchronisation objects that are more than a call of pthread, as step
    relations over the threads that use them, and the guarded stacks. *)

From S2P Require Import Prelude.

(** ** CoroutineSpinLock *)
Module SpinLock.

Inductive Status := Idle | Spinning | Holding.

#[export] Instance Status_eq_dec : EqDecision Status.
Proof. solve_decision. Defined.

(** [sem], and where each thread is. *)
Record Lock := { sem : Z; threads : list Status }.

Definition newLock (n : nat) : Lock := {| sem := 1; threads := replicate n Idle |}.

Inductive Op := LLock | LSpin | LUnlock.

Definition put (i : nat) (x : Status) (v : Z) (s : Lock) : Lock := {| sem := v; threads := <[i := x]> (threads s) |}.

(** One atomic access of thread [i]: the decrement of [lock], one look of its
    loop that ends it, the increment of [unlock]. *)
Definition act (i : nat) (o : Op) (s : Lock) : option Lock :=
  match o, threads s !! i with
  | LLock, Some Idle => Some (put i (if sem s - 1 <? 0 then Spinning else Holding) (sem s - 1) s)
  | LSpin, Some Spinning => if sem s <? 0 then None else Some (put i Holding (sem s) s)
  | LUnlock, Some Holding => Some (put i Idle (sem s + 1) s)
  | _, _ => None
  end.

Fixpoint acts (l : list (nat * Op)) (s : Lock) : option Lock :=
  match l with
  | [] => Some s
  | (i, o) :: l => match act i o s with Some s => acts l s | None => None end
  end.

Definition weight (x : Status) : Z := match x with Idle => 0 | _ => 1 end.

(** How many threads are in or before the critical section. *)
Fixpoint busy (l : list Status) : Z := match l with [] => 0 | x :: l => weight x + busy l end.

Lemma busy_nonneg l : 0 <= busy l.
Proof. induction l as [|[] l IH]; cbn; lia. Qed.

Lemma busy_put l i x y : l !! i = Some x -> busy (<[i := y]> l) = busy l - weight x + weight y.
Proof.
  revert i. induction l as [|z l IH]; intros [|i] Hi; try done.
  - injection Hi as ->. cbn. lia.
  - change (busy (<[S i := y]> (z :: l))) with (weight z + busy (<[i := y]> l)). rewrite (IH i) by done. cbn. lia.
Qed.

Lemma busy_ge l i x : l !! i = Some x -> weight x <= busy l.
Proof.
  intros Hi. pose proof (busy_put l i x Idle Hi). pose proof (busy_nonneg (<[i := Idle]> l)). cbn in *. lia.
Qed.

Lemma busy_two l i j x y : i <> j -> l !! i = Some x -> l !! j = Some y -> weight x + weight y <= busy l.
Proof.
  intros Hij Hi Hj. pose proof (busy_put l i x Idle Hi) as E.
  pose proof (busy_ge (<[i := Idle]> l) j y) as Hge. rewrite list_lookup_insert_ne in Hge by done.
  specialize (Hge Hj). cbn in E. lia.
Qed.

(** [sem] counts the threads; at most one holds the lock. *)
Record LockOk (s : Lock) : Prop := {
  k_sem : sem s = 1 - busy (threads s);
  k_one : forall i j, threads s !! i = Some Holding -> threads s !! j = Some Holding -> i = j
}.

Lemma newLock_ok n : LockOk (newLock n).
Proof.
  split; cbn.
  - induction n; cbn; lia.
  - intros i j Hi. by apply lookup_replicate in Hi as [? _].
Qed.

(** Only a thread that is alone enters. *)
Lemma lock_put_ok s i x y v :
  LockOk s -> threads s !! i = Some x -> v = sem s + weight x - weight y ->
  (y = Holding -> x <> Holding -> busy (threads s) = weight x) -> LockOk (put i y v s).
Proof.
  intros [Hs Ho] Hi -> Hy. split; cbn [put sem threads].
  - rewrite (busy_put _ _ _ y Hi), Hs. lia.
  - assert (Hi' : (i < length (threads s))%nat) by (by eapply lookup_lt_Some).
    assert (Hcase : forall j, j <> i -> <[i := y]> (threads s) !! j = Some Holding -> y = Holding -> False).
    { intros j Hj Hl Hyh. rewrite list_lookup_insert_ne in Hl by done. destruct (decide (x = Holding)) as [->|Hx].
      - by apply Hj, Ho.
      - specialize (Hy Hyh Hx). pose proof (busy_two _ i j x Holding ltac:(done) Hi Hl). cbn in *. lia. }
    intros j k Hj Hk. destruct (decide (j = i)) as [->|Hji], (decide (k = i)) as [->|Hki]; [done|..].
    + exfalso. apply (Hcase k Hki Hk). rewrite list_lookup_insert_eq in Hj by done. by injection Hj.
    + exfalso. apply (Hcase j Hji Hj). rewrite list_lookup_insert_eq in Hk by done. by injection Hk.
    + rewrite list_lookup_insert_ne in Hj, Hk by done. by apply Ho.
Qed.

Lemma lock_act_ok i o s s' : LockOk s -> act i o s = Some s' -> LockOk s'.
Proof.
  intros Hok E. pose proof (k_sem s Hok) as Hs. unfold act in E.
  destruct o; destruct (threads s !! i) as [[]|] eqn:Hi; try done.
  - injection E as <-. apply (lock_put_ok s i Idle); [done|done|by destruct (Z.ltb_spec (sem s - 1) 0); cbn; lia|].
    destruct (Z.ltb_spec (sem s - 1) 0); [done|]. intros _ _. pose proof (busy_nonneg (threads s)). cbn. lia.
  - destruct (Z.ltb_spec (sem s) 0); [done|]. injection E as <-. apply (lock_put_ok s i Spinning); [done|done|cbn; lia|].
    intros _ _. pose proof (busy_ge _ _ _ Hi). cbn in *. lia.
  - injection E as <-. apply (lock_put_ok s i Holding); [done|done|cbn; lia|done].
Qed.

Lemma lock_acts_ok l s s' : LockOk s -> acts l s = Some s' -> LockOk s'.
Proof.
  revert s. induction l as [|[i o] l IH]; intros s Hs E; cbn [acts] in E; [by injection E as <-|].
  destruct (act i o s) as [s1|] eqn:E1; [|done]. exact (IH s1 (lock_act_ok i o s s1 Hs E1) E).
Qed.

(** Two threads that spin while nobody holds the lock. *)
Definition dead (s : Lock) : Prop :=
  (forall i, threads s !! i <> Some Holding)
  /\ exists i j, i <> j /\ threads s !! i = Some Spinning /\ threads s !! j = Some Spinning.

Lemma dead_act i o s s' : LockOk s -> dead s -> act i o s = Some s' -> dead s'.
Proof.
  intros Hok [Hn (a & b & Hab & Ha & Hb)] E. pose proof (k_sem s Hok) as Hs.
  pose proof (busy_two _ _ _ _ _ Hab Ha Hb) as Hbusy. cbn in Hbusy. unfold act in E.
  destruct o; destruct (threads s !! i) as [[]|] eqn:Hi; try done.
  - injection E as <-. rewrite (proj2 (Z.ltb_lt _ 0)) by lia. split; cbn [put threads].
    + intros j Hj. destruct (decide (j = i)) as [->|Hji].
      * rewrite list_lookup_insert_eq in Hj by (by eapply lookup_lt_Some). done.
      * rewrite list_lookup_insert_ne in Hj by done. by apply (Hn j).
    + exists a, b. split; [done|]. split; (rewrite list_lookup_insert_ne; [done|]); intros ->; by rewrite Hi in *.
  - by rewrite (proj2 (Z.ltb_lt _ 0)) in E by lia.
  - by destruct (Hn i).
Qed.

Lemma dead_acts l s s' : LockOk s -> dead s -> acts l s = Some s' -> dead s'.
Proof.
  revert s. induction l as [|[i o] l IH]; intros s Hs Hd E; cbn [acts] in E; [by injection E as <-|].
  destruct (act i o s) as [s1|] eqn:E1; [|done].
  exact (IH s1 (lock_act_ok i o s s1 Hs E1) (dead_act i o s s1 Hs Hd E1) E).
Qed.

(** C34: the spin lock excludes: in every interleaving of any number of threads
    at most one is in the critical section, and a thread that is alone gets in. *)
Theorem spin_lock_exclusion n l s :
  acts l (newLock n) = Some s ->
  (forall i j, threads s !! i = Some Holding -> threads s !! j = Some Holding -> i = j)
  /\ (forall i, threads s !! i = Some Spinning -> busy (threads s) = 1 -> exists s', act i LSpin s = Some s').
Proof.
  intros E. destruct (lock_acts_ok l _ s (newLock_ok n) E) as [Hs Ho]. split; [done|].
  intros i Hi Hb. unfold act. rewrite Hi, (proj2 (Z.ltb_ge _ _)) by lia. by eexists.
Qed.

(** It can stop for ever: when one thread waits and the holder releases
    the lock and asks again before the other has looked, both spin although
    nobody holds it, and no thread enters any more, whatever happens. *)
Theorem spin_lock_deadlock :
  exists l s, acts l (newLock 2) = Some s
    /\ forall l' s', acts l' s = Some s' -> forall i, threads s' !! i <> Some Holding.
Proof.
  set (l := [(0%nat, LLock); (1%nat, LLock); (0%nat, LUnlock); (0%nat, LLock)]).
  exists l, {| sem := -1; threads := [Spinning; Spinning] |}. split; [done|]. intros l' s' E.
  assert (Hd : dead {| sem := -1; threads := [Spinning; Spinning] |}).
  { split; [by intros [|[|i]]|]. by exists 0%nat, 1%nat. }
  apply (dead_acts l' {| sem := -1; threads := [Spinning; Spinning] |} s'); [|done|done]. by apply (lock_acts_ok l (newLock 2)); [apply newLock_ok|].
Qed.

Lemma spin_lock_exclusion_witness :
  let s := {| sem := -1; threads := [Holding; Spinning; Idle] |} in
  acts [(0%nat, LLock); (1%nat, LLock)] (newLock 3) = Some s
  /\ forall i j, threads s !! i = Some Holding -> threads s !! j = Some Holding -> i = j.
Proof.
  intros s. split; [vm_compute; reflexivity|].
  apply (spin_lock_exclusion 3 [(0%nat, LLock); (1%nat, LLock)] s). vm_compute. reflexivity.
Defined.
End SpinLock.

(** ** CountDownLatch *)
Module Latch.

(** Where a thread that calls [wait] is: before the call; blocked in the
    condition variable; woken, about to look at the count again; returned. *)
Inductive Status := Before | Blocked | Woken | Passed.

#[export] Instance Status_eq_dec : EqDecision Status.
Proof. solve_decision. Defined.

Record CountDownLatch := { count_ : Z; waiters : list Status }.

Definition newLatch (count : Z) (n : nat) : CountDownLatch := {| count_ := count; waiters := replicate n Before |}.

(** [notifyAll] *)
Definition wake (x : Status) : Status := match x with Blocked => Woken | _ => x end.

Inductive Op := CountDown | Wait (i : nat) | Wakeup (i : nat).

Definition countDown (s : CountDownLatch) : CountDownLatch :=
  let c := count_ s - 1 in {| count_ := c; waiters := if c =? 0 then map wake (waiters s) else waiters s |}.

(** The test of the loop of [wait], under the mutex. *)
Definition look (i : nat) (s : CountDownLatch) : CountDownLatch :=
  {| count_ := count_ s; waiters := <[i := if 0 <? count_ s then Blocked else Passed]> (waiters s) |}.

(** [Wakeup]: a spurious return of [pthread_cond_wait]. *)
Definition act (o : Op) (s : CountDownLatch) : option CountDownLatch :=
  match o with
  | CountDown => Some (countDown s)
  | Wait i => match waiters s !! i with Some (Before | Woken) => Some (look i s) | _ => None end
  | Wakeup i =>
      match waiters s !! i with
      | Some Blocked => Some {| count_ := count_ s; waiters := <[i := Woken]> (waiters s) |}
      | _ => None
      end
  end.

Fixpoint acts (l : list Op) (s : CountDownLatch) : option CountDownLatch :=
  match l with
  | [] => Some s
  | o :: l => match act o s with Some s => acts l s | None => None end
  end.

Definition isCountDown (o : Op) : bool := match o with CountDown => true | _ => false end.
Definition counts (l : list Op) : Z := foldr (fun o n => (if isCountDown o then 1 else 0) + n) 0 l.

(** Nobody passes before the count is down, nobody sleeps after it is. *)
Record LatchOk (s : CountDownLatch) : Prop := {
  l_early : forall i, waiters s !! i = Some Passed -> count_ s <= 0;
  l_late : forall i, waiters s !! i = Some Blocked -> 0 < count_ s
}.

Lemma newLatch_latchOk count n : LatchOk (newLatch count n).
Proof. split; cbn; intros i Hi; by apply lookup_replicate in Hi as [? _]. Qed.

Lemma latch_put_ok s i y :
  LatchOk s -> (y = Passed -> count_ s <= 0) -> (y = Blocked -> 0 < count_ s) ->
  LatchOk {| count_ := count_ s; waiters := <[i := y]> (waiters s) |}.
Proof.
  intros [He Hl] H1 H2. split; cbn; intros j Hj; apply list_lookup_insert_Some in Hj as [(_ & -> & _)|[_ Hj]]; eauto.
Qed.

Lemma latch_act_ok o s s' : LatchOk s -> act o s = Some s' ->
  LatchOk s' /\ count_ s' = count_ s - (if isCountDown o then 1 else 0) /\ length (waiters s') = length (waiters s).
Proof.
  intros Hs E. destruct o as [|i|i]; cbn [act] in E.
  - injection E as <-. unfold countDown. split; [|split; [done|cbn; destruct (_ =? 0); by rewrite ?length_map]].
    destruct Hs as [He Hl]. split; cbn; intros i Hi; destruct (Z.eqb_spec (count_ s - 1) 0).
    + lia.
    + specialize (He i Hi). lia.
    + apply list_lookup_fmap_Some in Hi as (x & Hx & _). by destruct x.
    + specialize (Hl i Hi). lia.
  - assert (E' : Some (look i s) = Some s') by (by destruct (waiters s !! i) as [[]|]). injection E' as <-.
    split; [|split; [cbn; lia|cbn; by rewrite length_insert]].
    apply latch_put_ok; [done|..]; destruct (Z.ltb_spec 0 (count_ s)); done.
  - destruct (waiters s !! i) as [[]|]; try done. injection E as <-.
    split; [by apply latch_put_ok|]. split; [cbn; lia|cbn; by rewrite length_insert].
Qed.

Lemma latch_acts_ok l s s' : LatchOk s -> acts l s = Some s' ->
  LatchOk s' /\ count_ s' = count_ s - counts l /\ length (waiters s') = length (waiters s).
Proof.
  revert s. induction l as [|o l IH]; intros s Hs E; cbn [acts] in E.
  - injection E as <-. cbn. split; [done|]. split; [lia|done].
  - destruct (act o s) as [s1|] eqn:E1; [|done]. destruct (latch_act_ok o s s1 Hs E1) as (H1 & Hc & Hl).
    destruct (IH s1 H1 E) as (H2 & Hc2 & Hl2). split; [done|]. rewrite Hc2, Hc, Hl2, Hl.
    change (counts (o :: l)) with ((if isCountDown o then 1 else 0) + counts l). split; [lia|done].
Qed.

(** No thread returns from [wait] before [countDown] was called as often
    as the latch was made for; and once it was, no thread stays asleep: each
    has returned or returns at its next step, in every interleaving. *)
Theorem latch_opens_in_time count n l s :
  acts l (newLatch count n) = Some s ->
  (forall i, waiters s !! i = Some Passed -> count <= counts l)
  /\ (count <= counts l -> forall i, (i < n)%nat -> waiters s !! i = Some Passed
       \/ exists s', act (Wait i) s = Some s' /\ waiters s' !! i = Some Passed).
Proof.
  intros E. destruct (latch_acts_ok l _ s (newLatch_latchOk count n) E) as ([He Hl] & Hc & Hlen). cbn in Hc, Hlen. rewrite length_replicate in Hlen. split.
  - intros i Hi. specialize (He i Hi). lia.
  - intros Hdown i Hi. destruct (lookup_lt_is_Some_2 (waiters s) i) as [x Hx]; [lia|].
    assert (Hlook : waiters (look i s) !! i = Some Passed).
    { cbn. rewrite (proj2 (Z.ltb_ge _ _)) by lia. apply list_lookup_insert_eq. lia. }
    destruct x; [right|specialize (Hl i Hx); lia|right|by left]; (exists (look i s); split; [|done]); cbn; by rewrite Hx.
Qed.

Lemma latch_opens_in_time_witness :
  let s := {| count_ := 0; waiters := [Woken; Before] |} in
  acts [Wait 0; CountDown; CountDown] (newLatch 2 2) = Some s
  /\ exists s', act (Wait 0) s = Some s' /\ waiters s' !! 0%nat = Some Passed.
Proof.
  intros s. assert (E : acts [Wait 0; CountDown; CountDown] (newLatch 2 2) = Some s) by (vm_compute; reflexivity).
  split; [exact E|]. destruct (latch_opens_in_time 2 2 _ s E) as [_ H].
  destruct (H ltac:(vm_compute; discriminate) 0%nat ltac:(lia)) as [Hp|Hp]; [vm_compute in Hp; discriminate|exact Hp].
Defined.
End Latch.

(** ** Condition::waitForSeconds *)

Definition kNanoSecondsPerSecond : Z := 1000000000.

(** The absolute time handed to [pthread_cond_timedwait]; [seconds] is an
    [int] that the multiplication widens to 64 bits. *)
Definition waitUntil (seconds tv_sec tv_nsec : Z) : Z * Z :=
  let nanoseconds := i64 (seconds * kNanoSecondsPerSecond) in
  (i64 (tv_sec + Z.quot (i64 (tv_nsec + nanoseconds)) kNanoSecondsPerSecond),
   Z.rem (i64 (tv_nsec + nanoseconds)) kNanoSecondsPerSecond).

(** The deadline is the clock plus [seconds], in normal form, for every
    [int] that is not negative. *)
Theorem waitUntil_exact seconds tv_sec tv_nsec :
  0 <= seconds < 2 ^ 31 -> 0 <= tv_nsec < kNanoSecondsPerSecond -> 0 <= tv_sec < 2 ^ 62 ->
  waitUntil seconds tv_sec tv_nsec = (tv_sec + seconds, tv_nsec).
Proof.
  unfold kNanoSecondsPerSecond. intros Hs Hn Ht. unfold waitUntil, kNanoSecondsPerSecond.
  rewrite (swrap_small 64 (seconds * 1000000000)), (swrap_small 64 (tv_nsec + seconds * 1000000000)) by lia.
  rewrite Z.quot_div_nonneg, Z.rem_mod_nonneg by lia.
  rewrite Z.div_add, Z.div_small, Z_mod_plus_full, Z.mod_small by lia. rewrite swrap_small by lia. f_equal.
Qed.

Lemma waitUntil_exact_witness : waitUntil 2 100 999999999 = (102, 999999999).
Proof. apply (waitUntil_exact 2 100 999999999); unfold kNanoSecondsPerSecond; lia. Defined.

(** ** StackAlloc *)

Record StackAlloc := { rawStack_ : Z; stack_ : Z; stackSize_ : Z; mapped : Z; protect_ : bool }.

(** The stack of [stackSize] bytes over what [mmap] or [malloc] returned, with
    pages of [pageSize] bytes; [mapped] is the length of the mapping. *)
Definition newStack (pageSize raw stackSize : Z) (protect : bool) : StackAlloc :=
  if stackSize =? 0 then {| rawStack_ := 0; stack_ := 0; stackSize_ := 0; mapped := 0; protect_ := protect |}
  else if protect then
    let size := if u64 (Z.rem stackSize pageSize) =? 0 then stackSize
                else u64 (u64 (Z.quot stackSize pageSize + 1) * pageSize) in
    {| rawStack_ := raw; stack_ := raw + pageSize; stackSize_ := size; mapped := u64 (size + pageSize * 2);
       protect_ := protect |}
  else {| rawStack_ := 0; stack_ := raw; stackSize_ := stackSize; mapped := 0; protect_ := protect |}.

(** The two pages without access, as [mprotect] is given them. *)
Definition lowGuard (pageSize : Z) (k : StackAlloc) : Z * Z := (rawStack_ k, rawStack_ k + pageSize).
Definition highGuard (pageSize : Z) (k : StackAlloc) : Z * Z :=
  (rawStack_ k + stackSize_ k + pageSize, rawStack_ k + stackSize_ k + pageSize + pageSize).

(** The calls of the constructor and of the destructor; [Mmap] and [Malloc]
    with the address they return. *)
Inductive MemCall :=
| Mmap (addr len : Z) | Munmap (addr len : Z) | Mprotect (range : Z * Z) (access : bool)
| Malloc (addr len : Z) | Free (addr : Z).

Definition allocCalls (pageSize : Z) (k : StackAlloc) : list MemCall :=
  if stackSize_ k =? 0 then []
  else if protect_ k then
    [Mmap (rawStack_ k) (mapped k); Mprotect (lowGuard pageSize k) false; Mprotect (highGuard pageSize k) false]
  else [Malloc (stack_ k) (stackSize_ k)].

Definition freeCalls (pageSize : Z) (k : StackAlloc) : list MemCall :=
  if stackSize_ k =? 0 then []
  else if protect_ k then
    [Mprotect (lowGuard pageSize k) true; Mprotect (highGuard pageSize k) true;
     Munmap (rawStack_ k) (u64 (stackSize_ k + pageSize * 2))]
  else [Free (stack_ k)].

(** The mappings and blocks that exist, by their address with their length,
    and the ranges without access. *)
Record Memory := { mappings : gmap Z Z; blocks : gmap Z Z; noAccess : list (Z * Z) }.

(** [None]: an address that is in use, or one that is not. *)
Definition memCall (c : MemCall) (m : Memory) : option Memory :=
  match c with
  | Mmap a n => if decide (mappings m !! a = None)
                then Some {| mappings := <[a := n]> (mappings m); blocks := blocks m; noAccess := noAccess m |} else None
  | Munmap a n => if decide (mappings m !! a = Some n)
                  then Some {| mappings := delete a (mappings m); blocks := blocks m; noAccess := noAccess m |} else None
  | Mprotect r false => Some {| mappings := mappings m; blocks := blocks m; noAccess := r :: noAccess m |}
  | Mprotect r true =>
      Some {| mappings := mappings m; blocks := blocks m; noAccess := filter (fun x => x <> r) (noAccess m) |}
  | Malloc a n => if decide (blocks m !! a = None)
                  then Some {| mappings := mappings m; blocks := <[a := n]> (blocks m); noAccess := noAccess m |} else None
  | Free a => if decide (is_Some (blocks m !! a))
              then Some {| mappings := mappings m; blocks := delete a (blocks m); noAccess := noAccess m |} else None
  end.

Fixpoint memCalls (l : list MemCall) (m : Memory) : option Memory :=
  match l with
  | [] => Some m
  | c :: l => match memCall c m with Some m => memCalls l m | None => None end
  end.

(** A stack has at least the size asked for, less than a page more, in
    whole pages; it lies in its mapping directly between the two guard pages,
    which are page-aligned and end with the mapping. *)
Theorem stack_between_guards pageSize raw n :
  0 < pageSize < 2 ^ 31 -> 0 < n < 2 ^ 63 -> (pageSize | raw) ->
  let k := newStack pageSize raw n true in
  n <= stackSize_ k < n + pageSize /\ (pageSize | stackSize_ k)
  /\ snd (lowGuard pageSize k) = stack_ k /\ fst (highGuard pageSize k) = stack_ k + stackSize_ k
  /\ fst (lowGuard pageSize k) = raw /\ snd (highGuard pageSize k) = raw + mapped k
  /\ (pageSize | fst (highGuard pageSize k)).
Proof.
  intros Hp Hn Hraw k. pose proof (Z.div_mod n pageSize ltac:(lia)) as Hdm.
  pose proof (Z.mod_pos_bound n pageSize ltac:(lia)) as Hm. pose proof (Z.div_pos n pageSize ltac:(lia) ltac:(lia)) as Hq.
  assert (Hsize : n <= stackSize_ k < n + pageSize /\ (pageSize | stackSize_ k)
    /\ k = {| rawStack_ := raw; stack_ := raw + pageSize; stackSize_ := stackSize_ k;
              mapped := stackSize_ k + pageSize * 2; protect_ := true |}).
  { unfold k, newStack. rewrite (proj2 (Z.eqb_neq n 0)) by lia.
    rewrite Z.rem_mod_nonneg, Z.quot_div_nonneg by lia. rewrite (wrap_small 64 (n mod pageSize)) by lia.
    destruct (Z.eqb_spec (n mod pageSize) 0) as [E|E]; cbn [stackSize_].
    - rewrite wrap_small by lia. split; [lia|]. split; [by apply Z.mod_divide; lia|done].
    - assert (Hle : n / pageSize <= n) by (apply Z.div_le_upper_bound; nia).
      rewrite (wrap_small 64 (n / pageSize + 1)) by lia. rewrite (wrap_small 64 ((n / pageSize + 1) * pageSize)) by nia.
      rewrite wrap_small by nia. split; [nia|]. split; [by apply Z.divide_factor_r|done]. }
  destruct Hsize as (Hs & Hd & Ek). unfold lowGuard, highGuard. rewrite Ek. cbn.
  split_and!; try lia; try done. by repeat apply Z.divide_add_r.
Qed.

Lemma stack_between_guards_witness :
  let k := newStack 4096 8192 131073 true in stackSize_ k = 135168 /\ 131073 <= stackSize_ k < 131073 + 4096.
Proof.
  intros k. split; [vm_compute; reflexivity|].
  apply (stack_between_guards 4096 8192 131073); [lia|lia|by exists 2].
Defined.

Lemma filter_keeps (r : Z * Z) l : Forall (fun x => x <> r) l -> filter (fun x => x <> r) l = l.
Proof. induction 1 as [|x l Hx _ IH]; [done|]. by rewrite filter_cons_True, IH. Qed.

(** The destructor gives back what the constructor took, guarded or not: after
    both the memory is as it was, and no page is left without access. *)
Theorem stack_released pageSize raw n protect m :
  mappings m !! raw = None -> blocks m !! raw = None ->
  let k := newStack pageSize raw n protect in
  Forall (fun r => r <> lowGuard pageSize k) (noAccess m) -> Forall (fun r => r <> highGuard pageSize k) (noAccess m) ->
  memCalls (allocCalls pageSize k ++ freeCalls pageSize k) m = Some m.
Proof.
  intros Hm Hb k Hlo Hhi. unfold allocCalls, freeCalls. destruct (stackSize_ k =? 0) eqn:E0; [done|].
  assert (Hk : protect_ k = protect /\ if protect then rawStack_ k = raw /\ mapped k = u64 (stackSize_ k + pageSize * 2)
    else stack_ k = raw).
  { unfold k, newStack in E0 |- *. destruct (Z.eqb_spec n 0); [done|]. by destruct protect. }
  destruct Hk as [-> Hk], m as [mp bl na]. cbn [mappings blocks noAccess] in *. destruct protect.
  - destruct Hk as [-> <-]. cbn [app memCalls memCall mappings blocks noAccess].
    rewrite decide_True by done. set (lo := lowGuard _ _) in *. set (hi := highGuard _ _) in *.
    assert (Hf : filter (fun x => x <> hi) (filter (fun x => x <> lo) (hi :: lo :: na)) = na).
    { rewrite filter_cons, (filter_cons_False _ lo na), (filter_keeps lo) by (done || by intros []).
      case_decide; [rewrite filter_cons_False by (by intros [])|]; by apply filter_keeps. }
    cbn [mappings blocks noAccess]. rewrite Hf, decide_True by apply lookup_insert_eq. by rewrite delete_insert_id.
  - rewrite Hk. cbn [app memCalls memCall mappings blocks noAccess].
    rewrite decide_True by done. cbn. rewrite decide_True by (rewrite lookup_insert_eq; by eexists).
    by rewrite delete_insert_id.
Qed.

Lemma stack_released_witness :
  let k := newStack 4096 8192 10000 true in
  let m := {| mappings := {[ 4096 := 4096 ]}; blocks := ∅; noAccess := [] |} in
  memCalls (allocCalls 4096 k ++ freeCalls 4096 k) m = Some m.
Proof. apply (stack_released 4096 8192 10000 true); [done|done|constructor|constructor]. Defined.
