(* ===== verification/Monitor.v ===== *)
(** * Mutexes, conditions and the latch made of them (src/reyao/mutex.cc, mutex.h)

    The calls of [CountDownLatch] step by step, over a pthread mutex and a
    condition variable, and that they act like the latch of Sync.v, whose
    calls are single steps.  A call that runs is at a [Pc]; a thread that
    makes several calls makes them one after the other, which is one of the
    interleavings of these calls. *)

From S2P Require Import Prelude Sync.

Module Monitor.

(** Where a call of [wait] (W) or [countDown] (C) is: before the constructor
    of its guard, at the test of the loop (again, when it was woken), asleep
    in [pthread_cond_wait], about to take the mutex again there, before the
    destructor of the guard, done; at the decrement, before [notifyAll]. *)
Inductive Pc :=
| WLock | WTest (again : bool) | WAsleep | WRelock | WUnlock | WDone
| CLock | CDec | CNotify | CUnlock | CDone.

#[export] Instance Pc_eq_dec : EqDecision Pc.
Proof. solve_decision. Defined.

(** [owner] is the call whose guard holds [mutex_]. *)
Record CountDownLatch := mkLatch { owner : option nat; count_ : Z; calls : list Pc }.

Definition newLatch (count : Z) (l : list Pc) : CountDownLatch := mkLatch None count l.

Definition goto (i : nat) (p : Pc) (s : CountDownLatch) : CountDownLatch :=
  mkLatch (owner s) (count_ s) (<[i := p]> (calls s)).

(** [Mutex::lock], the constructor of [MutexGuard]: blocked while the mutex is
    held. *)
Definition lock (i : nat) (s : CountDownLatch) : option CountDownLatch :=
  match owner s with
  | None => Some (mkLatch (Some i) (count_ s) (calls s))
  | Some _ => None
  end.

(** [Mutex::unlock], the destructor of [MutexGuard]. *)
Definition unlock (s : CountDownLatch) : CountDownLatch := mkLatch None (count_ s) (calls s).

(** [Condition::wait] up to the sleep: the mutex is released with it. *)
Definition condWait (i : nat) (s : CountDownLatch) : CountDownLatch := goto i WAsleep (unlock s).

(** [Condition::notifyAll] *)
Definition wakeUp (p : Pc) : Pc := match p with WAsleep => WRelock | _ => p end.
Definition notifyAll (s : CountDownLatch) : CountDownLatch := mkLatch (owner s) (count_ s) (map wakeUp (calls s)).

(** The next step of call [i]. *)
Definition next (i : nat) (s : CountDownLatch) : option CountDownLatch :=
  match calls s !! i with
  | Some WLock => option_map (goto i (WTest false)) (lock i s)
  | Some (WTest _) => Some (if 0 <? count_ s then condWait i s else goto i WUnlock s)
  | Some WRelock => option_map (goto i (WTest true)) (lock i s)
  | Some WUnlock => Some (goto i WDone (unlock s))
  | Some CLock => option_map (goto i CDec) (lock i s)
  | Some CDec =>
      let c := count_ s - 1 in
      Some (goto i (if c =? 0 then CNotify else CUnlock) (mkLatch (owner s) c (calls s)))
  | Some CNotify => Some (goto i CUnlock (notifyAll s))
  | Some CUnlock => Some (goto i CDone (unlock s))
  | _ => None
  end.

(** [Spurious]: [pthread_cond_wait] returns by itself. *)
Inductive Op := Next (i : nat) | Spurious (i : nat).

Definition act (o : Op) (s : CountDownLatch) : option CountDownLatch :=
  match o with
  | Next i => next i s
  | Spurious i => if decide (calls s !! i = Some WAsleep) then Some (goto i WRelock s) else None
  end.

Fixpoint acts (l : list Op) (s : CountDownLatch) : option CountDownLatch :=
  match l with
  | [] => Some s
  | o :: l => match act o s with Some s => acts l s | None => None end
  end.

(** ** The invariant *)

Definition holds (p : Pc) : bool :=
  match p with WTest _ | WUnlock | CDec | CNotify | CUnlock => true | _ => false end.

Record MonOk (s : CountDownLatch) : Prop := {
  m_owner : forall i p, calls s !! i = Some p -> holds p = true <-> owner s = Some i;
  m_range : forall i, owner s = Some i -> is_Some (calls s !! i);
  m_notify : forall i, calls s !! i = Some CNotify -> count_ s = 0
}.

(** One call moves, and the mutex with it. *)
Lemma goto_ok i p q s o c :
  MonOk s -> calls s !! i = Some p ->
  (owner s = None \/ holds p = true) -> o = (if holds q then Some i else None) ->
  (q = CNotify -> c = 0) ->
  MonOk (goto i q (mkLatch o c (calls s))).
Proof.
  intros [Ho Hr Hn] Hp Hfree -> Hq.
  assert (Hnone : forall j x, j <> i -> calls s !! j = Some x -> holds x = false).
  { intros j x Hj Hx. destruct (holds x) eqn:Hh; [|done]. apply (Ho j x Hx) in Hh.
    destruct Hfree as [Hf|Hf]; [congruence|]. apply (Ho i p Hp) in Hf. congruence. }
  split; cbn [owner count_ calls goto].
  - intros j x Hj. apply list_lookup_insert_Some in Hj as [(<- & <- & _)|[Hne Hj]].
    + destruct (holds q); split; congruence.
    + rewrite (Hnone j x) by done. split; [done|]. destruct (holds q); congruence.
  - intros j Hj. destruct (holds q); [|done]. injection Hj as <-.
    rewrite list_lookup_insert_eq by (by eapply lookup_lt_Some). by eexists.
  - intros j Hj. apply list_lookup_insert_Some in Hj as [(_ & -> & _)|[Hne Hj]]; [by apply Hq|].
    by apply Hnone in Hj; [|done].
Qed.

(** A call that is no holder before and after moves alone. *)
Lemma goto_idle i p q s :
  MonOk s -> calls s !! i = Some p -> holds p = false -> holds q = false -> MonOk (goto i q s).
Proof.
  intros [Ho Hr Hn] Hp Hhp Hhq. split; cbn [owner count_ calls goto].
  - intros j x Hj. apply list_lookup_insert_Some in Hj as [(<- & <- & _)|[Hne Hj]]; [|by apply Ho].
    rewrite Hhq, <- Hhp. by apply Ho.
  - intros j Hj. apply list_lookup_insert_is_Some. by apply Hr.
  - intros j Hj. apply list_lookup_insert_Some in Hj as [(_ & -> & _)|[Hne Hj]]; [done|]. by eapply Hn.
Qed.

(** Waking changes no holder. *)
Lemma notifyAll_ok s : MonOk s -> MonOk (notifyAll s).
Proof.
  intros [Ho Hr Hn]. split; cbn [owner count_ calls notifyAll].
  - intros i p Hp. apply list_lookup_fmap_Some in Hp as (q & -> & Hq). rewrite <- (Ho i q Hq). by destruct q.
  - intros i Hi. rewrite list_lookup_fmap. apply fmap_is_Some. by apply Hr.
  - intros i Hi. apply list_lookup_fmap_Some in Hi as (q & Eq & Hq). apply (Hn i). by destruct q.
Qed.

Lemma lock_inv i q s s' :
  option_map (goto i q) (lock i s) = Some s' ->
  owner s = None /\ s' = goto i q (mkLatch (Some i) (count_ s) (calls s)).
Proof. unfold lock. destruct (owner s); cbn; [done|]. intros [= <-]. done. Qed.

Lemma act_ok o s s' : MonOk s -> act o s = Some s' -> MonOk s'.
Proof.
  intros Hs E. destruct o as [i|i]; cbn [act] in E.
  - unfold next in E. destruct (calls s !! i) as [p|] eqn:Hp; [|done].
    destruct p as [|b| | | | | | | | |]; try done; try apply lock_inv in E as [Hfree ->].
    + by apply (goto_ok i WLock); auto.
    + injection E as <-. destruct (0 <? count_ s).
      * by apply (goto_ok i (WTest b)); auto.
      * assert (Hi : owner s = Some i) by (by apply (m_owner s Hs i _ Hp)). destruct s as [o c l]. cbn in *. subst o.
        by apply (goto_ok i (WTest b) WUnlock (mkLatch (Some i) c l)); auto.
    + by apply (goto_ok i WRelock); auto.
    + injection E as <-. by apply (goto_ok i WUnlock); auto.
    + by apply (goto_ok i CLock); auto.
    + injection E as <-. assert (Hi : owner s = Some i) by (by apply (m_owner s Hs i _ Hp)).
      apply (goto_ok i CDec); [done|done|auto|destruct (_ =? 0); done|].
      destruct (Z.eqb_spec (count_ s - 1) 0); [by intros _|done].
    + injection E as <-. assert (Hi : owner s = Some i) by (by apply (m_owner s Hs i _ Hp)).
      assert (Hp' : calls (notifyAll s) !! i = Some CNotify) by (cbn; by rewrite list_lookup_fmap, Hp).
      apply (goto_ok i CNotify CUnlock (notifyAll s)); [by apply notifyAll_ok|done|auto|done|done].
    + injection E as <-. by apply (goto_ok i CUnlock); auto.
  - destruct (decide _) as [Hp|]; [|done]. injection E as <-. by apply (goto_idle i WAsleep).
Qed.

(** ** The latch it implements *)

(** A call is between the last decrement and [notifyAll]. *)
Definition notifying (s : CountDownLatch) : bool :=
  match owner s with Some i => bool_decide (calls s !! i = Some CNotify) | None => false end.

(** What the latch of Sync.v says of a call; a sleeper whose wakeup is on its
    way counts as woken. *)
Definition status (n : bool) (p : Pc) : Latch.Status :=
  match p with
  | WTest true | WRelock => Latch.Woken
  | WAsleep => if n then Latch.Woken else Latch.Blocked
  | WUnlock | WDone => Latch.Passed
  | _ => Latch.Before
  end.

Definition abs (s : CountDownLatch) : Latch.CountDownLatch :=
  {| Latch.count_ := count_ s; Latch.waiters := map (status (notifying s)) (calls s) |}.

(** The step of the latch a step stands for: the test of [wait], the decrement
    of [countDown], a spurious return; all others are invisible. *)
Definition shown (o : Op) (s : CountDownLatch) : option Latch.Op :=
  match o with
  | Next i =>
      match calls s !! i with
      | Some (WTest _) => Some (Latch.Wait i)
      | Some CDec => Some Latch.CountDown
      | _ => None
      end
  | Spurious i => if notifying s then None else Some (Latch.Wakeup i)
  end.

Lemma notifying_spec s : MonOk s -> notifying s = true <-> exists i, calls s !! i = Some CNotify.
Proof.
  intros [Ho Hr Hn]. unfold notifying. destruct (owner s) as [i|] eqn:Ei.
  - rewrite bool_decide_eq_true. split; [by exists i|]. intros [j Hj].
    assert (Some i = Some j) as [= ->]; [|done]. by apply (Ho j _ Hj).
  - split; [done|]. intros [j Hj]. by pose proof (proj1 (Ho j _ Hj) eq_refl).
Qed.

(** A call that does not decrement or notify leaves [notifying] as it is. *)
Lemma notifying_goto i p q s s' :
  MonOk s -> MonOk s' -> calls s !! i = Some p -> calls s' = <[i := q]> (calls s) -> p <> CNotify -> q <> CNotify ->
  notifying s' = notifying s.
Proof.
  intros Hs Hs' Hp Hc Hnp Hnq. apply eq_bool_prop_intro. rewrite !Is_true_true.
  rewrite (notifying_spec s Hs), (notifying_spec s' Hs'), Hc. split; intros [j Hj].
  - apply list_lookup_insert_Some in Hj as [(_ & -> & _)|[_ Hj]]; [done|by exists j].
  - exists j. rewrite list_lookup_insert_ne by congruence. done.
Qed.

(** A step that the latch does not show. *)
Lemma abs_goto i p q s s' :
  MonOk s -> MonOk s' -> calls s !! i = Some p -> calls s' = <[i := q]> (calls s) -> p <> CNotify -> q <> CNotify ->
  count_ s' = count_ s -> status (notifying s) q = status (notifying s) p -> abs s' = abs s.
Proof.
  intros Hs Hs' Hp Hc Hnp Hnq Hn Hst. unfold abs. f_equal; [done|].
  rewrite (notifying_goto i p q s s') by done. rewrite Hc, list_fmap_insert, Hst. apply list_insert_id.
  by rewrite list_lookup_fmap, Hp.
Qed.

Lemma holder_not_notifying s i p : MonOk s -> calls s !! i = Some p -> holds p = true -> p <> CNotify -> notifying s = false.
Proof.
  intros Hs Hp Hh Hn. unfold notifying. apply (m_owner s Hs i p Hp) in Hh. rewrite Hh, Hp.
  apply bool_decide_eq_false. congruence.
Qed.

(** The last [countDown] is seen when it decrements, with the sleepers. *)
Lemma abs_countDown i s s' :
  MonOk s -> MonOk s' -> calls s !! i = Some CDec -> act (Next i) s = Some s' -> abs s' = Latch.countDown (abs s).
Proof.
  intros Hs Hs' Hp E. cbn [act] in E. unfold next in E. rewrite Hp in E. injection E as <-.
  pose proof (holder_not_notifying s i CDec Hs Hp eq_refl ltac:(done)) as Hn. set (c := count_ s - 1) in *.
  unfold abs, Latch.countDown. cbn [Latch.count_ Latch.waiters count_ goto]. fold c. rewrite Hn. f_equal.
  destruct (Z.eqb_spec c 0) as [Hc|Hc].
  - assert (Hn' : notifying (goto i CNotify (mkLatch (owner s) c (calls s))) = true).
    { apply (notifying_spec _ Hs'). exists i. cbn. apply list_lookup_insert_eq. by eapply lookup_lt_Some. }
    rewrite Hn'. cbn [calls goto]. apply list_eq. intros j. rewrite !list_lookup_fmap.
    destruct (decide (i = j)) as [<-|Hne].
    + rewrite list_lookup_insert_eq by (by eapply lookup_lt_Some). by rewrite Hp.
    + rewrite list_lookup_insert_ne by done. by destruct (calls s !! j) as [[|[]| | | | | | | | |]|].
  - assert (Hn' : notifying (goto i CUnlock (mkLatch (owner s) c (calls s))) = false).
    { by rewrite (notifying_goto i CDec CUnlock s) by done. }
    rewrite Hn'. cbn [calls goto]. rewrite list_fmap_insert. apply list_insert_id. by rewrite list_lookup_fmap, Hp.
Qed.

(** After [notifyAll] the sleepers are awake. *)
Lemma abs_notifyAll i s :
  MonOk s -> calls s !! i = Some CNotify -> MonOk (goto i CUnlock (notifyAll s)) ->
  abs (goto i CUnlock (notifyAll s)) = abs s.
Proof.
  intros Hs Hp Hs'. unfold abs. f_equal.
  assert (Hn : notifying s = true) by (apply (notifying_spec s Hs); by exists i). rewrite Hn.
  assert (Hn' : notifying (goto i CUnlock (notifyAll s)) = false).
  { apply (holder_not_notifying _ i CUnlock Hs'); [|done..]. cbn. apply list_lookup_insert_eq.
    rewrite length_map. by eapply lookup_lt_Some. }
  rewrite Hn'. cbn [calls goto notifyAll]. apply list_eq. intros j. rewrite !list_lookup_fmap.
  destruct (decide (i = j)) as [<-|Hne].
  - rewrite list_lookup_insert_eq by (rewrite length_map; by eapply lookup_lt_Some). by rewrite Hp.
  - rewrite list_lookup_insert_ne, list_lookup_fmap by done. by destruct (calls s !! j) as [[|[]| | | | | | | | |]|].
Qed.

Lemma step_sim o s s' :
  MonOk s -> act o s = Some s' ->
  match shown o s with Some a => Latch.act a (abs s) = Some (abs s') | None => abs s' = abs s end.
Proof.
  intros Hs E. pose proof (act_ok o s s' Hs E) as Hs'. destruct o as [i|i]; cbn [shown].
  - destruct (calls s !! i) as [p|] eqn:Hp; [|cbn in E; unfold next in E; by rewrite Hp in E].
    assert (Hw : forall b q, p = WTest b -> calls s' = <[i := q]> (calls s) -> count_ s' = count_ s -> q <> CNotify ->
      status false q = (if 0 <? count_ s then Latch.Blocked else Latch.Passed) ->
      Latch.act (Latch.Wait i) (abs s) = Some (abs s')).
    { intros b q -> Hc Hn Hq Hst. pose proof (holder_not_notifying s i _ Hs Hp eq_refl ltac:(done)) as Hnn.
      assert (El : Latch.waiters (abs s) !! i = Some (status false (WTest b))).
      { cbn. by rewrite Hnn, list_lookup_fmap, Hp. }
      cbn [Latch.act]. rewrite El. assert (Es : Latch.look i (abs s) = abs s').
      { unfold Latch.look, abs. cbn. rewrite (notifying_goto i (WTest b) q s s') by done. rewrite Hnn, Hc, Hn.
        f_equal. rewrite list_fmap_insert. by rewrite Hst. }
      rewrite Es. by destruct b. }
    pose proof E as E0. destruct p as [|b| | | | | | | | |]; try (cbn [act] in E; unfold next in E; rewrite Hp in E; try done;
      try apply lock_inv in E as [_ ->]).
    + by apply (abs_goto i WLock (WTest false)).
    + injection E as <-. destruct (0 <? count_ s); [by apply (Hw b WAsleep)|by apply (Hw b WUnlock)].
    + by apply (abs_goto i WRelock (WTest true)).
    + injection E as <-. by apply (abs_goto i WUnlock WDone).
    + by apply (abs_goto i CLock CDec).
    + cbn [Latch.act]. f_equal. symmetry. by apply (abs_countDown i s s' Hs Hs' Hp).
    + injection E as <-. by apply abs_notifyAll.
    + injection E as <-. by apply (abs_goto i CUnlock CDone).
  - cbn [act] in E. destruct (decide _) as [Hp|]; [|done]. injection E as <-.
    destruct (notifying s) eqn:Hn.
    + apply (abs_goto i WAsleep WRelock); try done. by rewrite Hn.
    + cbn [Latch.act abs Latch.waiters]. rewrite list_lookup_fmap, Hp, Hn. cbn. f_equal. unfold abs.
      rewrite (notifying_goto i WAsleep WRelock s (goto i WRelock s)) by done. rewrite Hn. cbn.
      by rewrite list_fmap_insert.
Qed.

(** The steps of the latch that a run stands for. *)
Fixpoint trace (l : list Op) (s : CountDownLatch) : list Latch.Op :=
  match l with
  | [] => []
  | o :: l =>
      match act o s with
      | Some s' => match shown o s with Some a => [a] | None => [] end ++ trace l s'
      | None => []
      end
  end.

Lemma acts_sim l s s' :
  MonOk s -> acts l s = Some s' -> MonOk s' /\ Latch.acts (trace l s) (abs s) = Some (abs s').
Proof.
  revert s. induction l as [|o l IH]; intros s Hs E; cbn [acts trace] in *.
  - injection E as <-. done.
  - destruct (act o s) as [s1|] eqn:E1; [|done]. pose proof (act_ok o s s1 Hs E1) as Hs1.
    pose proof (step_sim o s s1 Hs E1) as H1. destruct (IH s1 Hs1 E) as [Hs' Hl]. split; [done|].
    destruct (shown o s) as [a|]; cbn [app Latch.acts]; [by rewrite H1|by rewrite <- H1].
Qed.

Definition beginning (p : Pc) : Prop := p = WLock \/ p = CLock.
Definition finished (p : Pc) : bool := match p with WDone | CDone => true | _ => false end.

Lemma newLatch_monOk count ps : Forall beginning ps -> MonOk (newLatch count ps).
Proof.
  intros Hps. assert (Hb : forall i p, ps !! i = Some p -> beginning p) by (intros i p; by apply Forall_lookup_1).
  split; cbn; [|done|].
  - intros i p Hp. by destruct (Hb i p Hp) as [->| ->].
  - intros i Hi. by destruct (Hb i _ Hi).
Qed.

Lemma newLatch_abs count ps : Forall beginning ps -> abs (newLatch count ps) = Latch.newLatch count (length ps).
Proof.
  intros Hps. unfold abs, Latch.newLatch. f_equal. cbn. induction Hps as [|p ps [->| ->] _ IH]; cbn; [done|..]; by f_equal.
Qed.

(** Who can go on. *)
Lemma unlocked_next s i p :
  MonOk s -> owner s = None -> calls s !! i = Some p -> finished p = false -> p <> WAsleep -> is_Some (next i s).
Proof.
  intros Hs Ho Hp Hf Hn. assert (Hh : holds p = false).
  { destruct (holds p) eqn:Hh; [|done]. apply (m_owner s Hs i p Hp) in Hh. congruence. }
  unfold next, lock. rewrite Hp, Ho. destruct p; try done; by eexists.
Qed.

Lemma holder_next s i : MonOk s -> owner s = Some i -> is_Some (next i s).
Proof.
  intros Hs Ho. destruct (m_range s Hs i Ho) as [p Hp]. apply (m_owner s Hs i p Hp) in Ho.
  unfold next. rewrite Hp. destruct p; try done; by eexists.
Qed.

(** C35: The latch made of a mutex and a condition variable is the latch whose
    calls are single steps: every interleaving of the steps of any [wait]s and
    [countDown]s, spurious wakeups included, is a run of that latch from the
    same count.  No [wait] is past its loop before as many decrements as the
    count; and the calls never block each other for ever: some call can go on,
    unless all that are left sleep in [wait] with the count still above 0. *)
Theorem latch_implemented l count ps s :
  Forall beginning ps -> acts l (newLatch count ps) = Some s ->
  Latch.acts (trace l (newLatch count ps)) (Latch.newLatch count (length ps)) = Some (abs s)
  /\ (forall i, calls s !! i = Some WDone -> count <= Latch.counts (trace l (newLatch count ps)))
  /\ ((exists i s', act (Next i) s = Some s')
      \/ forall i p, calls s !! i = Some p -> finished p = false -> p = WAsleep /\ 0 < count_ s).
Proof.
  intros Hps E. destruct (acts_sim l _ s (newLatch_monOk count ps Hps) E) as [Hs Hl].
  rewrite newLatch_abs in Hl by done. split; [done|].
  destruct (Latch.latch_acts_ok _ _ _ (Latch.newLatch_latchOk count (length ps)) Hl) as ([He Hla] & Hc & _). cbn in Hc. split.
  - intros i Hi. assert (Hp : Latch.waiters (abs s) !! i = Some Latch.Passed) by (cbn; by rewrite list_lookup_fmap, Hi).
    specialize (He i Hp). cbn in He. lia.
  - destruct (owner s) as [i|] eqn:Ho.
    + left. destruct (holder_next s i Hs Ho) as [s' Hs']. by exists i, s'.
    + destruct (decide (Exists (fun p => finished p = false /\ p <> WAsleep) (calls s))) as [Hex|Hno].
      * left. apply Exists_exists in Hex as (p & Hin & Hf & Hn). apply list_elem_of_lookup in Hin as [i Hi].
        destruct (unlocked_next s i p Hs Ho Hi Hf Hn) as [s' Hs']. by exists i, s'.
      * right. intros i p Hp Hf. assert (p = WAsleep) as ->.
        { destruct (decide (p = WAsleep)); [done|]. destruct Hno. apply Exists_exists. exists p.
          split; [by eapply list_elem_of_lookup_2|done]. }
        split; [done|]. apply (Hla i). cbn. rewrite list_lookup_fmap, Hp. cbn. unfold notifying. by rewrite Ho.
Qed.

(** Two waiters and two counts; the first waiter sleeps, wakes by itself and
    sleeps again before the counts. *)
Lemma latch_implemented_witness :
  let ps := [WLock; CLock; CLock; WLock] in
  let n := map Next in
  let l := n [0; 0]%nat ++ [Spurious 0] ++ n [0; 0; 1; 1; 1; 2; 2; 2; 2; 3; 3; 3; 0; 0; 0]%nat in
  exists s, acts l (newLatch 2 ps) = Some s /\ calls s = [WDone; CDone; CDone; WDone]
    /\ 2 <= Latch.counts (trace l (newLatch 2 ps)).
Proof.
  intros ps n l. destruct (acts l (newLatch 2 ps)) as [s|] eqn:E; [|vm_compute in E; discriminate].
  exists s. split; [reflexivity|].
  destruct (latch_implemented l 2 ps s) as (_ & Hd & _); [unfold ps, beginning; repeat (apply Forall_cons; split; [by auto|]); by apply Forall_nil|exact E|].
  vm_compute in E. injection E as <-. split; [reflexivity|]. exact (Hd 0%nat eq_refl).
Defined.
End Monitor.
