(* ===== verification/Thread.v ===== *)
(** * Threads (src/reyao/thread.cc, thread.h)

    The wrapper of a POSIX thread, as a machine whose steps interleave: the
    calls of the thread that owns the object, and the steps of [RunThread] in
    the threads it creates.  The thread ids are those the kernel gives. *)

From S2P Require Import Prelude.

Module Thread.

(** A created thread: about to store its id, about to count the latch down,
    about to call [th->cb_], in the callback, ended, joined. *)
Inductive Phase := Born | Identified | Counted | Running | Ended | Joined.

#[export] Instance Phase_eq_dec : EqDecision Phase.
Proof. solve_decision. Defined.

Record Pthread := { gettid : Z; phase : Phase; detached : bool }.

(** The owner: outside the object, in [latch_.wait()], in [pthread_join], or
    the object is destroyed. *)
Inductive Caller := Outside | InLatch | InJoin | Gone.

#[export] Instance Caller_eq_dec : EqDecision Caller.
Proof. solve_decision. Defined.

(** [tid_] is an index into the threads created so far, [None] its initial 0;
    [latch_] is the count of the latch. *)
Record Thread := mkThread {
  tid_ : option nat;
  id_ : Z;
  latch_ : Z;
  running_ : bool;
  joined_ : bool;
  caller : Caller;
  pthreads : list Pthread
}.

Definition newThread : Thread := mkThread None 0 1 false false Outside [].

Definition setCaller c t := mkThread (tid_ t) (id_ t) (latch_ t) (running_ t) (joined_ t) c (pthreads t).
Definition setPhase i p t := mkThread (tid_ t) (id_ t) (latch_ t) (running_ t) (joined_ t) (caller t)
  (alter (fun x => {| gettid := gettid x; phase := p; detached := detached x |}) i (pthreads t)).
Definition setDetached i t := mkThread (tid_ t) (id_ t) (latch_ t) (running_ t) (joined_ t) (caller t)
  (alter (fun x => {| gettid := gettid x; phase := phase x; detached := true |}) i (pthreads t)).
Definition setId v t := mkThread (tid_ t) v (latch_ t) (running_ t) (joined_ t) (caller t) (pthreads t).
Definition setLatch v t := mkThread (tid_ t) (id_ t) v (running_ t) (joined_ t) (caller t) (pthreads t).
Definition setFlags r j t := mkThread (tid_ t) (id_ t) (latch_ t) r j (caller t) (pthreads t).

Inductive Op :=
| Start (created : option Z)    (** a call of [start]; [None]: [pthread_create] fails *)
| Opened                        (** [latch_.wait()] returns *)
| Join                          (** a call of [join], up to [pthread_join] *)
| JoinReturns
| Detach
| Destroy                       (** [~Thread] *)
| Identify (i : nat)            (** [RunThread] stores the id *)
| Count (i : nat)               (** [latch_.countDown()] *)
| Call (i : nat)                (** [th->cb_] is read and called *)
| Finish (i : nat).             (** [cb_()] returns *)

(** [start]: [None] is the null argument of a failed creation. *)
Definition start (created : option Z) (t : Thread) : Thread :=
  if running_ t then t
  else match created with
       | None => setFlags false (joined_ t) t
       | Some tid =>
           mkThread (Some (length (pthreads t))) (id_ t) (latch_ t) true (joined_ t) InLatch
             (pthreads t ++ [{| gettid := tid; phase := Born; detached := false |}])
       end.

(** [pthread_detach(tid_)] is undefined on no thread, and on one that was
    joined or detached. *)
Definition pthread_detach (t : Thread) : result Thread :=
  match tid_ t with
  | None => Throw Undefined
  | Some i =>
      match pthreads t !! i with
      | Some x => if bool_decide (phase x = Joined) || detached x then Throw Undefined else Ok (setDetached i t)
      | None => Throw Undefined
      end
  end.

Definition destroy (t : Thread) : result Thread :=
  if running_ t && negb (joined_ t) then
    match pthread_detach t with Ok t => Ok (setCaller Gone t) | Throw e => Throw e end
  else Ok (setCaller Gone t).

(** [pthread_join] returns when the thread has ended; it is undefined like
    [pthread_detach]. *)
Definition joinReturns (t : Thread) : option (result Thread) :=
  match tid_ t with
  | None => Some (Throw Undefined)
  | Some i =>
      match pthreads t !! i with
      | None => Some (Throw Undefined)
      | Some x =>
          if bool_decide (phase x = Joined) || detached x then Some (Throw Undefined)
          else if bool_decide (phase x = Ended) then Some (Ok (setCaller Outside (setFlags false true (setPhase i Joined t))))
          else None
      end
  end.

(** A step of created thread [i], which is in phase [p]; those that write to
    the object or read its callback are undefined once it is destroyed. *)
Definition onObject (t : Thread) (t' : Thread) : result Thread :=
  if bool_decide (caller t = Gone) then Throw Undefined else Ok t'.

Definition inPhase (i : nat) (p : Phase) (t : Thread) (k : Pthread -> result Thread) : option (result Thread) :=
  match pthreads t !! i with
  | Some x => if bool_decide (phase x = p) then Some (k x) else None
  | None => None
  end.

(** [None]: the step is not possible now. *)
Definition act (o : Op) (t : Thread) : option (result Thread) :=
  match o, caller t with
  | Start c, Outside => Some (Ok (start c t))
  | Opened, InLatch => if latch_ t <=? 0 then Some (Ok (setCaller Outside t)) else None
  | Join, Outside => Some (Ok (if running_ t && negb (joined_ t) then setCaller InJoin t else t))
  | JoinReturns, InJoin => joinReturns t
  | Detach, Outside => Some (pthread_detach t)
  | Destroy, Outside => Some (destroy t)
  | Identify i, _ => inPhase i Born t (fun x => onObject t (setId (gettid x) (setPhase i Identified t)))
  | Count i, _ => inPhase i Identified t (fun _ => onObject t (setLatch (latch_ t - 1) (setPhase i Counted t)))
  | Call i, _ => inPhase i Counted t (fun _ => onObject t (setPhase i Running t))
  | Finish i, _ => inPhase i Running t (fun _ => Ok (setPhase i Ended t))
  | _, _ => None
  end.

Fixpoint acts (l : list Op) (t : Thread) : option (result Thread) :=
  match l with
  | [] => Some (Ok t)
  | o :: l =>
      match act o t with
      | Some (Ok t) => acts l t
      | x => x
      end
  end.

(** ** The life of a thread object *)

Definition creates (o : Op) : nat := match o with Start (Some _) => 1 | _ => 0 end.
Definition starts (l : list Op) : nat := sum_list_with creates l.

Definition isDetach (o : Op) : bool := match o with Detach => true | _ => false end.

(** The object and its one thread; [d] tells whether [detach] was called. *)
Definition alive (d : bool) (t : Thread) (x : Pthread) : Prop :=
  tid_ t = Some O /\
  match phase x with
  | Born => latch_ t = 1 /\ running_ t = true /\ joined_ t = false /\ caller t = InLatch /\ detached x = false
  | Identified =>
      id_ t = gettid x /\ latch_ t = 1 /\ running_ t = true /\ joined_ t = false /\ caller t = InLatch /\ detached x = false
  | Counted | Running | Ended =>
      id_ t = gettid x /\ latch_ t = 0 /\ running_ t = true /\ joined_ t = false
      /\ (detached x = true -> d = true \/ caller t = Gone)
  | Joined =>
      id_ t = gettid x /\ latch_ t = 0 /\ running_ t = false /\ joined_ t = true
      /\ (caller t = Outside \/ caller t = Gone) /\ detached x = false
  end.

Definition Life (d : bool) (t : Thread) : Prop :=
  match pthreads t with
  | [] => tid_ t = None /\ latch_ t = 1 /\ running_ t = false /\ joined_ t = false
          /\ (caller t = Outside \/ caller t = Gone)
  | [x] => alive d t x
  | _ => False
  end.

(** What may be undefined: a call that has to do with [detach], or the thread
    that calls the callback of a destroyed object. *)
Definition excused (d : bool) (o : Op) (t : Thread) : Prop := d = true \/ o = Call 0 /\ caller t = Gone.

Lemma life_fresh d o t r :
  pthreads t = [] -> Life d t -> act o t = Some r ->
  match r with
  | Ok t' => Life (d || isDetach o) t' /\ (length (pthreads t') <= creates o)%nat
  | Throw _ => excused (d || isDetach o) o t
  end.
Proof.
  destruct t as [tid id latch run joi c ps]. unfold Life. cbn. intros ->. cbn. intros (-> & -> & -> & -> & Hc) E.
  destruct o as [[v|]| | | | | |i|i|i|i]; destruct Hc as [->| ->]; cbn in E; try done; try by (destruct i; done).
  all: injection E as <-.
  all: first [by left; rewrite orb_true_r | (split; [|cbn; lia]); cbn; unfold alive; cbn; naive_solver].
Qed.

Lemma life_one d o t x r :
  pthreads t = [x] -> alive d t x -> creates o = O -> act o t = Some r ->
  match r with
  | Ok t' => Life (d || isDetach o) t' /\ length (pthreads t') = 1%nat
  | Throw _ => excused (d || isDetach o) o t
  end.
Proof.
  destruct t as [tid id latch run joi c ps], x as [g p de]. unfold alive. cbn. intros -> [-> Hx] Hn E.
  destruct o as [[v|]| | | | | |[|i]|[|i]|[|i]|[|i]]; try done; cbn in E;
    destruct p; cbn in Hx; decompose [and] Hx; clear Hx; subst; try destruct c; try destruct de;
    try naive_solver; vm_compute in E; simplify_eq.
  all: rewrite ?orb_false_r, ?orb_true_r; unfold excused; cbn; unfold alive; cbn.
  all: naive_solver.
Qed.

(** A run ends well, or with the first undefined step. *)
Lemma life_acts d l t r :
  Life d t -> (length (pthreads t) + starts l <= 1)%nat -> acts l t = Some r ->
  match r with
  | Ok t' => Life (d || existsb isDetach l) t'
  | Throw _ => d || existsb isDetach l = true
      \/ exists l1 l2 t', l = l1 ++ Call 0 :: l2 /\ acts l1 t = Some (Ok t') /\ caller t' = Gone
  end.
Proof.
  revert d t. induction l as [|o l IH]; intros d t Ht Hn E; cbn [acts existsb] in *.
  { injection E as <-. by rewrite orb_false_r. }
  change (starts (o :: l)) with (creates o + starts l)%nat in Hn.
  assert (Ha : forall q, act o t = Some q -> match q with
    | Ok t' => Life (d || isDetach o) t' /\ (length (pthreads t') + starts l <= 1)%nat
    | Throw _ => excused (d || isDetach o) o t end).
  { intros q Eq. pose proof Ht as Ht'. unfold Life in Ht'. destruct (pthreads t) as [|x [|]] eqn:Ep; [| |done].
    - pose proof (life_fresh d o t q Ep Ht Eq) as H. destruct q; [|done]. destruct H. split; [done|]. cbn in Hn. lia.
    - pose proof (life_one d o t x q Ep Ht' ltac:(cbn in Hn; lia) Eq) as H. destruct q; [|done]. destruct H. split; [done|].
      cbn in Hn. lia. }
  destruct (act o t) as [q|] eqn:Eo; [|done]. specialize (Ha q eq_refl). rewrite orb_assoc. destruct q as [t1|e].
  - destruct Ha as [Ha Hl]. specialize (IH _ t1 Ha Hl E). destruct r; [done|].
    destruct IH as [?|(l1 & l2 & t' & -> & El & Hg)]; [by left|]. right. exists (o :: l1), l2, t'.
    split; [done|]. split; [|done]. cbn [acts]. by rewrite Eo.
  - injection E as <-. destruct Ha as [->|[-> Hg]]; [by left|]. right. by exists [], l, t.
Qed.

Lemma newThread_life : Life false newThread.
Proof. unfold Life. cbn. split_and!; auto. Qed.

(** C40: A thread object that is started at most once, in every interleaving of
    the calls of its owner with the steps of the thread.  Only two things lead
    to undefined behaviour: a call of [detach] (after which [join] and the
    destructor act on a detached thread), and the destruction of the object
    before its thread has called [cb_], for which the destructor does not wait.
    Otherwise, when [start] has returned the object has the id of the thread,
    which is past the latch, so that [getId] may be read; when [join] has
    returned the thread has ended; and an owner that waits in [start] is not
    stuck: the latch is open or the thread can go on. *)
Theorem thread_life l r :
  (starts l <= 1)%nat -> acts l newThread = Some r ->
  match r with
  | Throw _ => Detach ∈ l
      \/ exists l1 l2 t, l = l1 ++ Call 0 :: l2 /\ acts l1 newThread = Some (Ok t) /\ caller t = Gone
  | Ok t =>
      (caller t = Outside -> running_ t = true ->
         exists x, pthreads t = [x] /\ id_ t = gettid x /\ phase x ∈ [Counted; Running; Ended])
      /\ (joined_ t = true -> exists x, pthreads t = [x] /\ phase x = Joined /\ running_ t = false)
      /\ (caller t = InLatch -> exists o t', act o t = Some (Ok t') /\ o ∈ [Identify 0; Count 0; Opened])
  end.
Proof.
  intros Hn E. pose proof (life_acts false l newThread r newThread_life Hn E) as Ht. destruct r as [t|e].
  2:{ destruct Ht as [Hd|Hc]; [left|by right]. apply existsb_exists in Hd as (o & Ho & Hd).
      apply list_elem_of_In in Ho. by destruct o. }
  unfold Life, alive in Ht. destruct t as [tid id latch run joi c [|[g p d] [|]]]; cbn in *; [| |done].
  - destruct Ht as (-> & -> & -> & -> & [->| ->]); split_and!; done.
  - destruct Ht as [-> Ht]. split_and!.
    + intros -> ->. eexists. split; [done|]. destruct p; cbn in *; decompose [and] Ht; subst; try done;
        (split; [done|]); set_solver.
    + intros ->. eexists. split; [done|]. destruct p; cbn; naive_solver.
    + intros ->. destruct p; cbn in Ht; decompose [and] Ht; subst.
      * exists (Identify 0). eexists. split; [reflexivity|]. by left.
      * exists (Count 0). eexists. split; [reflexivity|]. by right; left.
      * exists Opened. eexists. split; [reflexivity|]. by right; right; left.
      * exists Opened. eexists. split; [reflexivity|]. by right; right; left.
      * exists Opened. eexists. split; [reflexivity|]. by right; right; left.
      * naive_solver.
Qed.

(** The destructor detaches a running thread and does not wait for it: the
    thread calls the callback of an object that is gone. *)
Theorem destroyed_before_callback a :
  acts [Start (Some a); Identify 0; Count 0; Opened; Destroy; Call 0] newThread = Some (Throw Undefined).
Proof. reflexivity. Qed.

(** A thread object may be started again once it was joined, but neither
    [joined_] nor the latch is reset: the second [start] returns before the
    new thread has stored its id, [join] returns while that thread runs, and
    the thread writes to the object after its destruction. *)
Theorem restart_unjoined a b :
  exists t t', acts [Start (Some a); Identify 0; Count 0; Opened; Call 0; Finish 0; Join; JoinReturns; Start (Some b); Opened]
                 newThread = Some (Ok t)
    /\ running_ t = true /\ id_ t = a /\ map phase (pthreads t) = [Joined; Born]
    /\ act Join t = Some (Ok t)
    /\ act Destroy t = Some (Ok t') /\ act (Identify 1) t' = Some (Throw Undefined).
Proof. do 2 eexists. split; [reflexivity|]. split_and!; reflexivity. Qed.

(** The destructor detaches a thread that [detach] has detached already, as
    it is when an [AsyncLog] is destroyed. *)
Theorem detached_twice a :
  acts [Start (Some a); Identify 0; Count 0; Opened; Detach; Destroy] newThread = Some (Throw Undefined).
Proof. reflexivity. Qed.

Lemma thread_life_witness :
  let l := [Start None; Start (Some 7); Identify 0; Count 0; Opened; Join; Call 0; Finish 0; JoinReturns; Destroy] in
  exists t, acts l newThread = Some (Ok t) /\ exists x, pthreads t = [x] /\ phase x = Joined.
Proof.
  intros l. destruct (acts l newThread) as [[t|e]|] eqn:E; [|vm_compute in E; discriminate..].
  destruct (thread_life l (Ok t)) as (_ & Hj & _); [vm_compute; lia|exact E|].
  exists t. split; [reflexivity|]. destruct Hj as (x & Hx & Hp & _); [vm_compute in E; injection E as <-; reflexivity|].
  by exists x.
Defined.

(** ** What a thread keeps for itself *)

(** The thread-local variables. *)
Record Locals := { t_threadName : string; t_threadId : Z }.

Definition newLocals : Locals := {| t_threadName := "MainThread"; t_threadId := 0 |}.

Definition SetThreadName (name : string) : M Locals unit :=
  modify (fun l => {| t_threadName := name; t_threadId := t_threadId l |}).
Definition GetThreadName : M Locals string := gets t_threadName.

(** [gettid] is what the kernel would answer. *)
Definition GetThreadId (gettid : Z) : M Locals Z :=
  i <-- gets t_threadId ;;
  (if i =? 0 then modify (fun l => {| t_threadName := t_threadName l; t_threadId := gettid |}) else ret tt) ;;;
  gets t_threadId.

(** The part of [RunThread] that concerns them: the id that is stored. *)
Definition enterThread (gettid : Z) (name : string) : M Locals Z :=
  i <-- GetThreadId gettid ;;
  modify (fun l => {| t_threadName := t_threadName l; t_threadId := i |}) ;;;
  SetThreadName name ;;;
  ret i.

(** The calls a thread makes, with the last name it gave itself. *)
Fixpoint localCalls (gettid : Z) (names : list (option string)) : M Locals (list Z) :=
  match names with
  | [] => ret []
  | None :: names => i <-- GetThreadId gettid ;; ids <-- localCalls gettid names ;; ret (i :: ids)
  | Some n :: names => SetThreadName n ;;; localCalls gettid names
  end.

Definition lastName (names : list (option string)) (name : string) : string :=
  foldl (fun n o => default n o) name names.

(** A thread has the id of the kernel, however often it asks, and the name it
    was created with until it takes another. *)
Theorem thread_locals gettid name names l :
  gettid <> 0 -> t_threadId l = 0 \/ t_threadId l = gettid ->
  exists l1 l2, enterThread gettid name l = (Ok gettid, l1)
    /\ localCalls gettid names l1 = (Ok (repeat gettid (length (filter (fun o => o = None) names))), l2)
    /\ fst (GetThreadName l2) = Ok (lastName names name).
Proof.
  intros Hg Hl. exists {| t_threadName := name; t_threadId := gettid |}.
  assert (Ei : forall l, t_threadId l = 0 \/ t_threadId l = gettid ->
    GetThreadId gettid l = (Ok gettid, {| t_threadName := t_threadName l; t_threadId := gettid |})).
  { intros [n i] [Hi|Hi]; cbn in Hi; subst i; unfold GetThreadId; rewrite bind_gets; cbn [t_threadId]; [done|].
    by rewrite (proj2 (Z.eqb_neq gettid 0)). }
  assert (Hc : forall names n, exists l2, localCalls gettid names {| t_threadName := n; t_threadId := gettid |}
      = (Ok (repeat gettid (length (filter (fun o => o = None) names))), l2) /\ t_threadName l2 = lastName names n).
  { clear -Ei. intros names. induction names as [|[m|] names IH]; intros n; cbn [localCalls]; [by eexists| |].
    - unfold SetThreadName at 1. rewrite bind_modify. rewrite filter_cons_False by done. apply IH.
    - rewrite (bind_ok _ _ _ _ _ (Ei {| t_threadName := n; t_threadId := gettid |} (or_intror eq_refl))). cbn [t_threadName].
      destruct (IH n) as (l2 & E & El). exists l2. rewrite (bind_ok _ _ _ _ _ E). by rewrite filter_cons_True. }
  destruct (Hc names name) as (l2 & E & El). exists l2. split; [|split; [exact E|by rewrite <- El]].
  unfold enterThread. rewrite (bind_ok _ _ _ _ _ (Ei l Hl)), bind_modify. done.
Qed.
End Thread.
