(* ===== verification/Life.v ===== *)
(** * The life of a scheduler (src/reyao/scheduler.cc, workerthread.cc, worker.cc)

    [startAsync], [init], [stop], [joinThread] and [wait] step by step, on the
    threads they run on, with the threads of the workers between them.  What
    a worker does in its loop is in Worker.v; here each step is taken in an
    environment that says which workers have tasks and whether the scheduler
    has a timer, and a worker leaves its loop as [Worker::canStop] has it. *)

From S2P Require Import Prelude.

Module Life.

(** The thread of a worker: created, before [latch_.countDown()] in
    [RunThread]; before [running_ = true] in [Worker::run]; in the loop;
    returned. *)
Inductive WPc := WBorn | WReported | WLoop | WEnded.

(** The thread of [init]: not created; before it has reported; before the next
    turn of the loop; in the constructor of [WorkerThread], which waits for the
    thread; behind the loop; before [initLatch_.countDown()]; before
    [running_ = true] in [mainWorker_.run()]; in the loop of [mainWorker_];
    returned. *)
Inductive IPc := INot | IBorn | ICreate | IStarting | IReady | ILatch | IEnter | ILoop | IEnded.

(** [startAsync], which waits for the thread and then for [initLatch_], and
    after it [wait]. *)
Inductive UPc := UStart | UCreated | ULatch | UWait | UDone.

(** [stop]: before the test of [running_], before [mainWorker_.stop()], in the
    loop, in [joinThread_.start()] or [joinThread], returned. *)
Inductive SPc := SStart | SMain | SWorkers (rest : list nat) | SJoining | SReturned.

(** [joinThread]: not called; on a thread that has not reported; before the
    test of [initThread_]; joining the thread [k]; before
    [quitLatch_.countDown()]; returned. *)
Inductive JPc := JNot | JBorn | JInit | JWorkers (k : nat) | JCount | JDone.

(** A thread of [threads_] with the flag [running_] of its worker. *)
Record Scheduler := mkScheduler {
  user : UPc; ini : IPc; stopper : SPc; joiner : JPc;
  threads_ : list (WPc * bool);
  mainRunning : bool;
  running_ : bool;
  initLatch_ : Z;
  quitLatch_ : Z
}.

Definition setUser p s := mkScheduler p (ini s) (stopper s) (joiner s) (threads_ s) (mainRunning s) (running_ s)
  (initLatch_ s) (quitLatch_ s).
Definition setIni p s := mkScheduler (user s) p (stopper s) (joiner s) (threads_ s) (mainRunning s) (running_ s)
  (initLatch_ s) (quitLatch_ s).
Definition setStopper p s := mkScheduler (user s) (ini s) p (joiner s) (threads_ s) (mainRunning s) (running_ s)
  (initLatch_ s) (quitLatch_ s).
Definition setJoiner p s := mkScheduler (user s) (ini s) (stopper s) p (threads_ s) (mainRunning s) (running_ s)
  (initLatch_ s) (quitLatch_ s).
Definition setThreads l s := mkScheduler (user s) (ini s) (stopper s) (joiner s) l (mainRunning s) (running_ s)
  (initLatch_ s) (quitLatch_ s).
Definition setMain b s := mkScheduler (user s) (ini s) (stopper s) (joiner s) (threads_ s) b (running_ s)
  (initLatch_ s) (quitLatch_ s).
Definition setRunning b s := mkScheduler (user s) (ini s) (stopper s) (joiner s) (threads_ s) (mainRunning s) b
  (initLatch_ s) (quitLatch_ s).
Definition setInitLatch c s := mkScheduler (user s) (ini s) (stopper s) (joiner s) (threads_ s) (mainRunning s)
  (running_ s) c (quitLatch_ s).
Definition setQuitLatch c s := mkScheduler (user s) (ini s) (stopper s) (joiner s) (threads_ s) (mainRunning s)
  (running_ s) (initLatch_ s) c.

Definition newScheduler : Scheduler := mkScheduler UStart INot SStart JNot [] false false 1 1.

(** What the loops see at a step: the workers with tasks in their queues, and
    whether [getExpire() != -1]. *)
Record Env := { queued : nat -> bool; timers : bool }.

(** No task is queued and no timer is left. *)
Definition drained (e : Env) : Prop := timers e = false /\ forall w, queued e w = false.

(** [Worker::canStop] of the worker [w] *)
Definition canStop (e : Env) (w : nat) (running : bool) : bool := negb running && negb (queued e w) && negb (timers e).

Lemma canStop_drained e w : drained e -> canStop e w false = true.
Proof. intros [Ht Hq]. unfold canStop. by rewrite Ht, Hq. Qed.

Lemma canStop_running e w b : canStop e w b = true -> b = false /\ timers e = false.
Proof. unfold canStop. destruct b, (queued e w), (timers e); done. Qed.

Section Steps.
(** The [n] threads of [threadNum_]; whether [workers_] begins with
    [mainWorker_], as for a scheduler of one thread; whether [stop] is called
    on a worker, where hooks are enabled. *)
Context (n : nat) (single hook : bool).

(** The workers of [workers_]: 0 is [mainWorker_], the others in the order of
    [threads_]. *)
Definition workers_ (s : Scheduler) : list nat := (if single then [0%nat] else []) ++ seq 1 (length (threads_ s)).

(** [Worker::stop] *)
Definition stopWorker (w : nat) (s : Scheduler) : Scheduler :=
  match w with
  | O => setMain false s
  | S i => setThreads (alter (fun t => (t.1, false)) i (threads_ s)) s
  end.

(** [Thread::start] on a new thread, and [wait] on a latch, go on when
    [ready]. *)
Definition awaits (ready : bool) (s : Scheduler) : option Scheduler := if ready then Some s else None.

Definition startAsync (s : Scheduler) : option Scheduler :=
  match user s with
  | UStart => Some (if running_ s then setUser UWait s else setUser UCreated (setIni IBorn s))
  | UCreated => awaits (negb (match ini s with IBorn => true | _ => false end)) (setUser ULatch s)
  | ULatch => awaits (initLatch_ s <=? 0) (setUser UWait s)
  | UWait => awaits (quitLatch_ s <=? 0) (setUser UDone s)
  | UDone => None
  end.

Definition init (e : Env) (s : Scheduler) : option Scheduler :=
  match ini s with
  | INot | IEnded => None
  | IBorn => Some (setIni (if running_ s then IEnded else ICreate) s)
  | ICreate =>
      Some (if decide (length (threads_ s) < n)%nat then setIni IStarting (setThreads (threads_ s ++ [(WBorn, false)]) s)
            else setIni IReady s)
  | IStarting =>
      awaits (match last (threads_ s) with Some (WBorn, _) => false | _ => true end) (setIni ICreate s)
  | IReady => Some (setIni ILatch (setRunning true s))
  | ILatch => Some (setIni IEnter (setInitLatch (initLatch_ s - 1) s))
  | IEnter => Some (setIni ILoop (setMain true s))
  | ILoop => awaits (canStop e 0 (mainRunning s)) (setIni IEnded s)
  end.

(** [RunThread] and [Worker::run] on the thread of worker [w]. *)
Definition workerStep (e : Env) (w : nat) (t : WPc * bool) : option (WPc * bool) :=
  match t with
  | (WBorn, b) => Some (WReported, b)
  | (WReported, _) => Some (WLoop, true)
  | (WLoop, b) => if canStop e w b then Some (WEnded, b) else None
  | (WEnded, _) => None
  end.

Definition work (e : Env) (i : nat) (s : Scheduler) : option Scheduler :=
  match threads_ s !! i with
  | Some t =>
      match workerStep e (S i) t with
      | Some t => Some (setThreads (<[i := t]> (threads_ s)) s)
      | None => None
      end
  | None => None
  end.

Definition stop (s : Scheduler) : option Scheduler :=
  match stopper s with
  | SStart => Some (if running_ s then setStopper SMain (setRunning false s) else setStopper SReturned s)
  | SMain =>
      Some (match threads_ s with
            | [] => setStopper SReturned (stopWorker 0 s)
            | _ => setStopper (SWorkers (workers_ s)) (stopWorker 0 s)
            end)
  | SWorkers (w :: rest) => Some (setStopper (SWorkers rest) (stopWorker w s))
  | SWorkers [] => Some (setStopper SJoining (setJoiner (if hook then JBorn else JInit) s))
  | SJoining =>
      awaits (match joiner s with JBorn => false | JDone => true | _ => hook end) (setStopper SReturned s)
  | SReturned => None
  end.

Definition joinThread (s : Scheduler) : option Scheduler :=
  match joiner s with
  | JNot | JDone => None
  | JBorn => Some (setJoiner JInit s)
  | JInit => awaits (match ini s with INot | IEnded => true | _ => false end) (setJoiner (JWorkers 0) s)
  | JWorkers k =>
      match threads_ s !! k with
      | None => Some (setJoiner JCount s)
      | Some (p, _) => awaits (match p with WEnded => true | _ => false end) (setJoiner (JWorkers (S k)) s)
      end
  | JCount => Some (setJoiner JDone (setQuitLatch (quitLatch_ s - 1) s))
  end.

(** A step of the thread that starts the scheduler and waits, of the thread of
    [init], of the thread of a worker, of the caller of [stop], of
    [joinThread]. *)
Inductive Op := User | Init | Work (i : nat) | Stop | Join.

Definition act (e : Env) (o : Op) (s : Scheduler) : option Scheduler :=
  match o with
  | User => startAsync s
  | Init => init e s
  | Work i => work e i s
  | Stop => stop s
  | Join => joinThread s
  end.

Fixpoint acts (l : list (Env * Op)) (s : Scheduler) : option Scheduler :=
  match l with
  | [] => Some s
  | (e, o) :: l => match act e o s with Some s => acts l s | None => None end
  end.

(** ** The invariant *)

Definition rankU (p : UPc) : nat := match p with UStart => 0 | UCreated => 1 | ULatch => 2 | UWait => 3 | UDone => 4 end.
Definition rankI (p : IPc) : nat :=
  match p with
  | INot => 0 | IBorn => 1 | ICreate | IStarting => 2 | IReady => 3 | ILatch => 4 | IEnter => 5 | ILoop => 6 | IEnded => 7
  end.
Definition rankS (p : SPc) : nat := match p with SStart => 0 | SMain => 1 | SWorkers _ => 2 | SJoining => 3 | SReturned => 4 end.

Definition endedAt (l : list (WPc * bool)) (i : nat) : Prop := exists b, l !! i = Some (WEnded, b).

(** How far [joinThread] has come: the threads it has joined have ended. *)
Definition joined (s : Scheduler) (p : JPc) : Prop :=
  match p with
  | JNot => True
  | JBorn | JInit => (4 <= rankI (ini s))%nat
  | JWorkers k => ini s = IEnded /\ (k <= n)%nat /\ forall i, (i < k)%nat -> endedAt (threads_ s) i
  | JCount | JDone => ini s = IEnded /\ forall i, (i < n)%nat -> endedAt (threads_ s) i
  end.

Record Inv (s : Scheduler) : Prop := {
  i_start : ini s = INot <-> user s = UStart;
  i_run : running_ s = true -> (4 <= rankI (ini s))%nat;
  i_set : (4 <= rankI (ini s))%nat -> rankS (stopper s) = 0%nat -> running_ s = true;
  i_latch : initLatch_ s = 1 /\ (rankI (ini s) < 5)%nat \/ initLatch_ s = 0 /\ (5 <= rankI (ini s))%nat;
  i_user : (3 <= rankU (user s))%nat -> (5 <= rankI (ini s))%nat;
  i_length : (length (threads_ s) <= n)%nat /\ ((3 <= rankI (ini s))%nat -> length (threads_ s) = n);
  i_born : forall i b, threads_ s !! i = Some (WBorn, b) -> ini s = IStarting /\ S i = length (threads_ s);
  i_stop : (1 <= rankS (stopper s) <= 3)%nat -> (4 <= rankI (ini s))%nat;
  i_rest : forall rest, stopper s = SWorkers rest -> (length rest <= n + 1)%nat;
  i_join : joined s (joiner s);
  i_once : (rankS (stopper s) < 3)%nat -> joiner s = JNot;
  i_quit : quitLatch_ s = 1 /\ joiner s <> JDone \/ quitLatch_ s = 0 /\ joiner s = JDone;
  i_done : user s = UDone -> joiner s = JDone
}.

Lemma newScheduler_inv : Inv newScheduler.
Proof. split; cbn; try done; try lia; by left. Qed.

Lemma endedAt_mono l i j t :
  endedAt l j -> (forall b, l !! i = Some (WEnded, b) -> t.1 = WEnded) -> endedAt (<[i := t]> l) j.
Proof.
  intros [b Hb] Ht. destruct (decide (i = j)) as [<-|Hne].
  - specialize (Ht b Hb). destruct t as [p c]. cbn in Ht. subst p. exists c.
    apply list_lookup_insert_eq. by eapply lookup_lt_Some.
  - exists b. by rewrite list_lookup_insert_ne.
Qed.

Lemma endedAt_alter l i j : endedAt l j -> endedAt (alter (fun t => (t.1, false)) i l) j.
Proof.
  intros [b Hb]. destruct (decide (i = j)) as [<-|Hne].
  - exists false. by rewrite list_lookup_alter_eq, Hb.
  - exists b. by rewrite list_lookup_alter_ne.
Qed.

(** [joined] looks at [ini] and the ended threads only. *)
Lemma joined_mono s s' p :
  joined s p -> (rankI (ini s) <= rankI (ini s'))%nat -> (forall i, endedAt (threads_ s) i -> endedAt (threads_ s') i) -> joined s' p.
Proof.
  intros Hj Hi Ht. assert (He : ini s = IEnded -> ini s' = IEnded).
  { intros E. rewrite E in Hi. destruct (ini s'); cbn in Hi; done || lia. }
  destruct p; cbn in *; try done; try lia; naive_solver.
Qed.

(** The fields of the invariant after a step that leaves the threads alone. *)
Ltac inv_field :=
  intros; try done; try lia; try (exfalso; lia);
  first [ assumption
        | solve [eauto]
        | solve [split; intros; simplify_eq; try done; try lia; intuition congruence]
        | solve [intuition (congruence || lia)]
        | solve [match goal with H : _ !! _ = Some (WBorn, _), Hb : forall i b, _ |- _ => by destruct (Hb _ _ H) end]
        | solve [eapply joined_mono; [eassumption|cbn; lia|done]]
        | idtac ].

Lemma startAsync_inv s s' : Inv s -> startAsync s = Some s' -> Inv s'.
Proof.
  intros [] E. unfold startAsync, awaits in E. destruct s as [u i st j th mr r il ql]; cbn in *.
  destruct u; try done.
  - assert (i = INot) as -> by (by apply i_start0). destruct r; [by specialize (i_run0 eq_refl); cbn in *; lia|].
    injection E as <-. split; cbn in *; inv_field.
  - destruct i; try done; injection E as <-; split; cbn in *; inv_field.
  - destruct (Z.leb_spec il 0); [|done]. injection E as <-. split; cbn in *; inv_field.
  - destruct (Z.leb_spec ql 0); [|done]. injection E as <-. split; cbn in *; inv_field.
Qed.

Lemma joined_early s p : joined s p -> (rankI (ini s) < 4)%nat -> p = JNot.
Proof. destruct p; cbn; try done; try lia; intros [E ?]; rewrite E; cbn; lia. Qed.

Lemma init_inv e s s' : Inv s -> init e s = Some s' -> Inv s'.
Proof.
  intros HI E. pose proof (joined_early s (joiner s) (i_join s HI)) as Hj. destruct HI.
  unfold init, awaits in E. destruct s as [u i st j th mr r il ql]; cbn in *.
  destruct i; try done; cbn in *; try rewrite Hj in * by lia.
  - destruct r; [by specialize (i_run0 eq_refl); lia|]. injection E as <-. split; cbn in *; inv_field.
  - case_decide as Hl; injection E as <-; split; cbn in *; inv_field.
    + rewrite length_app. cbn. lia.
    + rewrite length_app. cbn. split; [done|]. apply lookup_app_Some in H as [H|[Hle H]]; [by apply i_born0 in H as [? _]|].
      apply list_lookup_singleton_Some in H as [? _]. lia.
  - destruct (last th) as [[[] ?]|] eqn:El; try done; injection E as <-; split; cbn in *; inv_field.
    all: destruct (i_born0 _ _ H) as [_ Hl]; rewrite last_lookup, <- Hl in El; cbn in El; congruence.
  - injection E as <-. split; cbn in *; inv_field.
  - injection E as <-. split; cbn in *; inv_field.
  - injection E as <-. split; cbn in *; inv_field.
  - destruct (canStop e 0 mr); [|done]. injection E as <-. split; cbn in *; inv_field.
Qed.

Lemma setThreads_inv l s :
  Inv s -> length l = length (threads_ s) ->
  (forall i b, l !! i = Some (WBorn, b) -> exists b', threads_ s !! i = Some (WBorn, b')) ->
  (forall i, endedAt (threads_ s) i -> endedAt l i) -> Inv (setThreads l s).
Proof.
  intros [] Hl Hb He. destruct s as [u i st j th mr r il ql]. split; cbn in *; try done; try rewrite Hl; try done.
  - intros k b Hk. destruct (Hb k b Hk) as [b' H]. by apply i_born0 in H.
  - eapply joined_mono; [exact i_join0|done|exact He].
Qed.

Lemma work_inv e i s s' : Inv s -> work e i s = Some s' -> Inv s'.
Proof.
  intros HI E. unfold work in E. destruct (threads_ s !! i) as [[p b]|] eqn:Hi; [|done].
  destruct (workerStep e (S i) (p, b)) as [[q c]|] eqn:Ew; [|done]. injection E as <-.
  assert (Hq : q <> WBorn /\ (p = WEnded -> q = WEnded)) by (destruct p; cbn in Ew; try destruct (canStop _ _ _); naive_solver).
  apply setThreads_inv; [done|by rewrite length_insert|..].
  - intros k d Hk. apply list_lookup_insert_Some in Hk as [(_ & [= -> _] & _)|[_ Hk]]; [by destruct Hq|by exists d].
  - intros k Hk. apply endedAt_mono; [done|]. intros d Hd. cbn. apply Hq. congruence.
Qed.

Lemma stopWorker_inv w s : Inv s -> Inv (stopWorker w s).
Proof.
  intros HI. destruct w as [|i]; cbn [stopWorker].
  - destruct HI, s. by split.
  - apply setThreads_inv; [done|by rewrite length_alter|..].
    + intros k b Hk. destruct (decide (i = k)) as [<-|Hne].
      * rewrite list_lookup_alter_eq in Hk. destruct (threads_ s !! i) as [[p c]|] eqn:E; [|done].
        cbn in Hk. injection Hk as -> _. by exists c.
      * rewrite list_lookup_alter_ne in Hk by done. by exists b.
    + intros k Hk. by apply endedAt_alter.
Qed.

Lemma stopWorker_frame w s :
  user (stopWorker w s) = user s /\ ini (stopWorker w s) = ini s /\ stopper (stopWorker w s) = stopper s
  /\ joiner (stopWorker w s) = joiner s /\ length (threads_ (stopWorker w s)) = length (threads_ s).
Proof. destruct w; cbn; [done|]. by rewrite length_alter. Qed.

(** [stop] moves on. *)
Lemma setStopper_inv p s :
  Inv s -> rankS p <> 0%nat -> ((1 <= rankS p <= 3)%nat -> (4 <= rankI (ini s))%nat) ->
  (forall rest, p = SWorkers rest -> (length rest <= n + 1)%nat) ->
  ((rankS p < 3)%nat -> joiner s = JNot) -> Inv (setStopper p s).
Proof. intros [] H0 H1 H2 H3. destruct s. by split. Qed.

Lemma length_workers s : (length (workers_ s) <= length (threads_ s) + 1)%nat.
Proof. unfold workers_. rewrite length_app, length_seq. destruct single; cbn; lia. Qed.

Lemma stop_inv s s' : Inv s -> stop s = Some s' -> Inv s'.
Proof.
  intros HI E. pose proof (i_stop s HI) as Hs. pose proof (i_once s HI) as Ho. pose proof (i_rest s HI) as Hr.
  unfold stop, awaits in E. destruct (stopper s) as [| |[|w rest]| |] eqn:Es; cbn in Hs, Ho; try done.
  - destruct (running_ s) eqn:Er; injection E as <-.
    + assert (Hi : (4 <= rankI (ini s))%nat) by (by apply (i_run s HI)).
      assert (Hj : joiner s = JNot) by (apply Ho; lia). destruct HI, s. cbn in *. subst. by split; cbn; inv_field.
    + apply setStopper_inv; [done|cbn; lia..|done|cbn; lia].
  - pose proof (stopWorker_inv 0 s HI) as HI0.
    destruct (threads_ s) as [|t l] eqn:Et; injection E as <-; apply setStopper_inv; try done; cbn [rankS]; try lia.
    + intros _. apply Hs. lia.
    + intros rest [= <-]. pose proof (length_workers s). pose proof (proj1 (i_length s HI)). lia.
    + intros _. apply Ho. lia.
  - injection E as <-.
    specialize (Ho ltac:(lia)). specialize (Hs ltac:(lia)). destruct HI, s. cbn in *. subst.
    destruct hook; split; cbn in *; inv_field.
  - injection E as <-. destruct (stopWorker_frame w s) as (_ & Ei & _ & Ej & _). specialize (Hr _ eq_refl). cbn in Hr.
    apply setStopper_inv; [by apply stopWorker_inv|cbn [rankS]..]; [done|..].
    + intros _. rewrite Ei. apply Hs. lia.
    + intros ? [= <-]. lia.
    + intros _. rewrite Ej. apply Ho. lia.
  - match type of E with (if ?b then _ else _) = _ => destruct b end; [|done]. injection E as <-.
    apply setStopper_inv; [done|cbn; lia..|done|cbn; lia].
Qed.

Lemma joinThread_inv s s' : Inv s -> joinThread s = Some s' -> Inv s'.
Proof.
  intros [] E. unfold joinThread, awaits in E. destruct s as [u i st j th mr r il ql]; cbn in *.
  destruct j as [| | |k| |]; try done; cbn in *.
  - injection E as <-. split; cbn in *; inv_field.
  - assert (i = IEnded) as -> by (destruct i; cbn in *; done || lia).
    injection E as <-. split; cbn in *; inv_field.
  - destruct i_join0 as (-> & Hk & He). assert (Hn : length th = n) by (apply i_length0; cbn; lia).
    destruct (th !! k) as [[p b]|] eqn:Ek.
    + destruct p; try done. injection E as <-. pose proof (lookup_lt_Some _ _ _ Ek).
      split; cbn in *; inv_field. split; [done|]. split; [lia|]. intros i Hi.
      destruct (decide (i = k)) as [->|]; [by exists b|apply He; lia].
    + injection E as <-. apply lookup_ge_None in Ek. split; cbn in *; inv_field.
      split; [done|]. intros i Hi. apply He. lia.
  - injection E as <-. split; cbn in *; inv_field.
Qed.

Lemma act_inv e o s s' : Inv s -> act e o s = Some s' -> Inv s'.
Proof.
  destruct o; cbn [act]; [apply startAsync_inv|apply init_inv|apply work_inv|apply stop_inv|apply joinThread_inv].
Qed.

Lemma acts_inv l s s' : Inv s -> acts l s = Some s' -> Inv s'.
Proof.
  revert s. induction l as [|[e o] l IH]; intros s HI E; cbn in E; [by injection E as <-|].
  destruct (act e o s) as [s1|] eqn:E1; [|done]. apply (IH s1); [by eapply act_inv|done].
Qed.

Lemma acts_app l l' s : acts (l ++ l') s = match acts l s with Some s => acts l' s | None => None end.
Proof. revert s. induction l as [|[e o] l IH]; intros s; cbn; [done|]. by destruct (act e o s). Qed.

(** ** Every run is short *)

Definition restW (t : WPc * bool) : nat := match t.1 with WBorn => 3 | WReported => 2 | WLoop => 1 | WEnded => 0 end.
Definition restS (p : SPc) : nat :=
  match p with SStart => n + 6 | SMain => n + 5 | SWorkers l => length l + 3 | SJoining => 1 | SReturned => 0 end.
Definition restJ (p : JPc) : nat :=
  match p with JNot => n + 5 | JBorn => n + 4 | JInit => n + 3 | JWorkers k => n - k + 2 | JCount => 1 | JDone => 0 end.
Definition restI (p : IPc) : nat :=
  match p with
  | INot => 7 | IBorn => 6 | ICreate => 5 | IStarting => 6 | IReady => 4 | ILatch => 3 | IEnter => 2 | ILoop => 1 | IEnded => 0
  end.

(** The steps that are left at most. *)
Definition measure (s : Scheduler) : nat :=
  (4 - rankU (user s)) + restI (ini s) + restS (stopper s) + restJ (joiner s)
  + 5 * (n - length (threads_ s)) + sum_list_with restW (threads_ s).

Lemma sum_insert {A} (f : A -> nat) l i x y :
  l !! i = Some y -> (sum_list_with f (<[i := x]> l) + f y = sum_list_with f l + f x)%nat.
Proof.
  revert i. induction l as [|z l IH]; intros [|i] Hi; try done.
  - injection Hi as ->. cbn. lia.
  - specialize (IH i Hi). change (<[S i := x]> (z :: l)) with (z :: <[i := x]> l). cbn [sum_list_with]. lia.
Qed.

Lemma sum_alter {A} (f : A -> nat) g l i : (forall x, f (g x) = f x) -> sum_list_with f (alter g i l) = sum_list_with f l.
Proof. intros Hg. revert i. induction l as [|z l IH]; intros [|i]; cbn; rewrite ?Hg, ?IH; done. Qed.

Lemma stopWorker_measure w s : measure (stopWorker w s) = measure s.
Proof.
  destruct w as [|i]; [done|]. unfold measure. cbn. rewrite length_alter, sum_alter by done. done.
Qed.

Lemma start_measure s s' : Inv s -> startAsync s = Some s' -> (measure s' < measure s)%nat.
Proof.
  intros HI E. pose proof (proj1 (i_length s HI)) as Hl.
  unfold startAsync, awaits in E. destruct (user s) eqn:Eu; try done.
  + assert (Ei : ini s = INot) by (by apply (i_start s HI)). unfold measure.
    destruct (running_ s); injection E as <-; cbn; rewrite Eu, ?Ei; cbn; lia.
  + destruct (negb _); [|done]. injection E as <-. unfold measure. cbn. rewrite Eu. cbn. lia.
  + destruct (_ <=? _); [|done]. injection E as <-. unfold measure. cbn. rewrite Eu. cbn. lia.
  + destruct (_ <=? _); [|done]. injection E as <-. unfold measure. cbn. rewrite Eu. cbn. lia.
Qed.

Lemma init_measure e s s' : Inv s -> init e s = Some s' -> (measure s' < measure s)%nat.
Proof.
  intros HI E. pose proof (proj1 (i_length s HI)) as Hl.
  unfold init, awaits in E. destruct (ini s) eqn:Ei; try done.
  + injection E as <-. unfold measure. destruct (running_ s); cbn; rewrite Ei; cbn; lia.
  + case_decide; injection E as <-; unfold measure; cbn; rewrite Ei, ?length_app, ?sum_list_with_app; cbn; lia.
  + match type of E with (if ?b then _ else _) = _ => destruct b end; [|done]. injection E as <-. unfold measure. cbn. rewrite Ei. cbn. lia.
  + injection E as <-. unfold measure. cbn. rewrite Ei. cbn. lia.
  + injection E as <-. unfold measure. cbn. rewrite Ei. cbn. lia.
  + injection E as <-. unfold measure. cbn. rewrite Ei. cbn. lia.
  + destruct (canStop _ _ _); [|done]. injection E as <-. unfold measure. cbn. rewrite Ei. cbn. lia.
Qed.

Lemma work_measure e i s s' : Inv s -> work e i s = Some s' -> (measure s' < measure s)%nat.
Proof.
  intros HI E. pose proof (proj1 (i_length s HI)) as Hl.
  unfold work in E. destruct (threads_ s !! i) as [[p b]|] eqn:Hi; [|done].
  destruct (workerStep e (S i) (p, b)) as [t|] eqn:Ew; [|done]. injection E as <-.
  pose proof (sum_insert restW (threads_ s) i t _ Hi) as Hsum. unfold measure. cbn. rewrite length_insert.
  assert (restW t < restW (p, b))%nat; [|lia]. destruct p; cbn in Ew; try destruct (canStop _ _ _); try done; injection Ew as <-; cbn; lia.
Qed.

Lemma stop_measure s s' : Inv s -> stop s = Some s' -> (measure s' < measure s)%nat.
Proof.
  intros HI E. pose proof (proj1 (i_length s HI)) as Hl.
  unfold stop, awaits in E. destruct (stopper s) as [| |[|w rest]| |] eqn:Es; try done.
  + destruct (running_ s); injection E as <-; unfold measure; cbn; rewrite Es; cbn; lia.
  + assert (Hw : (restS (SWorkers (workers_ s)) <= n + 4)%nat) by (pose proof (length_workers s); cbn; lia).
    pose proof (stopWorker_measure 0 s) as Hm. unfold measure in *. cbn in Hm.
    destruct (threads_ s) eqn:Et; injection E as <-; cbn in *; rewrite Et, Es in *; cbn in *; lia.
  + pose proof (i_once s HI) as Hj. rewrite Es in Hj. specialize (Hj ltac:(cbn; lia)).
    injection E as <-. unfold measure. cbn. rewrite Es, Hj. destruct hook; cbn; lia.
  + injection E as <-. pose proof (stopWorker_measure w s) as Hm.
    destruct (stopWorker_frame w s) as (_ & _ & Hst & _). unfold measure in *.
    cbn [setStopper user ini stopper joiner threads_]. rewrite Hst, Es in Hm. rewrite Es.
    change (restS (SWorkers (w :: rest))) with (S (restS (SWorkers rest))) in *. lia.
  + match type of E with (if ?b then _ else _) = _ => destruct b end; [|done]. injection E as <-.
    unfold measure. cbn. rewrite Es. cbn. lia.
Qed.

Lemma join_measure s s' : Inv s -> joinThread s = Some s' -> (measure s' < measure s)%nat.
Proof.
  intros HI E. pose proof (proj1 (i_length s HI)) as Hl.
  pose proof (i_join s HI) as Hjn. unfold joinThread, awaits in E. destruct (joiner s) as [| | |k| |] eqn:Ej; try done.
  + injection E as <-. unfold measure. cbn. rewrite Ej. cbn. lia.
  + match type of E with (if ?b then _ else _) = _ => destruct b end; [|done]. injection E as <-.
    unfold measure. cbn. rewrite Ej. cbn. lia.
  + destruct (threads_ s !! k) as [[p b]|] eqn:Ek.
    * pose proof (lookup_lt_Some _ _ _ Ek).
      match type of E with (if ?b then _ else _) = _ => destruct b end; [|done]. injection E as <-.
      unfold measure. cbn. rewrite Ej. cbn. lia.
    * injection E as <-. unfold measure. cbn. rewrite Ej. cbn. lia.
  + injection E as <-. unfold measure. cbn. rewrite Ej. cbn. lia.
Qed.

Lemma act_measure e o s s' : Inv s -> act e o s = Some s' -> (measure s' < measure s)%nat.
Proof. destruct o; cbn [act]; eauto using start_measure, init_measure, work_measure, stop_measure, join_measure. Qed.

Lemma acts_measure l s s' : Inv s -> acts l s = Some s' -> (length l + measure s' <= measure s)%nat.
Proof.
  revert s. induction l as [|[e o] l IH]; intros s HI E; cbn in E; [injection E as <-; cbn; lia|].
  destruct (act e o s) as [s1|] eqn:E1; [|done]. pose proof (act_measure e o s s1 HI E1).
  specialize (IH s1 (act_inv e o s s1 HI E1) E). cbn. lia.
Qed.

(** Nothing of the scheduler runs any more. *)
Definition allEnded (s : Scheduler) : Prop := ini s = IEnded /\ forall i, (i < n)%nat -> endedAt (threads_ s) i.

(** ** What the calls promise *)

(** C15: [startAsync] and [wait] return when they should, in every
    interleaving and whatever the queues and timers are at each step.  When [startAsync] has returned all threads of the scheduler
    exist and have reported, and [running_] has been set; when [wait] has
    returned [stop] has been called, [joinThread] has finished, and no thread
    of the scheduler runs any more.  The latches are counted once, and no run
    is longer than a bound that depends on the number of threads only. *)
Theorem scheduler_life l s :
  acts l newScheduler = Some s ->
  ((3 <= rankU (user s))%nat ->
     (length (threads_ s) = n /\ Forall (fun t => t.1 <> WBorn) (threads_ s)) /\ (5 <= rankI (ini s))%nat)
  /\ (user s = UDone -> allEnded s /\ (3 <= rankS (stopper s))%nat /\ joiner s = JDone)
  /\ 0 <= initLatch_ s <= 1 /\ 0 <= quitLatch_ s <= 1
  /\ (length l <= 7 * n + 22)%nat.
Proof.
  intros E. pose proof (acts_inv l _ s newScheduler_inv E) as HI. pose proof (acts_measure l _ s newScheduler_inv E) as Hm.
  split; [|split; [|split; [|split]]].
  - intros Hu. pose proof (i_user s HI Hu) as Hi. split; [|done]. split; [apply (i_length s HI); lia|].
    apply Forall_lookup. intros i [p b] Ht Ep. cbn in Ep. subst p. destruct (i_born s HI i b Ht) as [E' _]. rewrite E' in Hi. cbn in Hi. lia.
  - intros Hu. pose proof (i_done s HI Hu) as Hj. pose proof (i_join s HI) as Hjn. rewrite Hj in Hjn.
    split; [done|]. split; [|done]. destruct (decide (rankS (stopper s) < 3)%nat) as [Hlt|]; [|lia].
    pose proof (i_once s HI Hlt). congruence.
  - destruct (i_latch s HI) as [[-> _]|[-> _]]; lia.
  - destruct (i_quit s HI) as [[-> _]|[-> _]]; lia.
  - unfold measure in Hm. cbn in Hm. lia.
Qed.

(** ** A stop that arrives *)

(** Every worker is in its loop. *)
Definition looping (s : Scheduler) : Prop :=
  ini s = ILoop /\ length (threads_ s) = n /\ Forall (fun t => t.1 = WLoop) (threads_ s).

(** No worker is overlooked: those that have not been stopped are still to
    come. *)
Record Stopping (s : Scheduler) : Prop := {
  p_threads : forall i t, threads_ s !! i = Some t -> t.1 = WLoop \/ t.1 = WEnded;
  p_ini : ini s = ILoop \/ ini s = IEnded;
  p_main : mainRunning s = true -> stopper s = SMain;
  p_flag : forall i p, threads_ s !! i = Some (p, true) ->
    stopper s = SMain \/ exists rest, stopper s = SWorkers rest /\ S i ∈ rest;
  p_stop : stopper s <> SStart;
  p_join : (3 <= rankS (stopper s))%nat -> joiner s <> JNot
}.

Lemma stopping_begins s s' : Inv s -> looping s -> stopper s = SStart -> stop s = Some s' -> Stopping s'.
Proof.
  intros HI (Hi & _ & Ht) Es E. unfold stop in E. rewrite Es in E.
  rewrite (i_set s HI) in E by (rewrite ?Hi, ?Es; cbn; lia). injection E as <-. split; cbn; try done; try lia.
  - intros i t Hit. left. by apply (Forall_lookup_1 _ _ _ _ Ht Hit).
  - by left.
  - by left.
Qed.

Lemma stopping_user s s' : Inv s -> Stopping s -> startAsync s = Some s' -> Stopping s'.
Proof.
  intros HI [] E. unfold startAsync, awaits in E. destruct (user s) eqn:Eu; try done.
  1: { apply (i_start s HI) in Eu. destruct p_ini0; congruence. }
  all: match type of E with (if ?b then _ else _) = _ => destruct b end; [|done]; injection E as <-; by split.
Qed.

Lemma stopping_init e s s' : Stopping s -> init e s = Some s' -> Stopping s'.
Proof.
  intros [Ht Hi Hm Hf Hs Hj] E. unfold init, awaits in E. destruct Hi as [Hi|Hi]; rewrite Hi in E; [|done].
  destruct (canStop e 0 (mainRunning s)) eqn:Em; [|done]. apply canStop_running in Em as [Em _].
  injection E as <-. split; cbn; try done. by right.
Qed.

Lemma stopping_work e i s s' : Stopping s -> work e i s = Some s' -> Stopping s'.
Proof.
  intros [Ht Hi Hm Hf Hs Hj] E. unfold work in E. destruct (threads_ s !! i) as [[p b]|] eqn:Eti; [|done].
  destruct (Ht i _ Eti) as [Ep|Ep]; cbn in Ep; subst p; cbn in E; [|done].
  destruct (canStop e (S i) b) eqn:Ec; [|done]. apply canStop_running in Ec as [-> _]. injection E as <-.
  split; cbn; try done.
  - intros k t Hk. apply list_lookup_insert_Some in Hk as [(_ & <- & _)|[_ Hk]]; [by right|by eapply Ht].
  - intros k p Hk. apply list_lookup_insert_Some in Hk as [(_ & [=] & _)|[_ Hk]]. by eapply Hf.
Qed.

Lemma stopping_stopWorker w s i p :
  threads_ (stopWorker w s) !! i = Some (p, true) -> threads_ s !! i = Some (p, true) /\ w <> S i.
Proof.
  destruct w as [|k]; cbn; [done|]. destruct (decide (k = i)) as [->|Hne].
  - rewrite list_lookup_alter_eq. by destruct (threads_ s !! i) as [[]|].
  - rewrite list_lookup_alter_ne by done. intros ->. split; [done|congruence].
Qed.

Lemma stopWorker_phases w s i t :
  threads_ (stopWorker w s) !! i = Some t -> exists t0, threads_ s !! i = Some t0 /\ t.1 = t0.1.
Proof.
  destruct w as [|k]; cbn; [by exists t|]. destruct (decide (k = i)) as [->|Hne].
  - rewrite list_lookup_alter_eq. destruct (threads_ s !! i) as [t0|]; [|done]. intros [= <-]. by exists t0.
  - rewrite list_lookup_alter_ne by done. by exists t.
Qed.

Lemma stopping_stop s s' : (1 <= n)%nat -> Inv s -> Stopping s -> stop s = Some s' -> Stopping s'.
Proof.
  intros H1 HI [Ht Hi Hm Hf Hs Hj] E. assert (Hl : length (threads_ s) = n).
  { apply (i_length s HI). destruct Hi as [-> | ->]; cbn; lia. }
  assert (Hph : forall w i t, threads_ (stopWorker w s) !! i = Some t -> t.1 = WLoop \/ t.1 = WEnded).
  { intros w i t Hit. destruct (stopWorker_phases w s i t Hit) as (t0 & H0 & ->). by eapply Ht. }
  unfold stop, awaits in E. destruct (stopper s) as [| |[|w rest]| |] eqn:Es; try done.
  - destruct (threads_ s) as [|t0 l] eqn:Et; [cbn in Hl; lia|]. injection E as <-.
    split; cbn [stopper joiner threads_ ini mainRunning setStopper stopWorker setMain rankS]; try done; try lia; rewrite ?Et; try done.
    intros i p Hip. right. eexists. split; [done|]. unfold workers_. apply elem_of_app. right.
    rewrite Et. apply elem_of_seq. apply lookup_lt_Some in Hip. lia.
  - injection E as <-. split; cbn; try done; [by intros H%Hm| |destruct hook; done].
    intros i p Hip. destruct (Hf i p Hip) as [|(? & [= <-] & ?%not_elem_of_nil)]; done.
  - injection E as <-. destruct (stopWorker_frame w s) as (_ & Ei & _ & Ej & _).
    split; cbn [stopper joiner threads_ ini mainRunning setStopper rankS]; try done; try lia.
    + by apply Hph.
    + by rewrite Ei.
    + intros Hmr. destruct w; [done|]. by apply Hm in Hmr.
    + intros i p Hip. apply stopping_stopWorker in Hip as [Hip Hne]. right. exists rest. split; [done|].
      destruct (Hf i p Hip) as [|(? & [= <-] & Hin)]; [done|]. apply elem_of_cons in Hin as [E|]; [congruence|done].
  - match type of E with (if ?b then _ else _) = _ => destruct b end; [|done]. injection E as <-.
    split; cbn; try done; [by intros H%Hm| |by intros _; apply Hj; cbn].
    intros i p Hip. by destruct (Hf i p Hip) as [|(? & ? & _)].
Qed.

Lemma stopping_join s s' : Stopping s -> joinThread s = Some s' -> Stopping s'.
Proof.
  intros [Ht Hi Hm Hf Hs Hj] E. assert (H : exists p q, p <> JNot /\ s' = setJoiner p (setQuitLatch q s)).
  { unfold joinThread, awaits in E. destruct (joiner s) as [| | |k| |]; try done.
    - injection E as <-. by exists JInit, (quitLatch_ s).
    - destruct (ini s); try done; injection E as <-; by exists (JWorkers 0), (quitLatch_ s).
    - destruct (threads_ s !! k) as [[[] ?]|]; try done; injection E as <-.
      + by exists (JWorkers (S k)), (quitLatch_ s).
      + by exists JCount, (quitLatch_ s).
    - injection E as <-. by exists JDone, (quitLatch_ s - 1). }
  destruct H as (p & q & Hp & ->). split; cbn; done.
Qed.

Lemma stopping_act e o s s' : (1 <= n)%nat -> Inv s -> Stopping s -> act e o s = Some s' -> Stopping s'.
Proof.
  intros H1 HI Hs. destruct o; cbn [act];
    [by apply stopping_user|by apply stopping_init|by apply stopping_work|by apply stopping_stop|by apply stopping_join].
Qed.

Lemma stopping_acts l s s' : (1 <= n)%nat -> Inv s -> Stopping s -> acts l s = Some s' -> Inv s' /\ Stopping s'.
Proof.
  intros H1. revert s. induction l as [|[e o] l IH]; intros s HI Hs E; cbn in E; [by injection E as <-|].
  destruct (act e o s) as [s1|] eqn:E1; [|done]. apply (IH s1); [by eapply act_inv|by eapply stopping_act|done].
Qed.

(** Where nothing is queued and no timer is left, somebody can go on until
    everything has returned. *)
Lemma join_progress e s :
  drained e -> Inv s -> Stopping s -> (3 <= rankS (stopper s))%nat -> joiner s = JDone \/ exists o, is_Some (act e o s).
Proof.
  intros Hd HI [Ht Hi Hm Hf Hs Hj] H3. specialize (Hj H3).
  destruct (joiner s) as [| | |k| |] eqn:Ej; [done|..|by left]; right.
  - exists Join. cbn. unfold joinThread. rewrite Ej. by eexists.
  - destruct Hi as [Hi|Hi].
    + exists Init. cbn. unfold init, awaits. rewrite Hi. destruct (mainRunning s) eqn:Em; [|rewrite canStop_drained by done; by eexists].
      by rewrite (Hm eq_refl) in H3; cbn in H3; lia.
    + exists Join. cbn. unfold joinThread, awaits. rewrite Ej, Hi. by eexists.
  - destruct (threads_ s !! k) as [[p b]|] eqn:Ek.
    + destruct (Ht k _ Ek) as [Ep|Ep]; cbn in Ep; subst p.
      * exists (Work k). cbn. unfold work. rewrite Ek. cbn. destruct b; [|rewrite canStop_drained by done; by eexists].
        destruct (Hf k _ Ek) as [E|(r & E & _)]; rewrite E in H3; cbn in H3; lia.
      * exists Join. cbn. unfold joinThread, awaits. rewrite Ej, Ek. by eexists.
    + exists Join. cbn. unfold joinThread. rewrite Ej, Ek. by eexists.
  - exists Join. cbn. unfold joinThread. rewrite Ej. by eexists.
Qed.

Lemma stopping_progress e s :
  drained e -> Inv s -> Stopping s ->
  (exists o, is_Some (act e o s)) \/ user s = UDone /\ stopper s = SReturned /\ allEnded s.
Proof.
  intros Hd HI Hst. pose proof Hst as [Ht Hi Hm Hf Hs Hj]. destruct (decide (rankS (stopper s) < 3)%nat) as [Hlt|Hge].
  - left. exists Stop. cbn. unfold stop. destruct (stopper s) as [| |[|w rest]| |]; cbn in Hlt; try lia; try done; by eexists.
  - destruct (join_progress e s Hd HI Hst ltac:(lia)) as [Ej|]; [|by left].
    pose proof (i_join s HI) as Hjn. rewrite Ej in Hjn. destruct Hjn as [Hie He].
    destruct (stopper s) as [| |?| |] eqn:Es; cbn in Hge; try lia.
    + left. exists Stop. cbn. unfold stop, awaits. rewrite Es, Ej. by eexists.
    + destruct (user s) eqn:Eu; [..|by right].
      * apply (i_start s HI) in Eu. congruence.
      * left. exists User. cbn. unfold startAsync, awaits. rewrite Eu, Hie. by eexists.
      * left. exists User. cbn. unfold startAsync, awaits. rewrite Eu.
        destruct (i_latch s HI) as [[_ Hr]|[-> _]]; [rewrite Hie in Hr; cbn in Hr; lia|by eexists].
      * left. exists User. cbn. unfold startAsync, awaits. rewrite Eu.
        destruct (i_quit s HI) as [[_ Hr]|[-> _]]; [congruence|by eexists].
Qed.

(** While there is a timer nobody leaves the loop. *)
Lemma looping_stopWorker w s : looping s -> looping (stopWorker w s).
Proof.
  intros (Hi & Hl & Hw). destruct w as [|w]; [done|]. split; [done|]. cbn. rewrite length_alter. split; [done|].
  apply Forall_alter; [done|]. by intros x _ ?.
Qed.

Lemma looping_act e o s s' : timers e = true -> Inv s -> looping s -> act e o s = Some s' -> looping s'.
Proof.
  intros Ht HI Hlo E. assert (Hc : forall w b, canStop e w b = false).
  { intros w b. unfold canStop. rewrite Ht. by rewrite andb_false_r. }
  pose proof Hlo as (Hi & Hl & Hw). destruct o as [| |i| |]; cbn [act] in E.
  - unfold startAsync, awaits in E. destruct (user s) eqn:Eu; [by apply (i_start s HI) in Eu; congruence| | | |done].
    all: repeat case_match; simplify_eq; done.
  - unfold init, awaits in E. by rewrite Hi, Hc in E.
  - unfold work in E. destruct (threads_ s !! i) as [[p b]|] eqn:Et; [|done].
    pose proof (Forall_lookup_1 _ _ _ _ Hw Et) as Ep. cbn in Ep. subst p. cbn in E. by rewrite Hc in E.
  - unfold stop, awaits in E. destruct (stopper s) as [| |[|w rest]| |]; [..|done].
    + destruct (running_ s); by injection E as <-.
    + pose proof (looping_stopWorker 0 s Hlo). by destruct (threads_ s); injection E as <-.
    + by injection E as <-.
    + pose proof (looping_stopWorker w s Hlo). by injection E as <-.
    + match type of E with (if ?b then _ else _) = _ => destruct b end; [|done]. by injection E as <-.
  - unfold joinThread, awaits in E. repeat case_match; simplify_eq; done.
Qed.

Lemma looping_acts l s s' :
  Forall (fun x => timers x.1 = true) l -> Inv s -> looping s -> acts l s = Some s' -> looping s'.
Proof.
  intros Hl. revert s. induction Hl as [|[e o] l He _ IH]; intros s HI Hs E; cbn in E; [by injection E as <-|].
  destruct (act e o s) as [s1|] eqn:E1; [|done]. apply (IH s1); [by eapply act_inv|by eapply looping_act|done].
Qed.

(** C33: A [stop] that finds every worker in its loop ends the scheduler,
    whether it is called on a worker or on another thread, once the queues are
    empty and no timer is left.  From the [stop] on every interleaving is
    finite, whatever the queues and the timers are at its steps; and one that
    cannot go on although nothing is queued and no timer is left has brought
    [stop] back, ended all threads of the scheduler and released [wait].  As
    long as the scheduler has a timer, no thread leaves its loop, and [wait]
    does not return. *)
Theorem stop_ends_all l0 s0 s1 l s :
  (1 <= n)%nat -> acts l0 newScheduler = Some s0 -> looping s0 -> stopper s0 = SStart ->
  stop s0 = Some s1 -> acts l s1 = Some s ->
  (length l <= measure s1)%nat
  /\ (forall e, drained e ->
       (exists o, is_Some (act e o s)) \/ user s = UDone /\ stopper s = SReturned /\ allEnded s)
  /\ (Forall (fun x => timers x.1 = true) l -> looping s /\ user s <> UDone).
Proof.
  intros H1 E0 Hlo Es E1 E. pose proof (acts_inv l0 _ s0 newScheduler_inv E0) as HI0.
  pose proof (stop_inv s0 s1 HI0 E1) as HI1. pose proof (stopping_begins s0 s1 HI0 Hlo Es E1) as Hst1.
  pose proof (acts_measure l s1 s HI1 E). split; [lia|].
  destruct (stopping_acts l s1 s H1 HI1 Hst1 E) as [HI Hst]. split.
  - intros e He. by apply stopping_progress.
  - intros Ht. assert (Hl1 : looping s1).
    { unfold stop in E1. rewrite Es in E1. by destruct (running_ s0); injection E1 as <-. }
    pose proof (looping_acts l s1 s Ht HI1 Hl1 E) as Hl. split; [done|]. intros Hu.
    pose proof (i_join s HI) as Hj. rewrite (i_done s HI Hu) in Hj. destruct Hj as [Hie _], Hl as [Hil _]. congruence.
Qed.

(** ** A stop that is lost *)

(** [mainWorker_] is about to overwrite the [running_] that [stop] has
    cleared, or has done so. *)
Record Lost (s : Scheduler) : Prop := {
  o_ini : ini s = IEnter \/ ini s = ILoop /\ mainRunning s = true;
  o_stop : stopper s = SJoining \/ stopper s = SReturned \/ exists rest, stopper s = SWorkers rest /\ 0%nat ∉ rest;
  o_join : joiner s = JNot \/ joiner s = JBorn \/ joiner s = JInit;
  o_quit : quitLatch_ s = 1;
  o_user : user s <> UStart /\ user s <> UDone
}.

Lemma lost_act e o s s' : Lost s -> act e o s = Some s' -> Lost s'.
Proof.
  intros [Hi Hs Hj Hq Hu] E. destruct o as [| |i| |]; cbn [act] in E.
  - unfold startAsync, awaits in E. destruct (user s) eqn:Eu; try by destruct Hu.
    + match type of E with (if ?b then _ else _) = _ => destruct b end; [|done]. injection E as <-. by split.
    + match type of E with (if ?b then _ else _) = _ => destruct b end; [|done]. injection E as <-. by split.
    + by rewrite Hq in E.
  - unfold init, awaits in E. destruct Hi as [Hi|[Hi Hm]]; rewrite Hi in E; [|unfold canStop in E; by rewrite Hm in E].
    injection E as <-. split; cbn; try done. by right.
  - unfold work in E. destruct (threads_ s !! i); [|done]. destruct (workerStep _ _ _); [|done]. injection E as <-. by split.
  - unfold stop, awaits in E. destruct Hs as [Hs|[Hs|(rest & Hs & H0)]]; rewrite Hs in E; [|done|].
    + match type of E with (if ?b then _ else _) = _ => destruct b end; [|done]. injection E as <-.
      split; cbn; try done. by right; left.
    + destruct rest as [|w rest]; injection E as <-.
      * split; cbn; try done; [by left|]. destruct hook; auto.
      * apply not_elem_of_cons in H0 as [Hw H0]. destruct w; [done|]. split; cbn; try done. right. right. by exists rest.
  - unfold joinThread, awaits in E. destruct Hj as [Hj|[Hj|Hj]]; rewrite Hj in E; [done|..].
    + injection E as <-. split; cbn; try done. by right; right.
    + destruct Hi as [Hi|[Hi _]]; by rewrite Hi in E.
Qed.

Lemma lost_acts l s s' : Lost s -> acts l s = Some s' -> Lost s'.
Proof.
  revert s. induction l as [|[e o] l IH]; intros s Hs E; cbn in E; [by injection E as <-|].
  destruct (act e o s) as [s1|] eqn:E1; [|done]. apply (IH s1); [by eapply lost_act|done].
Qed.

(** A [stop] between [initLatch_.countDown()] and [mainWorker_.run()] is
    lost: [startAsync] may have returned, but [run] sets [running_] again
    behind the [stop] of the main worker, which is not stopped a second time
    unless the scheduler has one thread; no interleaving of what is left lets
    [wait] return. *)
Theorem early_stop_hangs l0 s0 e l s :
  single = false -> acts l0 newScheduler = Some s0 -> ini s0 = IEnter -> stopper s0 = SMain ->
  acts ((e, Stop) :: l) s0 = Some s -> user s <> UDone /\ (ini s = IEnter \/ ini s = ILoop).
Proof.
  intros Hsi E0 Hi Es E. pose proof (acts_inv l0 _ s0 newScheduler_inv E0) as HI0.
  assert (Hlost : forall s1, stop s0 = Some s1 -> Lost s1).
  { intros s1 E1. unfold stop in E1. rewrite Es in E1. pose proof (i_once s0 HI0 ltac:(rewrite Es; cbn; lia)) as Hj.
    assert (Hst : stopper s1 = SReturned \/ stopper s1 = SWorkers (workers_ s0)).
    { destruct (threads_ s0); injection E1 as <-; [by left|by right]. }
    assert (Hfr : ini s1 = ini s0 /\ joiner s1 = joiner s0 /\ quitLatch_ s1 = quitLatch_ s0 /\ user s1 = user s0).
    { by destruct (threads_ s0); injection E1 as <-. }
    destruct Hfr as (F1 & F2 & F3 & F4). split; rewrite ?F1, ?F2, ?F3, ?F4; auto.
    - destruct Hst as [?|Hst]; [by right; left|]. right. right. eexists. split; [done|]. unfold workers_. rewrite Hsi.
      cbn [app]. rewrite elem_of_seq. lia.
    - destruct (i_quit s0 HI0) as [[? _]|[_ ?]]; [done|congruence].
    - split; intros Eu; [apply (i_start s0 HI0) in Eu; congruence|apply (i_done s0 HI0) in Eu; congruence]. }
  cbn [acts act] in E. destruct (stop s0) as [s1|]; [|done].
  destruct (lost_acts l s1 s (Hlost s1 eq_refl) E) as [Hi' _ _ _ [_ Hu]]. split; [done|]. destruct Hi' as [?|[? _]]; auto.
Qed.
End Steps.

(** ** Concrete runs *)

(** A scheduler of one thread up to the loops of both workers, and its end. *)
Definition calm : Env := {| queued := fun _ => false; timers := false |}.
Definition demo_start : list (Env * Op) :=
  map (pair calm) [User; Init; User; Init; Work 0; Init; Init; Init; Init; User; Init; Work 0].
Definition demo_end : list (Env * Op) :=
  map (pair calm) [Stop; Stop; Stop; Stop; Init; Work 0; Join; Join; Join; Join; Stop; User].

Lemma scheduler_life_witness :
  exists s, acts 1 true false (demo_start ++ (calm, Stop) :: demo_end) newScheduler = Some s
    /\ user s = UDone /\ allEnded 1 s.
Proof.
  destruct (acts 1 true false (demo_start ++ (calm, Stop) :: demo_end) newScheduler) as [s|] eqn:E; [|vm_compute in E; discriminate].
  exists s. split; [reflexivity|].
  assert (Hu : user s = UDone) by (vm_compute in E; by injection E as <-). split; [exact Hu|].
  apply (scheduler_life 1 true false _ s E). exact Hu.
Defined.

Lemma stop_ends_all_witness :
  exists s0 s1 s, acts 1 true true demo_start newScheduler = Some s0 /\ stop true true s0 = Some s1
    /\ acts 1 true true (map (pair calm) [Stop; Init; Stop]) s1 = Some s
    /\ ((exists o, is_Some (act 1 true true calm o s)) \/ user s = UDone /\ stopper s = SReturned /\ allEnded 1 s).
Proof.
  destruct (acts 1 true true demo_start newScheduler) as [s0|] eqn:E0; [|vm_compute in E0; discriminate].
  destruct (stop true true s0) as [s1|] eqn:E1; [|vm_compute in E0; injection E0 as <-; discriminate].
  destruct (acts 1 true true (map (pair calm) [Stop; Init; Stop]) s1) as [s|] eqn:E;
    [|vm_compute in E0; injection E0 as <-; vm_compute in E1; injection E1 as <-; discriminate].
  exists s0, s1, s. split; [reflexivity|]. split; [exact E1|]. split; [exact E|].
  assert (Hlo : looping 1 s0 /\ stopper s0 = SStart).
  { vm_compute in E0. injection E0 as <-. split; [|reflexivity]. split; [reflexivity|]. split; [reflexivity|].
    by apply Forall_singleton. }
  apply (stop_ends_all 1 true true demo_start s0 s1 (map (pair calm) [Stop; Init; Stop]) s); [lia|exact E0|apply Hlo..|exact E1|exact E|by split].
Defined.

(** [startAsync] has returned, then [stop] runs up to its last line, then the
    main worker enters its loop. *)
Lemma early_stop_hangs_witness :
  let l0 := map (pair calm) [User; Init; User; Init; Work 0; Init; Init; Init; Init; User; Stop]%nat in
  exists s0 s, acts 1 false false l0 newScheduler = Some s0
    /\ acts 1 false false ((calm, Stop) :: map (pair calm) [Init; Stop; Stop]) s0 = Some s /\ mainRunning s = true /\ user s <> UDone.
Proof.
  intros l0. destruct (acts 1 false false l0 newScheduler) as [s0|] eqn:E0; [|vm_compute in E0; discriminate].
  destruct (acts 1 false false ((calm, Stop) :: map (pair calm) [Init; Stop; Stop]) s0) as [s|] eqn:E;
    [|vm_compute in E0; injection E0 as <-; discriminate].
  exists s0, s. split; [reflexivity|]. split; [exact E|].
  assert (H : ini s0 = IEnter /\ stopper s0 = SMain) by (vm_compute in E0; injection E0 as <-; by split).
  split; [vm_compute in E0; injection E0 as <-; vm_compute in E; injection E as <-; reflexivity|].
  apply (early_stop_hangs 1 false false l0 s0 calm (map (pair calm) [Init; Stop; Stop]) s); [reflexivity|exact E0|apply H..|exact E].
Defined.
End Life.
