(* ===== verification/Util.v ===== *)
(** * Numbers and text (src/reyao/util.cc)

    [HexToDec] and [ReadFile], and the standard-library conversions the
    other components use: decimal output of an integer and [std::stoi]. *)

From S2P Require Import Prelude.

Definition is_digit (c : ascii) : bool := (48 <=? code c) && (code c <=? 57).

(** [isspace] of the C locale. *)
Definition is_space (c : ascii) : bool :=
  (code c =? 32) || ((9 <=? code c) && (code c <=? 13)).

Definition toupper (c : ascii) : ascii :=
  if (97 <=? code c) && (code c <=? 122) then chr (code c - 32) else c.

Definition tolower (c : ascii) : ascii :=
  if (65 <=? code c) && (code c <=? 90) then chr (code c + 32) else c.

(** ** HexToDec *)

(** One round of the loop: the digit's value, or the error branch. *)
Definition hex_digit (c : ascii) : option Z :=
  if (48 <=? code c) && (code c <=? 57) then Some (code c - 48)
  else if (65 <=? code (toupper c)) && (code (toupper c) <=? 70)
  then Some (code (toupper c) - 65 + 10)
  else None.

(** [res] is a [size_t]. *)
Fixpoint hex_loop (hex : bytes) (res : Z) : option Z :=
  match hex with
  | [] => Some res
  | c :: hex =>
      match hex_digit c with
      | Some d => hex_loop hex (u64 (res * 16 + d))
      | None => None
      end
  end.

(** The function returns [int]: [res] is cut to 32 bits. *)
Definition HexToDec (hex : bytes) : Z :=
  match hex_loop hex 0 with
  | Some res => i32 res
  | None => -1
  end.

(** *** What it should return *)

(** The hexadecimal digits and what they stand for. *)
Definition hexTable : list (ascii * Z) :=
  zip (bs "0123456789ABCDEFabcdef") [0; 1; 2; 3; 4; 5; 6; 7; 8; 9; 10; 11; 12; 13; 14; 15; 10; 11; 12; 13; 14; 15].

Fixpoint lookupDigit (c : ascii) (l : list (ascii * Z)) : option Z :=
  match l with
  | [] => None
  | (x, d) :: l => if decide (x = c) then Some d else lookupDigit c l
  end.

(** The number a string of hexadecimal digits denotes: each digit counts by its
    place. *)
Fixpoint hex_value (hex : bytes) : option Z :=
  match hex with
  | [] => Some 0
  | c :: hex =>
      match lookupDigit c hexTable, hex_value hex with
      | Some d, Some v => Some (d * 16 ^ zlen hex + v)
      | _, _ => None
      end
  end.

Lemma hex_digit_table c : hex_digit c = lookupDigit c hexTable.
Proof. destruct c as [[] [] [] [] [] [] [] []]; vm_compute; reflexivity. Qed.

Lemma hex_loop_value hex res :
  hex_loop hex (u64 res) =
  match hex_value hex with Some v => Some (u64 (res * 16 ^ zlen hex + v)) | None => None end.
Proof.
  revert res. induction hex as [|c hex IH]; intros res; cbn [hex_loop hex_value].
  - rewrite zlen_nil. f_equal. f_equal. lia.
  - rewrite hex_digit_table. destruct (lookupDigit c hexTable) as [d|]; [|done].
    assert (Eu : u64 (u64 res * 16 + d) = u64 (res * 16 + d)).
    { unfold wrap. rewrite Z.add_mod, Z.mul_mod_idemp_l, <- Z.add_mod by lia. done. }
    rewrite Eu, IH. destruct (hex_value hex) as [v|]; [|done]. f_equal. f_equal.
    rewrite zlen_cons, Z.add_comm, Z.pow_add_r by (apply zlen_nonneg || lia). lia.
Qed.

Lemma lookupDigit_none c l : lookupDigit c l = None <-> c ∉ map fst l.
Proof.
  induction l as [|[x d] l IH]; cbn; [split; [intros _; apply not_elem_of_nil|done]|].
  rewrite not_elem_of_cons. case_decide; naive_solver.
Qed.

Lemma hex_value_none hex :
  hex_value hex = None <-> exists c, c ∈ hex /\ c ∉ bs "0123456789ABCDEFabcdef".
Proof.
  induction hex as [|c hex IH]; cbn [hex_value].
  - split; [done|]. intros (c & ?%not_elem_of_nil & _). done.
  - pose proof (lookupDigit_none c hexTable) as Hc.
    change (map fst hexTable) with (bs "0123456789ABCDEFabcdef") in Hc.
    destruct (lookupDigit c hexTable) as [d|].
    + assert (Hin : c ∈ bs "0123456789ABCDEFabcdef") by (destruct (decide (c ∈ bs "0123456789ABCDEFabcdef")); [done|by apply Hc in n]).
      destruct (hex_value hex) as [v|]; [split; [done|]|split; [|done]].
      * intros (c' & [->|?]%elem_of_cons & Hn); [done|]. assert (Some v = None) by (apply IH; eauto). done.
      * intros _. destruct (proj1 IH eq_refl) as (c' & ? & ?). exists c'. split; [by right|done].
    + split; [|done]. intros _. exists c. split; [by left|by apply Hc].
Qed.



(** ** Decimal output *)

Definition digit (n : Z) : ascii := chr (48 + n).

Fixpoint dec_loop (fuel : nat) (n : Z) (acc : bytes) : bytes :=
  match fuel with
  | O => acc
  | S fuel =>
      let acc := digit (n mod 10) :: acc in
      if n <? 10 then acc else dec_loop fuel (n / 10) acc
  end.

(** [os << n] for an unsigned integer; [log2 n + 1] rounds are enough. *)
Definition dec (n : Z) : bytes := dec_loop (S (Z.to_nat (Z.log2 n))) n [].

(** An [int] in decimal, as [std::to_string] and streams print it. *)
Definition to_string (n : Z) : bytes := if n <? 0 then bs "-" ++ dec (- n) else dec n.

(** ** std::stoi *)

Fixpoint digits_value (l : bytes) (acc : Z) : Z :=
  match l with
  | [] => acc
  | c :: l => if is_digit c then digits_value l (acc * 10 + (code c - 48)) else acc
  end.

Fixpoint skip_spaces (l : bytes) : bytes :=
  match l with
  | [] => []
  | c :: l' => if is_space c then skip_spaces l' else l
  end.

Definition stoi (s : bytes) : result Z :=
  let s := skip_spaces s in
  let '(neg, s) :=
    match s with
    | "-"%char :: s => (true, s)
    | "+"%char :: s => (false, s)
    | _ => (false, s)
    end in
  match s with
  | c :: _ =>
      if is_digit c then
        let v := (if neg then -1 else 1) * digits_value s 0 in
        if decide (- 2 ^ 31 <= v < 2 ^ 31) then Ok v else Throw OutOfRange
      else Throw InvalidArgument
  | [] => Throw InvalidArgument
  end.

Lemma code_digit n : 0 <= n < 10 -> code (digit n) = 48 + n.
Proof. intros. unfold digit. rewrite code_chr, Z.mod_small; lia. Qed.

Lemma is_digit_digit n : 0 <= n < 10 -> is_digit (digit n) = true.
Proof. intros. unfold is_digit. rewrite code_digit by lia. lia. Qed.

Lemma dec_loop_spec fuel n acc :
  0 <= n < 2 ^ Z.of_nat fuel -> fuel <> O ->
  exists l, dec_loop fuel n acc = l ++ acc /\ l <> [] /\ forallb is_digit l = true
            /\ forall k a, digits_value (l ++ k) a = digits_value k (a * 10 ^ zlen l + n).
Proof.
  revert n acc. induction fuel as [|fuel IH]; intros n acc Hn Hf; [done|].
  pose proof (Z.mod_pos_bound n 10 ltac:(lia)) as Hm.
  pose proof (is_digit_digit (n mod 10) Hm) as Hd.
  cbn [dec_loop]. destruct (Z.ltb_spec n 10).
  - exists [digit (n mod 10)]. split; [done|]. split; [done|]. cbn [forallb app digits_value].
    rewrite Hd. split; [done|]. intros k a. rewrite code_digit by done.
    rewrite zlen_cons, zlen_nil, Z.mod_small by lia. f_equal. lia.
  - rewrite Nat2Z.inj_succ, Z.pow_succ_r in Hn by lia.
    assert (n / 10 < 2 ^ Z.of_nat fuel) by (apply Z.div_lt_upper_bound; lia).
    destruct (IH (n / 10) (digit (n mod 10) :: acc)) as (l & E & Hl & Ha & Hv).
    { pose proof (Z.div_pos n 10). lia. }
    { intros ->. cbn in Hn. lia. }
    exists (l ++ [digit (n mod 10)]). rewrite E, <- app_assoc. split; [done|].
    split; [by destruct l|]. rewrite forallb_app, Ha. cbn [forallb]. rewrite Hd. split; [done|].
    intros k a. rewrite <- app_assoc, Hv. cbn [app digits_value]. rewrite Hd, code_digit by done.
    f_equal. rewrite zlen_app, zlen_cons, zlen_nil, Z.add_0_r, Z.pow_add_r by (zlia || lia).
    pose proof (Z.div_mod n 10 ltac:(lia)). lia.
Qed.

Lemma dec_spec n :
  0 <= n -> exists c l, dec n = c :: l /\ forallb is_digit (c :: l) = true
                        /\ forall a, digits_value (c :: l) a = a * 10 ^ zlen (c :: l) + n.
Proof.
  intros Hn. unfold dec.
  destruct (dec_loop_spec (S (Z.to_nat (Z.log2 n))) n []) as (l & E & Hl & Ha & Hv); [|done|].
  { rewrite Nat2Z.inj_succ, Z2Nat.id by apply Z.log2_nonneg.
    destruct (decide (n = 0)) as [->|]; [cbn; lia|].
    pose proof (Z.log2_spec n). lia. }
  rewrite app_nil_r in E. destruct l as [|c l]; [done|].
  exists c, l. rewrite E. split; [done|]. split; [done|].
  intros a. specialize (Hv [] a). by rewrite app_nil_r in Hv.
Qed.

Lemma is_digit_cases c : is_digit c = true -> is_space c = false /\ c <> "-"%char /\ c <> "+"%char.
Proof.
  unfold is_digit, is_space. intros H. apply andb_prop in H as [H1 H2].
  split; [lia|]. split; intros ->; vm_compute in H1; done.
Qed.

Lemma stoi_digits c l :
  is_digit c = true -> 0 <= digits_value (c :: l) 0 < 2 ^ 31 ->
  stoi (c :: l) = Ok (digits_value (c :: l) 0).
Proof.
  intros Hc Hr. pose proof (is_digit_cases c Hc) as (Hs & Hm & Hp).
  unfold stoi. cbn [skip_spaces]. rewrite Hs.
  assert (E : forall (A : Type) (x y z : A),
    match c :: l with "-"%char :: _ => x | "+"%char :: _ => y | _ => z end = z).
  { intros. destruct c as [[] [] [] [] [] [] [] []]; done. }
  replace (match c :: l with "-"%char :: s => (true, s) | "+"%char :: s => (false, s) | _ => (false, c :: l) end)
    with (false, c :: l) by (destruct c as [[] [] [] [] [] [] [] []]; done).
  rewrite Hc, decide_True by lia. f_equal. lia.
Qed.

(** Decimal output is read back by [std::stoi]. *)
Lemma stoi_dec n : 0 <= n < 2 ^ 31 -> stoi (dec n) = Ok n.
Proof.
  intros Hn. destruct (dec_spec n) as (c & l & E & Ha & Hv); [lia|].
  rewrite E. cbn [forallb] in Ha. apply andb_prop in Ha as [Hc _].
  specialize (Hv 0). rewrite Z.mul_0_l, Z.add_0_l in Hv.
  rewrite stoi_digits; [|done|]; rewrite Hv; [done|lia].
Qed.

(** ** ReadFile *)

(** The lines [getline] returns. *)
Fixpoint getlines (cur : bytes) (content : bytes) : list bytes :=
  match content with
  | [] => match cur with [] => [] | _ => [cur] end
  | c :: content =>
      if decide (c = "010"%char) then cur :: getlines [] content
      else getlines (cur ++ [c]) content
  end.

(** [file] is what [pathname] can be opened to, if it can. *)
Definition ReadFile (file : option bytes) : bytes :=
  match file with
  | None => []
  | Some content => List.concat (getlines [] content)
  end.

(** [gettimeofday] gives seconds and microseconds. *)
Definition GetCurrentMs (tv_sec tv_usec : Z) : Z := tv_sec * 1000 + tv_usec / 1000.
