(* ===== verification/Address.v ===== *)
(** * IPv4 addresses (src/reyao/address.h, address.cc)

    The socket address in network byte order, built from a dotted string or a
    host name, and its text form. *)

From S2P Require Import Prelude Endian Util.

Record sockaddr_in := { sin_family : Z; sin_port : Z; sin_addr : Z }.

Definition AF_INET : Z := 2.

Section Address.
Context `{Host}.

(** [inet_pton(AF_INET, ...)]: the four bytes of an address, or failure. *)
Variable inet_pton : bytes -> option bytes.
(** [gethostbyname]: the first address of a host. *)
Variable gethostbyname : bytes -> option bytes.
(** What the memory of a new object holds. *)
Variable garbage : Z.

Definition newAddress : sockaddr_in := {| sin_family := AF_INET; sin_port := 0; sin_addr := 0 |}.

(** The constructor from text. A string that is no address makes [inet_pton]
    return 0, which is not looked at. *)
Definition IPv4Address (addr : bytes) (port : Z) : sockaddr_in :=
  {| sin_family := AF_INET; sin_port := byteSwapOnLittleEndian uint16_t port;
     sin_addr := match inet_pton addr with Some mem => of_mem mem | None => garbage end |}.

Definition getPort (a : sockaddr_in) : Z := byteSwapOnLittleEndian uint16_t (sin_port a).

Definition setPort (port : Z) (a : sockaddr_in) : sockaddr_in :=
  {| sin_family := sin_family a; sin_port := byteSwapOnLittleEndian uint16_t port; sin_addr := sin_addr a |}.

Definition toString (a : sockaddr_in) : bytes :=
  let addr := byteSwapOnLittleEndian uint32_t (sin_addr a) in
  dec (Z.land (Z.shiftr addr 24) 255) ++ bs "." ++ dec (Z.land (Z.shiftr addr 16) 255) ++ bs "."
  ++ dec (Z.land (Z.shiftr addr 8) 255) ++ bs "." ++ dec (Z.land addr 255) ++ bs ":" ++ dec (getPort a).

Definition GetHostByName (hostname : bytes) (port : Z) : sockaddr_in :=
  {| sin_family := AF_INET; sin_port := byteSwapOnLittleEndian uint16_t port;
     sin_addr := match gethostbyname hostname with Some mem => of_mem mem | None => 0 end |}.

Definition CreateByName (hostname : bytes) (port : Z) : sockaddr_in :=
  match gethostbyname hostname with
  | None => IPv4Address (bs "0.0.0.0") 0
  | Some mem => {| sin_family := AF_INET; sin_port := byteSwapOnLittleEndian uint16_t port; sin_addr := of_mem mem |}
  end.

Definition CreateAddress (addr : bytes) (port : Z) : sockaddr_in := IPv4Address addr port.

(** ** Text and memory *)

Definition dotted (a b c d : Z) : bytes := dec a ++ bs "." ++ dec b ++ bs "." ++ dec c ++ bs "." ++ dec d.

(** An octet. *)
Definition octet (z : Z) : Prop := 0 <= z < 256.

(** inet_pton(3): the octets in the order they are written. *)
Definition reads_dotted : Prop :=
  forall a b c d, octet a -> octet b -> octet c -> octet d ->
  inet_pton (dotted a b c d) = Some [chr a; chr b; chr c; chr d].

Lemma code_octet z : octet z -> code (chr z) = z.
Proof. intros. rewrite code_chr. by apply Z.mod_small. Qed.

Lemma land_255 z : Z.land z 255 = z mod 256.
Proof. change 255 with (Z.ones 8). by rewrite Z.land_ones. Qed.

(** The octets of a number, highest first. *)
Lemma octets a b c d : octet a -> octet b -> octet c -> octet d ->
  let v := a * 2 ^ 24 + b * 2 ^ 16 + c * 2 ^ 8 + d in
  Z.land (Z.shiftr v 24) 255 = a /\ Z.land (Z.shiftr v 16) 255 = b /\ Z.land (Z.shiftr v 8) 255 = c
  /\ Z.land v 255 = d.
Proof.
  intros Ha Hb Hc Hd v. unfold octet in *. rewrite !land_255, !Z.shiftr_div_pow2 by lia. unfold v.
  change (2 ^ 24) with 16777216. change (2 ^ 16) with 65536. change (2 ^ 8) with 256.
  split_and!.
  - replace (a * 16777216 + b * 65536 + c * 256 + d) with ((b * 65536 + c * 256 + d) + a * 16777216) by lia.
    rewrite Z.div_add, (Z.div_small (b * 65536 + c * 256 + d)), Z.add_0_l, Z.mod_small by lia. done.
  - replace (a * 16777216 + b * 65536 + c * 256 + d) with ((c * 256 + d) + (a * 256 + b) * 65536) by lia.
    rewrite Z.div_add, (Z.div_small (c * 256 + d)), Z.add_0_l by lia.
    replace (a * 256 + b) with (b + a * 256) by lia. rewrite Z_mod_plus_full, Z.mod_small by lia. done.
  - replace (a * 16777216 + b * 65536 + c * 256 + d) with (d + (a * 65536 + b * 256 + c) * 256) by lia.
    rewrite Z.div_add, (Z.div_small d), Z.add_0_l by lia.
    replace (a * 65536 + b * 256 + c) with (c + (a * 256 + b) * 256) by lia. rewrite Z_mod_plus_full, Z.mod_small by lia. done.
  - replace (a * 16777216 + b * 65536 + c * 256 + d) with (d + (a * 65536 + b * 256 + c) * 256) by lia.
    rewrite Z_mod_plus_full, Z.mod_small by lia. done.
Qed.

(** What the swap makes of an address in memory: the octets in order on a
    little-endian host, in reverse order on the other. *)
Lemma swapped_address a b c d : octet a -> octet b -> octet c -> octet d ->
  byteSwapOnLittleEndian uint32_t (of_mem [chr a; chr b; chr c; chr d])
  = if decide (BYTE_ORDER = LITTLE_ENDIAN) then a * 2 ^ 24 + b * 2 ^ 16 + c * 2 ^ 8 + d
    else d * 2 ^ 24 + c * 2 ^ 16 + b * 2 ^ 8 + a.
Proof.
  intros Ha Hb Hc Hd. rewrite byteSwapOnLittleEndian_swaps. unfold byteSwap, bits, bswap.
  cbn [ity_bytes uint32_t]. rewrite le_bytes_wrap. unfold of_mem. set (mem := [chr a; chr b; chr c; chr d]).
  assert (Hcast : forall x y z w, octet x -> octet y -> octet z -> octet w ->
    cast uint32_t (x + 256 * (y + 256 * (z + 256 * (w + 256 * 0)))) = w * 2 ^ 24 + z * 2 ^ 16 + y * 2 ^ 8 + x).
  { unfold octet. intros. rewrite cast_in_ty; [lia| |cbn; lia]. unfold in_ty, bits. cbn. lia. }
  destruct (decide (BYTE_ORDER = LITTLE_ENDIAN)).
  - change 4%nat with (length mem). rewrite le_bytes_value. unfold mem. cbn [rev app le_value]. rewrite !code_octet by done. by apply Hcast.
  - change 4%nat with (length (rev mem)). rewrite le_bytes_value, rev_involutive. unfold mem. cbn [le_value]. rewrite !code_octet by done. by apply Hcast.
Qed.

Lemma getPort_setPort port a : 0 <= port < 2 ^ 16 -> getPort (setPort port a) = port.
Proof.
  intros Hp. unfold getPort, setPort. cbn [sin_port]. rewrite !byteSwapOnLittleEndian_swaps.
  by apply byteSwap_involutive; [cbn; lia|].
Qed.

(** An address made from a dotted string and a port prints as that string
    and port, and its port is read and set as given; on a big-endian host,
    where the header swaps all the same, the octets print in reverse. *)
Theorem address_round_trip a b c d port :
  reads_dotted -> octet a -> octet b -> octet c -> octet d -> 0 <= port < 2 ^ 16 ->
  let addr := IPv4Address (dotted a b c d) port in
  toString addr
    = (if decide (BYTE_ORDER = LITTLE_ENDIAN) then dotted a b c d else dotted d c b a) ++ bs ":" ++ dec port
  /\ getPort addr = port
  /\ (forall p, 0 <= p < 2 ^ 16 -> getPort (setPort p addr) = p /\ sin_addr (setPort p addr) = sin_addr addr).
Proof.
  intros Hr Ha Hb Hc Hd Hp addr.
  assert (Hport : getPort addr = port) by (exact (getPort_setPort port addr Hp)).
  split; [|split; [done|]].
  - unfold toString. rewrite Hport. cbn [sin_addr addr IPv4Address]. rewrite Hr, swapped_address by done.
    destruct (decide (BYTE_ORDER = LITTLE_ENDIAN)).
    + destruct (octets a b c d) as (-> & -> & -> & ->); try done. unfold dotted. by rewrite <- !app_assoc.
    + destruct (octets d c b a) as (-> & -> & -> & ->); try done. unfold dotted. by rewrite <- !app_assoc.
  - intros p Hpp. split; [by apply getPort_setPort|done].
Qed.
End Address.

(** ** A reader of dotted addresses *)

Fixpoint skip_digits (l : bytes) : bytes :=
  match l with [] => [] | c :: l' => if is_digit c then skip_digits l' else l end.

Definition next_octet (l : bytes) : bytes := drop 1 (skip_digits l).

Definition read_dotted (l : bytes) : option bytes :=
  let l1 := next_octet l in
  let l2 := next_octet l1 in
  let l3 := next_octet l2 in
  Some [chr (digits_value l 0); chr (digits_value l1 0); chr (digits_value l2 0); chr (digits_value l3 0)].

Lemma skip_digits_app l k : forallb is_digit l = true -> skip_digits (l ++ k) = skip_digits k.
Proof.
  induction l as [|c l IH]; intros Hl; [done|]. cbn [forallb app skip_digits] in *.
  apply andb_prop in Hl as [-> Hl]. by apply IH.
Qed.

(** A decimal number before a character that is no digit, or at the end. *)
Lemma read_dec n k :
  octet n -> match head k with Some c => is_digit c = false | None => True end ->
  digits_value (dec n ++ k) 0 = n /\ skip_digits (dec n ++ k) = k.
Proof.
  unfold octet. intros Hn Hk. unfold dec.
  destruct (dec_loop_spec (S (Z.to_nat (Z.log2 n))) n []) as (l & E & _ & Ha & Hv); [|done|].
  { rewrite Nat2Z.inj_succ, Z2Nat.id by apply Z.log2_nonneg.
    destruct (decide (n = 0)) as [->|]; [cbn; lia|]. pose proof (Z.log2_spec n). lia. }
  rewrite E, app_nil_r, Hv, skip_digits_app by done. destruct k as [|c k]; [by cbn; split; [lia|]|].
  cbn in Hk. cbn [digits_value skip_digits]. rewrite Hk. by split; [lia|].
Qed.

Lemma read_dotted_ok : reads_dotted read_dotted.
Proof.
  intros a b c d Ha Hb Hc Hd. unfold read_dotted, dotted, next_octet.
  destruct (read_dec a (bs "." ++ dec b ++ bs "." ++ dec c ++ bs "." ++ dec d) Ha eq_refl) as [-> ->].
  change (drop 1 (bs "." ++ dec b ++ bs "." ++ dec c ++ bs "." ++ dec d)) with (dec b ++ bs "." ++ dec c ++ bs "." ++ dec d).
  destruct (read_dec b (bs "." ++ dec c ++ bs "." ++ dec d) Hb eq_refl) as [-> ->].
  change (drop 1 (bs "." ++ dec c ++ bs "." ++ dec d)) with (dec c ++ bs "." ++ dec d).
  destruct (read_dec c (bs "." ++ dec d) Hc eq_refl) as [-> ->].
  change (drop 1 (bs "." ++ dec d)) with (dec d).
  destruct (read_dec d [] Hd I) as [E5 _]. rewrite app_nil_r in E5. by rewrite E5.
Qed.

Lemma address_round_trip_witness :
  toString (H := x86) (IPv4Address (H := x86) read_dotted 0 (dotted 127 0 0 1) 8000) = bs "127.0.0.1:8000".
Proof.
  destruct (address_round_trip (H := x86) read_dotted 0 127 0 0 1 8000) as [E _];
    [exact read_dotted_ok|unfold octet; lia..|lia|].
  rewrite E. vm_compute. reflexivity.
Defined.
