(* ===== verification/ByteArray.v ===== *)
(** * ByteArray (src/reyao/bytearray.h, src/reyao/bytearray.cc)

    The growing byte buffer under every stream, parser and codec: the
    record is the C++ object ([endian_], [writePos_], [readPos_] and the
    vector [buf_]), the operations run in the state-and-error monad, and
    positions are [size_t] values with their wrap-around. *)

From S2P Require Import Prelude Endian.

(** ** The object *)

Definition kInitSize : Z := 1024.
Definition kCheapPrepend : Z := 8.
Definition CR : ascii := "013"%char.
Definition LF : ascii := "010"%char.
Definition kCRLF : bytes := [CR; LF].

Record ByteArray := {
  endian_ : Z;
  writePos_ : Z;
  readPos_ : Z;
  buf_ : bytes
}.

(** [std::vector<char>::max_size()] and [std::string::max_size()] of libstdc++. *)
Definition vector_max_size : Z := 2 ^ 63 - 1.
Definition string_max_size : Z := 2 ^ 62 - 1.

(** The constructor. *)
Definition newByteArray (init_size : Z) : ByteArray :=
  {| endian_ := BIG_ENDIAN; writePos_ := kCheapPrepend; readPos_ := kCheapPrepend;
     buf_ := replicate (Z.to_nat (u64 (kCheapPrepend + init_size))) zeroc |}.

Definition setWritePos (pos : Z) (b : ByteArray) : ByteArray :=
  {| endian_ := endian_ b; writePos_ := pos; readPos_ := readPos_ b; buf_ := buf_ b |}.
Definition setReadPos (pos : Z) (b : ByteArray) : ByteArray :=
  {| endian_ := endian_ b; writePos_ := writePos_ b; readPos_ := pos; buf_ := buf_ b |}.
Definition setBuf (buf : bytes) (b : ByteArray) : ByteArray :=
  {| endian_ := endian_ b; writePos_ := writePos_ b; readPos_ := readPos_ b; buf_ := buf |}.
Definition setEndian (e : Z) (b : ByteArray) : ByteArray :=
  {| endian_ := e; writePos_ := writePos_ b; readPos_ := readPos_ b; buf_ := buf_ b |}.

Definition getReadSize (b : ByteArray) : Z := u64 (writePos_ b - readPos_ b).
Definition getWriteSize (b : ByteArray) : Z := u64 (zlen (buf_ b) - writePos_ b).
Definition getCapacity (b : ByteArray) : Z := zlen (buf_ b).

(** [&buf_[0] + readPos_], as an index into [buf_]. *)
Definition peek (b : ByteArray) : Z := readPos_ b.

(** ** Capacity, raw reads and writes *)

(** [buf_.resize(n)] *)
Definition resizeBuf (n : Z) : M ByteArray unit :=
  check (n <=? vector_max_size) LengthError ;;;
  modify (fun b => setBuf (resize (Z.to_nat n) zeroc (buf_ b)) b).

(** The parameter is an [int]: the caller's [size_t] is converted.  The
    self-overlapping [std::copy] moves the bytes, as the library does. *)
Definition addCapacity (size : Z) : M ByteArray unit :=
  let size := i32 size in
  b <-- gets id ;;
  if u64 (getWriteSize b + readPos_ b) <? u64 (u64 size + kCheapPrepend) then
    resizeBuf (u64 (writePos_ b + u64 size))
  else
    assert_ (kCheapPrepend <=? readPos_ b) ;;;
    let read_size := getReadSize b in
    check ((readPos_ b <=? writePos_ b) && (writePos_ b <=? zlen (buf_ b))) Undefined ;;;
    modify (fun b =>
      setWritePos (u64 (kCheapPrepend + read_size))
        (setReadPos kCheapPrepend
          (setBuf (memput kCheapPrepend (slice (readPos_ b) (writePos_ b) (buf_ b)) (buf_ b)) b))).

(** A store of [d] at the write position through a pointer: the [memcpy]
    of [write], or what [recv] or [SerializeWithCachedSizesToArray] put
    into the area [getWriteArea] returned. *)
Definition storeAtWritePos (d : bytes) : M ByteArray unit :=
  b <-- gets id ;;
  check (writePos_ b + zlen d <=? zlen (buf_ b)) Undefined ;;;
  modify (fun b => setBuf (memput (writePos_ b) d (buf_ b)) b).

Definition write (d : bytes) : M ByteArray unit :=
  if zlen d =? 0 then ret tt
  else
    addCapacity (zlen d) ;;;
    storeAtWritePos d ;;;
    modify (fun b => setWritePos (u64 (writePos_ b + zlen d)) b).

Definition read (size : Z) : M ByteArray bytes :=
  b <-- gets id ;;
  if getReadSize b <? size then throw OutOfRange
  else
    check (readPos_ b + size <=? zlen (buf_ b)) Undefined ;;;
    modify (fun b => setReadPos (u64 (readPos_ b + size)) b) ;;;
    ret (slice (readPos_ b) (readPos_ b + size) (buf_ b)).

(** The returned pointer is the write position. *)
Definition getWriteArea (len : Z) : M ByteArray Z :=
  addCapacity len ;;; gets writePos_.

(** The bytes at the returned pointer, as many as the updated [*len]. *)
Definition getReadArea (len : Z) : M ByteArray bytes :=
  b <-- gets id ;;
  let len := if getReadSize b <? len then getReadSize b else len in
  check (readPos_ b + len <=? zlen (buf_ b)) Undefined ;;;
  ret (slice (readPos_ b) (readPos_ b + len) (buf_ b)).

Definition reset : M ByteArray unit :=
  modify (fun b => setWritePos 0 (setReadPos 0 b)) ;;;
  resizeBuf kInitSize.

Definition writePrepend (data : bytes) : M ByteArray unit :=
  b <-- gets id ;;
  assert_ (zlen data <=? readPos_ b) ;;;
  modify (fun b => setReadPos (u64 (readPos_ b - zlen data)) b) ;;;
  check (readPos_ b <=? zlen (buf_ b)) Undefined ;;;
  modify (fun b => setBuf (memput (readPos_ b) data (buf_ b)) b).

(** [std::search] for [kCRLF]: the offset of the first match. *)
Fixpoint searchCRLF (l : bytes) : option Z :=
  match l with
  | [] => None
  | c :: l' =>
      match l' with
      | c' :: _ => if decide (c = CR /\ c' = LF) then Some 0 else Z.succ <$> searchCRLF l'
      | [] => None
      end
  end.

(** [None] for [nullptr], otherwise an index into [buf_]. *)
Definition findCRLF (b : ByteArray) : option Z :=
  (fun off => readPos_ b + off) <$> searchCRLF (slice (readPos_ b) (writePos_ b) (buf_ b)).

(** The string an index pair of the buffer stands for. *)
Definition text (b : ByteArray) (start finish : Z) : bytes := slice start finish (buf_ b).

(** ** Integers, floats, strings *)

Section Typed.
Context `{Host}.

(** The shared body of the [writeIntN]/[writeUintN] and [readIntN]/[readUintN]. *)
Definition writeScalar (t : IntTy) (v : Z) : M ByteArray unit :=
  b <-- gets id ;;
  let v := if decide (endian_ b = BYTE_ORDER) then v else byteSwap t v in
  write (to_mem (ity_bytes t) v).

Definition readScalar (t : IntTy) : M ByteArray Z :=
  l <-- read (Z.of_nat (ity_bytes t)) ;;
  b <-- gets id ;;
  let v := cast t (of_mem l) in
  ret (if decide (endian_ b = BYTE_ORDER) then v else byteSwap t v).

Definition writeInt8 (v : Z) : M ByteArray unit := write (to_mem 1 v).
Definition writeUint8 (v : Z) : M ByteArray unit := write (to_mem 1 v).
Definition writeInt16 := writeScalar int16_t.
Definition writeUint16 := writeScalar uint16_t.
Definition writeInt32 := writeScalar int32_t.
Definition writeUint32 := writeScalar uint32_t.
Definition writeInt64 := writeScalar int64_t.
Definition writeUint64 := writeScalar uint64_t.

(** A [float] or [double] is its bit pattern; [writeInt32(v)] converts it. *)
Definition writeFloat (pattern : Z) : M ByteArray unit := writeInt32 (cast int32_t pattern).
Definition writeDouble (pattern : Z) : M ByteArray unit := writeInt64 (cast int64_t pattern).

Definition writeString (s : bytes) : M ByteArray unit := write s.
Definition writeString16 (s : bytes) : M ByteArray unit :=
  writeUint16 (cast uint16_t (zlen s)) ;;; write s.
Definition writeString32 (s : bytes) : M ByteArray unit :=
  writeUint32 (cast uint32_t (zlen s)) ;;; write s.
Definition writeString64 (s : bytes) : M ByteArray unit :=
  writeUint64 (zlen s) ;;; write s.

Definition readInt8 : M ByteArray Z := l <-- read 1 ;; ret (cast int8_t (of_mem l)).
Definition readUint8 : M ByteArray Z := l <-- read 1 ;; ret (cast uint8_t (of_mem l)).
Definition readInt16 := readScalar int16_t.
Definition readUint16 := readScalar uint16_t.
Definition readInt32 := readScalar int32_t.
Definition readUint32 := readScalar uint32_t.
Definition readInt64 := readScalar int64_t.
Definition readUint64 := readScalar uint64_t.
Definition readFloat : M ByteArray Z := readUint32.
Definition readDouble : M ByteArray Z := readUint64.

(** [buf.resize(len)], then [read]. *)
Definition readBytes (len : Z) : M ByteArray bytes :=
  check (len <=? string_max_size) LengthError ;;; read len.
Definition readString16 : M ByteArray bytes := len <-- readUint16 ;; readBytes len.
Definition readString32 : M ByteArray bytes := len <-- readUint32 ;; readBytes len.
Definition readString64 : M ByteArray bytes := len <-- readUint64 ;; readBytes len.
End Typed.

(** ** Whole-buffer conversions *)

Definition toString : M ByteArray bytes :=
  b <-- gets id ;;
  check (getReadSize b <=? string_max_size) LengthError ;;;
  if getReadSize b =? 0 then ret [] else read (getReadSize b).

Definition hexdig (n : Z) : ascii := chr (if n <? 10 then 48 + n else 87 + n).

Fixpoint hexDump (i : Z) (l : bytes) : bytes :=
  match l with
  | [] => []
  | c :: l =>
      (if (0 <? i) && (i mod 32 =? 0) then [LF] else [])
      ++ [hexdig (code c / 16); hexdig (code c mod 16); " "%char]
      ++ hexDump (i + 1) l
  end.

Definition toHexString : M ByteArray bytes := s <-- toString ;; ret (hexDump 0 s).

(** [ofs.write] of the readable bytes: [None] when the file cannot be opened. *)
Definition writeToFile (can_open : bool) (b : ByteArray) : option bytes :=
  if can_open then Some (slice (readPos_ b) (readPos_ b + getReadSize b) (buf_ b)) else None.

(** The loop of [readFromFile]: [eof] is set by the read that comes up
    short.  One round per full block and one more: the length bounds them. *)
Fixpoint readBlocks (fuel : nat) (content : bytes) : M ByteArray unit :=
  match fuel with
  | O => ret tt
  | S fuel =>
      write (take (Z.to_nat kInitSize) content) ;;;
      if zlen content <? kInitSize then ret tt
      else readBlocks fuel (drop (Z.to_nat kInitSize) content)
  end.

Definition readFromFile (file : option bytes) : M ByteArray bool :=
  match file with
  | None => ret false
  | Some content => readBlocks (S (length content)) content ;;; ret true
  end.

(** ** Invariant and abstraction *)

Record wf (b : ByteArray) : Prop := {
  wf_read : 0 <= readPos_ b;
  wf_write : readPos_ b <= writePos_ b;
  wf_buf : writePos_ b <= zlen (buf_ b);
  wf_max : zlen (buf_ b) <= vector_max_size
}.

(** What the buffer promises: it is a queue of bytes. *)
Definition contents (b : ByteArray) : bytes := slice (readPos_ b) (writePos_ b) (buf_ b).

(** [b] stands for the queue [q] and may be written to: the prepend area is
    untouched.  [writePrepend] and [reset] give that up. *)
Record rep (b : ByteArray) (q : bytes) : Prop := {
  rep_wf : wf b;
  rep_prepend : kCheapPrepend <= readPos_ b;
  rep_contents : contents b = q
}.

(** [n] more bytes may be written before sizes leave their C++ types. *)
Definition room (n : Z) (b : ByteArray) : Prop :=
  0 <= n < 2 ^ 31 /\ writePos_ b + n <= vector_max_size.

Ltac in_bounds :=
  repeat match goal with
  | |- context [bits ?t] => let n := eval vm_compute in (bits t) in change (bits t) with n
  | H : context [bits ?t] |- _ => let n := eval vm_compute in (bits t) in change (bits t) with n in H
  | |- in_ty _ _ => unfold in_ty; cbn [ity_signed int8_t uint8_t int16_t uint16_t int32_t uint32_t int64_t uint64_t]
  end; zlens; lia.

Ltac unfold_sizes :=
  unfold getReadSize, getWriteSize, vector_max_size, string_max_size, kCheapPrepend in *.

Lemma getReadSize_contents b : wf b -> getReadSize b = zlen (contents b).
Proof.
  intros [? ? ? ?]. unfold contents. rewrite zlen_slice by lia.
  unfold_sizes. rewrite wrap_small; lia.
Qed.

Lemma contents_length b : wf b -> zlen (contents b) = writePos_ b - readPos_ b.
Proof. intros [? ? ? ?]. unfold contents. rewrite zlen_slice; lia. Qed.

Lemma new_rep n : 0 <= n < 2 ^ 62 -> rep (newByteArray n) [].
Proof.
  intros Hn. split; [split|..]; cbn -[Z.pow] in *; unfold_sizes; try lia.
  - unfold zlen. rewrite length_replicate, wrap_small by lia. lia.
  - unfold zlen. rewrite length_replicate, wrap_small by lia. lia.
  - unfold contents. cbn. apply slice_empty.
Qed.

(** [addCapacity] makes room behind the write position and keeps the queue,
    whether it grows the vector or moves the bytes to the front. *)
Lemma addCapacity_spec n b q :
  rep b q -> room n b ->
  exists b', addCapacity n b = (Ok tt, b') /\ rep b' q
    /\ writePos_ b' + n <= zlen (buf_ b') /\ writePos_ b' <= writePos_ b
    /\ endian_ b' = endian_ b.
Proof.
  intros [[? ? Hb ?] Hp Hq] [Hn Hr]. unfold addCapacity.
  rewrite (swrap_small 32) by (cbn; lia). unfold_sizes.
  erewrite bind_ok by done. cbn [id].
  rewrite !(wrap_small 64) by (rewrite ?(wrap_small 64); lia).
  destruct (Z.ltb_spec (zlen (buf_ b) - writePos_ b + readPos_ b) (n + 8)) as [Hlt|Hge].
  - unfold resizeBuf, check. rewrite (proj2 (Z.leb_le _ _)) by (unfold_sizes; lia).
    eexists. split; [reflexivity|]. cbn [id setBuf writePos_ readPos_ buf_ endian_].
    rewrite zlen_resize by lia. repeat split; cbn; rewrite ?zlen_resize; unfold_sizes; try lia.
    unfold contents in *. cbn. rewrite slice_resize by lia. done.
  - unfold assert_, check. rewrite (proj2 (Z.leb_le _ _)) by lia.
    rewrite !(proj2 (Z.leb_le _ _)) by lia. cbn [andb].
    assert (Hs : zlen (slice (readPos_ b) (writePos_ b) (buf_ b)) = writePos_ b - readPos_ b)
      by (apply zlen_slice; lia).
    eexists. split; [reflexivity|]. cbn [id setBuf setReadPos setWritePos writePos_ readPos_ buf_ endian_].
    rewrite zlen_memput by lia.
    repeat split; cbn; rewrite ?zlen_memput by lia; unfold_sizes; try lia.
    unfold contents in *. cbn. rewrite <- Hs, slice_memput_at by lia. done.
Qed.

Lemma storeAtWritePos_spec d b q :
  rep b q -> writePos_ b + zlen d <= zlen (buf_ b) ->
  exists b', storeAtWritePos d b = (Ok tt, b')
    /\ rep (setWritePos (u64 (writePos_ b' + zlen d)) b') (q ++ d)
    /\ rep b' q
    /\ u64 (writePos_ b' + zlen d) = writePos_ b + zlen d
    /\ writePos_ b' = writePos_ b /\ endian_ b' = endian_ b /\ zlen (buf_ b') = zlen (buf_ b).
Proof.
  intros [[? ? Hb ?] Hp Hq] Hd. unfold storeAtWritePos.
  erewrite bind_ok by done. cbn [id]. unfold check.
  rewrite (proj2 (Z.leb_le _ _)) by lia. eexists. split; [reflexivity|].
  zlens. unfold_sizes. unfold setBuf. cbn [writePos_ readPos_ buf_ endian_].
  rewrite (wrap_small 64) by lia. rewrite zlen_memput by lia.
  unfold contents in *.
  repeat split; unfold setWritePos; cbn [writePos_ readPos_ buf_ endian_];
    rewrite ?zlen_memput by lia; unfold_sizes; try lia.
  - unfold contents. cbn. rewrite (slice_app _ (writePos_ b)) by lia.
    rewrite slice_memput_before, slice_memput_at by lia. by rewrite Hq.
  - unfold contents. cbn. by rewrite slice_memput_before by lia.
Qed.

Lemma write_spec d b q :
  rep b q -> room (zlen d) b ->
  exists b', write d b = (Ok tt, b') /\ rep b' (q ++ d)
    /\ writePos_ b' <= writePos_ b + zlen d /\ endian_ b' = endian_ b.
Proof.
  intros Hb Hr. unfold write. destruct (Z.eqb_spec (zlen d) 0) as [E|E].
  - apply zlen_0 in E as ->. rewrite app_nil_r, zlen_nil. exists b. split; [done|]. split; [done|lia].
  - destruct (addCapacity_spec _ _ _ Hb Hr) as (b1 & E1 & Hb1 & Hw & Hle & He).
    destruct (storeAtWritePos_spec d b1 q Hb1 Hw) as (b2 & E2 & Hb2 & _ & Hu & _ & He2 & _).
    erewrite bind_ok by exact E1. erewrite bind_ok by exact E2.
    eexists. split; [reflexivity|]. split; [done|]. cbn. split; [lia|congruence].
Qed.

Lemma read_spec n b q :
  rep b q -> 0 <= n ->
  if decide (n <= zlen q)
  then exists b', read n b = (Ok (take (Z.to_nat n) q), b') /\ rep b' (drop (Z.to_nat n) q)
         /\ writePos_ b' = writePos_ b /\ endian_ b' = endian_ b
  else read n b = (Throw OutOfRange, b).
Proof.
  intros [Hwf Hp Hq] Hn. pose proof (getReadSize_contents b Hwf) as Hsz.
  pose proof (contents_length b Hwf) as Hl. rewrite Hq in *. destruct Hwf as [? ? ? ?].
  unfold read. erewrite bind_ok by done. cbn [id]. rewrite Hsz.
  case_decide as Hd.
  - rewrite (proj2 (Z.ltb_ge _ _)) by lia. unfold check.
    rewrite (proj2 (Z.leb_le _ _)) by lia. unfold_sizes.
    eexists. split; [|split; [|split]].
    + unfold bind, ret, modify. rewrite (wrap_small 64) by lia. rewrite <- Hq. unfold contents.
      rewrite take_slice by lia. by rewrite Z2Nat.id by lia.
    + split; [split|..]; cbn; unfold_sizes; try lia.
      unfold contents in *. cbn. rewrite <- Hq, drop_slice by lia. by rewrite Z2Nat.id by lia.
    + done.
    + done.
  - by rewrite (proj2 (Z.ltb_lt _ _)) by lia.
Qed.

Lemma getWriteArea_spec n b q :
  rep b q -> room n b ->
  exists b', getWriteArea n b = (Ok (writePos_ b'), b') /\ rep b' q
    /\ writePos_ b' + n <= zlen (buf_ b') /\ writePos_ b' <= writePos_ b
    /\ endian_ b' = endian_ b.
Proof.
  intros Hb Hr. destruct (addCapacity_spec n b q Hb Hr) as (b' & E & ?).
  exists b'. split; [|done]. unfold getWriteArea. by erewrite bind_ok by exact E.
Qed.

Lemma getReadArea_spec n b q :
  rep b q -> 0 <= n -> getReadArea n b = (Ok (take (Z.to_nat n) q), b).
Proof.
  intros [Hwf Hp Hq] Hn. pose proof (getReadSize_contents b Hwf) as Hsz.
  pose proof (contents_length b Hwf) as Hl. rewrite Hq in *. destruct Hwf as [? ? ? ?].
  unfold getReadArea. erewrite bind_ok by done. cbn [id]. rewrite Hsz.
  assert (E : take (Z.to_nat n) q =
    slice (readPos_ b) (readPos_ b + (if zlen q <? n then zlen q else n)) (buf_ b)).
  { destruct (Z.ltb_spec (zlen q) n).
    - replace (readPos_ b + zlen q) with (writePos_ b) by lia. fold (contents b). rewrite Hq.
      apply firstn_all2. unfold zlen in *. lia.
    - rewrite <- Hq. unfold contents. rewrite take_slice by lia. f_equal. lia. }
  rewrite E. unfold check.
  rewrite (proj2 (Z.leb_le _ _)); [done|]. destruct (Z.ltb_spec (zlen q) n); lia.
Qed.

Lemma toString_spec b q :
  rep b q -> zlen q <= string_max_size ->
  exists b', toString b = (Ok q, b') /\ rep b' [] /\ writePos_ b' = writePos_ b /\ endian_ b' = endian_ b.
Proof.
  intros Hb Hq. pose proof (getReadSize_contents b (rep_wf _ _ Hb)) as Hs.
  rewrite (rep_contents _ _ Hb) in Hs.
  unfold toString. erewrite bind_ok by done. cbn [id]. rewrite Hs. unfold check.
  rewrite (proj2 (Z.leb_le _ _)) by done.
  destruct (Z.eqb_spec (zlen q) 0) as [E|E].
  - apply zlen_0 in E as ->. by exists b.
  - pose proof (read_spec (zlen q) b q Hb (zlen_nonneg q)) as H.
    rewrite decide_True in H by lia. destruct H as (b' & E1 & Hb' & Hw & He).
    exists b'. unfold bind, ret. rewrite E1. unfold zlen in *. rewrite Nat2Z.id in *.
    rewrite firstn_all in *. rewrite drop_all in Hb'. done.
Qed.

Section Typed_facts.
Context `{Host}.

Lemma writeScalar_spec t v b q :
  (0 < ity_bytes t)%nat -> rep b q -> valid_endian (endian_ b) ->
  room (Z.of_nat (ity_bytes t)) b ->
  exists b', writeScalar t v b = (Ok tt, b')
    /\ rep b' (q ++ wire (endian_ b) (ity_bytes t) v)
    /\ writePos_ b' <= writePos_ b + Z.of_nat (ity_bytes t) /\ endian_ b' = endian_ b.
Proof.
  intros Ht Hb He Hr. unfold writeScalar. erewrite bind_ok by done. cbn [id].
  cbv zeta. rewrite to_mem_wire by done. rewrite <- (zlen_wire (endian_ b) _ v).
  apply write_spec; [done|]. by rewrite zlen_wire.
Qed.

(** A read of [ity_bytes t] bytes or [OutOfRange] with the queue as it was. *)
Lemma readScalar_spec t b q :
  (0 < ity_bytes t)%nat -> rep b q -> valid_endian (endian_ b) ->
  let n := ity_bytes t in
  if decide (Z.of_nat n <= zlen q)
  then exists b', readScalar t b = (Ok (cast t (unwire (endian_ b) (take n q))), b')
         /\ rep b' (drop n q) /\ writePos_ b' = writePos_ b /\ endian_ b' = endian_ b
  else readScalar t b = (Throw OutOfRange, b).
Proof.
  intros Ht Hb He n. pose proof (read_spec (Z.of_nat n) b q Hb (Nat2Z.is_nonneg n)) as Hread.
  unfold readScalar. fold n. case_decide as Hd.
  - destruct Hread as (b' & E & Hb' & Hw & Hen). rewrite Nat2Z.id in *.
    exists b'. erewrite bind_ok by exact E. split; [|done].
    erewrite bind_ok by done. cbn [id]. rewrite Hen.
    rewrite of_mem_wire; [done|done| |done].
    rewrite length_take. unfold zlen, n in *. lia.
  - by erewrite bind_throw by exact Hread.
Qed.

Lemma readScalar_wire t v b q :
  (0 < ity_bytes t)%nat -> in_ty t v -> valid_endian (endian_ b) ->
  rep b (wire (endian_ b) (ity_bytes t) v ++ q) ->
  exists b', readScalar t b = (Ok v, b') /\ rep b' q /\ endian_ b' = endian_ b.
Proof.
  intros Ht Hv He Hb. pose proof (readScalar_spec t b _ Ht Hb He) as Hr. cbn zeta in Hr.
  rewrite decide_True in Hr by (rewrite zlen_app, zlen_wire; zlia).
  destruct Hr as (b' & E & Hb' & _ & He'). exists b'.
  rewrite take_app_length' in E by (by rewrite length_wire).
  rewrite drop_app_length' in Hb' by (by rewrite length_wire).
  rewrite unwire_wire in E. fold (bits t) in E.
  rewrite cast_wrap, cast_in_ty in E by done. done.
Qed.

Lemma readBytes_spec s b q :
  rep b (s ++ q) -> zlen s <= string_max_size ->
  exists b', readBytes (zlen s) b = (Ok s, b') /\ rep b' q /\ endian_ b' = endian_ b.
Proof.
  intros Hb Hs. unfold readBytes, check. rewrite (proj2 (Z.leb_le _ _)) by done.
  pose proof (read_spec (zlen s) b _ Hb (zlen_nonneg s)) as Hr.
  rewrite decide_True in Hr by (rewrite zlen_app; zlia).
  destruct Hr as (b' & E & Hb' & _ & He). exists b'.
  unfold zlen in E, Hb'. rewrite Nat2Z.id, take_app_length in E.
  rewrite Nat2Z.id, drop_app_length in Hb'. by erewrite bind_ok by done.
Qed.
End Typed_facts.

(** ** The buffer as an abstract data type

    A client's calls, what they return, and the byte queue that answers
    the same way. *)

Inductive op : Type :=
| OpWrite (d : bytes)
| OpFill (cap : Z) (d : bytes)   (** [getWriteArea(cap)], a store of [d], [setWritePos] *)
| OpRead (n : Z)
| OpWriteInt (t : IntTy) (v : Z)
| OpReadInt (t : IntTy)
| OpPeek (n : Z)                 (** [getReadArea] *)
| OpFindCRLF                     (** [findCRLF() - peek()] *)
| OpToString.

Inductive out : Type :=
| OUnit | OBytes (l : bytes) | OInt (z : Z) | OPos (p : option Z).

Definition op_ok (o : op) : Prop :=
  match o with
  | OpWrite d => zlen d < 2 ^ 31
  | OpFill cap d => zlen d <= cap < 2 ^ 31
  | OpRead n | OpPeek n => 0 <= n
  | OpWriteInt t _ => (0 < ity_bytes t <= 8)%nat
  | OpReadInt t => (0 < ity_bytes t)%nat
  | OpFindCRLF | OpToString => True
  end.

(** The room an operation asks for. *)
Definition demand (o : op) : Z :=
  match o with
  | OpWrite d => zlen d
  | OpFill cap _ => cap
  | OpWriteInt t _ => Z.of_nat (ity_bytes t)
  | _ => 0
  end.

Definition demands (ops : list op) : Z := foldr (fun o n => demand o + n) 0 ops.

Fixpoint run {S} (ex : op -> M S out) (ops : list op) (s : S) : list (result out) * S :=
  match ops with
  | [] => ([], s)
  | o :: ops => let '(r, s) := ex o s in let '(rs, s) := run ex ops s in (r :: rs, s)
  end.

Definition exec `{Host} (o : op) : M ByteArray out :=
  match o with
  | OpWrite d => write d ;;; ret OUnit
  | OpFill cap d =>
      getWriteArea cap ;;; storeAtWritePos d ;;;
      modify (fun b => setWritePos (u64 (writePos_ b + zlen d)) b) ;;; ret OUnit
  | OpRead n => l <-- read n ;; ret (OBytes l)
  | OpWriteInt t v => writeScalar t v ;;; ret OUnit
  | OpReadInt t => v <-- readScalar t ;; ret (OInt v)
  | OpPeek n => l <-- getReadArea n ;; ret (OBytes l)
  | OpFindCRLF => b <-- gets id ;; ret (OPos ((fun p => p - peek b) <$> findCRLF b))
  | OpToString => l <-- toString ;; ret (OBytes l)
  end.

(** The queue: writes append, reads take from the front or throw. *)
Definition queue (e : Z) (o : op) : M bytes out := fun q =>
  let take_n n := if decide (n <= zlen q)
                  then Some (take (Z.to_nat n) q, drop (Z.to_nat n) q) else None in
  match o with
  | OpWrite d | OpFill _ d => (Ok OUnit, q ++ d)
  | OpRead n =>
      match take_n n with Some (l, q') => (Ok (OBytes l), q') | None => (Throw OutOfRange, q) end
  | OpWriteInt t v => (Ok OUnit, q ++ wire e (ity_bytes t) v)
  | OpReadInt t =>
      match take_n (Z.of_nat (ity_bytes t)) with
      | Some (l, q') => (Ok (OInt (cast t (unwire e l))), q')
      | None => (Throw OutOfRange, q)
      end
  | OpPeek n => (Ok (OBytes (take (Z.to_nat n) q)), q)
  | OpFindCRLF => (Ok (OPos (searchCRLF q)), q)
  | OpToString => (Ok (OBytes q), [])
  end.

Lemma fill_spec cap d b q :
  rep b q -> zlen d <= cap -> room cap b ->
  exists b', (getWriteArea cap ;;; storeAtWritePos d ;;;
              modify (fun b => setWritePos (u64 (writePos_ b + zlen d)) b)) b = (Ok tt, b')
    /\ rep b' (q ++ d) /\ writePos_ b' <= writePos_ b + zlen d /\ endian_ b' = endian_ b.
Proof.
  intros Hb Hd Hr.
  destruct (getWriteArea_spec cap b q Hb Hr) as (b1 & E1 & Hb1 & Hw & Hle & He).
  destruct (storeAtWritePos_spec d b1 q Hb1 ltac:(lia)) as (b2 & E2 & Hb2 & _ & Hu & _ & He2 & _).
  erewrite bind_ok by exact E1. erewrite bind_ok by exact E2.
  eexists. split; [reflexivity|]. split; [done|]. cbn. split; [lia|congruence].
Qed.

Lemma findCRLF_contents b q :
  rep b q -> (fun p => p - peek b) <$> findCRLF b = searchCRLF q.
Proof.
  intros [_ _ <-]. unfold findCRLF, contents, peek.
  destruct (searchCRLF _) as [off|]; cbn; [f_equal; lia|done].
Qed.

(** One call: same answer, and the buffer stands for the queue's new state. *)
Lemma exec_refines `{Host} o b q :
  rep b q -> valid_endian (endian_ b) -> op_ok o ->
  writePos_ b + demand o <= string_max_size ->
  exists b', exec o b = (fst (queue (endian_ b) o q), b')
    /\ rep b' (snd (queue (endian_ b) o q))
    /\ writePos_ b' <= writePos_ b + demand o /\ endian_ b' = endian_ b.
Proof.
  intros Hb He Hok Hd.
  assert (Hlen : zlen q <= writePos_ b).
  { destruct Hb as [Hwf Hp <-]. rewrite contents_length by done.
    unfold_sizes. lia. }
  destruct o as [d|cap d|n|t v|t|n| |]; cbn [exec op_ok demand queue] in *.
  - destruct (write_spec d b q Hb) as (b' & E & ?).
    { split; [zlia|]. unfold_sizes. lia. }
    exists b'. by erewrite bind_ok by exact E.
  - destruct (fill_spec cap d b q Hb) as (b' & E & Hrep & Hw & Hen); [lia| |].
    { split; [zlia|]. unfold_sizes. lia. }
    exists b'. split; [|split; [done|split; [lia|done]]].
    unfold bind in *. revert E.
    repeat (match goal with |- context [match ?m with _ => _ end] =>
      match m with context [match _ with _ => _ end] => fail 1 | _ => destruct m as [[]?] end end);
      intros [=]; by subst.
  - pose proof (read_spec n b q Hb Hok) as Hr. case_decide.
    + destruct Hr as (b' & E & ? & ? & ?). exists b'. erewrite bind_ok by exact E. split_and!; try done; lia.
    + exists b. erewrite bind_throw by exact Hr. split_and!; try done; lia.
  - destruct (writeScalar_spec t v b q) as (b' & E & ?); [lia|done|done| |].
    { split; [lia|]. unfold_sizes. lia. }
    exists b'. by erewrite bind_ok by exact E.
  - pose proof (readScalar_spec t b q Hok Hb He) as Hr. cbn zeta in Hr. case_decide.
    + destruct Hr as (b' & E & ? & ? & ?). exists b'. erewrite bind_ok by exact E.
      rewrite Nat2Z.id. split_and!; try done; lia.
    + exists b. erewrite bind_throw by exact Hr. split_and!; try done; lia.
  - exists b. erewrite bind_ok by (by apply getReadArea_spec). split_and!; try done; lia.
  - exists b. erewrite bind_ok by done. cbn [id]. rewrite findCRLF_contents with (q := q) by done.
    split_and!; try done; lia.
  - destruct (toString_spec b q Hb) as (b' & E & ? & ? & ?); [lia|].
    exists b'. erewrite bind_ok by exact E. split_and!; try done; lia.
Qed.

Lemma demands_nonneg ops : Forall op_ok ops -> 0 <= demands ops.
Proof.
  induction 1 as [|o l Ho _ IH]; [done|]. cbn [demands foldr]. fold (demands l).
  destruct o; cbn [demand op_ok] in *; zlia.
Qed.

(** C1: the buffer is a byte queue.  Whatever sequence of calls a client
    makes, every call answers (value or exception) what the queue answers,
    on either host, across every growth and compaction of the vector, as
    long as the sizes asked for fit the C++ types. *)
Theorem ByteArray_refines_queue (h : Host) ops b q :
  rep b q -> valid_endian (endian_ b) -> Forall op_ok ops ->
  writePos_ b + demands ops <= string_max_size ->
  fst (run exec ops b) = fst (run (queue (endian_ b)) ops q)
  /\ rep (snd (run exec ops b)) (snd (run (queue (endian_ b)) ops q)).
Proof.
  revert b q. induction ops as [|o ops IH]; intros b q Hb He Hok Hd; [done|].
  cbn [run demands foldr] in *. fold (demands ops) in Hd.
  inversion Hok as [|? ? Ho Hok']; subst.
  pose proof (demands_nonneg ops Hok').
  destruct (exec_refines o b q Hb He Ho ltac:(lia)) as (b' & E & Hb' & Hw & Hen).
  rewrite E. destruct (queue (endian_ b) o q) as [r q'] eqn:Eq. cbn [fst snd] in *.
  destruct (IH b' q' Hb') as [IH1 IH2]; [by rewrite Hen|done|lia|].
  rewrite Hen in *.
  destruct (run exec ops b'), (run _ ops q'). cbn in *. subst. done.
Qed.

Definition demo_ops : list op :=
  [OpWriteInt int32_t (-2); OpWrite (bs "GET"); OpFill 4096 kCRLF; OpFindCRLF;
   OpReadInt int32_t; OpRead 9; OpToString].

Lemma ByteArray_refines_queue_witness :
  fst (run (exec (H := x86)) demo_ops (newByteArray 16))
  = [Ok OUnit; Ok OUnit; Ok OUnit; Ok (OPos (Some 7)); Ok (OInt (-2)); Throw OutOfRange;
     Ok (OBytes (bs "GET" ++ kCRLF))].
Proof.
  destruct (ByteArray_refines_queue x86 demo_ops (newByteArray 16) []) as [-> _].
  - apply new_rep. lia.
  - right. reflexivity.
  - unfold demo_ops. repeat (apply Forall_cons; split); try apply Forall_nil;
      cbn [op_ok]; unfold zlen; cbn -[Z.pow]; try lia; done.
  - vm_compute. discriminate.
  - vm_compute. reflexivity.
Defined.

(** ** Typed round trips *)

(** A value and the pair of methods it is written and read with. *)
Inductive value : Type :=
| VInt8 (v : Z) | VUint8 (v : Z) | VInt16 (v : Z) | VUint16 (v : Z)
| VInt32 (v : Z) | VUint32 (v : Z) | VInt64 (v : Z) | VUint64 (v : Z)
| VFloat (v : Z) | VDouble (v : Z)
| VString16 (s : bytes) | VString32 (s : bytes) | VString64 (s : bytes).

(** The C++ type admits the value, and its length prefix holds its length. *)
Definition value_ok (v : value) : Prop :=
  match v with
  | VInt8 v => in_ty int8_t v | VUint8 v => in_ty uint8_t v
  | VInt16 v => in_ty int16_t v | VUint16 v => in_ty uint16_t v
  | VInt32 v => in_ty int32_t v | VUint32 v => in_ty uint32_t v
  | VInt64 v => in_ty int64_t v | VUint64 v => in_ty uint64_t v
  | VFloat v => in_ty uint32_t v | VDouble v => in_ty uint64_t v
  | VString16 s => zlen s < 2 ^ 16 | VString32 s | VString64 s => zlen s < 2 ^ 31
  end.

Definition writeValue `{Host} (v : value) : M ByteArray unit :=
  match v with
  | VInt8 v => writeInt8 v | VUint8 v => writeUint8 v
  | VInt16 v => writeInt16 v | VUint16 v => writeUint16 v
  | VInt32 v => writeInt32 v | VUint32 v => writeUint32 v
  | VInt64 v => writeInt64 v | VUint64 v => writeUint64 v
  | VFloat v => writeFloat v | VDouble v => writeDouble v
  | VString16 s => writeString16 s | VString32 s => writeString32 s | VString64 s => writeString64 s
  end.

(** The read that matches the writer of [v]. *)
Definition readLike `{Host} (v : value) : M ByteArray value :=
  match v with
  | VInt8 _ => v <-- readInt8 ;; ret (VInt8 v)
  | VUint8 _ => v <-- readUint8 ;; ret (VUint8 v)
  | VInt16 _ => v <-- readInt16 ;; ret (VInt16 v)
  | VUint16 _ => v <-- readUint16 ;; ret (VUint16 v)
  | VInt32 _ => v <-- readInt32 ;; ret (VInt32 v)
  | VUint32 _ => v <-- readUint32 ;; ret (VUint32 v)
  | VInt64 _ => v <-- readInt64 ;; ret (VInt64 v)
  | VUint64 _ => v <-- readUint64 ;; ret (VUint64 v)
  | VFloat _ => v <-- readFloat ;; ret (VFloat v)
  | VDouble _ => v <-- readDouble ;; ret (VDouble v)
  | VString16 _ => s <-- readString16 ;; ret (VString16 s)
  | VString32 _ => s <-- readString32 ;; ret (VString32 s)
  | VString64 _ => s <-- readString64 ;; ret (VString64 s)
  end.

Fixpoint sequence {S A} (ms : list (M S A)) : M S (list A) :=
  match ms with
  | [] => ret []
  | m :: ms => a <-- m ;; l <-- sequence ms ;; ret (a :: l)
  end.

(** The bytes a value occupies on the wire of byte order [e]. *)
Definition encode (e : Z) (v : value) : bytes :=
  match v with
  | VInt8 v | VUint8 v => wire e 1 v
  | VInt16 v | VUint16 v => wire e 2 v
  | VInt32 v | VUint32 v | VFloat v => wire e 4 v
  | VInt64 v | VUint64 v | VDouble v => wire e 8 v
  | VString16 s => wire e 2 (zlen s) ++ s
  | VString32 s => wire e 4 (zlen s) ++ s
  | VString64 s => wire e 8 (zlen s) ++ s
  end.

Lemma wire_1 e v : wire e 1 v = [chr v].
Proof. unfold wire. by case_decide. Qed.

Section Values.
Context `{Host}.

Lemma to_mem_1 v : to_mem 1 v = [chr v].
Proof. unfold to_mem. by case_decide. Qed.

Lemma of_mem_1 c : of_mem [c] = code c.
Proof. unfold of_mem. cbn. case_decide; lia. Qed.

Lemma wire_cast e t v : (0 < ity_bytes t)%nat -> wire e (ity_bytes t) (cast t v) = wire e (ity_bytes t) v.
Proof.
  intros. rewrite <- wire_wrap. fold (bits t). rewrite wrap_cast by done.
  unfold bits. apply wire_wrap.
Qed.

Lemma writeScalar_then_write_spec t s b q :
  (0 < ity_bytes t <= 8)%nat -> rep b q -> valid_endian (endian_ b) -> zlen s < 2 ^ 31 ->
  writePos_ b + Z.of_nat (ity_bytes t) + zlen s <= vector_max_size ->
  exists b', (writeScalar t (cast t (zlen s)) ;;; write s) b = (Ok tt, b')
    /\ rep b' (q ++ wire (endian_ b) (ity_bytes t) (zlen s) ++ s)
    /\ writePos_ b' <= writePos_ b + (Z.of_nat (ity_bytes t) + zlen s) /\ endian_ b' = endian_ b.
Proof.
  intros Ht Hb He Hs Hr.
  destruct (writeScalar_spec t (cast t (zlen s)) b q) as (b1 & E1 & Hb1 & Hw1 & He1);
    [lia|done|done|split; zlia|].
  rewrite wire_cast in Hb1 by lia.
  destruct (write_spec s b1 _ Hb1) as (b2 & E2 & Hb2 & Hw2 & He2); [split; zlia|].
  exists b2. erewrite bind_ok by exact E1. rewrite app_assoc, He2, He1.
  split_and!; try done; lia.
Qed.

Lemma writeValue_spec v b q :
  value_ok v -> rep b q -> valid_endian (endian_ b) ->
  writePos_ b + zlen (encode (endian_ b) v) <= vector_max_size ->
  exists b', writeValue v b = (Ok tt, b') /\ rep b' (q ++ encode (endian_ b) v)
    /\ writePos_ b' <= writePos_ b + zlen (encode (endian_ b) v) /\ endian_ b' = endian_ b.
Proof.
  intros Hv Hb He Hr.
  assert (W1 : forall x, encode (endian_ b) v = [chr x] ->
    exists b', write (to_mem 1 x) b = (Ok tt, b') /\ rep b' (q ++ encode (endian_ b) v)
    /\ writePos_ b' <= writePos_ b + zlen (encode (endian_ b) v) /\ endian_ b' = endian_ b).
  { intros x E. rewrite E in *. rewrite to_mem_1. apply write_spec; [done|].
    split; [done|done]. }
  assert (WS : forall t x, (0 < ity_bytes t <= 8)%nat ->
    encode (endian_ b) v = wire (endian_ b) (ity_bytes t) x ->
    exists b', writeScalar t x b = (Ok tt, b') /\ rep b' (q ++ encode (endian_ b) v)
    /\ writePos_ b' <= writePos_ b + zlen (encode (endian_ b) v) /\ endian_ b' = endian_ b).
  { intros t x Ht E. rewrite E in *. rewrite zlen_wire in *.
    apply writeScalar_spec; [lia|done|done|split; lia]. }
  destruct v as [v|v|v|v|v|v|v|v|v|v|s|s|s]; cbn [writeValue value_ok] in *.
  - apply W1, wire_1.
  - apply W1, wire_1.
  - apply (WS int16_t); [cbn; lia|done].
  - apply (WS uint16_t); [cbn; lia|done].
  - apply (WS int32_t); [cbn; lia|done].
  - apply (WS uint32_t); [cbn; lia|done].
  - apply (WS int64_t); [cbn; lia|done].
  - apply (WS uint64_t); [cbn; lia|done].
  - apply (WS int32_t); [cbn; lia|]. by rewrite wire_cast by (cbn; lia).
  - apply (WS int64_t); [cbn; lia|]. by rewrite wire_cast by (cbn; lia).
  - cbn [encode] in *. rewrite zlen_app, zlen_wire in *.
    apply (writeScalar_then_write_spec uint16_t); cbn [ity_bytes uint16_t]; try done; lia.
  - cbn [encode] in *. rewrite zlen_app, zlen_wire in *.
    apply (writeScalar_then_write_spec uint32_t); cbn [ity_bytes uint32_t]; try done; lia.
  - unfold writeString64.
    replace (writeUint64 (zlen s)) with (writeUint64 (cast uint64_t (zlen s)))
      by (rewrite cast_in_ty; [done|by in_bounds|cbn; lia]).
    cbn [encode] in *. rewrite zlen_app, zlen_wire in *.
    apply (writeScalar_then_write_spec uint64_t); cbn [ity_bytes uint64_t]; try done; lia.
Qed.

Lemma read_string_spec (t : IntTy) s b q :
  (0 < ity_bytes t)%nat -> in_ty t (zlen s) -> zlen s < 2 ^ 31 -> valid_endian (endian_ b) ->
  rep b ((wire (endian_ b) (ity_bytes t) (zlen s) ++ s) ++ q) ->
  exists b', (len <-- readScalar t ;; readBytes len) b = (Ok s, b') /\ rep b' q
    /\ endian_ b' = endian_ b.
Proof.
  intros Ht Hs Hs31 He Hb. rewrite <- app_assoc in Hb.
  destruct (readScalar_wire t _ b _ Ht Hs He Hb) as (b1 & E1 & Hb1 & He1).
  destruct (readBytes_spec s b1 q Hb1) as (b2 & E2 & Hb2 & He2).
  { unfold_sizes. lia. }
  exists b2. erewrite bind_ok by exact E1. by rewrite He2, He1.
Qed.
End Values.

(** Reads after writes, value by value. *)
Section Round_trip.
Context `{Host}.

Lemma readLike_spec v b q :
  value_ok v -> rep b (encode (endian_ b) v ++ q) -> valid_endian (endian_ b) ->
  exists b', readLike v b = (Ok v, b') /\ rep b' q /\ endian_ b' = endian_ b.
Proof.
  intros Hv Hb He.
  assert (R1 : forall x, rep b ([chr x] ++ q) ->
    exists b', read 1 b = (Ok [chr x], b') /\ rep b' q /\ endian_ b' = endian_ b).
  { intros x Hx. pose proof (read_spec 1 b _ Hx ltac:(lia)) as Hr.
    rewrite decide_True in Hr by (rewrite zlen_app; unfold zlen; cbn; lia).
    destruct Hr as (b' & ? & ? & ? & ?). by exists b'. }
  assert (RS : forall t x (k : Z -> value), (0 < ity_bytes t)%nat -> in_ty t x ->
    rep b (wire (endian_ b) (ity_bytes t) x ++ q) ->
    exists b', (v <-- readScalar t ;; ret (k v)) b = (Ok (k x), b') /\ rep b' q
      /\ endian_ b' = endian_ b).
  { intros t x k Ht Hx Hr. destruct (readScalar_wire t x b q Ht Hx He Hr) as (b' & E & ?).
    exists b'. by erewrite bind_ok by exact E. }
  assert (RT : forall t s (k : bytes -> value), (0 < ity_bytes t)%nat -> in_ty t (zlen s) ->
    zlen s < 2 ^ 31 -> rep b ((wire (endian_ b) (ity_bytes t) (zlen s) ++ s) ++ q) ->
    exists b', (s <-- (len <-- readScalar t ;; readBytes len) ;; ret (k s)) b = (Ok (k s), b')
      /\ rep b' q /\ endian_ b' = endian_ b).
  { intros t s k Ht Hs Hs31 Hr.
    destruct (read_string_spec t s b q Ht Hs Hs31 He Hr) as (b' & E & ?).
    exists b'. by erewrite bind_ok by exact E. }
  destruct v as [v|v|v|v|v|v|v|v|v|v|s|s|s]; cbn [readLike encode value_ok] in *.
  1, 2: rewrite wire_1 in Hb; destruct (R1 v Hb) as (b' & E & ? & ?); exists b';
    unfold readInt8, readUint8, bind, ret; rewrite E, of_mem_1, code_chr;
    split; [|done]; do 3 f_equal.
  - rewrite <- (cast_in_ty int8_t v) at 2 by (cbn; lia || done). by rewrite <- (cast_wrap int8_t v) by (cbn; lia).
  - rewrite <- (cast_in_ty uint8_t v) at 2 by (cbn; lia || done). by rewrite <- (cast_wrap uint8_t v) by (cbn; lia).
  - by apply (RS int16_t); [cbn; lia|..].
  - by apply (RS uint16_t); [cbn; lia|..].
  - by apply (RS int32_t); [cbn; lia|..].
  - by apply (RS uint32_t); [cbn; lia|..].
  - by apply (RS int64_t); [cbn; lia|..].
  - by apply (RS uint64_t); [cbn; lia|..].
  - by apply (RS uint32_t); [cbn; lia|..].
  - by apply (RS uint64_t); [cbn; lia|..].
  - apply (RT uint16_t); [cbn; lia|by in_bounds|lia|done].
  - apply (RT uint32_t); [cbn; lia|by in_bounds|lia|done].
  - apply (RT uint64_t); [cbn; lia|by in_bounds|lia|done].
Qed.

Definition encodeAll (e : Z) (vs : list value) : bytes := List.concat (map (encode e) vs).

Lemma writeValues_spec vs b q :
  Forall value_ok vs -> rep b q -> valid_endian (endian_ b) ->
  writePos_ b + zlen (encodeAll (endian_ b) vs) <= vector_max_size ->
  exists b', sequence (map writeValue vs) b = (Ok (map (fun _ => tt) vs), b')
    /\ rep b' (q ++ encodeAll (endian_ b) vs) /\ endian_ b' = endian_ b.
Proof.
  unfold encodeAll. revert b q.
  induction vs as [|v vs IH]; intros b q Hvs Hb He Hr; cbn [map List.concat sequence] in *.
  - exists b. by rewrite app_nil_r.
  - inversion Hvs as [|? ? Hv Hvs']; subst. rewrite zlen_app in Hr.
    destruct (writeValue_spec v b q Hv Hb He) as (b1 & E1 & Hb1 & Hw1 & He1); [zlia|].
    rewrite <- He1 in *.
    destruct (IH b1 _ Hvs' Hb1 He) as (b2 & E2 & Hb2 & He2); [lia|].
    exists b2. erewrite bind_ok by exact E1. erewrite bind_ok by exact E2.
    by rewrite app_assoc, He2.
Qed.

Lemma readValues_spec vs b q :
  Forall value_ok vs -> rep b (encodeAll (endian_ b) vs ++ q) -> valid_endian (endian_ b) ->
  exists b', sequence (map readLike vs) b = (Ok vs, b') /\ rep b' q /\ endian_ b' = endian_ b.
Proof.
  unfold encodeAll. revert b.
  induction vs as [|v vs IH]; intros b Hvs Hb He; cbn [map List.concat sequence] in *.
  - by exists b.
  - inversion Hvs as [|? ? Hv Hvs']; subst. rewrite <- app_assoc in Hb.
    destruct (readLike_spec v b _ Hv Hb He) as (b1 & E1 & Hb1 & He1).
    rewrite <- He1 in *. destruct (IH b1 Hvs' Hb1 He) as (b2 & E2 & Hb2 & He2).
    exists b2. erewrite bind_ok by exact E1. by erewrite bind_ok by exact E2.
Qed.
End Round_trip.

(** C26: values of every type, written one after the other into a fresh
    buffer of either byte order, are read back as they were, and nothing is
    left over: the test of bytearray_test.cc for all inputs. *)
Theorem write_read_values (h : Host) vs e init :
  Forall value_ok vs -> valid_endian e -> 0 <= init < 2 ^ 62 ->
  zlen (encodeAll e vs) <= 2 ^ 62 ->
  exists b b', sequence (map writeValue vs) (setEndian e (newByteArray init)) = (Ok (map (fun _ => tt) vs), b)
    /\ sequence (map readLike vs) b = (Ok vs, b') /\ getReadSize b' = 0.
Proof.
  intros Hvs He Hi Hl.
  assert (Hrep : rep (setEndian e (newByteArray init)) []).
  { destruct (new_rep init Hi) as [[? ? ? ?] ? ?]. by split; [split|..]. }
  destruct (writeValues_spec vs _ [] Hvs Hrep He) as (b & E & Hb & Heb).
  { cbn -[Z.pow]. unfold_sizes. lia. }
  rewrite app_nil_l, <- (app_nil_r (encodeAll _ _)), <- Heb in Hb.
  destruct (readValues_spec vs b [] Hvs Hb) as (b' & E' & Hb' & _); [by rewrite Heb|].
  exists b, b'. split_and!; try done.
  rewrite getReadSize_contents by apply Hb'. by rewrite (rep_contents _ _ Hb').
Qed.

Lemma write_read_values_witness :
  let vs := [VInt16 (-3); VString16 (bs "reyao"); VUint64 (2 ^ 63); VInt8 (-128)] in
  exists b b', sequence (map (writeValue (H := x86)) vs) (setEndian BIG_ENDIAN (newByteArray 4)) = (Ok (map (fun _ => tt) vs), b)
    /\ sequence (map (readLike (H := x86)) vs) b = (Ok vs, b') /\ getReadSize b' = 0.
Proof.
  apply write_read_values.
  - repeat (apply Forall_cons; split); try apply Forall_nil; cbn [value_ok]; try in_bounds.
    vm_compute. done.
  - right. reflexivity.
  - lia.
  - vm_compute. discriminate.
Defined.

(** ** Edges of the interface *)

(** [reset] gives up the prepend area ([readPos_ = 0]), and the next
    write that fits the freshly sized vector fails [addCapacity]'s assertion
    [kCheapPrepend <= readPos_]: a buffer that was reset cannot be refilled. *)
Theorem reset_then_write_aborts b d :
  0 < zlen d <= kInitSize - kCheapPrepend ->
  fst ((reset ;;; write d) b) = Throw AssertFail.
Proof.
  intros Hd. unfold kInitSize, kCheapPrepend in Hd.
  unfold reset, resizeBuf, bind, modify, check, kInitSize, ret.
  rewrite (proj2 (Z.leb_le _ _)) by (unfold vector_max_size; lia). unfold write.
  rewrite (proj2 (Z.eqb_neq _ _)) by lia. unfold addCapacity.
  rewrite swrap_small by lia. unfold bind, gets, id.
  unfold getWriteSize, setBuf, setWritePos, setReadPos, kCheapPrepend.
  cbn [writePos_ readPos_ buf_ endian_]. rewrite zlen_resize by lia.
  rewrite Z.sub_0_r, Z.add_0_r, !(wrap_small 64) by (rewrite ?(wrap_small 64); lia).
  rewrite (proj2 (Z.ltb_ge _ _)) by lia. done.
Qed.

Lemma reset_then_write_aborts_witness :
  fst ((reset ;;; write (bs "x")) (newByteArray 1024)) = Throw AssertFail.
Proof. apply (reset_then_write_aborts (newByteArray 1024) (bs "x")). vm_compute. by split. Defined.

Lemma readBlocks_spec fuel content b q :
  (length content < fuel)%nat -> rep b q -> writePos_ b + zlen content <= vector_max_size ->
  exists b', readBlocks fuel content b = (Ok tt, b') /\ rep b' (q ++ content).
Proof.
  revert content b q. induction fuel as [|fuel IH]; intros content b q Hf Hb Hr; [lia|].
  cbn [readBlocks]. set (blk := take (Z.to_nat kInitSize) content).
  assert (Hblk : zlen blk <= 1024 /\ zlen blk <= zlen content).
  { unfold blk, zlen. rewrite length_take. unfold kInitSize. lia. }
  destruct (write_spec blk b q Hb) as (b1 & E1 & Hb1 & Hw1 & _); [split; zlia|].
  erewrite bind_ok by exact E1.
  destruct (Z.ltb_spec (zlen content) kInitSize) as [Hlt|Hge]; unfold kInitSize in *.
  - exists b1. split; [done|]. unfold blk in Hb1.
    rewrite firstn_all2 in Hb1; [done|]. unfold zlen in Hlt. lia.
  - assert (Hl : length blk = 1024%nat) by (unfold blk; rewrite length_take; unfold zlen in Hge; lia).
    destruct (IH (drop (Z.to_nat 1024) content) b1 (q ++ blk)) as (b2 & E2 & Hb2); [|exact Hb1| |].
    + rewrite length_drop. unfold zlen in Hge. lia.
    + unfold zlen in *. rewrite length_drop. lia.
    + exists b2. split; [done|]. unfold blk in Hb2. by rewrite <- app_assoc, take_drop in Hb2.
Qed.

(** [readFromFile] appends the whole file, block by block. *)
Lemma readFromFile_spec content b q :
  rep b q -> writePos_ b + zlen content <= vector_max_size ->
  exists b', readFromFile (Some content) b = (Ok true, b') /\ rep b' (q ++ content).
Proof.
  intros Hb Hr. unfold readFromFile.
  destruct (readBlocks_spec (S (length content)) content b q) as (b' & E & Hb'); [lia|done|done|].
  exists b'. by erewrite bind_ok by exact E.
Qed.

(** A file copied through a buffer is the file. *)
Theorem file_round_trip content :
  zlen content <= 2 ^ 62 ->
  exists b, readFromFile (Some content) (newByteArray kInitSize) = (Ok true, b)
    /\ writeToFile true b = Some content.
Proof.
  intros Hl.
  destruct (readFromFile_spec content (newByteArray kInitSize) []) as (b & E & Hb).
  - apply new_rep. unfold kInitSize. lia.
  - cbn -[Z.pow zlen]. unfold_sizes. lia.
  - exists b. split; [done|]. unfold writeToFile. f_equal.
    rewrite getReadSize_contents by apply Hb. rewrite app_nil_l in Hb.
    rewrite contents_length by apply Hb. transitivity (contents b); [|apply Hb].
    unfold contents. f_equal. lia.
Qed.

Lemma file_round_trip_witness :
  exists b, readFromFile (Some (replicate 1500 "a"%char)) (newByteArray kInitSize) = (Ok true, b)
    /\ writeToFile true b = Some (replicate 1500 "a"%char).
Proof. apply file_round_trip. vm_compute. discriminate. Defined.

(** The 16-bit prefix of [writeString16] cannot hold the length of a
    longer string: the reader gets only the first [size mod 2^16] bytes and
    the rest stays in the buffer. *)
Theorem writeString16_truncates (h : Host) s b :
  rep b [] -> valid_endian (endian_ b) -> zlen s < 2 ^ 31 ->
  writePos_ b + 2 + zlen s <= vector_max_size ->
  let n := Z.to_nat (zlen s mod 2 ^ 16) in
  exists b1 b2, writeString16 s b = (Ok tt, b1) /\ readString16 b1 = (Ok (take n s), b2)
    /\ contents b2 = drop n s.
Proof.
  intros Hb He Hs Hr n.
  destruct (writeScalar_then_write_spec uint16_t s b []) as (b1 & E1 & Hb1 & _ & He1);
    [cbn; lia|done|done|done|cbn; lia|].
  assert (Hn : zlen (take n s) = zlen s mod 2 ^ 16).
  { unfold n, zlen. rewrite length_take.
    pose proof (Z.mod_pos_bound (Z.of_nat (length s)) (2 ^ 16) ltac:(lia)).
    pose proof (Z.mod_le (Z.of_nat (length s)) (2 ^ 16)). lia. }
  pose proof (Z.mod_pos_bound (zlen s) (2 ^ 16) ltac:(lia)).
  destruct (read_string_spec uint16_t (take n s) b1 (drop n s)) as (b2 & E2 & Hb2 & _).
  - cbn; lia.
  - in_bounds.
  - lia.
  - by rewrite He1.
  - rewrite Hn, He1, <- app_assoc, take_drop. rewrite <- (wire_wrap _ _ (zlen s)) in Hb1. done.
  - exists b1, b2. split_and!; [done|done|]. apply Hb2.
Qed.

Lemma writeString16_truncates_witness :
  let s := replicate (Z.to_nat 65539) "a"%char in
  exists b1 b2, writeString16 (H := x86) s (newByteArray 0) = (Ok tt, b1)
    /\ readString16 (H := x86) b1 = (Ok (take 3 s), b2) /\ contents b2 = drop 3 s.
Proof.
  intros s.
  assert (E : 3%nat = Z.to_nat (zlen s mod 2 ^ 16)) by (vm_compute; reflexivity).
  rewrite E. apply (writeString16_truncates x86 s (newByteArray 0)).
  - apply new_rep. lia.
  - right. reflexivity.
  - vm_compute. reflexivity.
  - vm_compute. discriminate.
Defined.
