(* ===== verification/Timer.v ===== *)
(** * Timers (src/reyao/timer.h, src/reyao/timer.cc)

    [Timer] objects live in a heap (they are shared: the manager's set and
    the users' [Timer::SPtr] point to the same object), the manager keeps
    the ordered set of their addresses.  [now] is what [GetCurrentMs]
    returns in the call, a fresh address is what [new] returns.  The
    [int64_t] sums of times are integers here: [deadlines_fit] shows that they
    fit as long as the clock and the intervals are below 2^62 milliseconds. *)

From S2P Require Import Prelude.

Section Timer.
(** The callable stored in a [std::function<void()>]. *)
Context {F : Type}.

Record Timer := {
  recursive_ : bool;
  interval_ : Z;
  expire_ : Z;
  func_ : option F
}.

Definition setFunc (f : option F) (t : Timer) : Timer :=
  {| recursive_ := recursive_ t; interval_ := interval_ t; expire_ := expire_ t; func_ := f |}.
Definition setExpire (e : Z) (t : Timer) : Timer :=
  {| recursive_ := recursive_ t; interval_ := interval_ t; expire_ := e; func_ := func_ t |}.
Definition setInterval (i : Z) (t : Timer) : Timer :=
  {| recursive_ := recursive_ t; interval_ := i; expire_ := expire_ t; func_ := func_ t |}.

(** [Timer(interval, func, recursive, manager)] and [Timer(expire)]. *)
Definition newTimer (now interval : Z) (func : F) (recursive : bool) : Timer :=
  {| recursive_ := recursive; interval_ := interval; expire_ := now + interval; func_ := Some func |}.
Definition newExpireTimer (expire : Z) : Timer :=
  {| recursive_ := false; interval_ := 0; expire_ := expire; func_ := None |}.

(** The manager and the timers it can reach.  [fronts] counts the calls of
    the virtual [timerInsertAtFront], which wakes the pollers. *)
Record TimeManager := {
  heap : gmap Z Timer;
  timers_ : list Z;
  needNotify_ : bool;
  fronts : nat
}.

Definition newTimeManager : TimeManager :=
  {| heap := ∅; timers_ := []; needNotify_ := false; fronts := 0 |}.

Definition setHeap (h : gmap Z Timer) (m : TimeManager) : TimeManager :=
  {| heap := h; timers_ := timers_ m; needNotify_ := needNotify_ m; fronts := fronts m |}.
Definition setTimers (l : list Z) (m : TimeManager) : TimeManager :=
  {| heap := heap m; timers_ := l; needNotify_ := needNotify_ m; fronts := fronts m |}.
Definition setNeedNotify (b : bool) (m : TimeManager) : TimeManager :=
  {| heap := heap m; timers_ := timers_ m; needNotify_ := b; fronts := fronts m |}.
Definition timerInsertAtFront (m : TimeManager) : TimeManager :=
  {| heap := heap m; timers_ := timers_ m; needNotify_ := needNotify_ m; fronts := S (fronts m) |}.

Definition expireOf (h : gmap Z Timer) (a : Z) : Z :=
  match h !! a with Some t => expire_ t | None => 0 end.

(** [Timer::Comparator]; [None] is the null pointer. *)
Definition Comparator (h : gmap Z Timer) (lhs rhs : option Z) : bool :=
  match lhs, rhs with
  | None, None => false
  | None, Some _ => true
  | Some _, None => false
  | Some l, Some r =>
      if expireOf h l <? expireOf h r then true
      else if expireOf h r <? expireOf h l then false
      else l <? r
  end.

Definition less (h : gmap Z Timer) (a b : Z) : bool := Comparator h (Some a) (Some b).

(** ** [std::set] with that comparator: a sorted sequence *)

(** [insert]: an equivalent element makes it a no-op. *)
Fixpoint set_insert (h : gmap Z Timer) (a : Z) (l : list Z) : list Z :=
  match l with
  | [] => [a]
  | b :: l' =>
      if less h a b then a :: l
      else if less h b a then b :: set_insert h a l'
      else l
  end.

(** [find(a) != end()] and [erase(find(a))]. *)
Fixpoint set_find (h : gmap Z Timer) (a : Z) (l : list Z) : bool :=
  match l with
  | [] => false
  | b :: l' => (negb (less h a b) && negb (less h b a)) || set_find h a l'
  end.

Fixpoint set_erase (h : gmap Z Timer) (a : Z) (l : list Z) : list Z :=
  match l with
  | [] => []
  | b :: l' => if negb (less h a b) && negb (less h b a) then l' else b :: set_erase h a l'
  end.

(** [begin() .. lower_bound(a)) and what follows. *)
Fixpoint set_lower_bound (h : gmap Z Timer) (a : Z) (l : list Z) : list Z * list Z :=
  match l with
  | [] => ([], [])
  | b :: l' =>
      if less h b a then let '(p, r) := set_lower_bound h a l' in (b :: p, r) else ([], l)
  end.

Definition at_front (a : Z) (l : list Z) : bool :=
  match l with b :: _ => a =? b | [] => false end.

(** ** TimeManager and Timer methods *)

(** [a] is the address of the new timer, which is returned. *)
Definition addTimer (now a interval : Z) (func : F) (recursive : bool) : M TimeManager Z := fun m =>
  let h := <[a := newTimer now interval func recursive]> (heap m) in
  let l := set_insert h a (timers_ m) in
  let m := setTimers l (setHeap h m) in
  (Ok a, if at_front a l then timerInsertAtFront m else m).

(** The timer object itself must be alive for a method call. *)
Definition this (a : Z) : M TimeManager Timer := fun m =>
  match heap m !! a with Some t => (Ok t, m) | None => (Throw Undefined, m) end.

Definition store (a : Z) (t : Timer) : M TimeManager unit :=
  modify (fun m => setHeap (<[a := t]> (heap m)) m).

Definition cancel (a : Z) : M TimeManager bool :=
  t <-- this a ;;
  match func_ t with
  | Some _ =>
      store a (setFunc None t) ;;;
      m <-- gets id ;;
      if set_find (heap m) a (timers_ m) then
        modify (fun m => setTimers (set_erase (heap m) a (timers_ m)) m) ;;; ret true
      else ret false
  | None => ret false
  end.

Definition refresh (now a : Z) : M TimeManager bool :=
  t <-- this a ;;
  match func_ t with
  | None => ret false
  | Some _ =>
      m <-- gets id ;;
      if set_find (heap m) a (timers_ m) then
        modify (fun m => setTimers (set_erase (heap m) a (timers_ m)) m) ;;;
        store a (setExpire (now + interval_ t) t) ;;;
        modify (fun m => setTimers (set_insert (heap m) a (timers_ m)) m) ;;;
        ret true
      else ret false
  end.

Definition reset (now a interval : Z) (fromNow : bool) : M TimeManager bool :=
  t <-- this a ;;
  if (interval_ t =? interval) && negb fromNow then ret true
  else
  match func_ t with
  | None => ret false
  | Some _ =>
      m <-- gets id ;;
      if set_find (heap m) a (timers_ m) then
        modify (fun m => setTimers (set_erase (heap m) a (timers_ m)) m) ;;;
        let start := if fromNow then now else expire_ t - interval_ t in
        store a (setExpire (start + interval) (setInterval interval t)) ;;;
        modify (fun m => setTimers (set_insert (heap m) a (timers_ m)) m) ;;;
        modify (fun m => if at_front a (timers_ m)
                         then timerInsertAtFront (setNeedNotify true m) else m) ;;;
        ret true
      else ret false
  end.

Definition getExpire (now : Z) : M TimeManager Z :=
  modify (setNeedNotify false) ;;;
  m <-- gets id ;;
  match timers_ m with
  | [] => ret (-1)
  | a :: _ => ret (if expireOf (heap m) a <? now then 0 else expireOf (heap m) a - now)
  end.

(** The [while] after [lower_bound]. *)
Fixpoint skip_now (h : gmap Z Timer) (now : Z) (l : list Z) : list Z * list Z :=
  match l with
  | [] => ([], [])
  | b :: l' => if expireOf h b =? now then let '(p, r) := skip_now h now l' in (b :: p, r) else ([], l)
  end.

(** The [for] over [expiredTimers]. *)
Fixpoint rearm (now : Z) (expired : list Z) (m : TimeManager) : list (option F) * TimeManager :=
  match expired with
  | [] => ([], m)
  | a :: expired =>
      match heap m !! a with
      | Some t =>
          let m :=
            if recursive_ t then
              let h := <[a := setExpire (now + interval_ t) t]> (heap m) in
              setTimers (set_insert h a (timers_ m)) (setHeap h m)
            else setHeap (<[a := setFunc None t]> (heap m)) m in
          let '(fs, m) := rearm now expired m in (func_ t :: fs, m)
      | None => rearm now expired m
      end
  end.

(** [tmp] is the address of [now_timer], gone when the call returns. *)
Definition expiredFunctions (now tmp : Z) : M TimeManager (list (option F)) := fun m =>
  match timers_ m with
  | [] => (Ok [], m)
  | _ =>
      let h := <[tmp := newExpireTimer now]> (heap m) in
      let '(p1, r1) := set_lower_bound h tmp (timers_ m) in
      let '(p2, r2) := skip_now h now r1 in
      let '(fs, m) := rearm now (p1 ++ p2) (setTimers r2 m) in
      (Ok fs, m)
  end.

Definition hasTimer (m : TimeManager) : bool :=
  match timers_ m with [] => false | _ => true end.

(** [OnTimer]: what the callable of a condition timer does when run, and
    [addConditonTimer], which binds it ([bind] is [std::bind(&OnTimer, ..)]). *)
Definition OnTimer (alive : bool) (func : F) : option F := if alive then Some func else None.

Definition addConditonTimer {W} (bind : W -> F -> F)
    (now a interval : Z) (func : F) (weakCond : W) (recursive : bool) : M TimeManager Z :=
  addTimer now a interval (bind weakCond func) recursive.

(** ** The comparator is a strict total order *)

Lemma less_spec h a b :
  less h a b = true <-> expireOf h a < expireOf h b \/ (expireOf h a = expireOf h b /\ a < b).
Proof.
  unfold less, Comparator.
  destruct (Z.ltb_spec (expireOf h a) (expireOf h b)); [split; [lia|done]|].
  destruct (Z.ltb_spec (expireOf h b) (expireOf h a)); [split; [done|lia]|].
  rewrite Z.ltb_lt. lia.
Qed.

Lemma less_false h a b :
  less h a b = false <-> ~ (expireOf h a < expireOf h b \/ (expireOf h a = expireOf h b /\ a < b)).
Proof. rewrite <- less_spec. by destruct (less h a b). Qed.

Definition lt_timer (h : gmap Z Timer) (a b : Z) : Prop := less h a b = true.

#[local] Instance lt_timer_trans h : Transitive (lt_timer h).
Proof. intros a b c. unfold lt_timer. rewrite !less_spec. lia. Qed.

Lemma equiv_eq h a b : negb (less h a b) && negb (less h b a) = bool_decide (a = b).
Proof.
  case_bool_decide as E; [subst|].
  - destruct (less h b b) eqn:L; [|done]. rewrite less_spec in L. lia.
  - destruct (less h a b) eqn:L1; [done|]. destruct (less h b a) eqn:L2; [done|].
    rewrite less_false in L1, L2. lia.
Qed.

(** Sets only look at the expiry of their own elements. *)
Definition agree (h h' : gmap Z Timer) (l : list Z) : Prop :=
  forall a, a ∈ l -> expireOf h a = expireOf h' a.

Definition sorted (h : gmap Z Timer) (l : list Z) : Prop := StronglySorted (lt_timer h) l.

Lemma sorted_agree h h' l : agree h h' l -> sorted h l -> sorted h' l.
Proof.
  intros Ha. induction 1 as [|a l Hl IH Hf]; constructor.
  - apply IH. intros b Hb. apply Ha. by right.
  - rewrite Forall_forall in *. intros b Hb. specialize (Hf b Hb).
    unfold lt_timer in *. rewrite less_spec in *.
    rewrite <- !Ha; [done|..]; set_solver.
Qed.

Lemma sorted_NoDup h l : sorted h l -> NoDup l.
Proof.
  induction 1 as [|a l Hl IH Hf]; constructor; [|done].
  intros Hin. rewrite Forall_forall in Hf. specialize (Hf a Hin).
  unfold lt_timer in Hf. rewrite less_spec in Hf. lia.
Qed.

Lemma sorted_unique h l l' : sorted h l -> sorted h l' -> (forall a, a ∈ l <-> a ∈ l') -> l = l'.
Proof.
  intros Hs Hs' He. assert (AntiSymm (=) (lt_timer h)) as Ha.
  { intros a b. unfold lt_timer. rewrite !less_spec. lia. }
  apply (StronglySorted_unique (lt_timer h)); [done..|].
  apply NoDup_Permutation; [by eapply sorted_NoDup..|done].
Qed.

Lemma set_insert_perm h a l : a ∉ l -> set_insert h a l ≡ₚ a :: l.
Proof.
  induction l as [|b l IH]; cbn [set_insert]; intros Hn; [done|].
  apply not_elem_of_cons in Hn as [Hab Hn].
  destruct (less h a b) eqn:L1; [done|]. destruct (less h b a) eqn:L2.
  - rewrite IH by done. apply Permutation_swap.
  - rewrite less_false in L1, L2. lia.
Qed.

Lemma elem_of_set_insert h a b l : a ∉ l -> b ∈ set_insert h a l <-> b = a \/ b ∈ l.
Proof. intros. by rewrite set_insert_perm, elem_of_cons. Qed.

Lemma sorted_insert h a l : a ∉ l -> sorted h l -> sorted h (set_insert h a l).
Proof.
  intros Hn Hs. revert Hn. induction Hs as [|b l Hl IH Hf]; intros Hn; cbn [set_insert].
  - repeat constructor.
  - apply not_elem_of_cons in Hn as [Hab Hn].
    destruct (less h a b) eqn:L1; [|destruct (less h b a) eqn:L2].
    + constructor; [by constructor|]. constructor; [done|].
      eapply Forall_impl; [exact Hf|]. intros c Hc. by transitivity b.
    + constructor; [by apply IH|]. rewrite set_insert_perm by done. by constructor.
    + rewrite less_false in L1, L2. lia.
Qed.

Lemma set_find_spec h a l : set_find h a l = bool_decide (a ∈ l).
Proof.
  induction l as [|b l IH]; cbn [set_find]; [by rewrite bool_decide_eq_false_2 by set_solver|].
  rewrite equiv_eq, IH. repeat case_bool_decide; cbn; set_solver.
Qed.

Lemma set_erase_perm h a l : a ∈ l -> a :: set_erase h a l ≡ₚ l.
Proof.
  induction l as [|b l IH]; cbn [set_erase]; intros Hin; [by apply not_elem_of_nil in Hin|].
  rewrite equiv_eq. case_bool_decide as E; [by subst|].
  rewrite Permutation_swap. constructor. apply IH. set_solver.
Qed.

(** Equivalence under the comparator is identity, so the expiries do not matter. *)
Lemma set_erase_heap h h' a l : set_erase h a l = set_erase h' a l.
Proof. induction l as [|b l IH]; cbn [set_erase]; [done|]. by rewrite !equiv_eq, IH. Qed.

Lemma set_erase_subset h a l b : b ∈ set_erase h a l -> b ∈ l.
Proof.
  induction l as [|c l IH]; cbn [set_erase]; [done|].
  rewrite equiv_eq. case_bool_decide; set_solver.
Qed.

Lemma sorted_erase h a l : sorted h l -> sorted h (set_erase h a l).
Proof.
  induction 1 as [|b l Hl IH Hf]; cbn [set_erase]; [constructor|].
  rewrite equiv_eq. case_bool_decide; [done|]. constructor; [done|].
  rewrite Forall_forall in *. intros c Hc. eapply Hf, set_erase_subset, Hc.
Qed.

Lemma set_erase_gone h a l : NoDup l -> a ∉ set_erase h a l.
Proof.
  induction 1 as [|b l Hb Hl IH]; cbn [set_erase]; [set_solver|].
  rewrite equiv_eq. case_bool_decide as E; [by subst|]. set_solver.
Qed.

Lemma elem_of_set_erase h a b l : NoDup l -> b ∈ set_erase h a l <-> b ∈ l /\ b <> a.
Proof.
  intros Hl. split.
  - intros Hb. split; [by eapply set_erase_subset|]. intros ->. by apply (set_erase_gone h a l Hl).
  - intros [Hb Hn]. destruct (decide (a ∈ l)) as [Ha|Ha].
    + rewrite <- (set_erase_perm h a l Ha) in Hb. set_solver.
    + clear -Ha Hb. induction l as [|c l IH]; [done|]. cbn [set_erase].
      rewrite equiv_eq. case_bool_decide; set_solver.
Qed.

(** ** The expired prefix *)

Lemma lower_bound_split h tmp l :
  let '(p, r) := set_lower_bound h tmp l in
  l = p ++ r /\ Forall (fun b => less h b tmp = true) p
  /\ match r with [] => True | b :: _ => less h b tmp = false end.
Proof.
  induction l as [|b l IH]; cbn [set_lower_bound]; [done|].
  destruct (less h b tmp) eqn:L.
  - destruct (set_lower_bound h tmp l) as [p r]. destruct IH as (-> & ? & ?).
    split; [done|]. split; [by constructor|done].
  - done.
Qed.

Lemma skip_now_split h now l :
  let '(p, r) := skip_now h now l in
  l = p ++ r /\ Forall (fun b => expireOf h b = now) p
  /\ match r with [] => True | b :: _ => expireOf h b <> now end.
Proof.
  induction l as [|b l IH]; cbn [skip_now]; [done|].
  destruct (Z.eqb_spec (expireOf h b) now) as [E|E].
  - destruct (skip_now h now l) as [p r]. destruct IH as (-> & ? & ?).
    split; [done|]. split; [by constructor|done].
  - done.
Qed.

(** Whatever address [now_timer] gets, the two scans cut the set between
    the timers due at [now] and the later ones. *)
Lemma expired_split h now tmp l :
  sorted h l -> expireOf h tmp = now ->
  let '(p1, r1) := set_lower_bound h tmp l in
  let '(p2, r2) := skip_now h now r1 in
  l = (p1 ++ p2) ++ r2 /\ Forall (fun b => expireOf h b <= now) (p1 ++ p2)
  /\ Forall (fun b => now < expireOf h b) r2.
Proof.
  intros Hs Ht. pose proof (lower_bound_split h tmp l) as H1.
  destruct (set_lower_bound h tmp l) as [p1 r1]. destruct H1 as (-> & Hp1 & Hr1).
  pose proof (skip_now_split h now r1) as H2.
  destruct (skip_now h now r1) as [p2 r2]. destruct H2 as (-> & Hp2 & Hr2).
  split; [by rewrite app_assoc|]. split.
  - apply Forall_app. split; (eapply Forall_impl; [eassumption|]).
    + intros b Hb. cbv beta in Hb. rewrite less_spec in Hb. lia.
    + intros b Hb. cbn in Hb. lia.
  - destruct r2 as [|c r2]; [constructor|].
    assert (Hc : now < expireOf h c).
    { enough (now <= expireOf h c) by lia. destruct p2 as [|d p2]; cbn [app] in Hr1.
      - rewrite less_false in Hr1. lia.
      - apply Forall_cons in Hp2 as [Hd _].
        unfold sorted in Hs. apply StronglySorted_app_1_r in Hs.
        inversion Hs as [|? ? _ Hf]; subst. rewrite Forall_app, Forall_cons in Hf.
        destruct Hf as (_ & Hf & _). unfold lt_timer in Hf. rewrite less_spec in Hf. lia. }
    assert (Hsr : sorted h (c :: r2)).
    { unfold sorted in *. apply StronglySorted_app_1_r in Hs. by apply StronglySorted_app_1_r in Hs. }
    inversion Hsr as [|? ? _ Hf]; subst. constructor; [done|].
    eapply Forall_impl; [exact Hf|]. intros b Hb. cbv beta in Hb.
    unfold lt_timer in Hb. rewrite less_spec in Hb. lia.
Qed.

(** ** The manager's invariant *)

Definition funcOf (m : TimeManager) (a : Z) : option F := heap m !! a ≫= func_.

(** The set is sorted, and it holds exactly the timers that still have a
    function to run: [cancel] and one-shot expiry clear [func_] and take
    the timer out together. *)
Record Inv (m : TimeManager) : Prop := {
  inv_sorted : sorted (heap m) (timers_ m);
  inv_live : forall a, a ∈ timers_ m <-> is_Some (funcOf m a)
}.

Lemma inv_heap m a : Inv m -> a ∈ timers_ m -> exists t f, heap m !! a = Some t /\ func_ t = Some f.
Proof.
  intros Hm Ha. apply Hm in Ha as [f Hf]. unfold funcOf in Hf.
  destruct (heap m !! a) as [t|]; [|done]. by exists t, f.
Qed.

Lemma inv_NoDup m : Inv m -> NoDup (timers_ m).
Proof. intros Hm. eapply sorted_NoDup, Hm. Qed.

Lemma newTimeManager_inv : Inv newTimeManager.
Proof.
  split; cbn; [constructor|]. intros a. unfold funcOf. cbn. rewrite lookup_empty.
  split; [set_solver|by intros []].
Qed.

Lemma agree_insert h a t l : a ∉ l -> agree h (<[a := t]> h) l.
Proof.
  intros Ha b Hb. unfold expireOf. rewrite lookup_insert_ne; [done|]. by intros ->.
Qed.

Lemma timerInsertAtFront_inv m : Inv (timerInsertAtFront m) <-> Inv m.
Proof. split; intros [? ?]; by split. Qed.

Lemma setNeedNotify_inv b m : Inv (setNeedNotify b m) <-> Inv m.
Proof. split; intros [? ?]; by split. Qed.

(** Putting a timer with a function (back) into the set it is not in. *)
Lemma insert_inv m a t l :
  Inv m -> is_Some (func_ t) -> a ∉ l ->
  (forall b, b ∈ l <-> b ∈ timers_ m /\ b <> a) -> sorted (heap m) l ->
  let h := <[a := t]> (heap m) in
  Inv (setTimers (set_insert h a l) (setHeap h m)).
Proof.
  intros Hm Ht Ha Hl Hs h. split; cbn.
  - apply sorted_insert; [done|]. eapply sorted_agree; [|done]. by apply agree_insert.
  - intros b. rewrite elem_of_set_insert, Hl by done. unfold funcOf. cbn. unfold h.
    destruct (decide (b = a)) as [->|Hb].
    + rewrite lookup_insert_eq. cbn. tauto.
    + rewrite lookup_insert_ne by done. rewrite inv_live by done. unfold funcOf. naive_solver.
Qed.

(** Taking a timer out together with its function. *)
Lemma clear_inv m a t l :
  Inv m -> (forall b, b ∈ l <-> b ∈ timers_ m /\ b <> a) -> sorted (heap m) l ->
  let h := <[a := setFunc None t]> (heap m) in Inv (setTimers l (setHeap h m)).
Proof.
  intros Hm Hl Hs h. split; cbn.
  - eapply sorted_agree; [|done]. apply agree_insert. rewrite Hl. tauto.
  - intros b. rewrite Hl. unfold funcOf. cbn. unfold h.
    destruct (decide (b = a)) as [->|Hb].
    + rewrite lookup_insert_eq. cbn. split; [tauto|by intros []].
    + rewrite lookup_insert_ne by done. rewrite inv_live by done. unfold funcOf. naive_solver.
Qed.

Lemma addTimer_spec now a interval f r m :
  Inv m -> heap m !! a = None ->
  exists m', addTimer now a interval f r m = (Ok a, m') /\ Inv m'
    /\ heap m' = <[a := newTimer now interval f r]> (heap m)
    /\ (forall b, b ∈ timers_ m' <-> b = a \/ b ∈ timers_ m).
Proof.
  intros Hm Ha.
  assert (Hn : a ∉ timers_ m).
  { intros Hin. destruct (inv_heap m a Hm Hin) as (t & ? & E & _). congruence. }
  pose proof (insert_inv m a (newTimer now interval f r) (timers_ m) Hm) as Hi.
  cbn zeta in Hi. unfold addTimer. eexists. split; [reflexivity|].
  set (m1 := setTimers _ (setHeap _ m)) in *.
  assert (Inv m1) by (apply Hi; [by eexists|done|set_solver|apply Hm]).
  destruct (at_front _ _); rewrite ?timerInsertAtFront_inv; (split; [done|]); (split; [done|]);
    intros b; cbn; by apply elem_of_set_insert.
Qed.

Lemma cancel_spec a t m :
  Inv m -> heap m !! a = Some t ->
  exists m', cancel a m = (Ok (bool_decide (is_Some (func_ t))), m') /\ Inv m'
    /\ heap m' = <[a := setFunc None t]> (heap m)
    /\ (forall b, b ∈ timers_ m' <-> b ∈ timers_ m /\ b <> a).
Proof.
  intros Hm Ha. unfold cancel, this, bind, store, modify, gets, ret. rewrite Ha.
  destruct (func_ t) as [f|] eqn:Ef.
  - assert (Hin : a ∈ timers_ m) by (apply Hm; unfold funcOf; rewrite Ha; cbn; by rewrite Ef).
    cbn. rewrite set_find_spec, bool_decide_eq_true_2 by done.
    eexists. split; [done|]. split.
    + rewrite (set_erase_heap _ (heap m)).
      apply clear_inv; [done| |apply sorted_erase, Hm].
      intros b. apply elem_of_set_erase, inv_NoDup, Hm.
    + split; [done|]. intros b. cbn. apply elem_of_set_erase, inv_NoDup, Hm.
  - exists m. split; [done|]. split; [done|]. split.
    + symmetry. apply insert_id. rewrite Ha. f_equal. destruct t. unfold setFunc. cbn in *. by subst.
    + intros b. split; [|tauto]. intros Hb. split; [done|]. intros ->.
      destruct (inv_heap m a Hm Hb) as (t' & f & E & E'). congruence.
Qed.

(** Erasing, changing the object and inserting it again, as [refresh] and
    [reset] do. *)
Lemma reinsert_inv m a t l :
  Inv m -> a ∈ timers_ m -> is_Some (func_ t) -> l = set_erase (heap m) a (timers_ m) ->
  let h := <[a := t]> (heap m) in
  Inv (setTimers (set_insert h a l) (setHeap h m))
  /\ (forall b, b ∈ set_insert h a l <-> b ∈ timers_ m).
Proof.
  intros Hm Ha Ht -> h. pose proof (inv_NoDup m Hm) as Hnd. split.
  - apply insert_inv; [done|done|by apply set_erase_gone| |apply sorted_erase, Hm].
    intros b. by apply elem_of_set_erase.
  - intros b. rewrite elem_of_set_insert, elem_of_set_erase by (done || by apply set_erase_gone).
    destruct (decide (b = a)) as [->|]; tauto.
Qed.

Lemma refresh_spec now a t m :
  Inv m -> heap m !! a = Some t ->
  exists m', refresh now a m = (Ok (bool_decide (is_Some (func_ t))), m') /\ Inv m'
    /\ heap m' = (if bool_decide (is_Some (func_ t))
                  then <[a := setExpire (now + interval_ t) t]> (heap m) else heap m)
    /\ (forall b, b ∈ timers_ m' <-> b ∈ timers_ m).
Proof.
  intros Hm Ha. unfold refresh, this, bind, store, modify, gets, ret. rewrite Ha.
  destruct (func_ t) as [f|] eqn:Ef; [|by exists m].
  assert (Hin : a ∈ timers_ m) by (apply Hm; unfold funcOf; rewrite Ha; cbn; by rewrite Ef).
  rewrite set_find_spec, bool_decide_eq_true_2 by done. cbn.
  eexists. split; [done|].
  destruct (reinsert_inv m a (setExpire (now + interval_ t) t) _ Hm Hin ltac:(by eexists) eq_refl).
  done.
Qed.

Lemma reset_spec now a interval fromNow t m :
  Inv m -> heap m !! a = Some t ->
  exists m' r, reset now a interval fromNow m = (Ok r, m') /\ Inv m'
    /\ (forall b, b ∈ timers_ m' <-> b ∈ timers_ m)
    /\ heap m' = (if bool_decide (is_Some (func_ t)) && (negb (interval_ t =? interval) || fromNow)
                  then <[a := setExpire ((if fromNow then now else expire_ t - interval_ t) + interval)
                              (setInterval interval t)]> (heap m)
                  else heap m)
    /\ r = bool_decide (is_Some (func_ t)) || ((interval_ t =? interval) && negb fromNow).
Proof.
  intros Hm Ha. unfold reset, this, bind, store, modify, gets, ret. rewrite Ha.
  destruct ((interval_ t =? interval) && negb fromNow) eqn:E0.
  { exists m, true. split_and!; try done.
    - apply andb_prop in E0 as [-> E0]. destruct fromNow; [done|]. by rewrite andb_false_r.
    - by rewrite orb_true_r. }
  assert (E1 : negb (interval_ t =? interval) || fromNow = true) by (destruct (_ =? _), fromNow; done).
  rewrite E1. destruct (func_ t) as [f|] eqn:Ef; [|by exists m, false].
  assert (Hin : a ∈ timers_ m) by (apply Hm; unfold funcOf; rewrite Ha; cbn; by rewrite Ef).
  rewrite set_find_spec, bool_decide_eq_true_2 by done. cbn.
  set (t' := setExpire _ (setInterval interval t)).
  destruct (reinsert_inv m a t' _ Hm Hin ltac:(by eexists) eq_refl) as [Hi Hb].
  do 2 eexists. split; [done|]. destruct (at_front _ _); cbn.
  - rewrite timerInsertAtFront_inv, setNeedNotify_inv. done.
  - done.
Qed.

Lemma getExpire_spec now m :
  exists m', getExpire now m = (Ok (match timers_ m with
                                    | [] => -1
                                    | a :: _ => if expireOf (heap m) a <? now then 0
                                                else expireOf (heap m) a - now end), m')
    /\ heap m' = heap m /\ timers_ m' = timers_ m /\ (Inv m -> Inv m').
Proof.
  exists (setNeedNotify false m). rewrite setNeedNotify_inv. split; [|done].
  unfold getExpire, bind, modify, gets, ret. cbn. by destruct (timers_ m).
Qed.

(** The re-arming loop on timers outside the set. *)
Lemma rearm_spec now p m :
  sorted (heap m) (timers_ m) -> NoDup p ->
  (forall a, a ∈ p -> (a ∉ timers_ m) /\ is_Some (heap m !! a)) ->
  exists m', rearm now p m = (map (funcOf m) p, m')
    /\ sorted (heap m') (timers_ m')
    /\ (forall a, a ∈ timers_ m' <-> (a ∈ timers_ m \/ (a ∈ p /\ (exists t, heap m !! a = Some t /\ recursive_ t = true))))
    /\ (forall a, heap m' !! a = (if decide (a ∈ p) then
            (fun t => if recursive_ t then setExpire (now + interval_ t) t else setFunc None t) <$> heap m !! a
          else heap m !! a)).
Proof.
  revert m. induction p as [|a p IH]; intros m Hs Hnd Hp; cbn [rearm map].
  { exists m. split_and!; try done; set_solver. }
  apply NoDup_cons in Hnd as [Ha Hnd].
  destruct (Hp a ltac:(by left)) as [Hat [t Et]]. rewrite Et.
  set (m1 := if recursive_ t then _ else _).
  assert (Hm1 : sorted (heap m1) (timers_ m1)
    /\ (forall b, b ∈ timers_ m1 <-> b ∈ timers_ m \/ (b = a /\ recursive_ t = true))
    /\ heap m1 = <[a := if recursive_ t then setExpire (now + interval_ t) t else setFunc None t]> (heap m)).
  { unfold m1. destruct (recursive_ t); cbn.
    - split; [|split; [|done]].
      + apply sorted_insert; [done|]. eapply sorted_agree; [|done]. by apply agree_insert.
      + intros b. rewrite elem_of_set_insert by done. naive_solver.
    - split; [|split; [|done]].
      + eapply sorted_agree; [|done]. by apply agree_insert.
      + naive_solver. }
  clearbody m1. destruct Hm1 as (Hs1 & Ht1 & Hh1).
  destruct (IH m1 Hs1 Hnd) as (m2 & E2 & Hs2 & Ht2 & Hh2).
  { intros b Hb. assert (b <> a) by (intros ->; done).
    rewrite Ht1, Hh1, lookup_insert_ne by done. destruct (Hp b ltac:(by right)). naive_solver. }
  exists m2. rewrite E2. split_and!.
  - f_equal. f_equal.
    + unfold funcOf. by rewrite Et.
    + apply map_ext_in. intros b Hb%list_elem_of_In. unfold funcOf.
      rewrite Hh1, lookup_insert_ne; [done|]. by intros ->.
  - done.
  - intros b. rewrite Ht2, Ht1, elem_of_cons. destruct (decide (b = a)) as [->|Hb].
    + rewrite Et. naive_solver.
    + rewrite Hh1, lookup_insert_ne by done. naive_solver.
  - intros b. rewrite Hh2, Hh1. destruct (decide (b = a)) as [->|Hb].
    + rewrite lookup_insert_eq, Et, decide_False, decide_True by set_solver. cbn. by destruct (recursive_ t).
    + rewrite lookup_insert_ne by done. repeat case_decide; set_solver.
Qed.

(** What one call of [expiredFunctions] does to a timer that was due. *)
Definition fire (now : Z) (t : Timer) : Timer :=
  if recursive_ t then setExpire (now + interval_ t) t else setFunc None t.

(** What [expiredFunctions] takes off the set: the timers that are due, in
    front of the others. *)
Lemma due_spec now tmp m :
  Inv m -> heap m !! tmp = None ->
  let h := <[tmp := newExpireTimer now]> (heap m) in
  exists due rest, (let '(p1, r1) := set_lower_bound h tmp (timers_ m) in
      let '(p2, r2) := skip_now h now r1 in (p1 ++ p2, r2)) = (due, rest)
    /\ timers_ m = due ++ rest /\ sorted (heap m) due /\ sorted (heap m) rest
    /\ (forall a, a ∈ due <-> a ∈ timers_ m /\ expireOf (heap m) a <= now).
Proof.
  intros Hm Htmp h. assert (Hnt : tmp ∉ timers_ m).
  { intros Hin. destruct (inv_heap m tmp Hm Hin) as (? & ? & ? & _). congruence. }
  assert (Hag : agree (heap m) h (timers_ m)) by by apply agree_insert.
  pose proof (expired_split h now tmp (timers_ m)) as Hsp.
  destruct (set_lower_bound h tmp (timers_ m)) as [p1 r1]. destruct (skip_now h now r1) as [p2 r2].
  destruct Hsp as (El & Hp & Hr).
  { eapply sorted_agree; [done|apply Hm]. }
  { unfold expireOf, h. by rewrite lookup_insert_eq. }
  exists (p1 ++ p2), r2. split; [done|]. split; [done|]. set (due := p1 ++ p2) in *. clearbody due.
  pose proof (inv_sorted m Hm) as Hs. unfold sorted in *. rewrite El in Hs.
  split; [by eapply StronglySorted_app_1_l|]. split; [by eapply StronglySorted_app_1_r|].
  intros a. rewrite Forall_forall in Hp, Hr. split.
  - intros Ha. assert (Hin : a ∈ timers_ m) by (rewrite El; set_solver).
    split; [done|]. rewrite (Hag a Hin). by apply Hp.
  - intros [Hin Hle]. rewrite (Hag a Hin) in Hle. rewrite El in Hin.
    apply elem_of_app in Hin as [|Hin]; [done|]. specialize (Hr a Hin). lia.
Qed.

(** What [expiredFunctions] returns and leaves. *)
Lemma expired_spec now tmp m :
  Inv m -> heap m !! tmp = None ->
  exists due m', expiredFunctions now tmp m = (Ok (map (funcOf m) due), m')
    /\ sorted (heap m) due
    /\ (forall a, a ∈ due <-> a ∈ timers_ m /\ expireOf (heap m) a <= now)
    /\ (forall a, heap m' !! a = (if decide (a ∈ due) then fire now <$> heap m !! a else heap m !! a))
    /\ Inv m'.
Proof.
  intros Hm Htmp. unfold expiredFunctions.
  destruct (timers_ m) as [|a0 l0] eqn:E0.
  { exists [], m. split; [done|]. split; [constructor|].
    split; [set_solver|]. split; [set_solver|done]. }
  rewrite <- E0. destruct (due_spec now tmp m Hm Htmp) as (due & r2 & Ed & El & Hsd & Hsr & Hdue).
  destruct (set_lower_bound _ tmp (timers_ m)) as [p1 r1]. destruct (skip_now _ now r1) as [p2 r2'].
  injection Ed as Ed ->. rewrite Ed. clear Ed E0.
  pose proof (inv_NoDup m Hm) as Hnd. rewrite El in Hnd. apply NoDup_app in Hnd as (Hnd1 & Hdis & Hnd2).
  destruct (rearm_spec now due (setTimers r2 m)) as (m' & E & Hs' & Ht' & Hh'); [done|done|..].
  { intros a Ha. cbn. split; [by apply Hdis|].
    destruct (inv_heap m a Hm) as (t & ? & Et & _); [|by exists t]. rewrite El. set_solver. }
  exists due, m'. rewrite E. cbn in *. split; [done|]. split; [done|]. split; [done|].
  split; [done|]. split; [done|]. intros a. rewrite Ht'. unfold funcOf. rewrite Hh'.
  case_decide as Ha.
  - assert (Hin : a ∈ timers_ m) by (rewrite El; set_solver).
    destruct (inv_heap m a Hm Hin) as (t & f & Et & Ef). rewrite Et. cbn.
    unfold fire. destruct (recursive_ t) eqn:Er; cbn.
    + rewrite Ef. split; [by eexists|]. intros _. right. split; [done|]. by exists t.
    + split; [|by intros []]. intros [?|(_ & t' & ? & ?)]; [by destruct (Hdis a)|congruence].
  - assert (Hiff : a ∈ r2 <-> a ∈ timers_ m) by (rewrite El; set_solver).
    rewrite Hiff, (inv_live m Hm). unfold funcOf. tauto.
Qed.

(** C20: [expiredFunctions] returns exactly the functions of the timers due
    at [now], in the order of their deadlines; one-shot timers lose their
    function and leave the set, recursive ones are due again one interval
    later, all others are as they were.  This does not depend on the address
    the temporary [now_timer] happens to get. *)
Theorem expiredFunctions_correct now tmp m :
  Inv m -> heap m !! tmp = None ->
  exists due m', expiredFunctions now tmp m = (Ok (map (funcOf m) due), m')
    /\ sorted (heap m) due
    /\ (forall a, a ∈ due <-> a ∈ timers_ m /\ expireOf (heap m) a <= now)
    /\ (forall a, heap m' !! a = (if decide (a ∈ due) then fire now <$> heap m !! a else heap m !! a))
    /\ Inv m'.
Proof. apply expired_spec. Qed.

(** ** All executions *)

(** One call of the interface: [new] returns an address that is not in use,
    methods are called on timers that exist. *)
Inductive step : TimeManager -> TimeManager -> Prop :=
| step_addTimer now a interval f r m :
    heap m !! a = None -> step m (addTimer now a interval f r m).2
| step_cancel a m : is_Some (heap m !! a) -> step m (cancel a m).2
| step_refresh now a m : is_Some (heap m !! a) -> step m (refresh now a m).2
| step_reset now a interval fromNow m :
    is_Some (heap m !! a) -> step m (reset now a interval fromNow m).2
| step_getExpire now m : step m (getExpire now m).2
| step_expiredFunctions now tmp m :
    heap m !! tmp = None -> step m (expiredFunctions now tmp m).2.

(** A timer that will not run again: it exists but has no function. *)
Definition dead (m : TimeManager) (a : Z) : Prop :=
  is_Some (heap m !! a) /\ funcOf m a = None.

Lemma insert_dead m m' a b t t' :
  heap m' = <[a := t']> (heap m) -> heap m !! a = Some t -> (func_ t = None -> func_ t' = None) ->
  dead m b -> dead m' b.
Proof.
  intros Hh Ha Ht [Hb Hf]. unfold dead, funcOf in *. rewrite Hh.
  destruct (decide (a = b)) as [->|Hab].
  - rewrite lookup_insert_eq. rewrite Ha in Hf. cbn in *. split; [by eexists|]. by apply Ht.
  - by rewrite lookup_insert_ne.
Qed.

(** Every call keeps the invariant and raises no timer from the dead. *)
Lemma step_inv m m' : step m m' -> Inv m -> Inv m' /\ forall b, dead m b -> dead m' b.
Proof.
  intros [now a interval f r m0 Ha|a m0 [t Ha]|now a m0 [t Ha]|now a interval fn m0 [t Ha]|now m0
         |now tmp m0 Ha] Hm.
  - destruct (addTimer_spec now a interval f r m0 Hm Ha) as (m1 & -> & Hi & Hh & _).
    split; [done|]. intros b [[t Hb] Hf]. unfold dead, funcOf. cbn. rewrite Hh.
    rewrite lookup_insert_ne by (intros ->; congruence). split; [by exists t|done].
  - destruct (cancel_spec a t m0 Hm Ha) as (m1 & -> & Hi & Hh & _).
    split; [done|]. intros b. by eapply insert_dead.
  - destruct (refresh_spec now a t m0 Hm Ha) as (m1 & -> & Hi & Hh & _).
    split; [done|]. intros b Hb. case_bool_decide; cbn in *; [by eapply insert_dead|].
    unfold dead, funcOf in *. by rewrite Hh.
  - destruct (reset_spec now a interval fn t m0 Hm Ha) as (m1 & ? & -> & Hi & _ & Hh & _).
    split; [done|]. intros b Hb. cbn. destruct (_ && _); [by eapply insert_dead|].
    unfold dead, funcOf in *. by rewrite Hh.
  - destruct (getExpire_spec now m0) as (m1 & -> & Hh & _ & Hi).
    split; [by apply Hi|]. unfold dead, funcOf. cbn. by rewrite Hh.
  - destruct (expired_spec now tmp m0 Hm Ha) as (due & m1 & -> & _ & Hd & Hh & Hi).
    split; [done|]. intros b [[t Hb] Hf]. unfold dead, funcOf in *. cbn in *. rewrite Hh, Hb in *.
    cbn in Hf. case_decide as Hin; cbn; [|by split; [eexists|]].
    apply Hd in Hin as [Hin _]. apply (inv_heap m0 b Hm) in Hin as (t' & f & E & Ef). congruence.
Qed.

Lemma steps_inv m m' : rtc step m m' -> Inv m -> Inv m' /\ forall b, dead m b -> dead m' b.
Proof.
  induction 1 as [|m1 m2 m3 H1 _ IH]; intros Hm; [done|].
  destruct (step_inv _ _ H1 Hm) as [Hm2 Hd]. destruct (IH Hm2) as [? ?]. auto.
Qed.

(** C12: from a new manager, no sequence of calls breaks the invariant: the
    set stays sorted by (deadline, address) and holds exactly the timers
    that have a function, so [cancel]'s "remove an unexisted timer" branch
    and the failed [find] of [refresh] and [reset] are never taken. *)
Theorem timers_reachable_inv m a t :
  rtc step newTimeManager m -> heap m !! a = Some t ->
  Inv m /\ (set_find (heap m) a (timers_ m) = bool_decide (is_Some (func_ t))).
Proof.
  intros Hr Ha. destruct (steps_inv _ _ Hr newTimeManager_inv) as [Hm _]. split; [done|].
  rewrite set_find_spec. apply bool_decide_ext. rewrite (inv_live m Hm). unfold funcOf.
  by rewrite Ha.
Qed.

(** ** What is handed out to the workers *)

(** A call of the interface, and what [expiredFunctions] hands out in it. *)
Inductive call :=
| AddTimer (now a interval : Z) (func : F) (recursive : bool)
| Cancel (a : Z)
| Refresh (now a : Z)
| Reset (now a interval : Z) (fromNow : bool)
| GetExpire (now : Z)
| ExpiredFunctions (now tmp : Z).

Definition after (c : call) (m : TimeManager) : TimeManager :=
  match c with
  | AddTimer now a interval f r => (addTimer now a interval f r m).2
  | Cancel a => (cancel a m).2
  | Refresh now a => (refresh now a m).2
  | Reset now a interval fromNow => (reset now a interval fromNow m).2
  | GetExpire now => (getExpire now m).2
  | ExpiredFunctions now tmp => (expiredFunctions now tmp m).2
  end.

Definition handed (c : call) (m : TimeManager) : list (option F) :=
  match c with
  | ExpiredFunctions now tmp => match (expiredFunctions now tmp m).1 with Ok fs => fs | Throw _ => [] end
  | _ => []
  end.

(** [new] returns an address that is not in use, methods are called on timers
    that exist. *)
Definition allowed (c : call) (m : TimeManager) : Prop :=
  match c with
  | AddTimer _ a _ _ _ | ExpiredFunctions _ a => heap m !! a = None
  | Cancel a | Refresh _ a | Reset _ a _ _ => is_Some (heap m !! a)
  | GetExpire _ => True
  end.

(** A sequence of calls [cs] and all that is handed out in it. *)
Inductive calls : list call -> TimeManager -> list (option F) -> TimeManager -> Prop :=
| calls_nil m : calls [] m [] m
| calls_cons c cs m out m' :
    allowed c m -> calls cs (after c m) out m' -> calls (c :: cs) m (handed c m ++ out) m'.

Lemma call_step c m : allowed c m -> step m (after c m).
Proof. destruct c; cbn [allowed after]; intros Ha; by constructor. Qed.

(** The call does not bring [f] to the manager. *)
Definition without (f : F) (c : call) : Prop :=
  match c with AddTimer _ _ _ g _ => g <> f | _ => True end.

Lemma fire_func now t f : func_ (fire now t) = Some f -> func_ t = Some f.
Proof. unfold fire. by destruct (recursive_ t). Qed.

(** A function nobody has is not handed out, and nobody gets it by a call that
    does not bring it. *)
Lemma call_absent f c m :
  Inv m -> allowed c m -> without f c -> (forall b, funcOf m b <> Some f) ->
  (Some f ∉ handed c m) /\ forall b, funcOf (after c m) b <> Some f.
Proof.
  intros Hm Ha Hw Hf.
  assert (Hkeep : forall m' a t t', heap m !! a = Some t -> heap m' = <[a := t']> (heap m) ->
    func_ t' = func_ t \/ func_ t' = None -> forall b, funcOf m' b <> Some f).
  { intros m' a t t' Ht Hh Hft b. specialize (Hf b). unfold funcOf in *. rewrite Hh.
    destruct (decide (a = b)) as [->|Hne]; [|by rewrite lookup_insert_ne].
    rewrite lookup_insert_eq. rewrite Ht in Hf. cbn in *. by destruct Hft as [-> | ->]. }
  destruct c as [now a i g r|a|now a|now a i fn|now|now tmp]; cbn [handed after allowed without] in *;
    try (split; [apply not_elem_of_nil|]).
  - destruct (addTimer_spec now a i g r m Hm Ha) as (m1 & -> & _ & Hh & _). intros b. cbn. unfold funcOf. rewrite Hh.
    destruct (decide (a = b)) as [->|Hne]; [rewrite lookup_insert_eq; cbn; congruence|].
    rewrite lookup_insert_ne by done. apply Hf.
  - destruct Ha as [t Ha]. destruct (cancel_spec a t m Hm Ha) as (m1 & -> & _ & Hh & _).
    eapply Hkeep; [done|done|by right].
  - destruct Ha as [t Ha]. destruct (refresh_spec now a t m Hm Ha) as (m1 & -> & _ & Hh & _).
    case_bool_decide; [eapply Hkeep; [done|done|by left]|]. intros b. cbn. unfold funcOf. rewrite Hh. apply Hf.
  - destruct Ha as [t Ha]. destruct (reset_spec now a i fn t m Hm Ha) as (m1 & x & -> & _ & _ & Hh & _).
    destruct (_ && _); [eapply Hkeep; [done|done|by left]|]. intros b. cbn. unfold funcOf. rewrite Hh. apply Hf.
  - destruct (getExpire_spec now m) as (m1 & -> & Hh & _). intros b. cbn. unfold funcOf. rewrite Hh. apply Hf.
  - destruct (expired_spec now tmp m Hm Ha) as (due & m1 & -> & _ & _ & Hh & _). cbn. split.
    + intros (b & E & _)%list_elem_of_fmap. by apply (Hf b).
    + intros b E. apply (Hf b). unfold funcOf in *. rewrite Hh in E. case_decide; [|done].
      destruct (heap m !! b) as [t|]; [|done]. cbn in *. by apply fire_func in E.
Qed.

Lemma calls_absent f cs m out m' :
  calls cs m out m' -> Inv m -> Forall (without f) cs -> (forall b, funcOf m b <> Some f) -> Some f ∉ out.
Proof.
  induction 1 as [m|c cs m out m' Ha _ IH]; intros Hm Hw Hf; [apply not_elem_of_nil|].
  apply Forall_cons in Hw as [Hwc Hw]. destruct (call_absent f c m Hm Ha Hwc Hf) as [Hh Hf'].
  apply not_elem_of_app. split; [done|]. apply IH; try done. by apply (step_inv _ _ (call_step c m Ha) Hm).
Qed.

(** C32: The function of a cancelled timer is not handed out any more.  [f] is
    the function of the timer [a] and of no other.  After [cancel], whatever
    is called as long as no new timer gets [f], no [expiredFunctions] returns
    [f], so that no worker queues it again; and the timer is neither in the set
    nor ever given a function.  (A worker that has got [f] from an earlier
    call still runs it: [cancel_too_late].) *)
Theorem cancelled_never_fires m a f cs out m' :
  Inv m -> funcOf m a = Some f -> (forall b, funcOf m b = Some f -> b = a) ->
  calls cs (cancel a m).2 out m' -> Forall (without f) cs ->
  (cancel a m).1 = Ok true /\ (Some f ∉ out) /\ (a ∉ timers_ m') /\ funcOf m' a = None.
Proof.
  intros Hm Ha Hu Hc Hw. unfold funcOf in Ha. destruct (heap m !! a) as [t|] eqn:Et; [|done]. cbn in Ha.
  destruct (cancel_spec a t m Hm Et) as (m1 & E & Hm1 & Hh & _). rewrite E in *. cbn [fst snd] in *.
  rewrite Ha. split; [done|]. split.
  - eapply calls_absent; [done|done|done|]. intros b. unfold funcOf. rewrite Hh.
    destruct (decide (a = b)) as [->|Hne]; [by rewrite lookup_insert_eq|]. rewrite lookup_insert_ne by done.
    intros Eb. by destruct Hne, (Hu b).
  - assert (Hd : Inv m' /\ dead m' a).
    { assert (dead m1 a) by (unfold dead, funcOf; rewrite Hh, lookup_insert_eq; split; [by eexists|done]).
      clear -Hc Hm1 H. revert Hm1 H. induction Hc as [m|c cs m out m' Hal _ IH]; intros Hm Hd; [done|].
      destruct (step_inv m (after c m) (call_step c m Hal) Hm) as [Hm' Hd']. auto. }
    destruct Hd as [Hm' [_ Hn]]. split; [|done]. rewrite (inv_live m' Hm'), Hn. by intros [].
Qed.

(** The times of a call: a clock and intervals below 2^62 milliseconds. *)
Definition timely (c : call) : Prop :=
  match c with
  | AddTimer now _ i _ _ | Reset now _ i _ => 0 <= now < 2 ^ 62 /\ Z.abs i < 2 ^ 62
  | Refresh now _ | GetExpire now | ExpiredFunctions now _ => 0 <= now < 2 ^ 62
  | Cancel _ => True
  end.

(** The instant a timer counts from and its interval. *)
Definition fitting (t : Timer) : Prop := 0 <= expire_ t - interval_ t < 2 ^ 62 /\ Z.abs (interval_ t) < 2 ^ 62.
Definition Fitting (m : TimeManager) : Prop := map_Forall (fun _ t => fitting t) (heap m).

Lemma call_fits c m : Inv m -> allowed c m -> timely c -> Fitting m -> Fitting (after c m).
Proof.
  intros Hm Ha Ht Hf.
  assert (Hset : forall m' a t', heap m' = <[a := t']> (heap m) -> fitting t' -> Fitting m').
  { intros m' a t' Hh Ht'. unfold Fitting. rewrite Hh. by apply map_Forall_insert_2. }
  assert (Hsame : forall m', heap m' = heap m -> Fitting m') by (intros m' Hh; unfold Fitting; by rewrite Hh).
  destruct c as [now a i g r|a|now a|now a i fn|now|now tmp]; cbn [after allowed timely] in *.
  - destruct (addTimer_spec now a i g r m Hm Ha) as (m1 & -> & _ & Hh & _).
    eapply Hset; [done|]. split; cbn; lia.
  - destruct Ha as [t Ha]. destruct (cancel_spec a t m Hm Ha) as (m1 & -> & _ & Hh & _).
    eapply Hset; [done|]. apply (Hf a t Ha).
  - destruct Ha as [t Ha]. destruct (refresh_spec now a t m Hm Ha) as (m1 & -> & _ & Hh & _).
    case_bool_decide; [|by apply Hsame]. eapply Hset; [done|]. destruct (Hf a t Ha). split; cbn; lia.
  - destruct Ha as [t Ha]. destruct (reset_spec now a i fn t m Hm Ha) as (m1 & x & -> & _ & _ & Hh & _).
    destruct (_ && _); [|by apply Hsame]. eapply Hset; [done|]. destruct (Hf a t Ha). destruct fn; split; cbn; lia.
  - destruct (getExpire_spec now m) as (m1 & -> & Hh & _). by apply Hsame.
  - destruct (expired_spec now tmp m Hm Ha) as (due & m1 & -> & _ & _ & Hh & _). intros b t Eb. cbn in Eb.
    rewrite Hh in Eb. case_decide; [|by apply (Hf b)]. destruct (heap m !! b) as [u|] eqn:Eu; [|done].
    cbn in Eb. injection Eb as <-. destruct (Hf b u Eu). unfold fire. destruct (recursive_ u); split; cbn; lia.
Qed.

(** The sums of the [int64_t] times never overflow: with a clock and intervals
    below 2^62 milliseconds every deadline, and every instant that [reset]
    counts from, is an [int64_t]. *)
Theorem deadlines_fit cs m out m' a t :
  calls cs m out m' -> Inv m -> Fitting m -> Forall timely cs -> heap m' !! a = Some t ->
  - 2 ^ 63 <= expire_ t < 2 ^ 63 /\ - 2 ^ 63 <= expire_ t - interval_ t < 2 ^ 63.
Proof.
  intros Hc Hm Hf Ht Ea. assert (Hf' : Fitting m').
  { clear Ea. induction Hc as [|c cs m out m' Hal _ IH]; [done|]. apply Forall_cons in Ht as [Htc Ht].
    apply IH; [by apply (step_inv _ _ (call_step c m Hal) Hm)|by apply call_fits|done]. }
  destruct (Hf' a t Ea). lia.
Qed.

(** [getExpire] tells the poller how long to sleep: never past a
    deadline and never for nothing.  [-1] means no timer at all; otherwise
    a call of [expiredFunctions] before the returned number of
    milliseconds has passed finds nothing, a call after it does not. *)
Theorem getExpire_sleeps_exactly now later tmp m :
  Inv m -> heap m !! tmp = None -> now <= later ->
  exists r m1 fs m2, getExpire now m = (Ok r, m1) /\ expiredFunctions later tmp m1 = (Ok fs, m2)
    /\ (r = -1 <-> timers_ m = [])
    /\ (0 <= r -> later < now + r -> fs = [])
    /\ (0 <= r -> now + r <= later -> fs <> []).
Proof.
  intros Hm Htmp Hlater. destruct (getExpire_spec now m) as (m1 & E1 & Hh & Hl & Hi).
  destruct (expired_spec later tmp m1) as (due & m2 & E2 & _ & Hd & _).
  { by apply Hi. } { by rewrite Hh. }
  do 4 eexists. split; [exact E1|]. split; [exact E2|].
  rewrite Hl, Hh in Hd. destruct (timers_ m) as [|a l] eqn:El; [split_and!; (done || lia)|].
  assert (Hfirst : forall b, b ∈ a :: l -> expireOf (heap m) a <= expireOf (heap m) b).
  { pose proof (inv_sorted m Hm) as Hs. rewrite El in Hs. inversion Hs as [|? ? _ Hf]; subst.
    rewrite Forall_forall in Hf. intros b [->|Hb]%elem_of_cons; [done|]. specialize (Hf b Hb).
    unfold lt_timer in Hf. rewrite less_spec in Hf. lia. }
  destruct (Z.ltb_spec (expireOf (heap m) a) now) as [Hlt|Hge].
  - split; [split; [lia|done]|]. split.
    + lia.
    + intros _ ? Hn. apply map_eq_nil in Hn. subst. assert (a ∈ []) as []%not_elem_of_nil.
      apply Hd. split; [by left|]. lia.
  - split; [split; [lia|done]|]. split.
    + intros _ ?. destruct due as [|b due]; [done|]. exfalso.
      destruct (proj1 (Hd b) ltac:(by left)) as [Hb ?]. specialize (Hfirst b Hb). lia.
    + intros _ ? Hn. apply map_eq_nil in Hn. subst. assert (a ∈ []) as []%not_elem_of_nil.
      apply Hd. split; [by left|]. lia.
Qed.
End Timer.

(** ** Concrete runs *)

Definition demo_timers : @TimeManager nat :=
  let m := (addTimer 1000 1 50 10%nat false newTimeManager).2 in
  let m := (addTimer 1000 2 20 20%nat true m).2 in
  (addTimer 1000 3 20 30%nat false m).2.

Lemma demo_timers_reach : rtc step newTimeManager demo_timers.
Proof.
  unfold demo_timers. cbv zeta.
  eapply rtc_l; [apply (step_addTimer 1000 1 50 10%nat false); reflexivity|].
  eapply rtc_l; [apply (step_addTimer 1000 2 20 20%nat true); reflexivity|].
  apply rtc_once, (step_addTimer 1000 3 20 30%nat false). reflexivity.
Qed.

Lemma demo_timers_inv : Inv demo_timers.
Proof. apply (steps_inv _ _ demo_timers_reach newTimeManager_inv). Qed.

Lemma expiredFunctions_correct_witness :
  exists due m', expiredFunctions 1020 99 demo_timers = (Ok (map (funcOf demo_timers) due), m')
    /\ map (funcOf demo_timers) due = [Some 20%nat; Some 30%nat] /\ Inv m'.
Proof.
  destruct (expiredFunctions_correct 1020 99 demo_timers demo_timers_inv eq_refl)
    as (due & m' & E & _ & _ & _ & Hi).
  exists due, m'. split; [exact E|]. split; [|exact Hi].
  apply (f_equal fst) in E. vm_compute in E. injection E as E. symmetry. exact E.
Defined.

Lemma timers_reachable_inv_witness :
  Inv demo_timers /\ set_find (heap demo_timers) 2 (timers_ demo_timers) = true.
Proof.
  destruct (timers_reachable_inv demo_timers 2
    {| recursive_ := true; interval_ := 20; expire_ := 1020; func_ := Some 20%nat |}
    demo_timers_reach eq_refl) as [H1 H2].
  split; [exact H1|]. rewrite H2. reflexivity.
Defined.

(** The recursive timer 2 is cancelled, and the next expiry hands out the
    function of timer 3 only. *)
Lemma cancelled_never_fires_witness :
  (cancel 2 demo_timers).1 = Ok true
  /\ (Some 20%nat ∉ handed (ExpiredFunctions 1020 99) (cancel 2 demo_timers).2)
  /\ handed (ExpiredFunctions 1020 99) (cancel 2 demo_timers).2 = [Some 30%nat].
Proof.
  destruct (cancelled_never_fires demo_timers 2 20%nat [ExpiredFunctions 1020 99]
    (handed (ExpiredFunctions 1020 99) (cancel 2 demo_timers).2 ++ [])
    (after (ExpiredFunctions 1020 99) (cancel 2 demo_timers).2) demo_timers_inv) as (H1 & H2 & _).
  - reflexivity.
  - intros b E. unfold funcOf in E. change (heap demo_timers) with
      (<[3 := newTimer 1000 20 30%nat false]> (<[2 := newTimer 1000 20 20%nat true]>
        (<[1 := newTimer 1000 50 10%nat false]> (∅ : gmap Z (@Timer nat))))) in E.
    destruct (decide (b = 2)) as [|Hb]; [done|]. exfalso.
    destruct (decide (b = 3)) as [->|H3]; [rewrite lookup_insert_eq in E; discriminate E|rewrite lookup_insert_ne in E by done].
    rewrite lookup_insert_ne in E by done.
    destruct (decide (b = 1)) as [->|H1]; [rewrite lookup_insert_eq in E; discriminate E|rewrite lookup_insert_ne in E by done].
    rewrite lookup_empty in E. discriminate E.
  - apply calls_cons; [reflexivity|constructor].
  - repeat constructor.
  - split; [exact H1|]. split; [|reflexivity]. intros Hin. apply H2. apply elem_of_app. left. exact Hin.
Defined.

(** What is handed out before [cancel] is not taken back: the function of the
    recursive timer 2 is with the worker when [cancel] returns [true]. *)
Example cancel_too_late :
  let m := after (ExpiredFunctions 1020 99) demo_timers in
  handed (ExpiredFunctions 1020 99) demo_timers = [Some 20%nat; Some 30%nat] /\ (cancel 2 m).1 = Ok true.
Proof. by vm_compute. Qed.

Lemma deadlines_fit_witness :
  exists t, heap (after (Reset 1010 1 70 false) demo_timers) !! 1 = Some t /\ expire_ t = 1070
    /\ expire_ t < 2 ^ 63.
Proof.
  eexists. split; [reflexivity|]. split; [reflexivity|].
  eapply (deadlines_fit [Reset 1010 1 70 false] demo_timers [] (after (Reset 1010 1 70 false) demo_timers) 1).
  - apply (calls_cons (Reset 1010 1 70 false) [] demo_timers []); [by eexists|constructor].
  - apply demo_timers_inv.
  - repeat apply map_Forall_insert_2; [split; cbn; lia..|apply map_Forall_empty].
  - repeat constructor; lia.
  - reflexivity.
Defined.

Lemma getExpire_sleeps_exactly_witness :
  exists r m1 fs m2, getExpire 1005 demo_timers = (Ok r, m1) /\ r = 15
    /\ expiredFunctions 1020 99 m1 = (Ok fs, m2) /\ fs <> [].
Proof.
  destruct (getExpire_sleeps_exactly 1005 1020 99 demo_timers demo_timers_inv eq_refl ltac:(lia))
    as (r & m1 & fs & m2 & E1 & E2 & _ & _ & H).
  assert (r = 15) as -> by (apply (f_equal fst) in E1; vm_compute in E1; by injection E1).
  exists 15, m1, fs, m2. split_and!; [exact E1|done|exact E2|]. apply H; lia.
Defined.
