(* ===== verification/Epoller.v ===== *)
(** * Epoller (src/reyao/epoller.h, src/reyao/epoller.cc)

    Registration of coroutines and functions for the readiness of file
    descriptors, and what happens when the kernel reports them ready.  The
    kernel's epoll instance is a parameter with the documented behaviour of
    [epoll_ctl] as its laws.  The eventfd of the constructor is in the section
    [Eventfd]: an instance of the laws whose descriptor is hidden from the
    registry and stays watched. *)

From S2P Require Import Prelude.

Definition EPOLLIN : Z := 1.
Definition EPOLLOUT : Z := 4.
Definition EPOLLERR : Z := 8.
Definition EPOLLHUP : Z := 16.
Definition EPOLLET : Z := 2 ^ 31.

Inductive ctl := EPOLL_CTL_ADD | EPOLL_CTL_MOD | EPOLL_CTL_DEL.

(** An epoll instance: which events it watches on which descriptor, and the
    effect of a successful or failed [epoll_ctl] (epoll_ctl(2): adding needs
    a descriptor that is not registered, the others one that is). *)
Class Epoll (K : Type) := {
  epoll_ctl : ctl -> Z -> Z -> K -> bool * K;
  interest : K -> Z -> option Z;
  epoll_ctl_fail op fd ev k k' :
    epoll_ctl op fd ev k = (false, k') -> forall f, interest k' f = interest k f;
  epoll_ctl_ok op fd ev k k' :
    epoll_ctl op fd ev k = (true, k') ->
    (forall f, interest k' f = if decide (f = fd)
                               then match op with EPOLL_CTL_DEL => None | _ => Some ev end
                               else interest k f)
    /\ (is_Some (interest k fd) <-> op <> EPOLL_CTL_ADD)
}.

Section Epoller.
(** Workers, coroutines, callables and the kernel's epoll instance. *)
Context {W C F K : Type} `{Epoll K}.

(** What [Worker::addTask] receives. *)
Inductive Task := TaskCo (co : C) | TaskFunc (func : F).

Record EventCtx := { worker : option W; co : option C; func : option F }.

Definition emptyCtx : EventCtx := {| worker := None; co := None; func := None |}.

Record IOEvent := { readEvent : EventCtx; writeEvent : EventCtx; types : Z; fd : Z }.

Definition newIOEvent (f : Z) : IOEvent :=
  {| readEvent := emptyCtx; writeEvent := emptyCtx; types := 0; fd := f |}.

(** The poller.  [scheduled] is the log of [worker->addTask] calls. *)
Record Epoller := {
  ioEvents_ : list IOEvent;
  pendingEvents_ : Z;
  polling_ : bool;
  kernel : K;
  scheduled : list (W * Task)
}.

Definition setEvents (l : list IOEvent) (p : Epoller) : Epoller :=
  {| ioEvents_ := l; pendingEvents_ := pendingEvents_ p; polling_ := polling_ p;
     kernel := kernel p; scheduled := scheduled p |}.
Definition setPending (n : Z) (p : Epoller) : Epoller :=
  {| ioEvents_ := ioEvents_ p; pendingEvents_ := n; polling_ := polling_ p;
     kernel := kernel p; scheduled := scheduled p |}.
Definition setPolling (b : bool) (p : Epoller) : Epoller :=
  {| ioEvents_ := ioEvents_ p; pendingEvents_ := pendingEvents_ p; polling_ := b;
     kernel := kernel p; scheduled := scheduled p |}.
Definition setKernel (k : K) (p : Epoller) : Epoller :=
  {| ioEvents_ := ioEvents_ p; pendingEvents_ := pendingEvents_ p; polling_ := polling_ p;
     kernel := k; scheduled := scheduled p |}.
Definition schedule (w : W) (t : Task) (p : Epoller) : Epoller :=
  {| ioEvents_ := ioEvents_ p; pendingEvents_ := pendingEvents_ p; polling_ := polling_ p;
     kernel := kernel p; scheduled := scheduled p ++ [(w, t)] |}.

(** The members as the constructor leaves them, over the epoll instance [k]
    as the constructor leaves it; see [createEpoller] for what it does to the
    instance. *)
Definition newEpoller (k : K) : Epoller :=
  {| ioEvents_ := []; pendingEvents_ := 0; polling_ := false; kernel := k; scheduled := [] |}.

(** ** IOEvent *)

(** [getEventCtx]: [None] is the failed assertion of the default case. *)
Definition getEventCtx (type : Z) (e : IOEvent) : option EventCtx :=
  if type =? EPOLLIN then Some (readEvent e)
  else if type =? EPOLLOUT then Some (writeEvent e) else None.

Definition setEventCtx (type : Z) (c : EventCtx) (e : IOEvent) : IOEvent :=
  if type =? EPOLLIN
  then {| readEvent := c; writeEvent := writeEvent e; types := types e; fd := fd e |}
  else {| readEvent := readEvent e; writeEvent := c; types := types e; fd := fd e |}.

Definition setTypes (t : Z) (e : IOEvent) : IOEvent :=
  {| readEvent := readEvent e; writeEvent := writeEvent e; types := t; fd := fd e |}.

(** [~type] on an [int]. *)
Definition clear (types type : Z) : Z := Z.land types (Z.lnot type).

(** [ioEvents_[fd]] *)
Definition getEvent (i : Z) : M Epoller IOEvent := fun p =>
  if decide (0 <= i) then
    match ioEvents_ p !! Z.to_nat i with Some e => (Ok e, p) | None => (Throw Undefined, p) end
  else (Throw Undefined, p).

Definition putEvent (i : Z) (e : IOEvent) : M Epoller unit :=
  modify (fun p => setEvents (<[Z.to_nat i := e]> (ioEvents_ p)) p).

Definition need {A} (o : option A) (e : err) : M Epoller A :=
  match o with Some a => ret a | None => throw e end.

Definition resetEventCtx (i type : Z) : M Epoller unit :=
  e <-- getEvent i ;;
  need (getEventCtx type e) AssertFail ;;;
  putEvent i (setEventCtx type emptyCtx e).

(** [addTask(&ctx.co)] and [addTask(&ctx.func)] swap the callable out of the
    context; an empty one is not queued. *)
Definition triggleEvent (i type : Z) : M Epoller unit :=
  e <-- getEvent i ;;
  assert_ (negb (Z.land (types e) type =? 0)) ;;;
  ctx <-- need (getEventCtx type e) AssertFail ;;
  w <-- need (worker ctx) Undefined ;;
  let e := setTypes (clear (types e) type) e in
  match co ctx with
  | Some c =>
      modify (schedule w (TaskCo c)) ;;;
      putEvent i (setEventCtx type {| worker := None; co := None; func := func ctx |} e)
  | None =>
      match func ctx with
      | Some f => modify (schedule w (TaskFunc f))
      | None => ret tt
      end ;;;
      putEvent i (setEventCtx type emptyCtx e)
  end.

Definition epollCtl (op : ctl) (f ev : Z) : M Epoller bool := fun p =>
  let '(ok, k) := epoll_ctl op f ev (kernel p) in (Ok ok, setKernel k p).

Definition decPending : M Epoller unit :=
  modify (fun p => setPending (u64 (pendingEvents_ p - 1)) p).

(** ** Registration *)

(** [ioEvents_.resize(size)], a new [IOEvent] in every empty slot. *)
Definition resizeEvents (size : Z) : M Epoller unit :=
  modify (fun p =>
    let n := Z.to_nat size in
    let l := ioEvents_ p in
    setEvents (take n l ++ map (fun i => newIOEvent (Z.of_nat i)) (seq (length l) (n - length l))) p).

(** [fd * 1.5], converted to [size_t]. *)
Definition growTo (f : Z) : Z := f * 3 / 2.

(** [w] and [c] are [Worker::GetWorker()] and [Coroutine::GetCurCoroutine()]. *)
Definition addEvent (w : W) (c : C) (f type : Z) (fn : option F) : M Epoller bool :=
  p <-- gets id ;;
  (if zlen (ioEvents_ p) <=? f then resizeEvents (growTo f) else ret tt) ;;;
  e <-- getEvent f ;;
  if negb (Z.land (types e) type =? 0) then ret false
  else
    let op := if types e =? 0 then EPOLL_CTL_ADD else EPOLL_CTL_MOD in
    ok <-- epollCtl op f (Z.lor (Z.lor EPOLLET (types e)) type) ;;
    if negb ok then ret false
    else
      modify (fun p => setPending (u64 (pendingEvents_ p + 1)) p) ;;;
      let e := setTypes (Z.lor (types e) type) e in
      putEvent f e ;;;
      ctx <-- need (getEventCtx type e) AssertFail ;;
      assert_ (match co ctx, worker ctx with None, None => true | _, _ => false end) ;;;
      putEvent f (setEventCtx type
        (match fn with
         | Some fn => {| worker := Some w; co := co ctx; func := Some fn |}
         | None => {| worker := Some w; co := Some c; func := func ctx |}
         end) e) ;;;
      ret true.

(** The shared start of [delEvent] and [handleEvent]: stop watching [type]. *)
Definition unwatch (f type : Z) : M Epoller bool :=
  p <-- gets id ;;
  if zlen (ioEvents_ p) <=? f then ret false
  else
    e <-- getEvent f ;;
    if Z.land (types e) type =? 0 then ret false
    else
      let newTypes := clear (types e) type in
      let op := if newTypes =? 0 then EPOLL_CTL_DEL else EPOLL_CTL_MOD in
      epollCtl op f (Z.lor EPOLLET newTypes).

Definition delEvent (f type : Z) : M Epoller bool :=
  ok <-- unwatch f type ;;
  if negb ok then ret false
  else
    decPending ;;;
    e <-- getEvent f ;;
    putEvent f (setTypes (clear (types e) type) e) ;;;
    resetEventCtx f type ;;;
    ret true.

Definition handleEvent (f type : Z) : M Epoller bool :=
  ok <-- unwatch f type ;;
  if negb ok then ret false
  else triggleEvent f type ;;; decPending ;;; ret true.

(** [if (event->types & type) { triggleEvent(type); --pendingEvents_; }] *)
Definition triggleIf (f type : Z) : M Epoller unit :=
  e <-- getEvent f ;;
  if Z.land (types e) type =? 0 then ret tt else triggleEvent f type ;;; decPending.

Definition handleAllEvent (f : Z) : M Epoller bool :=
  p <-- gets id ;;
  if zlen (ioEvents_ p) <=? f then ret false
  else
    e <-- getEvent f ;;
    if types e =? 0 then ret false
    else
      ok <-- epollCtl EPOLL_CTL_DEL f 0 ;;
      if negb ok then ret false
      else triggleIf f EPOLLIN ;;; triggleIf f EPOLLOUT ;;; ret true.

(** ** Waiting *)

Definition kMaxTimeout : Z := 5000.

(** The timeout handed to [epoll_wait]: the caller's [int64_t] becomes an [int]. *)
Definition clampTimeout (timeout : Z) : Z :=
  let timeout := i32 timeout in
  if timeout =? -1 then kMaxTimeout
  else if kMaxTimeout <? timeout then kMaxTimeout else timeout.

(** What [epoll_wait] reports: the eventfd, or an [IOEvent] and its events. *)
Inductive Ready := ReadyNotify | ReadyIO (f events : Z).

(** [realEvents]: an error or a hang-up wakes everything registered. *)
Definition realEventsOf (events types : Z) : Z :=
  let events :=
    if Z.land events (Z.lor EPOLLERR EPOLLHUP) =? 0 then events
    else Z.lor events (Z.land (Z.lor EPOLLIN EPOLLOUT) types) in
  Z.lor (Z.land events EPOLLIN) (Z.land events EPOLLOUT).

Definition handleReady (r : Ready) : M Epoller unit :=
  match r with
  | ReadyNotify => ret tt
  | ReadyIO f events =>
      e <-- getEvent f ;;
      let realEvents := realEventsOf events (types e) in
      if Z.land (types e) realEvents =? 0 then ret tt
      else
        let left_events := clear (types e) realEvents in
        let op := if left_events =? 0 then EPOLL_CTL_DEL else EPOLL_CTL_MOD in
        epollCtl op (fd e) (Z.land EPOLLET left_events) ;;;
        (if Z.land realEvents EPOLLIN =? 0 then ret tt else triggleEvent f EPOLLIN ;;; decPending) ;;;
        (if Z.land realEvents EPOLLOUT =? 0 then ret tt else triggleEvent f EPOLLOUT ;;; decPending)
  end.

Fixpoint handleAllReady (rs : list Ready) : M Epoller unit :=
  match rs with
  | [] => ret tt
  | r :: rs => handleReady r ;;; handleAllReady rs
  end.

(** [wait] on worker [self]: [expired] is what [expiredFunctions] returned,
    [rs] what [epoll_wait] returned once it was not interrupted. *)
Definition wait (self : W) (expired : list (option F)) (rs : list Ready) : M Epoller unit :=
  modify (setPolling true) ;;;
  modify (setPolling false) ;;;
  modify (fun p => foldl (fun p f => match f with Some f => schedule self (TaskFunc f) p | None => p end)
                         p expired) ;;;
  handleAllReady rs.

Definition hasEvent (p : Epoller) : bool := negb (pendingEvents_ p =? 0).

(** [notify]: whether the eventfd is written to. *)
Definition notify (p : Epoller) : bool := polling_ p.

(** ** Invariant *)

Definition is_type (t : Z) : Prop := t = EPOLLIN \/ t = EPOLLOUT.
Definition is_types (t : Z) : Prop := t = 0 \/ t = EPOLLIN \/ t = EPOLLOUT \/ t = Z.lor EPOLLIN EPOLLOUT.

(** A context is empty, or knows its worker and what to run there. *)
Definition ctx_ok (registered : bool) (c : EventCtx) : Prop :=
  if registered
  then exists w, c = {| worker := Some w; co := co c; func := func c |}
                 /\ ((is_Some (co c) /\ func c = None) \/ (co c = None /\ is_Some (func c)))
  else c = emptyCtx.

Definition has (types type : Z) : bool := negb (Z.land types type =? 0).

(** What the kernel must watch for these types. *)
Definition watched (types : Z) : option Z :=
  if types =? 0 then None else Some (Z.lor EPOLLET types).

Record event_ok (i : Z) (e : IOEvent) : Prop := {
  ev_fd : fd e = i;
  ev_types : is_types (types e);
  ev_read : ctx_ok (has (types e) EPOLLIN) (readEvent e);
  ev_write : ctx_ok (has (types e) EPOLLOUT) (writeEvent e)
}.

Definition b2z (b : bool) : Z := if b then 1 else 0.

(** The number of registrations of an event and of a list of them. *)
Definition count (e : IOEvent) : Z := b2z (has (types e) EPOLLIN) + b2z (has (types e) EPOLLOUT).
Definition counts (l : list IOEvent) : Z := foldr (fun e n => count e + n) 0 l.

(** The table is well formed and [pendingEvents_] counts its registrations. *)
Record Shape (p : Epoller) : Prop := {
  sh_events : forall i e, ioEvents_ p !! i = Some e -> event_ok (Z.of_nat i) e;
  sh_pending : pendingEvents_ p = counts (ioEvents_ p);
  sh_size : zlen (ioEvents_ p) < 2 ^ 32
}.

(** In addition the kernel watches exactly what is registered. *)
Record Inv (p : Epoller) : Prop := {
  inv_shape : Shape p;
  inv_watch : forall i e, ioEvents_ p !! i = Some e ->
    interest (kernel p) (Z.of_nat i) = watched (types e);
  inv_rest : forall f, zlen (ioEvents_ p) <= f -> interest (kernel p) f = None
}.

Lemma count_range e : 0 <= count e <= 2.
Proof. unfold count, b2z. repeat case_match; lia. Qed.

Lemma counts_range l : 0 <= counts l <= 2 * zlen l.
Proof.
  induction l as [|e l IH]; cbn [counts foldr]; [done|].
  pose proof (count_range e). fold (counts l). rewrite zlen_cons. lia.
Qed.

Lemma counts_app l k : counts (l ++ k) = counts l + counts k.
Proof.
  induction l as [|e l IH]; cbn [counts foldr app]; [done|].
  fold (counts (l ++ k)) (counts l). lia.
Qed.

Lemma counts_insert l i e e' :
  l !! i = Some e -> counts (<[i := e']> l) = counts l - count e + count e'.
Proof.
  revert i. induction l as [|x l IH]; intros [|i] Hi; cbn in Hi; try done.
  - injection Hi as ->. cbn [insert list_insert counts foldr]. lia.
  - change (<[S i := e']> (x :: l)) with (x :: <[i := e']> l).
    cbn [counts foldr]. fold (counts (<[i := e']> l)) (counts l). rewrite IH by done. lia.
Qed.

Lemma event_ok_new i : event_ok i (newIOEvent i).
Proof. split; cbn; try done. by left. Qed.

Lemma newEpoller_inv k : (forall f, interest k f = None) -> Inv (newEpoller k).
Proof. intros Hk. split; [split|..]; cbn; done. Qed.

(** The bit operations on the four possible [types] and two event types. *)
Ltac by_bits :=
  repeat match goal with
  | H : is_types _ |- _ => unfold is_types in H
  | H : is_type _ |- _ => unfold is_type in H
  | H : _ \/ _ |- _ => destruct H as [H|H]
  end; subst; try done; cbn in *; try done.

(** Overwriting one slot by an event that fits keeps the shape, provided
    [pendingEvents_] moves with the number of registrations. *)
Lemma shape_put p i e e' n :
  Shape p -> ioEvents_ p !! i = Some e -> event_ok (Z.of_nat i) e' ->
  n = pendingEvents_ p - count e + count e' ->
  Shape (setPending n (setEvents (<[i := e']> (ioEvents_ p)) p)).
Proof.
  intros [Hev Hp Hsz] Hi He' ->. split; cbn.
  - intros j ej Hj. destruct (decide (i = j)) as [->|Hij].
    + rewrite list_lookup_insert_eq in Hj by (by eapply lookup_lt_Some). injection Hj as <-. done.
    + rewrite list_lookup_insert_ne in Hj by done. by apply Hev.
  - by rewrite (counts_insert _ _ e), Hp.
  - unfold zlen in *. by rewrite length_insert.
Qed.

Lemma shape_kernel k p : Shape (setKernel k p) <-> Shape p.
Proof. split; intros [? ? ?]; by split. Qed.

Lemma shape_schedule w t p : Shape (schedule w t p) <-> Shape p.
Proof. split; intros [? ? ?]; by split. Qed.

Lemma watch_put p i e' k :
  Inv p -> (i < length (ioEvents_ p))%nat ->
  (forall f, f <> Z.of_nat i -> interest k f = interest (kernel p) f) ->
  interest k (Z.of_nat i) = watched (types e') ->
  (forall j ej, <[i := e']> (ioEvents_ p) !! j = Some ej -> interest k (Z.of_nat j) = watched (types ej))
  /\ (forall f, zlen (<[i := e']> (ioEvents_ p)) <= f -> interest k f = None).
Proof.
  intros [_ Hw Hr] Hi Hk He'. split.
  - intros j ej Hj. destruct (decide (i = j)) as [->|Hij].
    + rewrite list_lookup_insert_eq in Hj by done. by injection Hj as <-.
    + rewrite list_lookup_insert_ne in Hj by done. rewrite Hk by lia. by apply Hw.
  - intros f Hf. unfold zlen in *. rewrite length_insert in Hf. rewrite Hk by lia. by apply Hr.
Qed.

(** ** Operations, step by step *)

(** The task a registered context stands for, and where it runs. *)
Definition taskOf (c : EventCtx) : option (W * Task) :=
  match worker c, co c, func c with
  | Some w, Some c, _ => Some (w, TaskCo c)
  | Some w, None, Some f => Some (w, TaskFunc f)
  | _, _, _ => None
  end.

Definition ctxOf (type : Z) (e : IOEvent) : EventCtx :=
  if type =? EPOLLIN then readEvent e else writeEvent e.

(** The event after its [type] has been taken out. *)
Definition cleared (type : Z) (e : IOEvent) : IOEvent :=
  setEventCtx type emptyCtx (setTypes (clear (types e) type) e).

Lemma getEvent_spec p i e : ioEvents_ p !! i = Some e -> getEvent (Z.of_nat i) p = (Ok e, p).
Proof. intros Hi. unfold getEvent. rewrite decide_True, Nat2Z.id, Hi by lia. done. Qed.

Lemma putEvent_spec p i e :
  putEvent (Z.of_nat i) e p = (Ok tt, setEvents (<[i := e]> (ioEvents_ p)) p).
Proof. unfold putEvent, modify. by rewrite Nat2Z.id. Qed.

Lemma getEventCtx_spec type e : is_type type -> getEventCtx type e = Some (ctxOf type e).
Proof. by intros [-> | ->]. Qed.

Lemma ctxOf_task i e type :
  event_ok i e -> is_type type -> has (types e) type = true ->
  exists w t, taskOf (ctxOf type e) = Some (w, t) /\ worker (ctxOf type e) = Some w
    /\ ((exists c, t = TaskCo c /\ co (ctxOf type e) = Some c /\ func (ctxOf type e) = None)
        \/ (exists f, t = TaskFunc f /\ co (ctxOf type e) = None /\ func (ctxOf type e) = Some f)).
Proof.
  intros [_ _ Hr Hw] Ht Hh. unfold taskOf.
  assert (Hc : ctx_ok true (ctxOf type e)).
  { destruct Ht as [-> | ->]; rewrite Hh in *; done. }
  cbn in Hc. destruct Hc as (w & E & [[[c Ec] Ef]|[Ec [f Ef]]]); rewrite E; cbn; rewrite Ec, ?Ef.
  - exists w, (TaskCo c). split_and!; try done. left. by exists c.
  - exists w, (TaskFunc f). split_and!; try done. right. by exists f.
Qed.

Lemma cleared_ok i e type :
  event_ok i e -> is_type type -> has (types e) type = true ->
  event_ok i (cleared type e) /\ count (cleared type e) = count e - 1
  /\ types (cleared type e) = clear (types e) type
  /\ is_types (types (cleared type e)).
Proof.
  intros [Hf Ht Hr Hw] Hty Hh. destruct e as [r w t f]. cbn in *.
  unfold cleared, count in *. unfold is_types, is_type in *.
  destruct Hty as [-> | ->], Ht as [-> |[-> |[-> | ->]]]; cbn in *; try done;
    (split; [split; cbn; unfold is_types; auto 6; done|]); (split; [done|]); (split; [done|]); auto.
Qed.

Lemma triggleEvent_spec p i e type :
  ioEvents_ p !! i = Some e -> event_ok (Z.of_nat i) e -> is_type type -> has (types e) type = true ->
  exists w t, taskOf (ctxOf type e) = Some (w, t)
    /\ triggleEvent (Z.of_nat i) type p
       = (Ok tt, setEvents (<[i := cleared type e]> (ioEvents_ p)) (schedule w t p)).
Proof.
  intros Hi He Hty Hh. destruct (ctxOf_task _ e type He Hty Hh) as (w & t & E & Ew & Ht).
  exists w, t. split; [done|]. unfold triggleEvent.
  erewrite bind_ok by (by apply getEvent_spec).
  unfold assert_, check. unfold has in Hh. rewrite Hh. erewrite bind_ok by done.
  rewrite getEventCtx_spec by done. cbn [need]. erewrite bind_ok by done. rewrite Ew. cbn [need].
  erewrite bind_ok by done.
  destruct Ht as [(c & -> & -> & ->)|(f & -> & -> & ->)];
    unfold bind, modify, putEvent, modify, ret; rewrite Nat2Z.id; done.
Qed.

(** [unwatch] only asks the kernel; a success means the type was registered. *)
Lemma unwatch_run p i type :
  0 <= i ->
  exists ok k, unwatch i type p = (Ok ok, setKernel k p)
    /\ (ok = true -> exists e, ioEvents_ p !! Z.to_nat i = Some e /\ has (types e) type = true
          /\ epoll_ctl (if clear (types e) type =? 0 then EPOLL_CTL_DEL else EPOLL_CTL_MOD) i
               (Z.lor EPOLLET (clear (types e) type)) (kernel p) = (true, k))
    /\ (ok = false -> forall f, interest k f = interest (kernel p) f).
Proof.
  intros Hi. unfold unwatch. erewrite bind_ok by done. cbn [id].
  assert (Hno : setKernel (kernel p) p = p) by (by destruct p).
  destruct (Z.leb_spec (zlen (ioEvents_ p)) i) as [Hle|Hlt].
  { exists false, (kernel p). by rewrite Hno. }
  destruct (lookup_lt_is_Some_2 (ioEvents_ p) (Z.to_nat i)) as [e He].
  { unfold zlen in Hlt. lia. }
  pose proof (getEvent_spec p _ e He) as Hg. rewrite Z2Nat.id in Hg by lia.
  erewrite bind_ok by exact Hg.
  destruct (Z.land (types e) type =? 0) eqn:Eh.
  { exists false, (kernel p). by rewrite Hno. }
  unfold epollCtl. set (op := if clear (types e) type =? 0 then _ else _).
  destruct (epoll_ctl op i _ (kernel p)) as [ok k] eqn:Ek.
  exists ok, k. split; [done|]. destruct ok.
  - split; [|done]. intros _. exists e. unfold has. by rewrite Eh.
  - split; [done|]. intros _. by eapply epoll_ctl_fail.
Qed.

Lemma unwatch_spec p i type :
  0 <= i ->
  exists ok k, unwatch i type p = (Ok ok, setKernel k p)
    /\ (forall f, f <> i -> interest k f = interest (kernel p) f)
    /\ (ok = true -> exists e, ioEvents_ p !! Z.to_nat i = Some e /\ has (types e) type = true
          /\ interest k i = watched (clear (types e) type))
    /\ (ok = false -> forall f, interest k f = interest (kernel p) f).
Proof.
  intros Hi. destruct (unwatch_run p i type Hi) as (ok & k & E & Hok & Hno). exists ok, k.
  split; [done|]. destruct ok; [|split; [auto|by split]].
  destruct (Hok eq_refl) as (e & He & Hh & Ek). apply epoll_ctl_ok in Ek as [Ek _].
  split; [intros f Hf; by rewrite Ek, decide_False|]. split; [|done]. intros _. exists e.
  split; [done|]. split; [done|]. rewrite Ek, decide_True by done.
  unfold watched. by destruct (clear (types e) type =? 0).
Qed.

Lemma resetEventCtx_spec p i e type :
  ioEvents_ p !! i = Some e -> is_type type ->
  resetEventCtx (Z.of_nat i) type p
  = (Ok tt, setEvents (<[i := setEventCtx type emptyCtx e]> (ioEvents_ p)) p).
Proof.
  intros Hi Hty. unfold resetEventCtx. erewrite bind_ok by (by apply getEvent_spec).
  rewrite getEventCtx_spec by done. erewrite bind_ok by done. apply putEvent_spec.
Qed.

(** A kernel that watches the same keeps the invariant. *)
Lemma inv_kernel k p :
  Inv p -> (forall f, interest k f = interest (kernel p) f) -> Inv (setKernel k p).
Proof.
  intros [Hs Hw Hr] Hk. split; cbn.
  - by apply shape_kernel.
  - intros j e Hj. rewrite Hk. by apply Hw.
  - intros f Hf. rewrite Hk. by apply Hr.
Qed.

(** Taking one registration out of the table and the count. *)
Lemma shape_cleared p i e type k l :
  Shape p -> ioEvents_ p !! i = Some e -> is_type type -> has (types e) type = true ->
  Shape {| ioEvents_ := <[i := cleared type e]> (ioEvents_ p);
           pendingEvents_ := u64 (pendingEvents_ p - 1); polling_ := polling_ p;
           kernel := k; scheduled := l |}.
Proof.
  intros Hs Hi Hty Hh. pose proof (sh_events p Hs i e Hi) as He.
  destruct (cleared_ok _ _ _ He Hty Hh) as (Hok & Hc & Ht & _).
  assert (Hpos : 1 <= pendingEvents_ p < 2 ^ 64).
  { pose proof (counts_range (ioEvents_ p)). pose proof (sh_size p Hs). rewrite (sh_pending p Hs).
    split; [|lia]. apply take_drop_middle in Hi. rewrite <- Hi, counts_app.
    cbn [counts foldr]. fold (counts (drop (S i) (ioEvents_ p))).
    pose proof (counts_range (take i (ioEvents_ p))). pose proof (counts_range (drop (S i) (ioEvents_ p))).
    pose proof (count_range (cleared type e)). lia. }
  rewrite wrap_small by lia.
  destruct (shape_put p i e (cleared type e) (pendingEvents_ p - 1) Hs Hi Hok) as [? ? ?]; [lia|].
  by split.
Qed.

(** ... and out of the kernel. *)
Lemma inv_cleared p i e type k l :
  Inv p -> ioEvents_ p !! i = Some e -> is_type type -> has (types e) type = true ->
  (forall f, f <> Z.of_nat i -> interest k f = interest (kernel p) f) ->
  interest k (Z.of_nat i) = watched (clear (types e) type) ->
  Inv {| ioEvents_ := <[i := cleared type e]> (ioEvents_ p);
         pendingEvents_ := u64 (pendingEvents_ p - 1); polling_ := polling_ p;
         kernel := k; scheduled := l |}.
Proof.
  intros Hp Hi Hty Hh Hk Hki. pose proof (sh_events p (inv_shape p Hp) i e Hi) as He.
  destruct (cleared_ok _ _ _ He Hty Hh) as (_ & _ & Ht & _).
  destruct (watch_put p i (cleared type e) k Hp) as [Hw Hr].
  { by eapply lookup_lt_Some. } { done. } { by rewrite Ht. }
  split; cbn; [|done|done]. apply shape_cleared; try done. apply Hp.
Qed.

#[local] Arguments getEventCtx : simpl never.
#[local] Arguments setEventCtx : simpl never.

(** ** The registry: what the poller promises

    A map from (descriptor, event type) to the task to run, and the tasks
    handed to their workers. *)

Definition registered (p : Epoller) (f type : Z) : option (W * Task) :=
  e ← ioEvents_ p !! Z.to_nat f;
  if has (types e) type then taskOf (ctxOf type e) else None.

Inductive regop :=
| RAdd (w : W) (c : C) (f type : Z) (fn : option F)
| RDel (f type : Z)
| RHandle (f type : Z)
| RHandleAll (f : Z).

Definition run_regop (o : regop) : M Epoller bool :=
  match o with
  | RAdd w c f type fn => addEvent w c f type fn
  | RDel f type => delEvent f type
  | RHandle f type => handleEvent f type
  | RHandleAll f => handleAllEvent f
  end.

(** The registry after a successful call, and what was scheduled. *)
Definition effect (o : regop) (r : Z -> Z -> option (W * Task)) (g u : Z) : option (W * Task) :=
  match o with
  | RAdd w c f type fn =>
      if decide (g = f /\ u = type)
      then Some (w, match fn with Some fn => TaskFunc fn | None => TaskCo c end) else r g u
  | RDel f type | RHandle f type => if decide (g = f /\ u = type) then None else r g u
  | RHandleAll f => if decide (g = f) then None else r g u
  end.

Definition emitted (o : regop) (r : Z -> Z -> option (W * Task)) : list (W * Task) :=
  match o with
  | RAdd _ _ _ _ _ | RDel _ _ => []
  | RHandle f type => option_list (r f type)
  | RHandleAll f => option_list (r f EPOLLIN) ++ option_list (r f EPOLLOUT)
  end.

(** Descriptors are non-negative [int]s; a first registration of 0 or 1
    would index past the vector [resize] has just made. *)
Definition regop_ok (p : Epoller) (o : regop) : Prop :=
  match o with
  | RAdd _ _ f type _ => 0 <= f < 2 ^ 31 /\ is_type type /\ (2 <= f \/ f < zlen (ioEvents_ p))
  | RDel f type | RHandle f type => 0 <= f /\ is_type type
  | RHandleAll f => 0 <= f
  end.

Lemma registered_insert p p' i e' g u :
  ioEvents_ p' = <[i := e']> (ioEvents_ p) -> (i < length (ioEvents_ p))%nat -> 0 <= g ->
  registered p' g u = (if decide (g = Z.of_nat i)
                       then if has (types e') u then taskOf (ctxOf u e') else None
                       else registered p g u).
Proof.
  intros Hp Hi Hg. unfold registered. rewrite Hp. case_decide as E.
  - rewrite E, Nat2Z.id, list_lookup_insert_eq by done. done.
  - rewrite list_lookup_insert_ne; [done|lia].
Qed.

(** Clearing one type leaves the other as it was. *)
Lemma cleared_registry i e type u :
  event_ok i e -> is_type type -> is_type u ->
  (if has (types (cleared type e)) u then taskOf (ctxOf u (cleared type e)) else None)
  = if decide (u = type) then None else if has (types e) u then taskOf (ctxOf u e) else None.
Proof.
  intros [_ Ht _ _] Hty Hu. destruct e as [r w t f]. cbn in *. unfold cleared.
  unfold is_types, is_type in *.
  destruct Hty as [-> | ->], Hu as [-> | ->], Ht as [-> |[-> |[-> | ->]]]; done.
Qed.

Lemma registered_cleared p p' i e type g u :
  Shape p -> ioEvents_ p !! i = Some e -> is_type type -> is_type u -> 0 <= g ->
  ioEvents_ p' = <[i := cleared type e]> (ioEvents_ p) ->
  registered p' g u = if decide (g = Z.of_nat i /\ u = type) then None else registered p g u.
Proof.
  intros Hs Hi Hty Hu Hg Hp.
  rewrite (registered_insert p p' i (cleared type e)) by (done || by eapply lookup_lt_Some).
  rewrite cleared_registry with (i := Z.of_nat i) by (done || by apply (sh_events p Hs)).
  destruct (decide (g = Z.of_nat i)) as [->|Hgi].
  - unfold registered. rewrite Nat2Z.id, Hi. cbn. repeat case_decide; naive_solver.
  - rewrite decide_False by naive_solver. done.
Qed.

Lemma registered_kernel k p g u : registered (setKernel k p) g u = registered p g u.
Proof. done. Qed.

Definition regop_spec (p : Epoller) (o : regop) : Prop :=
  exists ok p', run_regop o p = (Ok ok, p') /\ Inv p'
    /\ (ok = false -> scheduled p' = scheduled p /\
        forall g u, 0 <= g -> registered p' g u = registered p g u)
    /\ (ok = true -> scheduled p' = scheduled p ++ emitted o (registered p) /\
        forall g u, 0 <= g -> is_type u -> registered p' g u = effect o (registered p) g u).

Lemma del_spec p f type : Inv p -> 0 <= f -> is_type type -> regop_spec p (RDel f type).
Proof.
  intros Hp Hf Hty. unfold regop_spec. cbn [run_regop]. unfold delEvent.
  destruct (unwatch_spec p f type Hf) as (ok & k & E & Hk & Hok & Hno).
  erewrite bind_ok by exact E. destruct ok; cbn [negb].
  - destruct (Hok eq_refl) as (e & Hi & Hh & Hki). set (i := Z.to_nat f) in *.
    assert (Hfi : f = Z.of_nat i) by lia. clearbody i. subst f.
    exists true. erewrite bind_ok by done.
    erewrite bind_ok by (apply getEvent_spec; exact Hi).
    erewrite bind_ok by apply putEvent_spec.
    erewrite bind_ok; [|apply resetEventCtx_spec; [|done];
      apply list_lookup_insert_eq; by eapply lookup_lt_Some].
    eexists. split; [done|].
    unfold setPending, setEvents. cbn [ioEvents_ kernel polling_ pendingEvents_ scheduled setKernel].
    rewrite list_insert_insert_eq. fold (cleared type e).
    split; [by apply inv_cleared|]. split; [done|]. intros _. split; [by rewrite app_nil_r|].
    intros g u Hg Hu. cbn [effect].
    by apply registered_cleared with (e := e); try done; apply Hp.
  - exists false, (setKernel k p). split; [done|]. split; [by apply inv_kernel; auto|]. done.
Qed.

Lemma handle_spec p f type : Inv p -> 0 <= f -> is_type type -> regop_spec p (RHandle f type).
Proof.
  intros Hp Hf Hty. unfold regop_spec. cbn [run_regop]. unfold handleEvent.
  destruct (unwatch_spec p f type Hf) as (ok & k & E & Hk & Hok & Hno).
  erewrite bind_ok by exact E. destruct ok; cbn [negb].
  - destruct (Hok eq_refl) as (e & Hi & Hh & Hki). set (i := Z.to_nat f) in *.
    assert (Hfi : f = Z.of_nat i) by lia. clearbody i. subst f.
    pose proof (sh_events p (inv_shape p Hp) i e Hi) as He.
    destruct (triggleEvent_spec (setKernel k p) i e type Hi He Hty Hh) as (w & t & Et & E2).
    exists true. erewrite bind_ok by exact E2.
    unfold decPending, modify, bind, ret. eexists. split; [done|].
    unfold setPending, setEvents, schedule. cbn [ioEvents_ kernel polling_ pendingEvents_ scheduled setKernel].
    split; [by apply inv_cleared|]. split; [done|]. intros _. cbn [emitted]. split.
    + unfold registered. rewrite Nat2Z.id, Hi. cbn. by rewrite Hh, Et.
    + intros g u Hg Hu. cbn [effect].
      by apply registered_cleared with (e := e); try done; apply Hp.
  - exists false, (setKernel k p). split; [done|]. split; [by apply inv_kernel; auto|]. done.
Qed.

Lemma registered_has p i e type :
  ioEvents_ p !! i = Some e ->
  registered p (Z.of_nat i) type = if has (types e) type then taskOf (ctxOf type e) else None.
Proof. intros Hi. unfold registered. by rewrite Nat2Z.id, Hi. Qed.

(** [triggleEvent] and the decrement that goes with it. *)
Lemma trigger_spec p i e type :
  Shape p -> ioEvents_ p !! i = Some e -> is_type type -> has (types e) type = true ->
  exists p', (triggleEvent (Z.of_nat i) type ;;; decPending) p = (Ok tt, p') /\ Shape p'
    /\ kernel p' = kernel p /\ ioEvents_ p' = <[i := cleared type e]> (ioEvents_ p)
    /\ scheduled p' = scheduled p ++ option_list (registered p (Z.of_nat i) type)
    /\ polling_ p' = polling_ p /\ pendingEvents_ p' = u64 (pendingEvents_ p - 1).
Proof.
  intros Hs Hi Hty Hh. pose proof (sh_events p Hs i e Hi) as He.
  destruct (triggleEvent_spec p i e type Hi He Hty Hh) as (w & t & Et & E).
  erewrite bind_ok by exact E. unfold decPending, modify. eexists. split; [done|].
  unfold setPending, setEvents, schedule. cbn [ioEvents_ kernel polling_ pendingEvents_ scheduled].
  rewrite (registered_has p i e) by done. rewrite Hh, Et.
  split_and!; try done. by apply shape_cleared.
Qed.

Definition clearedIf (type : Z) (e : IOEvent) : IOEvent :=
  if has (types e) type then cleared type e else e.

Lemma triggleIf_spec p i e type :
  Shape p -> ioEvents_ p !! i = Some e -> is_type type ->
  exists p', triggleIf (Z.of_nat i) type p = (Ok tt, p') /\ Shape p'
    /\ kernel p' = kernel p /\ ioEvents_ p' = <[i := clearedIf type e]> (ioEvents_ p)
    /\ scheduled p' = scheduled p ++ option_list (registered p (Z.of_nat i) type)
    /\ (forall g u, 0 <= g -> is_type u ->
         registered p' g u = if decide (g = Z.of_nat i /\ u = type) then None else registered p g u).
Proof.
  intros Hs Hi Hty. unfold triggleIf, clearedIf.
  erewrite bind_ok by (by apply getEvent_spec).
  destruct (has (types e) type) eqn:Hh; unfold has in Hh.
  - apply negb_true_iff in Hh as Hz. rewrite Hz.
    destruct (trigger_spec p i e type Hs Hi Hty Hh) as (p' & E & ? & ? & Hev & ? & _).
    exists p'. split_and!; try done. intros g u Hg Hu. by eapply registered_cleared.
  - apply negb_false_iff in Hh as Hz. rewrite Hz. exists p. split_and!; try done.
    + by rewrite list_insert_id.
    + rewrite (registered_has p i e) by done. unfold has. by rewrite Hz, app_nil_r.
    + intros g u Hg Hu. case_decide as Hgu; [|done]. destruct Hgu as [-> ->].
      rewrite (registered_has p i e) by done. unfold has. by rewrite Hz.
Qed.

Lemma clearedIf_both i e :
  event_ok i e -> types (clearedIf EPOLLOUT (clearedIf EPOLLIN e)) = 0.
Proof.
  intros [_ Ht _ _]. unfold clearedIf, cleared. destruct e as [r w t f]. cbn in *.
  unfold is_types in *. destruct Ht as [-> |[-> |[-> | ->]]]; done.
Qed.

Lemma handle_all_spec p f : Inv p -> 0 <= f -> regop_spec p (RHandleAll f).
Proof.
  intros Hp Hf. unfold regop_spec. cbn [run_regop]. unfold handleAllEvent.
  erewrite bind_ok by done. cbn [id].
  destruct (Z.leb_spec (zlen (ioEvents_ p)) f) as [Hle|Hlt]; [by exists false, p|].
  destruct (lookup_lt_is_Some_2 (ioEvents_ p) (Z.to_nat f)) as [e Hi].
  { unfold zlen in Hlt. lia. }
  set (i := Z.to_nat f) in *. assert (Hfi : f = Z.of_nat i) by lia. clearbody i. subst f.
  erewrite bind_ok by (by apply getEvent_spec).
  destruct (types e =? 0) eqn:Et; [by exists false, p|].
  unfold bind at 1, epollCtl at 1.
  destruct (epoll_ctl EPOLL_CTL_DEL (Z.of_nat i) 0 (kernel p)) as [ok k] eqn:Ek. destruct ok; cbn [negb].
  - apply epoll_ctl_ok in Ek as [Ek _]. pose proof (inv_shape p Hp) as Hs.
    destruct (triggleIf_spec (setKernel k p) i e EPOLLIN) as (p1 & E1 & Hs1 & Hk1 & Hev1 & Hsc1 & Hr1);
      [by apply shape_kernel|done|by left|].
    assert (Hi1 : ioEvents_ p1 !! i = Some (clearedIf EPOLLIN e))
      by (rewrite Hev1; apply list_lookup_insert_eq; by eapply lookup_lt_Some).
    destruct (triggleIf_spec p1 i _ EPOLLOUT Hs1 Hi1) as (p2 & E2 & Hs2 & Hk2 & Hev2 & Hsc2 & Hr2);
      [by right|].
    exists true, p2. erewrite bind_ok by exact E1. erewrite bind_ok by exact E2. split; [done|].
    rewrite Hev1 in Hev2. cbn in Hev2. rewrite list_insert_insert_eq in Hev2. split.
    + destruct (watch_put p i (clearedIf EPOLLOUT (clearedIf EPOLLIN e)) k Hp) as [Hw Hrest].
      { by eapply lookup_lt_Some. }
      { intros g Hg. by rewrite Ek, decide_False. }
      { rewrite Ek, decide_True by done. unfold watched.
        rewrite clearedIf_both with (i := Z.of_nat i) by (by apply (sh_events p Hs)). done. }
      split; [done|..]; rewrite Hev2, Hk2, Hk1; done.
    + split; [done|]. intros _. split.
      * rewrite Hsc2, Hsc1. cbn [emitted]. rewrite Hr1 by (lia || by right).
        rewrite decide_False by naive_solver. by rewrite app_assoc.
      * intros g u Hg Hu. rewrite Hr2, Hr1 by done. cbn [effect].
        destruct Hu as [-> | ->]; repeat case_decide; naive_solver.
  - pose proof (epoll_ctl_fail _ _ _ _ _ Ek) as Hk.
    exists false, (setKernel k p). split; [done|]. split; [by apply inv_kernel|]. done.
Qed.

(** The vector grown for a first registration holds the descriptor; its new
    slots are fresh. *)
Lemma resize_run p f :
  zlen (ioEvents_ p) <= f -> 2 <= f < 2 ^ 31 ->
  exists k, resizeEvents (growTo f) p = (Ok tt, setEvents (ioEvents_ p ++ k) p)
    /\ f < zlen (ioEvents_ p ++ k) < 2 ^ 32 /\ counts k = 0
    /\ (forall j e, (ioEvents_ p ++ k) !! j = Some e ->
         ioEvents_ p !! j = Some e
         \/ (ioEvents_ p !! j = None /\ e = newIOEvent (Z.of_nat j) /\ (length (ioEvents_ p) <= j)%nat)).
Proof.
  intros Hle Hf. unfold resizeEvents, modify.
  set (l := ioEvents_ p) in *. set (n := Z.to_nat (growTo f)).
  assert (Hn : (length l <= Z.to_nat f < n)%nat /\ Z.of_nat n < 2 ^ 32).
  { assert (f + 1 <= growTo f < 2 ^ 32).
    { unfold growTo. split; [apply Z.div_le_lower_bound; lia|apply Z.div_lt_upper_bound; lia]. }
    unfold n, zlen in *. lia. }
  rewrite (firstn_all2 l) by lia.
  set (k := map _ _).
  assert (Hk : forall j e, k !! j = Some e -> e = newIOEvent (Z.of_nat (length l + j))).
  { intros j e Hj. unfold k in Hj. rewrite list_lookup_fmap in Hj.
    destruct (seq _ _ !! j) eqn:E; [|done]. cbn in Hj. injection Hj as <-.
    apply lookup_seq in E as [-> _]. done. }
  assert (Hlk : length k = (n - length l)%nat) by (unfold k; by rewrite length_map, length_seq).
  exists k. split; [done|]. split; [rewrite zlen_app; unfold zlen in *; lia|]. split.
  - clear -Hk. assert (H0 : Forall (fun e => count e = 0) k).
    { apply Forall_lookup. intros j e Hj. by rewrite (Hk j e Hj). }
    clear Hk. induction H0 as [|e k He _ IH]; cbn [counts foldr]; [done|].
    fold (counts k). lia.
  - intros j e Hj. apply lookup_app_Some in Hj as [Hj|[Hge Hj]]; [by left|]. right.
    split; [by apply lookup_ge_None|]. split; [|done]. rewrite (Hk _ _ Hj). do 2 f_equal. lia.
Qed.

Lemma shape_grown p k :
  Shape p -> zlen (ioEvents_ p ++ k) < 2 ^ 32 -> counts k = 0 ->
  (forall j e, (ioEvents_ p ++ k) !! j = Some e ->
     ioEvents_ p !! j = Some e
     \/ (ioEvents_ p !! j = None /\ e = newIOEvent (Z.of_nat j) /\ (length (ioEvents_ p) <= j)%nat)) ->
  Shape (setEvents (ioEvents_ p ++ k) p).
Proof.
  intros [Hev Hpe Hsz] Hz Hck Hcase. split; cbn [setEvents ioEvents_ pendingEvents_].
  - intros j e Hj. destruct (Hcase j e Hj) as [Hl|(_ & -> & _)]; [by apply Hev|apply event_ok_new].
  - by rewrite counts_app, Hck, Hpe, Z.add_0_r.
  - done.
Qed.

Lemma registered_grown p k g u :
  (forall j e, (ioEvents_ p ++ k) !! j = Some e ->
     ioEvents_ p !! j = Some e
     \/ (ioEvents_ p !! j = None /\ e = newIOEvent (Z.of_nat j) /\ (length (ioEvents_ p) <= j)%nat)) ->
  registered (setEvents (ioEvents_ p ++ k) p) g u = registered p g u.
Proof.
  intros Hcase. unfold registered. cbn [ioEvents_ setEvents].
  destruct ((ioEvents_ p ++ k) !! Z.to_nat g) as [e|] eqn:E2.
  - destruct (Hcase _ _ E2) as [->|(-> & -> & _)]; done.
  - apply lookup_ge_None in E2. rewrite length_app in E2.
    by rewrite (lookup_ge_None_2 (ioEvents_ p)) by lia.
Qed.

Lemma resize_spec p f :
  Inv p -> zlen (ioEvents_ p) <= f -> 2 <= f < 2 ^ 31 ->
  exists p', resizeEvents (growTo f) p = (Ok tt, p') /\ Inv p'
    /\ f < zlen (ioEvents_ p') /\ scheduled p' = scheduled p
    /\ (forall g u, 0 <= g -> registered p' g u = registered p g u).
Proof.
  intros Hp Hle Hf. destruct (resize_run p f Hle Hf) as (k & E & Hz & Hck & Hcase).
  eexists. split; [exact E|]. destruct Hp as [Hs Hw Hr]. split_and!.
  - split.
    + apply shape_grown; [done|lia|done|done].
    + cbn [setEvents ioEvents_ kernel]. intros j e Hj.
      destruct (Hcase j e Hj) as [Hl|(_ & -> & Hge)]; [by apply Hw|]. apply Hr. unfold zlen. lia.
    + cbn [setEvents ioEvents_ kernel]. intros g Hg. apply Hr. rewrite zlen_app in Hg. zlia.
  - cbn [setEvents ioEvents_]. lia.
  - done.
  - intros g u _. by apply registered_grown.
Qed.

(** The event with one more registration. *)
Definition armed (type : Z) (c : EventCtx) (e : IOEvent) : IOEvent :=
  setEventCtx type c (setTypes (Z.lor (types e) type) e).

(** What [addEvent] stores for a task of worker [w]. *)
Definition ctxFor (w : W) (x : Task) : EventCtx :=
  match x with
  | TaskFunc fn => {| worker := Some w; co := None; func := Some fn |}
  | TaskCo k => {| worker := Some w; co := Some k; func := None |}
  end.
Definition taskFor (c : C) (fn : option F) : Task :=
  match fn with Some fn => TaskFunc fn | None => TaskCo c end.

Lemma armed_ok i e type w x :
  event_ok i e -> is_type type -> has (types e) type = false ->
  let c := ctxFor w x in
  event_ok i (armed type c e) /\ count (armed type c e) = count e + 1
  /\ ctxOf type e = emptyCtx
  /\ watched (types (armed type c e)) = Some (Z.lor (Z.lor EPOLLET (types e)) type)
  /\ forall u, is_type u ->
     (if has (types (armed type c e)) u then taskOf (ctxOf u (armed type c e)) else None)
     = if decide (u = type) then Some (w, x) else if has (types e) u then taskOf (ctxOf u e) else None.
Proof.
  intros [Hf Ht Hr Hw] Hty Hh c. destruct e as [r wr t f]. cbn in *.
  assert (Hc : ctx_ok true c /\ taskOf c = Some (w, x)).
  { unfold c. destruct x; (split; [|done]); exists w; split; try done; [left|right]; by split. }
  clearbody c. destruct Hc as [Hc Htask].
  unfold armed, count, setEventCtx, setTypes in *. unfold is_types, is_type in *.
  destruct Hty as [-> | ->], Ht as [-> |[-> |[-> | ->]]]; cbn in *; try done;
    (split; [split; cbn; unfold is_types; auto 6|]); (split; [done|]); (split; [done|]);
    (split; [done|]); intros u [-> | ->]; done.
Qed.

(** The run of [addEvent] on a descriptor of the table. *)
Lemma add_in_range_run p w c i e type fn :
  Shape p -> ioEvents_ p !! i = Some e -> is_type type ->
  addEvent w c (Z.of_nat i) type fn p =
    if has (types e) type then (Ok false, p)
    else match epoll_ctl (if types e =? 0 then EPOLL_CTL_ADD else EPOLL_CTL_MOD) (Z.of_nat i)
                 (Z.lor (Z.lor EPOLLET (types e)) type) (kernel p) with
         | (true, k) => (Ok true, {| ioEvents_ := <[i := armed type (ctxFor w (taskFor c fn)) e]> (ioEvents_ p);
             pendingEvents_ := pendingEvents_ p + 1; polling_ := polling_ p; kernel := k;
             scheduled := scheduled p |})
         | (false, k) => (Ok false, setKernel k p)
         end.
Proof.
  intros Hs Hi Hty. pose proof (sh_events p Hs i e Hi) as He. unfold addEvent.
  assert (Hlen : (i < length (ioEvents_ p))%nat) by by eapply lookup_lt_Some.
  erewrite bind_ok by done. cbn [id]. rewrite (proj2 (Z.leb_gt _ _)) by (unfold zlen; lia).
  erewrite bind_ok by done.
  erewrite bind_ok by (by apply getEvent_spec). fold (has (types e) type).
  destruct (has (types e) type) eqn:Hh; [done|].
  unfold bind at 1, epollCtl at 1. set (op := if types e =? 0 then _ else _).
  destruct (epoll_ctl op _ _ (kernel p)) as [ok k] eqn:Ek. destruct ok; cbn [negb]; [|done].
  destruct (armed_ok _ e type w (taskFor c fn) He Hty Hh) as (_ & _ & Hemp & _).
  erewrite bind_ok by done. erewrite bind_ok by apply putEvent_spec.
  rewrite getEventCtx_spec by done. cbn [need]. erewrite bind_ok by done.
  replace (ctxOf type (setTypes _ e)) with (ctxOf type e) by (destruct e, Hty as [-> | ->]; done).
  rewrite Hemp. cbn [co worker emptyCtx]. erewrite bind_ok by done.
  erewrite bind_ok by apply putEvent_spec.
  match goal with |- context [setEventCtx type ?c0 (setTypes _ e)] =>
    replace c0 with (ctxFor w (taskFor c fn)) by (by destruct fn) end.
  fold (armed type (ctxFor w (taskFor c fn)) e). unfold ret. f_equal.
  unfold setPending, setEvents. cbn [ioEvents_ kernel polling_ pendingEvents_ scheduled setKernel].
  rewrite list_insert_insert_eq. f_equal. apply wrap_small.
  rewrite (sh_pending p Hs). pose proof (counts_range (ioEvents_ p)). pose proof (sh_size p Hs). lia.
Qed.

Lemma shape_armed p i e type w x k :
  Shape p -> ioEvents_ p !! i = Some e -> is_type type -> has (types e) type = false ->
  Shape {| ioEvents_ := <[i := armed type (ctxFor w x) e]> (ioEvents_ p);
           pendingEvents_ := pendingEvents_ p + 1; polling_ := polling_ p; kernel := k;
           scheduled := scheduled p |}.
Proof.
  intros Hs Hi Hty Hh. destruct (armed_ok _ e type w x (sh_events p Hs i e Hi) Hty Hh) as (Hok & Hcnt & _).
  destruct (shape_put p i e _ (pendingEvents_ p + 1) Hs Hi Hok) as [? ? ?]; [lia|]. by split.
Qed.

Lemma registered_armed p p' i e type w x g u :
  Shape p -> ioEvents_ p !! i = Some e -> is_type type -> has (types e) type = false ->
  ioEvents_ p' = <[i := armed type (ctxFor w x) e]> (ioEvents_ p) -> 0 <= g -> is_type u ->
  registered p' g u = if decide (g = Z.of_nat i /\ u = type) then Some (w, x) else registered p g u.
Proof.
  intros Hs Hi Hty Hh Hp' Hg Hu.
  destruct (armed_ok _ e type w x (sh_events p Hs i e Hi) Hty Hh) as (_ & _ & _ & _ & Hreg).
  rewrite (registered_insert p p' i (armed type (ctxFor w x) e)) by (done || by eapply lookup_lt_Some).
  rewrite Hreg by done. destruct (decide (g = Z.of_nat i)) as [->|Hgi].
  - rewrite (registered_has p i e) by done. repeat case_decide; naive_solver.
  - rewrite decide_False by naive_solver. done.
Qed.

Lemma add_in_range_spec p w c f type fn :
  Inv p -> 0 <= f < zlen (ioEvents_ p) -> is_type type -> regop_spec p (RAdd w c f type fn).
Proof.
  intros Hp Hf Hty. unfold regop_spec. cbn [run_regop].
  destruct (lookup_lt_is_Some_2 (ioEvents_ p) (Z.to_nat f)) as [e Hi].
  { unfold zlen in Hf. lia. }
  set (i := Z.to_nat f) in *. assert (Hfi : f = Z.of_nat i) by lia. clearbody i. subst f.
  pose proof (inv_shape p Hp) as Hs. pose proof (sh_events p Hs i e Hi) as He.
  assert (Hlen : (i < length (ioEvents_ p))%nat) by by eapply lookup_lt_Some.
  rewrite (add_in_range_run p w c i e) by done.
  destruct (has (types e) type) eqn:Hh; [by exists false, p|].
  set (op := if types e =? 0 then _ else _). set (x := taskFor c fn).
  destruct (epoll_ctl op _ _ (kernel p)) as [ok k] eqn:Ek. destruct ok.
  - apply epoll_ctl_ok in Ek as [Ek _].
    destruct (armed_ok _ e type w x He Hty Hh) as (_ & _ & _ & Hwat & _).
    exists true. eexists. split; [done|].
    split; [|split; [done|intros _; split; [by rewrite app_nil_r|]]].
    + destruct (watch_put p i (armed type (ctxFor w x) e) k Hp Hlen) as [Hw Hrest].
      { intros g Hg. by rewrite Ek, decide_False. }
      { rewrite Ek, decide_True, Hwat by done. unfold op. by destruct (types e =? 0). }
      split; cbn; [|done|done]. by apply shape_armed.
    + intros g u Hg Hu. by eapply registered_armed.
  - pose proof (epoll_ctl_fail _ _ _ _ _ Ek) as Hk.
    exists false, (setKernel k p). split; [done|]. split; [by apply inv_kernel|]. done.
Qed.

Lemma add_spec p w c f type fn :
  Inv p -> regop_ok p (RAdd w c f type fn) -> regop_spec p (RAdd w c f type fn).
Proof.
  intros Hp (Hf & Hty & Hg).
  destruct (decide (f < zlen (ioEvents_ p))) as [Hlt|Hge]; [apply add_in_range_spec; [done|lia|done]|].
  destruct (resize_spec p f Hp) as (p1 & E & Hp1 & Hlt1 & Hsc & Hr1); [lia..|].
  destruct (add_in_range_spec p1 w c f type fn Hp1) as (ok & p2 & E2 & Hp2 & Hno & Hyes); [lia|done|].
  exists ok, p2. split; [|split; [done|split]].
  - rewrite <- E2. cbn [run_regop]. unfold addEvent.
    erewrite bind_ok by done. cbn [id]. rewrite (proj2 (Z.leb_le _ _)) by lia.
    erewrite bind_ok by exact E. symmetry.
    erewrite bind_ok by done. cbn [id]. rewrite (proj2 (Z.leb_gt _ _)) by lia.
    done.
  - intros Ho. destruct (Hno Ho) as [-> Hr2]. split; [done|]. intros g u Hg0. by rewrite Hr2, Hr1.
  - intros Ho. destruct (Hyes Ho) as [-> Hr2]. split; [by rewrite Hsc|].
    intros g u Hg0 Hu. rewrite Hr2 by done. cbn [effect]. by rewrite Hr1.
Qed.

(** C2: the poller implements the registry.  From any state that satisfies
    the invariant, [addEvent], [delEvent], [handleEvent] and [handleAllEvent]
    return normally, and the new state satisfies it again: every [IOEvent] has
    contexts exactly for its types, [pendingEvents_] counts the
    registrations, and the kernel watches exactly the registered events with
    EPOLLET.  A call that fails changes no registration and schedules
    nothing; one that succeeds has the effect of the same call on a map from
    (descriptor, type) to tasks and hands exactly the removed tasks to the
    workers that registered them. *)
Theorem registry_refinement p o : Inv p -> regop_ok p o -> regop_spec p o.
Proof.
  intros Hp Ho. destruct o as [w c f type fn|f type|f type|f].
  - by apply add_spec.
  - by apply del_spec; [|apply Ho..].
  - by apply handle_spec; [|apply Ho..].
  - by apply handle_all_spec.
Qed.

(** When a call applies to the registry. *)
Definition applicable (o : regop) (r : Z -> Z -> option (W * Task)) : bool :=
  let reg f u := bool_decide (is_Some (r f u)) in
  match o with
  | RAdd _ _ f type _ => negb (reg f type)
  | RDel f type | RHandle f type => reg f type
  | RHandleAll f => reg f EPOLLIN || reg f EPOLLOUT
  end.

Definition regop_fd (o : regop) : Z :=
  match o with RAdd _ _ f _ _ | RDel f _ | RHandle f _ | RHandleAll f => f end.

Lemma registered_bool p i e u :
  Shape p -> ioEvents_ p !! i = Some e -> is_type u ->
  bool_decide (is_Some (registered p (Z.of_nat i) u)) = has (types e) u.
Proof.
  intros Hs Hi Hu. rewrite (registered_has p i e) by done.
  destruct (has (types e) u) eqn:Hh.
  - destruct (ctxOf_task _ e u (sh_events p Hs i e Hi) Hu Hh) as (w & t & -> & _). done.
  - apply bool_decide_eq_false. by intros [? ?].
Qed.

Lemma registered_out p f u : zlen (ioEvents_ p) <= f -> registered p f u = None.
Proof.
  intros Hf. unfold registered. rewrite lookup_ge_None_2; [done|]. unfold zlen in Hf. lia.
Qed.

Lemma regop_returns p o :
  Inv p -> regop_ok p o -> exists ok p', run_regop o p = (Ok ok, p').
Proof.
  intros Hp Ho. assert (Hr : regop_spec p o).
  { destruct o as [w c f type fn|f type|f type|f]; [by apply add_spec|
      by apply del_spec; [|apply Ho..]|by apply handle_spec; [|apply Ho..]|by apply handle_all_spec]. }
  destruct Hr as (ok & p' & E & _). by exists ok, p'.
Qed.

(** The kernel refuses nothing on [f] but what its state forbids. *)
Definition accepts (k : K) (f : Z) : Prop :=
  forall op ev, (is_Some (interest k f) <-> op <> EPOLL_CTL_ADD) ->
    exists k', epoll_ctl op f ev k = (true, k').

Lemma epollCtl_accepts op i e ev p (ok : bool) p' :
  Inv p -> ioEvents_ p !! i = Some e -> accepts (kernel p) (Z.of_nat i) ->
  (types e <> 0 <-> op <> EPOLL_CTL_ADD) ->
  epollCtl op (Z.of_nat i) ev p = (Ok ok, p') -> ok = true.
Proof.
  intros Hp Hi Hk Hop. unfold epollCtl. destruct (Hk op ev) as [k ->]; [|by injection 1].
  rewrite (inv_watch p Hp i e Hi), <- Hop. unfold watched.
  destruct (Z.eqb_spec (types e) 0) as [->|]; [|done]. split; [by intros [? ?]|done].
Qed.

Lemma has_nonzero t type : Z.land t type <> 0 -> t <> 0.
Proof. by intros H1 ->. Qed.

Lemma event_at p f : 0 <= f < zlen (ioEvents_ p) ->
  exists i e, f = Z.of_nat i /\ ioEvents_ p !! i = Some e.
Proof.
  intros Hf. destruct (lookup_lt_is_Some_2 (ioEvents_ p) (Z.to_nat f)) as [e Hi].
  { unfold zlen in Hf. lia. } exists (Z.to_nat f), e. split; [lia|done].
Qed.

Lemma unwatch_progress p f type (rest : M Epoller bool) ok p' :
  Inv p -> 0 <= f -> is_type type ->
  accepts (kernel p) f ->
  (forall p1, rest p1 = (Ok ok, p') -> ok = true) ->
  (ok1 <-- unwatch f type ;; if negb ok1 then ret false else rest) p = (Ok ok, p') ->
  ok = bool_decide (is_Some (registered p f type)).
Proof.
  intros Hp Hf Hty Hk Hrest E. apply bind_inv in E as (ok1 & p1 & E1 & E).
  assert (Hok1 : ok1 = bool_decide (is_Some (registered p f type))).
  { unfold unwatch in E1. apply bind_inv in E1 as (q & ? & E2 & E1). injection E2 as <- <-.
    destruct (Z.leb_spec (zlen (ioEvents_ p)) f).
    { rewrite registered_out by done. by injection E1. }
    destruct (event_at p f) as (i & e & -> & Hi); [done|].
    rewrite (registered_bool p i e) by (done || apply Hp). unfold has.
    erewrite bind_ok in E1 by (by apply getEvent_spec).
    destruct (Z.eqb_spec (Z.land (types e) type) 0) as [|Hne]; [by injection E1|].
    apply (epollCtl_accepts _ _ _ _ _ _ _ Hp Hi Hk) in E1; [done|].
    apply has_nonzero in Hne. split; [|done]. by destruct (clear (types e) type =? 0). }
  destruct ok1; cbn [negb] in E; [|by injection E as <-].
  rewrite <- Hok1. by apply (Hrest p1).
Qed.

Lemma handle_all_progress p f ok p' :
  Inv p -> 0 <= f ->
  accepts (kernel p) f ->
  handleAllEvent f p = (Ok ok, p') ->
  ok = bool_decide (is_Some (registered p f EPOLLIN)) || bool_decide (is_Some (registered p f EPOLLOUT)).
Proof.
  intros Hp Hf Hk E. unfold handleAllEvent in E. apply bind_inv in E as (q & ? & E2 & E).
  injection E2 as <- <-.
  destruct (Z.leb_spec (zlen (ioEvents_ p)) f).
  { rewrite !registered_out by done. by injection E. }
  destruct (event_at p f) as (i & e & -> & Hi); [done|].
  rewrite (registered_bool p i e), (registered_bool p i e) by ((by apply Hp) || done || (by left) || (by right)).
  erewrite bind_ok in E by (by apply getEvent_spec).
  pose proof (ev_types _ _ (sh_events p (inv_shape p Hp) i e Hi)) as Ht.
  destruct (types e =? 0) eqn:Et.
  { apply Z.eqb_eq in Et. rewrite Et. injection E as <- <-; done. }
  apply bind_inv in E as (ok1 & p1 & E1 & E).
  apply (epollCtl_accepts _ _ _ _ _ _ _ Hp Hi Hk) in E1 as ->; [|by apply Z.eqb_neq in Et].
  cbn [negb] in E. inv_bind E. injection E as <- <-.
  destruct Ht as [Ht|[->|[-> | ->]]]; [by rewrite Ht in Et|done..].
Qed.

Lemma add_in_range_progress p w c f type fn ok p' :
  Inv p -> 0 <= f < zlen (ioEvents_ p) -> is_type type ->
  accepts (kernel p) f ->
  addEvent w c f type fn p = (Ok ok, p') ->
  ok = negb (bool_decide (is_Some (registered p f type))).
Proof.
  intros Hp Hf Hty Hk E. unfold addEvent in E. apply bind_inv in E as (q & ? & E2 & E).
  injection E2 as <- <-. rewrite (proj2 (Z.leb_gt _ _)) in E by lia.
  erewrite bind_ok in E by done.
  destruct (event_at p f) as (i & e & -> & Hi); [done|].
  rewrite (registered_bool p i e) by (done || apply Hp).
  erewrite bind_ok in E by (by apply getEvent_spec). unfold has. rewrite negb_involutive.
  destruct (Z.land (types e) type =? 0) eqn:Et; cbn [negb] in E; [|by injection E].
  apply bind_inv in E as (ok1 & p1 & E1 & E).
  apply (epollCtl_accepts _ _ _ _ _ _ _ Hp Hi Hk) in E1 as ->;
    [|by destruct (Z.eqb_spec (types e) 0)].
  cbn [negb] in E. inv_bind E. by injection E.
Qed.

Lemma add_progress p w c f type fn ok p' :
  Inv p -> regop_ok p (RAdd w c f type fn) ->
  accepts (kernel p) f ->
  addEvent w c f type fn p = (Ok ok, p') ->
  ok = negb (bool_decide (is_Some (registered p f type))).
Proof.
  intros Hp (Hf & Hty & Hg) Hk E.
  destruct (decide (f < zlen (ioEvents_ p))) as [Hlt|Hge].
  { apply (add_in_range_progress p w c f type fn ok p'); try done; lia. }
  destruct (resize_spec p f Hp) as (p1 & E1 & Hp1 & Hlt1 & _ & Hr1); [lia..|].
  rewrite <- Hr1 by lia. apply (add_in_range_progress p1 w c f type fn ok p'); [done|lia|done|..].
  - unfold resizeEvents, modify in E1. by injection E1 as <-.
  - rewrite <- E. unfold addEvent. symmetry.
    erewrite bind_ok by done. cbn [id]. rewrite (proj2 (Z.leb_le _ _)) by lia.
    erewrite bind_ok by exact E1. symmetry.
    erewrite bind_ok by done. cbn [id]. rewrite (proj2 (Z.leb_gt _ _)) by lia. done.
Qed.

Lemma handle_progress p f type ok p' :
  Inv p -> 0 <= f -> is_type type -> accepts (kernel p) f -> handleEvent f type p = (Ok ok, p') ->
  ok = bool_decide (is_Some (registered p f type)).
Proof.
  intros Hp Hf Hty Hk E. unfold handleEvent in E. eapply unwatch_progress in E; try done.
  intros p1 E1. by inv_bind E1; injection E1 as ->.
Qed.

(** A call of the poller takes effect exactly when the registry lets it:
    unless the kernel refuses the [epoll_ctl], [addEvent] succeeds iff the
    event is not registered, the others iff something is. *)
Theorem registry_progress p o :
  Inv p -> regop_ok p o ->
  accepts (kernel p) (regop_fd o) ->
  fst (run_regop o p) = Ok (applicable o (registered p)).
Proof.
  intros Hp Ho Hk. destruct (regop_returns p o Hp Ho) as (ok & p' & E).
  rewrite E. cbn [fst]. f_equal.
  destruct o as [w c f type fn|f type|f type|f]; cbn [applicable run_regop regop_fd] in *.
  - by eapply add_progress.
  - destruct Ho. unfold delEvent in E. eapply unwatch_progress in E; try done.
    intros p1 E1. by inv_bind E1; injection E1 as ->.
  - destruct Ho. by eapply handle_progress.
  - by eapply handle_all_progress.
Qed.
(** The first registration of descriptor 0 or 1 on an empty table writes
    out of bounds: [resize(fd * 1.5)] makes 0 or 1 slots, and slot [fd] is
    none of them. *)
Theorem addEvent_first_low_fd k w c f type fn :
  f = 0 \/ f = 1 -> fst (addEvent w c f type fn (newEpoller k)) = Throw Undefined.
Proof. by intros [-> | ->]. Qed.

(** ** Readiness *)

Lemma realEvents_types ev t : is_types (realEventsOf ev t).
Proof.
  unfold realEventsOf, is_types. set (v := if _ : bool then _ else _).
  change EPOLLIN with (2 ^ 0). change EPOLLOUT with (2 ^ 2). rewrite !land_bit by lia.
  destruct (Z.testbit v 0), (Z.testbit v 2); auto.
Qed.

(** The registrations that are among the [real] events. *)
Definition ready_of (real : Z) (type : Z) (r : option (W * Task)) : list (W * Task) :=
  if has real type then option_list r else [].

(** [if (realEvents & type) { triggleEvent(type); --pendingEvents_; }] *)
Lemma wake_spec p i e real type :
  Shape p -> ioEvents_ p !! i = Some e -> is_type type ->
  (has real type = true -> has (types e) type = true) ->
  exists p', (if Z.land real type =? 0 then ret tt
              else triggleEvent (Z.of_nat i) type ;;; decPending) p = (Ok tt, p') /\ Shape p'
    /\ kernel p' = kernel p
    /\ ioEvents_ p' = <[i := if has real type then cleared type e else e]> (ioEvents_ p)
    /\ scheduled p' = scheduled p ++ ready_of real type (registered p (Z.of_nat i) type)
    /\ (forall g u, 0 <= g -> is_type u -> registered p' g u =
         if decide (g = Z.of_nat i /\ u = type /\ has real type = true) then None
         else registered p g u).
Proof.
  intros Hs Hi Hty Hh. unfold ready_of. destruct (has real type) eqn:Hr; unfold has in Hr.
  - apply negb_true_iff in Hr as ->.
    destruct (trigger_spec p i e type Hs Hi Hty (Hh eq_refl)) as (p' & E & ? & ? & Hev & ? & _).
    exists p'. split_and!; try done. intros g u Hg Hu.
    rewrite (registered_cleared p p' i e type) by done. repeat case_decide; naive_solver.
  - apply negb_false_iff in Hr as ->. exists p. split_and!; try done.
    + by rewrite list_insert_id.
    + by rewrite app_nil_r.
    + intros g u Hg Hu. by rewrite decide_False by naive_solver.
Qed.

Lemma real_subset real t type :
  is_types real -> is_types t -> Z.land real (Z.lnot t) = 0 -> is_type type ->
  has real type = true -> has t type = true.
Proof.
  unfold is_types. intros Hreal Ht Hsub Hty.
  destruct Hty as [-> | ->], Hreal as [->|[->|[->| ->]]], Ht as [->|[->|[->| ->]]]; done.
Qed.

Lemma clearedIf_has i e real type u :
  event_ok i e -> is_type type -> is_type u -> u <> type -> (has real type = true -> has (types e) type = true) ->
  has (types e) u = true -> has (types (if has real type then cleared type e else e)) u = true.
Proof.
  intros [_ Ht _ _] Hty Hu Hne Hr Hh. destruct (has real type); [|done]. specialize (Hr eq_refl).
  destruct e as [r w t f]. unfold is_types in Ht. cbn in *.
  destruct Hty as [-> | ->], Hu as [-> | ->], Ht as [->|[->|[->| ->]]]; done.
Qed.

(** [wait] wakes the reader and then the writer of the [real] events. *)
Definition awake (real : Z) (e : IOEvent) : IOEvent :=
  let e1 := if has real EPOLLIN then cleared EPOLLIN e else e in
  if has real EPOLLOUT then cleared EPOLLOUT e1 else e1.

Lemma wakes_spec p i e real :
  Shape p -> ioEvents_ p !! i = Some e -> is_types real -> Z.land real (Z.lnot (types e)) = 0 ->
  exists p', ((if Z.land real EPOLLIN =? 0 then ret tt else triggleEvent (Z.of_nat i) EPOLLIN ;;; decPending) ;;;
      (if Z.land real EPOLLOUT =? 0 then ret tt else triggleEvent (Z.of_nat i) EPOLLOUT ;;; decPending)) p = (Ok tt, p')
    /\ Shape p' /\ kernel p' = kernel p /\ ioEvents_ p' = <[i := awake real e]> (ioEvents_ p)
    /\ scheduled p' = scheduled p ++ ready_of real EPOLLIN (registered p (Z.of_nat i) EPOLLIN)
                                  ++ ready_of real EPOLLOUT (registered p (Z.of_nat i) EPOLLOUT)
    /\ (forall g u, 0 <= g -> is_type u -> registered p' g u =
         if decide (g = Z.of_nat i /\ has real u = true) then None else registered p g u).
Proof.
  intros Hs Hi Hreal Hsub. pose proof (sh_events p Hs i e Hi) as He. pose proof (ev_types _ _ He) as Ht.
  assert (Hh : forall type, is_type type -> has real type = true -> has (types e) type = true)
    by (intros type Hty; by apply real_subset).
  destruct (wake_spec p i e real EPOLLIN) as (p1 & E1 & Hs1 & Hk1 & Hev1 & Hsc1 & Hr1);
    [done|done|by left|apply Hh; by left|].
  set (e1 := if has real EPOLLIN then cleared EPOLLIN e else e) in *.
  assert (Hi1 : ioEvents_ p1 !! i = Some e1)
    by (rewrite Hev1; apply list_lookup_insert_eq; by eapply lookup_lt_Some).
  destruct (wake_spec p1 i e1 real EPOLLOUT Hs1 Hi1) as (p2 & E2 & Hs2 & Hk2 & Hev2 & Hsc2 & Hr2).
  { by right. }
  { intros Hro. eapply clearedIf_has; [done|by left|by right|done|..]; [apply Hh; by left|].
    apply Hh; [by right|done]. }
  exists p2. rewrite (bind_ok _ _ _ _ _ E1). split; [exact E2|]. split; [done|]. split; [congruence|]. split_and!.
  - by rewrite Hev2, Hev1, list_insert_insert_eq.
  - rewrite Hsc2, Hsc1, <- app_assoc. do 3 f_equal. rewrite Hr1 by (lia || by right).
    by rewrite decide_False by naive_solver.
  - intros g u Hg Hu. rewrite Hr2, Hr1 by done. destruct Hu as [-> | ->]; repeat case_decide; naive_solver.
Qed.

(** The tasks the poller holds or has handed out. *)
Definition known (p : Epoller) (x : W * Task) : Prop :=
  (exists f u, 0 <= f /\ is_type u /\ registered p f u = Some x) \/ x ∈ scheduled p.

Lemma known_cleared p p' f r :
  scheduled p' = scheduled p ++ r -> 0 <= f ->
  (forall x, x ∈ r -> exists u, is_type u /\ registered p f u = Some x) ->
  (forall g u, 0 <= g -> is_type u -> registered p' g u = None \/ registered p' g u = registered p g u) ->
  forall x, known p' x -> known p x.
Proof.
  intros Hs Hf Hr Hg x [(g & u & Hg0 & Hu & Hx)|Hx].
  - left. destruct (Hg g u Hg0 Hu) as [E|E]; [by rewrite E in Hx|]. exists g, u. by rewrite <- E.
  - rewrite Hs in Hx. apply elem_of_app in Hx as [Hx|Hx]; [by right|].
    left. destruct (Hr x Hx) as (u & Hu & E). by exists f, u.
Qed.

Lemma none_or {A} {P : Prop} (d : Decision P) (o : option A) :
  (if d then None else o) = None \/ (if d then None else o) = o.
Proof. destruct d; auto. Qed.

Lemma in_option_list {A} (o : option A) x : x ∈ option_list o -> o = Some x.
Proof. destruct o as [y|]; cbn; [|by inversion 1]. by intros ->%list_elem_of_singleton. Qed.

(** What the kernel may report: events that are registered, or an error. *)
Definition ready_ok (p : Epoller) (r : Ready) : Prop :=
  match r with
  | ReadyNotify => True
  | ReadyIO f events => 0 <= f /\ exists e, ioEvents_ p !! Z.to_nat f = Some e
      /\ Z.land (realEventsOf events (types e)) (Z.lnot (types e)) = 0
  end.

Lemma ready_shape p r :
  Shape p -> ready_ok p r ->
  exists p', handleReady r p = (Ok tt, p') /\ Shape p' /\ forall x, known p' x -> known p x.
Proof.
  intros Hs Hr. destruct r as [|f events]; [by exists p|]. destruct Hr as (Hf & e & Hi & Hsub).
  set (i := Z.to_nat f) in *. assert (Hfi : f = Z.of_nat i) by lia. clearbody i. subst f.
  pose proof (sh_events p Hs i e Hi) as He. pose proof (ev_types _ _ He) as Ht.
  pose proof (realEvents_types events (types e)) as Hreal.
  unfold handleReady. erewrite bind_ok by (by apply getEvent_spec). set (real := realEventsOf _ _) in *.
  clearbody real. destruct (Z.land (types e) real =? 0); [by exists p|].
  unfold bind at 1, epollCtl at 1. destruct (epoll_ctl _ _ _ (kernel p)) as [ok k]. cbn [fst snd].
  destruct (wakes_spec (setKernel k p) i e real) as (p2 & E2 & Hs2 & _ & _ & Hsc & Hr); [by apply shape_kernel|done..|].
  exists p2. split; [exact E2|]. split; [done|]. apply (known_cleared p p2 (Z.of_nat i) _ Hsc); [lia| |].
  - intros x Hx. apply elem_of_app in Hx as [Hx|Hx]; unfold ready_of in Hx;
      (destruct (has real _); [|by inversion Hx]); apply in_option_list in Hx;
      [exists EPOLLIN|exists EPOLLOUT]; (split; [|done]); [by left|by right].
  - intros g u Hg Hu. rewrite Hr by done. apply none_or.
Qed.

Fixpoint readies_ok (p : Epoller) (rs : list Ready) : Prop :=
  match rs with
  | [] => True
  | r :: rs => ready_ok p r /\ readies_ok (snd (handleReady r p)) rs
  end.

Lemma readies_shape rs p :
  Shape p -> readies_ok p rs ->
  exists p', handleAllReady rs p = (Ok tt, p') /\ Shape p' /\ forall x, known p' x -> known p x.
Proof.
  revert p. induction rs as [|r rs IH]; intros p Hs Hr; [by exists p|]. destruct Hr as [Hr Hrs].
  destruct (ready_shape p r Hs Hr) as (p1 & E & Hs1 & Hk1). rewrite E in Hrs.
  destruct (IH p1 Hs1 Hrs) as (p2 & E2 & Hs2 & Hk2). exists p2. split; [|by auto].
  cbn [handleAllReady]. by rewrite (bind_ok _ _ _ _ _ E).
Qed.

(** The task a call brings into the poller. *)
Definition brings (o : regop) (x : W * Task) : Prop :=
  match o with RAdd w c _ _ fn => x = (w, taskFor c fn) | _ => False end.

Lemma add_shape p w c f type fn :
  Shape p -> regop_ok p (RAdd w c f type fn) ->
  exists ok p', addEvent w c f type fn p = (Ok ok, p') /\ Shape p'
    /\ forall x, known p' x -> known p x \/ x = (w, taskFor c fn).
Proof.
  intros Hs (Hf & Hty & Hg).
  assert (Hin : forall q, Shape q -> f < zlen (ioEvents_ q) ->
    exists ok p', addEvent w c f type fn q = (Ok ok, p') /\ Shape p'
      /\ forall x, known p' x -> known q x \/ x = (w, taskFor c fn)).
  { intros q Hq Hlt. destruct (event_at q f) as (i & e & -> & Hi); [lia|].
    rewrite (add_in_range_run q w c i e) by done.
    destruct (has (types e) type) eqn:Hh; [by eexists _, q; eauto|].
    destruct (epoll_ctl _ _ _ (kernel q)) as [[|] k]; eexists _, _; (split; [done|]).
    - split; [by apply shape_armed|]. intros x [(g & u & Hg0 & Hu & Hx)|Hx]; [|by left; right].
      erewrite registered_armed in Hx; [|exact Hq|exact Hi|exact Hty|exact Hh|done..].
      case_decide; [right; by injection Hx|]. left. left. by exists g, u.
    - split; [by apply shape_kernel|]. by left. }
  destruct (decide (f < zlen (ioEvents_ p))) as [Hlt|Hge]; [by apply Hin|].
  destruct (resize_run p f) as (k & E & Hz & Hck & Hcase); [lia..|].
  set (p1 := setEvents _ p) in *. assert (Hlt1 : f < zlen (ioEvents_ p1)) by (cbn; lia).
  destruct (Hin p1) as (ok & p2 & E2 & Hs2 & Hk2); [apply shape_grown; try done; lia|done|].
  exists ok, p2. split; [|split; [done|]].
  - rewrite <- E2. unfold addEvent.
    erewrite bind_ok by done. cbn [id]. rewrite (proj2 (Z.leb_le _ _)) by lia.
    erewrite bind_ok by exact E. symmetry.
    erewrite bind_ok by done. cbn [id]. by rewrite (proj2 (Z.leb_gt _ _)) by lia.
  - intros x Hx. destruct (Hk2 x Hx) as [[(g & u & ? & ? & Hr)|?]|?]; [|by left; right|by right].
    left. left. exists g, u. unfold p1 in Hr. by rewrite registered_grown in Hr.
Qed.

Lemma unwatched_shape p f type (act : M Epoller unit) :
  Shape p -> 0 <= f -> is_type type ->
  (forall k i e, f = Z.of_nat i -> ioEvents_ p !! i = Some e -> has (types e) type = true ->
     exists p', act (setKernel k p) = (Ok tt, p') /\ Shape p' /\ forall x, known p' x -> known p x) ->
  exists ok p', (ok <-- unwatch f type ;; if negb ok then ret false else act ;;; ret true) p = (Ok ok, p')
    /\ Shape p' /\ forall x, known p' x -> known p x.
Proof.
  intros Hs Hf Hty Hact. destruct (unwatch_run p f type Hf) as (ok & k & E & Hok & _).
  rewrite (bind_ok _ _ _ _ _ E). destruct ok; cbn [negb].
  - destruct (Hok eq_refl) as (e & Hi & Hh & _).
    destruct (Hact k (Z.to_nat f) e) as (p' & Ea & Hs' & Hk'); [lia|done..|].
    exists true, p'. by rewrite (bind_ok _ _ _ _ _ Ea).
  - exists false, (setKernel k p). split; [done|]. by rewrite shape_kernel.
Qed.

Lemma triggered_shape p i e type :
  Shape p -> ioEvents_ p !! i = Some e -> is_type type -> has (types e) type = true ->
  exists p', (triggleEvent (Z.of_nat i) type ;;; decPending) p = (Ok tt, p') /\ Shape p'
    /\ forall x, known p' x -> known p x.
Proof.
  intros Hs Hi Hty Hh. destruct (trigger_spec p i e type Hs Hi Hty Hh) as (p' & E & Hs' & _ & Hev & Hsc & _).
  exists p'. split; [done|]. split; [done|].
  apply (known_cleared _ _ (Z.of_nat i) _ Hsc); [lia| |].
  - intros x Hx%in_option_list. by exists type.
  - intros g u Hg Hu. rewrite (registered_cleared p p' i e type) by done. apply none_or.
Qed.

Lemma del_shape p f type :
  Shape p -> regop_ok p (RDel f type) ->
  exists ok p', run_regop (RDel f type) p = (Ok ok, p') /\ Shape p' /\ forall x, known p' x -> known p x.
Proof.
  intros Hs [Hf Hty]. cbn [run_regop].
  destruct (unwatched_shape p f type (decPending ;;; e <-- getEvent f ;;
    putEvent f (setTypes (clear (types e) type) e) ;;; resetEventCtx f type)) as (ok & p' & E & Hs' & Hk'); try done.
  + intros k i e -> Hi Hh. erewrite bind_ok by done. erewrite bind_ok by (apply getEvent_spec; exact Hi).
    erewrite bind_ok by apply putEvent_spec.
    rewrite (resetEventCtx_spec _ i (setTypes (clear (types e) type) e)); [|cbn [setEvents setPending setKernel ioEvents_];
      apply list_lookup_insert_eq; by eapply lookup_lt_Some|done].
    eexists. split; [done|].
    unfold setPending, setEvents. cbn [ioEvents_ kernel polling_ pendingEvents_ scheduled setKernel].
    rewrite list_insert_insert_eq. split; [by apply (shape_cleared p i e type)|].
    apply (known_cleared p _ (Z.of_nat i) []); [cbn; by rewrite app_nil_r|lia|by inversion 1|].
    intros g u Hg Hu. rewrite (registered_cleared p _ i e type) by done. apply none_or.
  + exists ok, p'. split; [|by auto]. rewrite <- E. unfold delEvent. unfold bind.
    destruct (unwatch f type p) as [[[|]|] q]; [|done..]. cbn [negb].
    destruct (decPending q) as [[|] q1]; [|done]. destruct (getEvent f q1) as [[|] q2]; [|done].
    by destruct (putEvent _ _ q2) as [[|] q3].
Qed.

Lemma handle_shape p f type :
  Shape p -> regop_ok p (RHandle f type) ->
  exists ok p', run_regop (RHandle f type) p = (Ok ok, p') /\ Shape p' /\ forall x, known p' x -> known p x.
Proof.
  intros Hs [Hf Hty]. cbn [run_regop].
  destruct (unwatched_shape p f type (triggleEvent f type ;;; decPending)) as (ok & p' & E & Hs' & Hk'); try done.
  + intros k i e -> Hi Hh. apply (triggered_shape (setKernel k p) i e); [by apply shape_kernel|done..].
  + exists ok, p'. split; [|by auto]. rewrite <- E. unfold handleEvent, bind.
    destruct (unwatch f type p) as [[[|]|] q]; [|done..]. cbn [negb].
    by destruct (triggleEvent f type q) as [[|] q1].
Qed.

Lemma handleAll_shape p f :
  Shape p -> regop_ok p (RHandleAll f) ->
  exists ok p', run_regop (RHandleAll f) p = (Ok ok, p') /\ Shape p' /\ forall x, known p' x -> known p x.
Proof.
  intros Hs Ho. cbn [run_regop regop_ok] in *.
  unfold handleAllEvent. erewrite bind_ok by done. cbn [id].
  destruct (Z.leb_spec (zlen (ioEvents_ p)) f); [by exists false, p; auto|].
  destruct (event_at p f) as (i & e & -> & Hi); [lia|].
  erewrite bind_ok by (by apply getEvent_spec). destruct (types e =? 0); [by exists false, p; auto|].
  unfold bind at 1, epollCtl at 1. destruct (epoll_ctl _ _ _ (kernel p)) as [[|] k]; cbn [negb].
  + destruct (triggleIf_spec (setKernel k p) i e EPOLLIN) as (p1 & E1 & Hs1 & _ & Hev1 & Hsc1 & Hr1);
      [by apply shape_kernel|done|by left|]. rewrite (bind_ok _ _ _ _ _ E1).
    destruct (triggleIf_spec p1 i (clearedIf EPOLLIN e) EPOLLOUT) as (p2 & E2 & Hs2 & _ & _ & Hsc2 & Hr2);
      [done|rewrite Hev1; apply list_lookup_insert_eq; by eapply lookup_lt_Some|by right|].
    rewrite (bind_ok _ _ _ _ _ E2). exists true, p2. split; [done|]. split; [done|]. intros x Hx.
    apply (known_cleared _ _ (Z.of_nat i) _ Hsc2) in Hx;
      [|lia|intros y Hy%in_option_list; exists EPOLLOUT; split; [by right|done]|
       intros g u Hg Hu; rewrite Hr2 by done; apply none_or].
    by apply (known_cleared _ _ (Z.of_nat i) _ Hsc1) in Hx;
      [|lia|intros y Hy%in_option_list; exists EPOLLIN; split; [by left|done]|
       intros g u Hg Hu; rewrite Hr1 by done; apply none_or].
  + exists false, (setKernel k p). rewrite shape_kernel. by auto.
Qed.

(** The registration calls return and keep the table well formed, whatever
    the kernel answers, and bring in no other task than the one they add. *)
Lemma regop_shape p o :
  Shape p -> regop_ok p o ->
  exists ok p', run_regop o p = (Ok ok, p') /\ Shape p' /\ forall x, known p' x -> known p x \/ brings o x.
Proof.
  intros Hs Ho. destruct o as [w c f type fn|f type|f type|f]; [by apply add_shape|..].
  - destruct (del_shape p f type Hs Ho) as (ok & p' & ? & ? & ?). exists ok, p'. by auto.
  - destruct (handle_shape p f type Hs Ho) as (ok & p' & ? & ? & ?). exists ok, p'. by auto.
  - destruct (handleAll_shape p f Hs Ho) as (ok & p' & ? & ? & ?). exists ok, p'. by auto.
Qed.

(** [wait] on one ready descriptor, step by step. *)
Lemma ready_run p i e events :
  Inv p -> ioEvents_ p !! i = Some e ->
  Z.land (realEventsOf events (types e)) (Z.lnot (types e)) = 0 ->
  accepts (kernel p) (Z.of_nat i) ->
  let real := realEventsOf events (types e) in
  exists p', handleReady (ReadyIO (Z.of_nat i) events) p = (Ok tt, p') /\ Shape p'
    /\ scheduled p' = scheduled p ++ ready_of real EPOLLIN (registered p (Z.of_nat i) EPOLLIN)
                                  ++ ready_of real EPOLLOUT (registered p (Z.of_nat i) EPOLLOUT)
    /\ (forall g u, 0 <= g -> is_type u -> registered p' g u =
         if decide (g = Z.of_nat i /\ has real u = true) then None else registered p g u)
    /\ (clear (types e) real = 0 \/ real = 0 -> Inv p')
    /\ (clear (types e) real <> 0 /\ real <> 0 -> interest (kernel p') (Z.of_nat i) = Some 0).
Proof.
  intros Hp Hi Hsub Hk real. pose proof (inv_shape p Hp) as Hs.
  pose proof (sh_events p Hs i e Hi) as He. pose proof (ev_types _ _ He) as Ht.
  pose proof (realEvents_types events (types e)) as Hreal. fold real in Hsub, Hreal.
  unfold handleReady. erewrite bind_ok by (by apply getEvent_spec). fold real. clearbody real.
  destruct (Z.land (types e) real =? 0) eqn:Ez.
  { assert (real = 0) as -> by (apply Z.eqb_eq in Ez; unfold is_types in *;
      destruct Ht as [Ht|[Ht|[Ht|Ht]]], Hreal as [->|[->|[->| ->]]]; rewrite ?Ht in *; done).
    exists p. split_and!; try done.
    - cbn. by rewrite app_nil_r.
    - intros g u _ Hu. rewrite decide_False; [done|]. intros [_ Hu']. by destruct Hu as [-> | ->].
    - by intros [_ ?]. }
  set (op := if clear (types e) real =? 0 then _ else _).
  rewrite (ev_fd _ _ He). set (ev := Z.land EPOLLET _).
  destruct (Hk op ev) as [k Ek]; [|].
  { rewrite (inv_watch p Hp i e Hi). split; [unfold op; by destruct (clear (types e) real =? 0)|]. intros _.
    unfold watched. destruct (Z.eqb_spec (types e) 0) as [E0|]; [by rewrite E0 in Ez|done]. }
  erewrite bind_ok by (unfold epollCtl; by rewrite Ek).
  apply epoll_ctl_ok in Ek as [Ek _].
  destruct (wakes_spec (setKernel k p) i e real) as (p2 & E2 & Hs2 & Hk2 & Hev2 & Hsc & Hr); [by apply shape_kernel|done..|].
  exists p2. split; [exact E2|]. split; [done|]. split; [exact Hsc|]. split; [exact Hr|]. split.
  - intros Hclr. assert (Hlen : (i < length (ioEvents_ p))%nat) by by eapply lookup_lt_Some.
    cbn [ioEvents_ kernel setKernel] in Hev2, Hk2. set (e2 := awake real e) in *.
    assert (types e2 = 0 /\ op = EPOLL_CTL_DEL) as [Ht2 Hop].
    { destruct Hclr as [Hclr| ->]; [|by rewrite Z.land_0_r in Ez]. split; [|unfold op; by rewrite Hclr].
      unfold e2, awake, cleared. clear -Ht Hreal Hclr. destruct e as [r w t f]. cbn in *.
      unfold is_types in *. destruct Ht as [->|[->|[->| ->]]], Hreal as [->|[->|[->| ->]]]; done. }
    destruct (watch_put p i e2 k Hp Hlen) as [Hw Hrest].
    { intros g Hg. by rewrite Ek, decide_False. }
    { rewrite Ek, decide_True, Hop by done. unfold watched. by rewrite Ht2. }
    split; [done|..]; rewrite Hev2, Hk2; done.
  - intros [Hclr _]. rewrite Hk2. cbn [kernel setKernel]. rewrite Ek, decide_True by done.
    unfold op, ev. clear -Ht Hreal Hclr. unfold is_types in *.
    destruct (clear (types e) real =? 0) eqn:Ec; [by apply Z.eqb_eq in Ec|].
    destruct Ht as [Ht|[Ht|[Ht|Ht]]], Hreal as [->|[->|[->| ->]]]; rewrite Ht in *; done.
Qed.

(** What [wait] does with one ready descriptor, when the kernel reports
    events the descriptor is registered for (EPOLLERR and EPOLLHUP stand for
    all of them) and accepts the update.  The tasks of the reported events
    are handed to their workers, read before write, and leave the registry;
    the others stay.  When no registration is left the kernel stops
    watching the descriptor and the invariant holds again.  But when one is
    left, the kernel is told to watch [EPOLLET & left_events], which is no
    event at all: the registered task can no longer be woken by readiness. *)
Theorem ready_dispatch p i e events :
  Inv p -> ioEvents_ p !! i = Some e ->
  Z.land (realEventsOf events (types e)) (Z.lnot (types e)) = 0 ->
  accepts (kernel p) (Z.of_nat i) ->
  let real := realEventsOf events (types e) in
  exists p', handleReady (ReadyIO (Z.of_nat i) events) p = (Ok tt, p') /\ Shape p'
    /\ scheduled p' = scheduled p ++ ready_of real EPOLLIN (registered p (Z.of_nat i) EPOLLIN)
                                  ++ ready_of real EPOLLOUT (registered p (Z.of_nat i) EPOLLOUT)
    /\ (forall g u, 0 <= g -> is_type u -> registered p' g u =
         if decide (g = Z.of_nat i /\ has real u = true) then None else registered p g u)
    /\ (clear (types e) real = 0 \/ real = 0 -> Inv p')
    /\ (clear (types e) real <> 0 /\ real <> 0 -> interest (kernel p') (Z.of_nat i) = Some 0).
Proof. apply ready_run. Qed.

(** [epoll_wait] blocks for at most [kMaxTimeout] milliseconds, and for
    the requested time when that is shorter; a timeout that the conversion
    to [int] makes smaller than -1 is passed on, and blocks for ever. *)
Theorem clampTimeout_bounds timeout :
  (-1 <= timeout < 2 ^ 31 -> 0 <= clampTimeout timeout <= kMaxTimeout
     /\ (timeout <> -1 -> clampTimeout timeout = Z.min timeout kMaxTimeout))
  /\ (2 ^ 31 <= timeout < 2 ^ 32 - 1 -> clampTimeout timeout < -1).
Proof.
  unfold clampTimeout, kMaxTimeout. split; intros Ht.
  - rewrite swrap_small by lia. destruct (Z.eqb_spec timeout (-1)); [lia|].
    destruct (Z.ltb_spec 5000 timeout); lia.
  - assert (i32 timeout = timeout - 2 ^ 32) as ->.
    { unfold swrap. rewrite <- (Z.mod_add _ (-1)) by lia. rewrite Z.mod_small; lia. }
    destruct (Z.eqb_spec (timeout - 2 ^ 32) (-1)); [lia|].
    destruct (Z.ltb_spec 5000 (timeout - 2 ^ 32)); lia.
Qed.
End Epoller.

(** ** The eventfd

    The constructor makes an epoll instance and an eventfd, and has the
    instance watch the eventfd for the life of the poller.  The registry never
    sees it: what the poller calls its epoll instance is the kernel's without
    the eventfd, which no call can add again, change or remove. *)

Record WithEventfd (K : Type) (eventfd_ : Z) := { instance_ : K }.
Arguments instance_ {K eventfd_}.

Section Eventfd.
Context {W C F K : Type} `{Epoll K} (eventfd_ : Z).

Definition eventfd_ctl (op : ctl) (fd ev : Z) (k : WithEventfd K eventfd_) :
  bool * WithEventfd K eventfd_ :=
  if fd =? eventfd_ then (false, k)
  else let '(ok, k') := epoll_ctl op fd ev (instance_ k) in (ok, {| instance_ := k' |}).

#[export] Instance eventfdEpoll : Epoll (WithEventfd K eventfd_).
Proof using H.
  refine {| epoll_ctl := eventfd_ctl;
            interest k f := if f =? eventfd_ then None else interest (instance_ k) f |};
    intros op f ev k k'; unfold eventfd_ctl; destruct (Z.eqb_spec f eventfd_) as [->|Hf]; try done.
  - by intros [= <-].
  - destruct (epoll_ctl op f ev (instance_ k)) as [ok i] eqn:E. intros [= -> <-] g. cbn.
    by rewrite (epoll_ctl_fail _ _ _ _ _ E).
  - destruct (epoll_ctl op f ev (instance_ k)) as [ok i] eqn:E. intros [= -> <-].
    destruct (epoll_ctl_ok _ _ _ _ _ E) as [Hi Hs]. split; [|done]. intros g. cbn. rewrite Hi.
    destruct (Z.eqb_spec g eventfd_) as [->|]; [by rewrite decide_False|done].
Defined.

(** [Epoller(worker)] from what [epoll_create] and [eventfd] return; a failed
    [epoll_ctl] is only logged. *)
Definition createEpoller (epfd : K) : Epoller (W := W) (C := C) (F := F) (K := WithEventfd K eventfd_) :=
  newEpoller {| instance_ := snd (epoll_ctl EPOLL_CTL_ADD eventfd_ (Z.lor EPOLLET EPOLLIN) epfd) |}.

Definition eventfdWatched (p : Epoller (W := W) (C := C) (F := F) (K := WithEventfd K eventfd_)) : Prop :=
  interest (instance_ (kernel p)) eventfd_ = Some (Z.lor EPOLLET EPOLLIN).

Lemma createEpoller_inv epfd :
  (forall f, interest epfd f = None) ->
  (forall b k, epoll_ctl EPOLL_CTL_ADD eventfd_ (Z.lor EPOLLET EPOLLIN) epfd = (b, k) -> b = true) ->
  Inv (createEpoller epfd) /\ eventfdWatched (createEpoller epfd).
Proof using Type.
  intros Hno Hb. unfold createEpoller, eventfdWatched. cbn [kernel newEpoller instance_].
  destruct (epoll_ctl _ _ _ epfd) as [b k] eqn:E. specialize (Hb b k eq_refl) as ->. cbn [snd].
  destruct (epoll_ctl_ok _ _ _ _ _ E) as [Hi _]. split.
  - apply newEpoller_inv. intros f. cbn. rewrite Hi, Hno.
    destruct (Z.eqb_spec f eventfd_) as [->|]; [done|]. by rewrite decide_False.
  - by rewrite Hi, decide_True.
Qed.

(** A kernel that has room for a descriptor still has it. *)
Lemma eventfd_accepts (k : WithEventfd K eventfd_) f :
  accepts (instance_ k) f -> f <> eventfd_ -> accepts k f.
Proof using Type.
  intros Hk Hf op ev Hop. cbn in Hop |- *. unfold eventfd_ctl.
  rewrite (proj2 (Z.eqb_neq f eventfd_)) in * by done. destruct (Hk op ev Hop) as [i ->]. by eexists.
Qed.

(** Operations that leave the eventfd to the kernel. *)
Definition leaves {A} (m : M (Epoller (K := WithEventfd K eventfd_)) A) : Prop :=
  forall p r p', m p = (r, p') -> eventfdWatched p -> eventfdWatched p'.

Lemma leaves_ret {A} (a : A) : leaves (ret a).
Proof using Type. by intros p r p' [= _ <-]. Qed.

Lemma leaves_bind {A B} (m : M _ A) (f : A -> M _ B) :
  leaves m -> (forall a, leaves (f a)) -> leaves (bind m f).
Proof using Type.
  intros Hm Hf p r p' E Hp. unfold bind in E. destruct (m p) as [[a|e] p1] eqn:E1; [by eapply Hf; eauto|].
  injection E as _ <-. by eapply Hm; eauto.
Qed.

Lemma leaves_modify f : (forall p, kernel (f p) = kernel p) -> leaves (modify f).
Proof using Type. intros Hf p r p' [= _ <-] Hp. unfold eventfdWatched. by rewrite Hf. Qed.

Lemma leaves_ctl op f ev : leaves (epollCtl op f ev).
Proof using Type.
  intros p r p' E Hp. unfold epollCtl in E. destruct (epoll_ctl op f ev (kernel p)) as [ok k] eqn:Ek.
  injection E as _ <-. unfold eventfdWatched. cbn. cbn in Ek. unfold eventfd_ctl in Ek.
  destruct (Z.eqb_spec f eventfd_) as [->|Hf]; [by injection Ek as _ <-|].
  destruct (epoll_ctl op f ev (instance_ (kernel p))) as [b i] eqn:Ei. injection Ek as <- <-. cbn.
  destruct b.
  - destruct (epoll_ctl_ok _ _ _ _ _ Ei) as [-> _]. by rewrite decide_False.
  - by rewrite (epoll_ctl_fail _ _ _ _ _ Ei).
Qed.

Lemma leaves_get i : leaves (getEvent i).
Proof using Type. intros p r p' E. unfold getEvent in E. by repeat case_match; injection E as _ <-. Qed.

Lemma leaves_put i e : leaves (putEvent i e).
Proof using Type. by apply leaves_modify. Qed.

Lemma leaves_throw {A} e : leaves (throw e : M _ A).
Proof using Type. by intros p r p' [= _ <-]. Qed.

Lemma leaves_assert b : leaves (assert_ b).
Proof using Type. by destruct b; intros p r p' [= _ <-]. Qed.

Lemma leaves_gets {A} (f : _ -> A) : leaves (gets f).
Proof using Type. by intros p r p' [= _ <-]. Qed.

Ltac leaves :=
  repeat match goal with
  | |- leaves (bind _ _) => apply leaves_bind; [|intros ?]
  | |- leaves (ret _) => apply leaves_ret
  | |- leaves (modify _) => apply leaves_modify; intros ?; done
  | |- leaves (epollCtl _ _ _) => apply leaves_ctl
  | |- leaves (getEvent _) => apply leaves_get
  | |- leaves (putEvent _ _) => apply leaves_put
  | |- leaves (let x := _ in _) => cbv zeta
  | |- leaves (match ?x with _ => _ end) => destruct x
  | |- leaves (gets _) => apply leaves_gets
  | |- leaves (throw _) => apply leaves_throw
  | |- leaves (assert_ _) => apply leaves_assert
  end.

Lemma leaves_trigger i type : leaves (triggleEvent i type).
Proof using Type. unfold triggleEvent, need, decPending. leaves. Qed.

Lemma leaves_unwatch f type : leaves (unwatch f type).
Proof using Type. unfold unwatch. leaves. Qed.

Lemma leaves_triggleIf f type : leaves (triggleIf f type).
Proof using Type. unfold triggleIf, decPending. leaves. apply leaves_trigger. Qed.

Lemma leaves_regop o : leaves (run_regop o).
Proof using Type.
  destruct o; cbn [run_regop];
    unfold addEvent, delEvent, handleEvent, handleAllEvent, resetEventCtx, resizeEvents, need, decPending; leaves;
    apply leaves_unwatch || apply leaves_trigger || apply leaves_triggleIf.
Qed.

Lemma leaves_ready r : leaves (handleReady r).
Proof using Type. destruct r; unfold handleReady, decPending; leaves; apply leaves_trigger. Qed.

Lemma leaves_wait self expired rs : leaves (wait self expired rs).
Proof using Type.
  unfold wait. leaves.
  - apply leaves_modify. intros p. revert p. induction expired as [|[f|] l IH]; intros p; cbn [foldl]; [done|..];
      by rewrite IH.
  - induction rs as [|r rs IH]; cbn [handleAllReady]; leaves; [apply leaves_ready|exact IH].
Qed.

(** What a poller goes through. *)
Inductive pollop := PReg (o : regop (W := W) (C := C) (F := F)) | PWait (self : W) (expired : list (option F)) (rs : list Ready).

Fixpoint runPoller (l : list pollop) (p : Epoller (K := WithEventfd K eventfd_)) : Epoller :=
  match l with
  | [] => p
  | PReg o :: l => runPoller l (snd (run_regop o p))
  | PWait self expired rs :: l => runPoller l (snd (wait self expired rs p))
  end.

(** From the constructor on, through any registrations and waits, whatever
    fails, the eventfd stays watched, edge-triggered for reading: a [notify]
    during [epoll_wait] can always be reported. *)
Theorem eventfd_stays_watched epfd l :
  (forall f, interest epfd f = None) ->
  (forall b k, epoll_ctl EPOLL_CTL_ADD eventfd_ (Z.lor EPOLLET EPOLLIN) epfd = (b, k) -> b = true) ->
  eventfdWatched (runPoller l (createEpoller epfd)).
Proof using Type.
  intros Hno Hb. destruct (createEpoller_inv epfd Hno Hb) as [_ Hp]. revert Hp. generalize (createEpoller epfd).
  induction l as [|[o|self expired rs] l IH]; intros p Hp; cbn [runPoller]; [done|..]; apply IH.
  - destruct (run_regop o p) as [r p'] eqn:E. exact (leaves_regop o p r p' E Hp).
  - destruct (wait self expired rs p) as [r p'] eqn:E. exact (leaves_wait self expired rs p r p' E Hp).
Qed.
End Eventfd.

(** ** A concrete epoll instance *)

Definition map_ctl (op : ctl) (f ev : Z) (k : gmap Z Z) : bool * gmap Z Z :=
  match op, k !! f with
  | EPOLL_CTL_ADD, None => (true, <[f := ev]> k)
  | EPOLL_CTL_MOD, Some _ => (true, <[f := ev]> k)
  | EPOLL_CTL_DEL, Some _ => (true, delete f k)
  | _, _ => (false, k)
  end.

#[export] Instance mapEpoll : Epoll (gmap Z Z).
Proof.
  refine {| epoll_ctl := map_ctl; interest k f := k !! f |}.
  - intros op f ev k k'. destruct op; cbn; destruct (k !! f); naive_solver.
  - intros op f ev k k' E. destruct op; cbn in *; destruct (k !! f) eqn:Hf; simplify_eq;
      (split; [intros g; case_decide; subst; by simplify_map_eq|]);
      split; intros Hs; try done; by destruct Hs.
Defined.

(** Descriptor 3, both events, then a read event. *)
Definition demo : Epoller (W := nat) (C := nat) (F := nat) (K := gmap Z Z) :=
  snd (run_regop (RAdd 0%nat 8%nat 3 EPOLLOUT None) (snd
    (run_regop (RAdd 0%nat 7%nat 3 EPOLLIN None) (newEpoller (∅ : gmap Z Z))))).

Lemma new_inv : Inv (newEpoller (W := nat) (C := nat) (F := nat) (∅ : gmap Z Z)).
Proof. by apply newEpoller_inv. Qed.

Lemma demo_inv : Inv demo.
Proof.
  destruct (add_spec _ 0%nat 7%nat 3 EPOLLIN None new_inv) as (ok & p & E & Hp & _).
  { split; [done|]. split; [by left|by left]. }
  destruct (add_spec p 0%nat 8%nat 3 EPOLLOUT None Hp) as (ok2 & p2 & E2 & Hp2 & _).
  { split; [done|]. split; [by right|by left]. }
  unfold demo. rewrite E. cbn [snd]. by rewrite E2.
Qed.

Lemma registry_refinement_witness :
  exists ok p', run_regop (RAdd 0%nat 7%nat 3 EPOLLIN None)
                  (newEpoller (F := nat) (∅ : gmap Z Z)) = (Ok ok, p')
                /\ Inv p' /\ ok = true /\ registered p' 3 EPOLLIN = Some (0%nat, TaskCo 7%nat).
Proof.
  destruct (registry_refinement _ (RAdd 0%nat 7%nat 3 EPOLLIN None) new_inv)
    as (ok & p' & E & Hp & Hno & Hyes).
  { split; [done|]. split; [by left|by left]. }
  assert (ok = true) as -> by (vm_compute in E; by injection E as <- _).
  exists true, p'. split; [exact E|]. split; [exact Hp|]. split; [done|].
  destruct (Hyes eq_refl) as [_ ->]; [done|done|by left].
Defined.

Lemma map_accepts k f : accepts (K := gmap Z Z) k f.
Proof.
  intros op ev Hop. cbn in *. unfold map_ctl.
  destruct (k !! f) as [x|]; destruct op; eauto.
  - by destruct (proj1 Hop ltac:(done)).
  - by destruct (proj2 Hop ltac:(done)) as [? ?].
  - by destruct (proj2 Hop ltac:(done)) as [? ?].
Qed.

Lemma registry_progress_witness :
  fst (run_regop (RHandle 3 EPOLLOUT) demo) = Ok true
  /\ fst (run_regop (RAdd 0%nat 9%nat 3 EPOLLIN None) demo) = Ok false.
Proof.
  split; (rewrite registry_progress; [by vm_compute|exact demo_inv| |apply map_accepts]).
  - split; [done|by right].
  - split; [done|]. split; [by left|by left].
Defined.

Lemma ready_dispatch_witness :
  exists p', handleReady (ReadyIO 3 EPOLLIN) demo = (Ok tt, p')
    /\ interest (kernel p') 3 = Some 0 /\ registered p' 3 EPOLLOUT = Some (0%nat, TaskCo 8%nat).
Proof.
  destruct (ready_dispatch demo 3 (default (newIOEvent 0) (ioEvents_ demo !! 3%nat)) EPOLLIN demo_inv)
    as (p' & E & _ & _ & Hr & _ & Hk).
  - by vm_compute.
  - by vm_compute.
  - apply map_accepts.
  - exists p'. split; [exact E|]. split; [apply Hk; by vm_compute|].
    rewrite Hr; [by vm_compute|done|by right].
Defined.

Lemma clampTimeout_bounds_witness :
  clampTimeout 70 = 70 /\ clampTimeout (2 ^ 31) < -1.
Proof.
  split; [destruct (clampTimeout_bounds 70) as [H _]; rewrite (proj2 (H ltac:(lia))); done|].
  apply clampTimeout_bounds. lia.
Defined.

Lemma addEvent_first_low_fd_witness :
  fst (addEvent 0%nat 7%nat 1 EPOLLIN None (newEpoller (F := nat) (∅ : gmap Z Z))) = Throw Undefined.
Proof. apply (addEvent_first_low_fd ∅ 0%nat 7%nat 1). by right. Defined.

Lemma eventfd_stays_watched_witness :
  eventfdWatched (W := nat) (C := nat) (F := nat) 4
    (runPoller 4 [PReg (RAdd 0%nat 7%nat 3 EPOLLIN None); PReg (RAdd 0%nat 7%nat 4 EPOLLIN None); PReg (RHandleAll 3)]
       (createEpoller 4 (∅ : gmap Z Z))).
Proof. apply eventfd_stays_watched; [done|]. intros b k E. cbn in E. by injection E as <- _. Defined.
