(* ===== verification/SocketStream.v ===== *)
(** * SocketStream (src/reyao/socket_stream.h, src/reyao/socket_stream.cc)

    Reads and writes of a connected socket through a buffer.  The peer and
    the kernel are data: [incoming] is what each [recv] will find, cut to the
    size asked for and delivered in order; [accepts] is how many bytes each
    [send] takes, all of them once the list is used up. *)

From S2P Require Import Prelude ByteArray.

Record Sock := {
  connected : bool;
  incoming : list bytes;
  accepts : list Z;
  outgoing : bytes
}.

Definition setIncoming (l : list bytes) (s : Sock) : Sock :=
  {| connected := connected s; incoming := l; accepts := accepts s; outgoing := outgoing s |}.
Definition setSent (a : list Z) (o : bytes) (s : Sock) : Sock :=
  {| connected := connected s; incoming := incoming s; accepts := a; outgoing := o |}.
Definition setConnected (b : bool) (s : Sock) : Sock :=
  {| connected := b; incoming := incoming s; accepts := accepts s; outgoing := outgoing s |}.

(** [Socket::recv]: the returned number and the bytes put into the buffer. *)
Definition recv (size : Z) : M Sock (Z * bytes) := fun s =>
  if connected s then
    match incoming s with
    | [] => (Ok (0, []), s)
    | d :: l =>
        if zlen d <=? size then (Ok (zlen d, d), setIncoming l s)
        else let d1 := take (Z.to_nat size) d in
             (Ok (zlen d1, d1), setIncoming (drop (Z.to_nat size) d :: l) s)
    end
  else (Ok (-1, []), s).

(** [Socket::send]. *)
Definition send (buf : bytes) : M Sock Z := fun s =>
  if connected s then
    match accepts s with
    | [] => (Ok (zlen buf), setSent [] (outgoing s ++ buf) s)
    | n :: a =>
        if n <? 0 then (Ok (-1), setSent a (outgoing s) s)
        else let d := take (Z.to_nat n) buf in (Ok (zlen d), setSent a (outgoing s ++ d) s)
    end
  else (Ok (-1), s).

Definition isConnected (s : Sock) : bool := connected s.

Definition close : M Sock unit := modify (setConnected false).

(** What a stream needs of a buffer to read into it: room for the bytes at
    the write position, and taking over those that were stored there. *)
Class Fill (B : Type) := {
  reserve : Z -> M B unit;
  commit : bytes -> M B unit
}.

(** [getWriteArea(size)]; the store by [recv] and [setWritePos(... + rt)]. *)
#[export] Instance fillByteArray : Fill ByteArray := {
  reserve size := getWriteArea size ;;; ret tt;
  commit d := storeAtWritePos d ;;;
              modify (fun b => setWritePos (u64 (writePos_ b + zlen d)) b)
}.

(** The abstract buffer: a queue of bytes. *)
#[export] Instance fillQueue : Fill bytes := {
  reserve _ := ret tt;
  commit d := modify (fun q => q ++ d)
}.

(** What a stream needs of its socket.  [toCome] is not a call of the code: it
    bounds the bytes that may still arrive, for the fuel of the loops that
    read until the peer has sent enough. *)
Class Conn (K : Type) := {
  recvOn : Z -> M K (Z * bytes);
  sendOn : bytes -> M K Z;
  connectedOn : K -> bool;
  closeOn : M K unit;
  toCome : K -> Z
}.

(** All bytes that are still to come. *)
Definition pending (s : Sock) : Z := zlen (List.concat (incoming s)).

#[export] Instance connSock : Conn Sock :=
  {| recvOn := recv; sendOn := send; connectedOn := isConnected; closeOn := close; toCome := pending |}.

Section Stream.
Context {K : Type} `{Conn K}.

Section Buffer.
Context {B : Type} `{Fill B}.

(** A stream and the buffer passed to the call. *)
Definition onSock {A} (m : M K A) : M (K * B) A := zoom fst (fun s p => (s, snd p)) m.
Definition onBuf {A} (m : M B A) : M (K * B) A := zoom snd (fun b p => (fst p, b)) m.

(** [int read(ByteArray* ba, size_t size)] *)
Definition readInto (size : Z) : M (K * B) Z :=
  s <-- gets fst ;;
  if negb (connectedOn s) then ret (-1)
  else
    onBuf (reserve size) ;;;
    rd <-- onSock (recvOn size) ;;
    (if 0 <? fst rd then onBuf (commit (snd rd)) else ret tt) ;;;
    ret (fst rd).
End Buffer.

(** [int read(void* buf, size_t size)] *)
Definition readRaw (size : Z) : M K (Z * bytes) :=
  s <-- gets id ;;
  if negb (connectedOn s) then ret (-1, []) else recvOn size.

(** [int write(const void* buf, size_t size)] *)
Definition writeRaw (buf : bytes) : M K Z :=
  s <-- gets id ;;
  if negb (connectedOn s) then ret (-1) else sendOn buf.

(** [int write(ByteArray* ba, size_t size)] *)
Definition writeFrom (size : Z) : M (K * ByteArray) Z :=
  s <-- gets fst ;;
  if negb (connectedOn s) then ret (-1)
  else
    d <-- onBuf (getReadArea size) ;;
    rt <-- onSock (sendOn d) ;;
    (if 0 <? rt then onBuf (modify (fun b => setReadPos (u64 (readPos_ b + rt)) b)) else ret tt) ;;;
    ret rt.

(** [int write(ByteArray* ba)] *)
Definition writeAll : M (K * ByteArray) Z :=
  p <-- gets snd ;; writeFrom (getReadSize p).

(** A stream on the stack of a function: however the function is left, also by
    an exception, the destructor closes the socket if the stream owns it. *)
Definition onStream {A} (owner_ : bool) (m : M K A) : M K A := fun s =>
  let '(r, s1) := m s in
  match (if owner_ then closeOn else ret tt) s1 with
  | (Ok _, s2) => (r, s2)
  | (Throw e, s2) => (Throw e, s2)
  end.
End Stream.

(** ** Reading into a ByteArray is reading into a queue *)

Lemma recv_spec size s :
  0 < size -> exists n d s', recv size s = (Ok (n, d), s')
    /\ (0 < n -> n = zlen d) /\ zlen d <= size
    /\ pending s' + zlen d = pending s /\ connected s' = connected s.
Proof.
  intros Hs. unfold recv, pending. destruct (connected s) eqn:Ec.
  2:{ eexists _, _, _. split; [done|]. unfold zlen. cbn [length]. split_and!; (done || lia). }
  destruct (incoming s) as [|d l] eqn:El.
  { eexists _, _, _. split; [done|]. rewrite El. unfold zlen. cbn [length]. split_and!; (done || lia). }
  destruct (Z.leb_spec (zlen d) size).
  - eexists _, _, _. split; [done|]. cbn [incoming setIncoming List.concat connected].
    rewrite zlen_app. split_and!; try done; lia.
  - eexists _, _, _. split; [done|]. cbn [incoming setIncoming List.concat connected].
    assert (Hd : zlen (take (Z.to_nat size) d) = size)
      by (unfold zlen in *; rewrite length_take; lia).
    assert (Hd2 : zlen (drop (Z.to_nat size) d) = zlen d - size)
      by (unfold zlen in *; rewrite length_drop; lia).
    rewrite !zlen_app, Hd, Hd2. split_and!; try done; lia.
Qed.

(** The relation between a stream with its buffer and one with a queue. *)
Record buffered (p : Sock * ByteArray) (q : Sock * bytes) : Prop := {
  bu_sock : fst p = fst q;
  bu_rep : rep (snd p) (snd q);
  bu_room : writePos_ (snd p) + pending (fst p) <= 2 ^ 62
}.

Lemma readInto_queue size s (q : bytes) n d s' :
  connected s = true -> recv size s = (Ok (n, d), s') ->
  readInto size (s, q) = (Ok n, (s', if 0 <? n then q ++ d else q)).
Proof.
  intros Hc E. unfold readInto. rewrite bind_gets. cbn [fst]. cbn [connectedOn connSock]. unfold isConnected. rewrite Hc.
  cbn [negb]. assert (E1 : onBuf (B := bytes) (reserve size) (s, q) = (Ok tt, (s, q))) by done.
  rewrite (bind_ok _ _ _ _ _ E1).
  assert (E2 : onSock (B := bytes) (recv size) (s, q) = (Ok (n, d), (s', q)))
    by (unfold onSock, zoom; cbn [fst snd]; by rewrite E).
  rewrite (bind_ok _ _ _ _ _ E2). cbn [fst snd]. by destruct (0 <? n).
Qed.

Lemma readInto_spec size s b q n d s' :
  0 < size < 2 ^ 31 -> rep b q -> writePos_ b + pending s <= 2 ^ 62 ->
  connected s = true -> recv size s = (Ok (n, d), s') ->
  exists b', readInto size (s, b) = (Ok n, (s', b')) /\ rep b' (if 0 <? n then q ++ d else q)
    /\ endian_ b' = endian_ b /\ writePos_ b' + pending s' <= 2 ^ 62.
Proof.
  intros Hs Hr Hroom Hc E. assert (Hp : 0 <= pending s) by apply zlen_nonneg.
  destruct (getWriteArea_spec size b q Hr) as (b1 & E1 & Hb1 & Hw & Hle & He).
  { unfold room, vector_max_size. lia. }
  destruct (recv_spec size s) as (n1 & d1 & s1 & E2 & Hn & Hd & Hpe & _); [lia|].
  rewrite E in E2. injection E2 as <- <- <-. pose proof (zlen_nonneg d).
  unfold readInto. rewrite bind_gets. cbn [fst]. cbn [connectedOn connSock]. unfold isConnected. rewrite Hc. cbn [negb].
  assert (Ea : onBuf (reserve size) (s, b) = (Ok tt, (s, b1))).
  { unfold onBuf, zoom, reserve. cbn. by rewrite (bind_ok _ _ _ _ _ E1). }
  rewrite (bind_ok _ _ _ _ _ Ea).
  assert (Er : onSock (recv size) (s, b1) = (Ok (n, d), (s', b1)))
    by (unfold onSock, zoom; cbn [fst snd]; by rewrite E).
  rewrite (bind_ok _ _ _ _ _ Er). cbn [fst snd].
  destruct (Z.ltb_spec 0 n) as [Hlt|Hge].
  - destruct (storeAtWritePos_spec d b1 q Hb1) as (b2 & E3 & Hb2 & _ & Hu & _ & He2 & _); [lia|].
    assert (Ec2 : onBuf (commit d) (s', b1)
                  = (Ok tt, (s', setWritePos (u64 (writePos_ b2 + zlen d)) b2))).
    { unfold onBuf, zoom, commit. cbn. by rewrite (bind_ok _ _ _ _ _ E3). }
    rewrite (bind_ok _ _ _ _ _ Ec2). eexists. split; [reflexivity|]. split; [done|].
    cbn. split; [congruence|lia].
  - exists b1. split; [done|]. split; [done|]. split; [done|]. lia.
Qed.

Lemma readInto_sim size :
  0 < size < 2 ^ 31 -> sim buffered (readInto size) (readInto size).
Proof.
  intros Hs [s b] [s' q] [Hsock Hr Hroom]. cbn [fst snd] in *. subst s'.
  destruct (connected s) eqn:Hc.
  - destruct (recv_spec size s) as (n & d & s1 & E & _); [lia|].
    destruct (readInto_spec size s b q n d s1) as (b1 & E1 & Hb1 & _ & Hroom1); [done..|].
    rewrite E1, (readInto_queue _ _ _ _ _ _ Hc E). by split.
  - unfold readInto. rewrite !bind_gets. cbn [fst]. cbn [connectedOn connSock]. unfold isConnected. rewrite Hc. cbn [negb]. by split.
Qed.

(** What the bytes [l] bring, as one read or as the end of the stream. *)
Definition inOneRead (l : bytes) : list bytes := match l with [] => [] | _ => [l] end.

Lemma inOneRead_decide l : inOneRead l = if decide (l = []) then [] else [l].
Proof. by destruct l. Qed.

Lemma concat_inOneRead l : List.concat (inOneRead l) = l.
Proof. destruct l; [done|]. cbn. by rewrite app_nil_r. Qed.

Lemma inOneRead_pieces l : Forall (fun d => d <> []) (inOneRead l).
Proof. destruct l; by repeat constructor. Qed.

(** What the peer sends, when no [recv] comes back empty. *)
Definition flowing (s : Sock) : Prop := connected s = true /\ Forall (fun d => d <> []) (incoming s).

(** One [recv] takes the next bytes off the stream. *)
Lemma recv_flowing size s :
  0 < size -> flowing s ->
  (incoming s = [] /\ recv size s = (Ok (0, []), s))
  \/ exists d s', d <> [] /\ 0 < zlen d <= size /\ recv size s = (Ok (zlen d, d), s')
       /\ flowing s' /\ List.concat (incoming s) = d ++ List.concat (incoming s')
       /\ s' = setIncoming (incoming s') s /\ pending s' + zlen d = pending s
       /\ (forall d0, incoming s = [d0] -> zlen d0 <= size -> d = d0 /\ incoming s' = [])
       /\ (forall d0 l0, incoming s = d0 :: l0 -> zlen d0 <= size -> d = d0 /\ incoming s' = l0).
Proof.
  intros Hs [Hc Hl]. unfold recv, pending. rewrite Hc. destruct (incoming s) as [|d l] eqn:El.
  { by left. }
  right. apply Forall_cons in Hl as [Hd Hl].
  assert (Hpos : 0 < zlen d) by (destruct d; [done|rewrite zlen_cons; zlia]).
  destruct (Z.leb_spec (zlen d) size).
  - exists d, (setIncoming l s). cbn [incoming setIncoming List.concat]. rewrite zlen_app.
    split_and!; (done || lia || (by split) || naive_solver).
  - set (d1 := take _ d) in *. set (d2 := drop _ d) in *. exists d1, (setIncoming (d2 :: l) s).
    assert (Hl1 : zlen d1 = size) by (unfold d1, zlen in *; rewrite length_take; lia).
    assert (Hl2 : zlen d2 = zlen d - size) by (unfold d2, zlen in *; rewrite length_drop; lia).
    cbn [incoming setIncoming List.concat]. rewrite !zlen_app.
    split_and!; try (done || lia).
    + intros E. rewrite E in Hl1. unfold zlen in *. cbn in *. lia.
    + split; [done|]. constructor; [|done]. intros E. rewrite E in Hl2. unfold zlen in *. cbn in *. lia.
    + rewrite app_assoc. unfold d1, d2. by rewrite take_drop.
    + intros d0 [= -> _]. lia.
    + intros d0 l0 [= -> _]. lia.
Qed.

(** One read into a queue. *)
Lemma readInto_flowing size s (q : bytes) :
  0 < size -> flowing s ->
  (incoming s = [] /\ readInto size (s, q) = (Ok 0, (s, q)))
  \/ exists d s', d <> [] /\ readInto size (s, q) = (Ok (zlen d), (s', q ++ d))
       /\ flowing s' /\ List.concat (incoming s) = d ++ List.concat (incoming s')
       /\ s' = setIncoming (incoming s') s.
Proof.
  intros Hs Hfl. pose proof (proj1 Hfl) as Hc.
  destruct (recv_flowing size s Hs Hfl) as [[Hnil E]|(d & s' & Hd & Hz & E & Hfl' & Hcc & Hs' & _)].
  - left. split; [done|]. by rewrite (readInto_queue _ _ _ _ _ _ Hc E).
  - right. exists d, s'. rewrite (readInto_queue _ _ _ _ _ _ Hc E), (proj2 (Z.ltb_lt _ _)) by lia. done.
Qed.

Lemma pending_concat s : pending s = zlen (List.concat (incoming s)).
Proof. done. Qed.

Lemma pending_setIncoming l s : pending (setIncoming l s) = zlen (List.concat l).
Proof. done. Qed.

Lemma flowing_empty s : flowing s -> pending s <= 0 -> incoming s = [].
Proof.
  intros [_ Hl] Hp. unfold pending in Hp. destruct (incoming s) as [|d l]; [done|].
  apply Forall_cons in Hl as [Hd _]. destruct d; [done|].
  cbn [List.concat] in Hp. rewrite zlen_app, zlen_cons in Hp. zlia.
Qed.
