(* ===== verification/HttpMessage.v ===== *)
(** * HTTP messages (src/reyao/http/http_request.*, http_response.* )

    Methods and status codes, the case-insensitive [std::map] of headers,
    parameters and cookies, the two message classes and their [dump]. *)

From S2P Require Import Prelude Util Endian ByteArray.

(** ** strcasecmp and the maps ordered by it *)

(** The C string a [std::string]'s [c_str()] denotes ends at the first NUL. *)
Fixpoint cstr (s : bytes) : bytes :=
  match s with
  | [] => []
  | c :: s => if decide (c = zeroc) then [] else c :: cstr s
  end.

Definition foldcase (s : bytes) : bytes := map tolower (cstr s).

Fixpoint lex (a b : bytes) : comparison :=
  match a, b with
  | [], [] => Eq
  | [], _ :: _ => Lt
  | _ :: _, [] => Gt
  | x :: a, y :: b => match code x ?= code y with Eq => lex a b | c => c end
  end.

(** [strcasecmp(a.c_str(), b.c_str())], as its sign. *)
Definition strcasecmp (a b : bytes) : comparison := lex (foldcase a) (foldcase b).

Definition same_key (a b : bytes) : bool :=
  match strcasecmp a b with Eq => true | _ => false end.

(** [std::map<std::string, std::string, CaseInsensitiveLess>]: its entries in
    iteration order. *)
Abbreviation StrMap := (list (bytes * bytes)).

(** [m[key] = val]: an entry with an equivalent key keeps its own key. *)
Fixpoint map_set (key val : bytes) (m : StrMap) : StrMap :=
  match m with
  | [] => [(key, val)]
  | (k, v) :: m' =>
      match strcasecmp key k with
      | Lt => (key, val) :: m
      | Eq => (k, val) :: m'
      | Gt => (k, v) :: map_set key val m'
      end
  end.

Fixpoint map_find (key : bytes) (m : StrMap) : option bytes :=
  match m with
  | [] => None
  | (k, v) :: m' =>
      match strcasecmp key k with Lt => None | Eq => Some v | Gt => map_find key m' end
  end.

Fixpoint map_erase (key : bytes) (m : StrMap) : StrMap :=
  match m with
  | [] => []
  | (k, v) :: m' =>
      match strcasecmp key k with Lt => m | Eq => m' | Gt => (k, v) :: map_erase key m' end
  end.

(** ** HttpMethod *)

Inductive HttpMethod := GET | HEAD | POST | INVALID_METHOD.

#[export] Instance HttpMethod_eq_dec : EqDecision HttpMethod.
Proof. solve_decision. Defined.

(** The enumerators' values. *)
Definition method_num (m : HttpMethod) : Z :=
  match m with GET => 1 | HEAD => 2 | POST => 3 | INVALID_METHOD => 4 end.

Definition s_method_string : list bytes := [bs "GET"; bs "HEAD"; bs "POST"].

Definition StringToHttpMethod (str : bytes) : HttpMethod :=
  let s := cstr str in
  if decide (bs "GET" = s) then GET
  else if decide (bs "HEAD" = s) then HEAD
  else if decide (bs "POST" = s) then POST
  else INVALID_METHOD.

Definition HttpMethodToString (m : HttpMethod) : bytes :=
  let method := method_num m in
  if 4 <=? method then bs "<unknown>"
  else nth (Z.to_nat (method - 1)) s_method_string [].

(** ** HttpStatus *)

Inductive HttpStatus :=
  OK | MOVED_PERMANENTLY | BAD_REQUEST | UNAUTHORIZED | NOT_FOUND | INTERNAL_SERVER_ERROR.

#[export] Instance HttpStatus_eq_dec : EqDecision HttpStatus.
Proof. solve_decision. Defined.

Definition status_num (s : HttpStatus) : Z :=
  match s with
  | OK => 200 | MOVED_PERMANENTLY => 301 | BAD_REQUEST => 400
  | UNAUTHORIZED => 401 | NOT_FOUND => 404 | INTERNAL_SERVER_ERROR => 500
  end.

Definition HttpStatusToString (s : HttpStatus) : bytes :=
  match s with
  | OK => bs "OK"
  | MOVED_PERMANENTLY => bs "Moved Permanently"
  | BAD_REQUEST => bs "Bad Request"
  | UNAUTHORIZED => bs "Unauthorized"
  | NOT_FOUND => bs "Not Found"
  | INTERNAL_SERVER_ERROR => bs "Internal Server Error"
  end.

Definition all_status : list HttpStatus :=
  [OK; MOVED_PERMANENTLY; BAD_REQUEST; UNAUTHORIZED; NOT_FOUND; INTERNAL_SERVER_ERROR].

(** [isHttpStatus(status)] and the conversion [(HttpStatus)status] after it. *)
Definition isHttpStatus (status : Z) : bool :=
  existsb (fun s => status_num s =? status) all_status.

Definition toHttpStatus (status : Z) : HttpStatus :=
  if status =? 200 then OK
  else if status =? 301 then MOVED_PERMANENTLY
  else if status =? 400 then BAD_REQUEST
  else if status =? 401 then UNAUTHORIZED
  else if status =? 404 then NOT_FOUND
  else INTERNAL_SERVER_ERROR.

(** ** HttpRequest *)

Module Request.
Record HttpRequest := {
  method_ : HttpMethod;
  version_ : Z;
  keepAlive_ : bool;
  path_ : bytes;
  query_ : bytes;
  fragment_ : bytes;
  body_ : bytes;
  headers_ : StrMap;
  params_ : StrMap;
  cookies_ : StrMap
}.

(** The constructor; [version] is a [uint8_t]. *)
Definition newRequest (version : Z) (keepAlive : bool) : HttpRequest :=
  {| method_ := GET; version_ := version; keepAlive_ := keepAlive; path_ := bs "/";
     query_ := []; fragment_ := []; body_ := []; headers_ := []; params_ := []; cookies_ := [] |}.

Definition setMethod (m : HttpMethod) (r : HttpRequest) : HttpRequest :=
  {| method_ := m; version_ := version_ r; keepAlive_ := keepAlive_ r; path_ := path_ r;
     query_ := query_ r; fragment_ := fragment_ r; body_ := body_ r; headers_ := headers_ r;
     params_ := params_ r; cookies_ := cookies_ r |}.
Definition setVersion (v : Z) (r : HttpRequest) : HttpRequest :=
  {| method_ := method_ r; version_ := v; keepAlive_ := keepAlive_ r; path_ := path_ r;
     query_ := query_ r; fragment_ := fragment_ r; body_ := body_ r; headers_ := headers_ r;
     params_ := params_ r; cookies_ := cookies_ r |}.
Definition setKeepAlive (b : bool) (r : HttpRequest) : HttpRequest :=
  {| method_ := method_ r; version_ := version_ r; keepAlive_ := b; path_ := path_ r;
     query_ := query_ r; fragment_ := fragment_ r; body_ := body_ r; headers_ := headers_ r;
     params_ := params_ r; cookies_ := cookies_ r |}.
Definition setPath (p : bytes) (r : HttpRequest) : HttpRequest :=
  {| method_ := method_ r; version_ := version_ r; keepAlive_ := keepAlive_ r; path_ := p;
     query_ := query_ r; fragment_ := fragment_ r; body_ := body_ r; headers_ := headers_ r;
     params_ := params_ r; cookies_ := cookies_ r |}.
Definition setQuery (q : bytes) (r : HttpRequest) : HttpRequest :=
  {| method_ := method_ r; version_ := version_ r; keepAlive_ := keepAlive_ r; path_ := path_ r;
     query_ := q; fragment_ := fragment_ r; body_ := body_ r; headers_ := headers_ r;
     params_ := params_ r; cookies_ := cookies_ r |}.
Definition setFragment (f : bytes) (r : HttpRequest) : HttpRequest :=
  {| method_ := method_ r; version_ := version_ r; keepAlive_ := keepAlive_ r; path_ := path_ r;
     query_ := query_ r; fragment_ := f; body_ := body_ r; headers_ := headers_ r;
     params_ := params_ r; cookies_ := cookies_ r |}.
Definition setBody (b : bytes) (r : HttpRequest) : HttpRequest :=
  {| method_ := method_ r; version_ := version_ r; keepAlive_ := keepAlive_ r; path_ := path_ r;
     query_ := query_ r; fragment_ := fragment_ r; body_ := b; headers_ := headers_ r;
     params_ := params_ r; cookies_ := cookies_ r |}.
Definition setHeaders (h : StrMap) (r : HttpRequest) : HttpRequest :=
  {| method_ := method_ r; version_ := version_ r; keepAlive_ := keepAlive_ r; path_ := path_ r;
     query_ := query_ r; fragment_ := fragment_ r; body_ := body_ r; headers_ := h;
     params_ := params_ r; cookies_ := cookies_ r |}.
Definition setParams (p : StrMap) (r : HttpRequest) : HttpRequest :=
  {| method_ := method_ r; version_ := version_ r; keepAlive_ := keepAlive_ r; path_ := path_ r;
     query_ := query_ r; fragment_ := fragment_ r; body_ := body_ r; headers_ := headers_ r;
     params_ := p; cookies_ := cookies_ r |}.
Definition setCookies (c : StrMap) (r : HttpRequest) : HttpRequest :=
  {| method_ := method_ r; version_ := version_ r; keepAlive_ := keepAlive_ r; path_ := path_ r;
     query_ := query_ r; fragment_ := fragment_ r; body_ := body_ r; headers_ := headers_ r;
     params_ := params_ r; cookies_ := c |}.

Definition getHeader (key : bytes) (r : HttpRequest) : bytes :=
  default (bs "header not found") (map_find key (headers_ r)).
Definition getParam (key : bytes) (r : HttpRequest) : bytes :=
  default (bs "param not found") (map_find key (params_ r)).
Definition getCookie (key : bytes) (r : HttpRequest) : bytes :=
  default (bs "cookie not found") (map_find key (cookies_ r)).

Definition addHeader (key val : bytes) (r : HttpRequest) : HttpRequest :=
  setHeaders (map_set key val (headers_ r)) r.
Definition addParam (key val : bytes) (r : HttpRequest) : HttpRequest :=
  setParams (map_set key val (params_ r)) r.
Definition addCookie (key val : bytes) (r : HttpRequest) : HttpRequest :=
  setCookies (map_set key val (cookies_ r)) r.

Definition delHeader (key : bytes) (r : HttpRequest) : HttpRequest :=
  setHeaders (map_erase key (headers_ r)) r.
Definition delParam (key : bytes) (r : HttpRequest) : HttpRequest :=
  setParams (map_erase key (params_ r)) r.
Definition delCookie (key : bytes) (r : HttpRequest) : HttpRequest :=
  setCookies (map_erase key (cookies_ r)) r.

Definition dump_header (h : bytes * bytes) : bytes :=
  if same_key (fst h) (bs "connection") then []
  else fst h ++ bs ": " ++ snd h ++ kCRLF.

(** [version_ >> 4] and [version_ & 0x0F]. *)
Definition dump_version (v : Z) : bytes :=
  bs "HTTP/" ++ dec (Z.shiftr v 4) ++ bs "." ++ dec (Z.land v 15).

Definition dump (r : HttpRequest) : bytes :=
  HttpMethodToString (method_ r) ++ bs " "
  ++ path_ r ++ (if decide (query_ r = []) then [] else bs "?")
  ++ query_ r ++ (if decide (fragment_ r = []) then [] else bs "#")
  ++ fragment_ r ++ bs " " ++ dump_version (version_ r) ++ kCRLF
  ++ bs "connection: " ++ (if keepAlive_ r then bs "keep-alive" else bs "close") ++ kCRLF
  ++ List.concat (map dump_header (headers_ r))
  ++ (if decide (body_ r = []) then kCRLF
      else bs "content-length: " ++ dec (zlen (body_ r)) ++ kCRLF ++ kCRLF ++ body_ r).

Definition toString (r : HttpRequest) : bytes := dump r.
End Request.

(** ** HttpResponse *)

Module Response.
Record HttpResponse := {
  status_ : HttpStatus;
  version_ : Z;
  keepAlive_ : bool;
  body_ : bytes;
  reason_ : bytes;
  headers_ : StrMap
}.

Definition newResponse (version : Z) (keepAlive : bool) : HttpResponse :=
  {| status_ := OK; version_ := version; keepAlive_ := keepAlive; body_ := []; reason_ := [];
     headers_ := [] |}.

Definition setStatus (s : HttpStatus) (r : HttpResponse) : HttpResponse :=
  {| status_ := s; version_ := version_ r; keepAlive_ := keepAlive_ r; body_ := body_ r;
     reason_ := reason_ r; headers_ := headers_ r |}.
Definition setVersion (v : Z) (r : HttpResponse) : HttpResponse :=
  {| status_ := status_ r; version_ := v; keepAlive_ := keepAlive_ r; body_ := body_ r;
     reason_ := reason_ r; headers_ := headers_ r |}.
Definition setKeepAlive (b : bool) (r : HttpResponse) : HttpResponse :=
  {| status_ := status_ r; version_ := version_ r; keepAlive_ := b; body_ := body_ r;
     reason_ := reason_ r; headers_ := headers_ r |}.
Definition setBody (b : bytes) (r : HttpResponse) : HttpResponse :=
  {| status_ := status_ r; version_ := version_ r; keepAlive_ := keepAlive_ r; body_ := b;
     reason_ := reason_ r; headers_ := headers_ r |}.
Definition setReason (x : bytes) (r : HttpResponse) : HttpResponse :=
  {| status_ := status_ r; version_ := version_ r; keepAlive_ := keepAlive_ r; body_ := body_ r;
     reason_ := x; headers_ := headers_ r |}.
Definition setHeaders (h : StrMap) (r : HttpResponse) : HttpResponse :=
  {| status_ := status_ r; version_ := version_ r; keepAlive_ := keepAlive_ r; body_ := body_ r;
     reason_ := reason_ r; headers_ := h |}.

Definition getHeader (key : bytes) (r : HttpResponse) : bytes :=
  default (bs "header not found") (map_find key (headers_ r)).
Definition addHeader (key val : bytes) (r : HttpResponse) : HttpResponse :=
  setHeaders (map_set key val (headers_ r)) r.
Definition delHeader (key : bytes) (r : HttpResponse) : HttpResponse :=
  setHeaders (map_erase key (headers_ r)) r.

Definition dump (r : HttpResponse) : bytes :=
  Request.dump_version (version_ r) ++ bs " " ++ dec (status_num (status_ r)) ++ bs " "
  ++ (if decide (reason_ r = []) then HttpStatusToString (status_ r) else reason_ r) ++ kCRLF
  ++ bs "Connection: " ++ (if keepAlive_ r then bs "Keep-Alive" else bs "Close") ++ kCRLF
  ++ List.concat (map Request.dump_header (headers_ r))
  ++ (if decide (body_ r = []) then kCRLF
      else bs "Content-Length: " ++ dec (zlen (body_ r)) ++ kCRLF ++ kCRLF ++ body_ r).

Definition toString (r : HttpResponse) : bytes := dump r.
End Response.

(** ** Methods and statuses *)

(** Every method has its own name, and reading a method's name gives the
    method back; what is not a method's name reads as [INVALID_METHOD], which
    prints as "<unknown>". *)
Theorem method_names :
  (forall m, m <> INVALID_METHOD -> StringToHttpMethod (HttpMethodToString m) = m)
  /\ (forall s m, m <> INVALID_METHOD ->
        StringToHttpMethod s = m <-> cstr s = HttpMethodToString m)
  /\ (forall s, StringToHttpMethod s = INVALID_METHOD <->
        cstr s <> bs "GET" /\ cstr s <> bs "HEAD" /\ cstr s <> bs "POST")
  /\ HttpMethodToString INVALID_METHOD = bs "<unknown>".
Proof.
  split; [by intros []|]. split; [|split; [|done]].
  - intros s m Hm. unfold StringToHttpMethod. generalize (cstr s). intros c.
    destruct m; try done; unfold HttpMethodToString; cbn;
      repeat case_decide; subst; split; intros; try done; try by subst.
  - intros s. unfold StringToHttpMethod. generalize (cstr s). intros c.
    repeat case_decide; subst; naive_solver.
Qed.

(** ** The maps *)

#[global] Arguments foldcase : simpl never.

Lemma lex_refl a : lex a a = Eq.
Proof. induction a as [|x a IH]; cbn; [done|]. by rewrite Z.compare_refl. Qed.

Lemma code_inj c d : code c = code d -> c = d.
Proof. intros E. by rewrite <- (chr_code c), <- (chr_code d), E. Qed.

Lemma lex_eq a b : lex a b = Eq <-> a = b.
Proof.
  split; [|intros ->; apply lex_refl].
  revert b. induction a as [|x a IH]; intros [|y b]; cbn; try done.
  destruct (Z.compare_spec (code x) (code y)) as [E|E|E]; try done.
  intros H. by rewrite (code_inj _ _ E), (IH b H).
Qed.

Lemma lex_antisym a b : lex b a = CompOpp (lex a b).
Proof.
  revert b. induction a as [|x a IH]; intros [|y b]; cbn; try done.
  rewrite (Z.compare_antisym (code x)). destruct (code x ?= code y); cbn; [apply IH|done..].
Qed.

Lemma lex_trans a b c : lex a b = Lt -> lex b c = Lt -> lex a c = Lt.
Proof.
  revert b c. induction a as [|x a IH]; intros [|y b] [|z c]; cbn; try done.
  destruct (Z.compare_spec (code x) (code y)) as [E1|E1|E1],
    (Z.compare_spec (code y) (code z)) as [E2|E2|E2]; try done; intros H1 H2;
    destruct (Z.compare_spec (code x) (code z)) as [E3|E3|E3]; try lia; try done.
  by eapply IH.
Qed.

Lemma same_key_spec a b : same_key a b = true <-> foldcase a = foldcase b.
Proof.
  unfold same_key, strcasecmp. rewrite <- lex_eq. by destruct (lex _ _).
Qed.

(** The order of the entries. *)
Definition sorted (m : StrMap) : Prop :=
  StronglySorted (fun a b => strcasecmp (fst a) (fst b) = Lt) m.

(** The map the entries stand for: folded names to values. *)
Definition as_map (m : StrMap) : gmap bytes bytes :=
  list_to_map (map (fun e => (foldcase (fst e), snd e)) m).

Lemma as_map_cons k v m : as_map ((k, v) :: m) = <[foldcase k := v]> (as_map m).
Proof. done. Qed.

Lemma as_map_above key m :
  Forall (fun e => lex (foldcase key) (foldcase (fst e)) = Lt) m -> as_map m !! foldcase key = None.
Proof.
  intros Hm. apply not_elem_of_list_to_map_1. rewrite <- list_fmap_compose.
  intros (e & E & He)%list_elem_of_fmap. rewrite Forall_forall in Hm. apply Hm in He.
  cbn in E. rewrite E, lex_refl in He. done.
Qed.

Lemma sorted_above key e m :
  sorted (e :: m) -> lex (foldcase key) (foldcase (fst e)) = Lt ->
  Forall (fun e => lex (foldcase key) (foldcase (fst e)) = Lt) (e :: m).
Proof.
  intros [_ Hm]%StronglySorted_inv Hk. constructor; [done|].
  eapply Forall_impl; [exact Hm|]. cbn. intros f. unfold strcasecmp. by apply lex_trans.
Qed.

Lemma map_find_spec key m : sorted m -> map_find key m = as_map m !! foldcase key.
Proof.
  induction m as [|[k v] m IH]; intros Hm; [done|].
  pose proof (StronglySorted_inv Hm) as [Hm' Hk]. cbn [map_find]. unfold strcasecmp.
  destruct (lex (foldcase key) (foldcase k)) eqn:E.
  - apply lex_eq in E. cbn. by rewrite E, lookup_insert_eq.
  - rewrite as_map_above; [done|]. by apply sorted_above.
  - cbn. rewrite lookup_insert_ne; [by apply IH|]. intros H. by rewrite H, lex_refl in E.
Qed.

Lemma map_set_spec key val m :
  sorted m -> sorted (map_set key val m)
    /\ as_map (map_set key val m) = <[foldcase key := val]> (as_map m)
    /\ (forall P : bytes * bytes -> Prop, (forall v, P (key, v)) -> 
         (forall k v w, P (k, v) -> P (k, w)) -> Forall P m -> Forall P (map_set key val m)).
Proof.
  induction m as [|[k v] m IH]; intros Hm.
  { split; [repeat constructor|]. split; [done|]. intros P HP _ _. by repeat constructor. }
  pose proof (StronglySorted_inv Hm) as [Hm' Hk]. cbn [map_set].
  destruct (strcasecmp key k) eqn:E; unfold strcasecmp in E.
  - apply lex_eq in E. split; [|split].
    + constructor; [done|]. exact Hk.
    + cbn. by rewrite E, insert_insert_eq.
    + intros P HP HPP HF. apply Forall_cons in HF as [H1 H2]. constructor; eauto.
  - split; [|split; [done|intros P HP _ HF; by constructor]].
    constructor; [done|]. by apply (sorted_above key (k, v) m).
  - destruct (IH Hm') as (H1 & H2 & H3). split; [|split].
    + constructor; [done|]. apply H3; cbn; [|done|done].
      intros _. unfold strcasecmp. by rewrite lex_antisym, E.
    + rewrite !as_map_cons, H2. apply insert_insert_ne. intros H. by rewrite H, lex_refl in E.
    + intros P HP HPP HF. apply Forall_cons in HF as [? ?]. constructor; [done|by apply H3].
Qed.

Lemma map_erase_spec key m :
  sorted m -> sorted (map_erase key m)
    /\ as_map (map_erase key m) = delete (foldcase key) (as_map m)
    /\ (forall P : bytes * bytes -> Prop, Forall P m -> Forall P (map_erase key m)).
Proof.
  induction m as [|[k v] m IH]; intros Hm.
  { split; [done|]. split; [|done]. cbn. by rewrite delete_empty. }
  pose proof (StronglySorted_inv Hm) as [Hm' Hk]. cbn [map_erase].
  destruct (strcasecmp key k) eqn:E; unfold strcasecmp in E.
  - apply lex_eq in E. split; [done|]. split.
    + cbn. rewrite E. rewrite delete_insert_eq, delete_id; [done|].
      apply as_map_above. exact Hk.
    + by intros P [? ?]%Forall_cons.
  - split; [done|]. split; [|done]. rewrite delete_id; [done|].
    apply as_map_above. by apply sorted_above.
  - destruct (IH Hm') as (H1 & H2 & H3). split; [|split].
    + constructor; [done|]. by apply H3.
    + rewrite !as_map_cons, H2, delete_insert_ne; [done|]. intros H. by rewrite H, lex_refl in E.
    + intros P [? ?]%Forall_cons. constructor; [done|by apply H3].
Qed.

(** The calls on a header, parameter or cookie map. *)
Inductive mapop := MSet (key val : bytes) | MErase (key : bytes).

Definition run_mapop (m : StrMap) (o : mapop) : StrMap :=
  match o with MSet k v => map_set k v m | MErase k => map_erase k m end.

(** What they promise, on a finite map keyed by the case-folded name. *)
Definition run_spec (g : gmap bytes bytes) (o : mapop) : gmap bytes bytes :=
  match o with MSet k v => <[foldcase k := v]> g | MErase k => delete (foldcase k) g end.

(** C27: the header, parameter and cookie maps are case-insensitive finite
    maps: after any sequence of [addX] and [delX] calls the entries are in
    the order of their folded names, without duplicates, and [find] answers
    as the finite map built by the same calls. *)
Theorem strmap_refines_map ops key :
  let m := foldl run_mapop [] ops in
  sorted m /\ map_find key m = foldl run_spec ∅ ops !! foldcase key.
Proof.
  assert (H : forall m g, sorted m -> as_map m = g ->
            sorted (foldl run_mapop m ops) /\ as_map (foldl run_mapop m ops) = foldl run_spec g ops).
  { induction ops as [|o ops IH]; intros m g Hm Hg; [done|]. cbn [foldl]. apply IH.
    - destruct o; cbn; [by apply map_set_spec|by apply map_erase_spec].
    - subst g. destruct o; cbn; [by apply map_set_spec|by apply map_erase_spec]. }
  destruct (H [] ∅) as [Hs Hg]; [constructor|done|].
  cbv zeta. split; [done|]. by rewrite map_find_spec, Hg.
Qed.
