(* ===== verification/HttpParser.v ===== *)
(** * HTTP parsing (src/reyao/http/http_parser.h, src/reyao/http/http_parser.cc)

    The incremental request and response parsers.  The two classes differ in
    their first line and in the message they fill; what they share is written
    once, over the virtual [parseFirstLine] and the message's setters.  The
    parser is also written once over its buffer: run with a [ByteArray] it is
    the code, run with a queue of bytes it is the specification. *)

From S2P Require Import Prelude Util Endian ByteArray SocketStream HttpMessage.

(** [std::find(begin, end, c) - begin] *)
Fixpoint find_char (c : ascii) (l : bytes) : nat :=
  match l with
  | [] => O
  | d :: l => if decide (d = c) then O else S (find_char c l)
  end.

Inductive ParseState := PARSE_FIRST_LINE | PARSE_HEADER | PARSE_BODY.
Inductive ParseChunkState := PARSE_CHUNK_SIZE | PARSE_CHUNK_CONTENT.

Definition chunk_state_num (s : ParseChunkState) : Z :=
  match s with PARSE_CHUNK_SIZE => 0 | PARSE_CHUNK_CONTENT => 1 end.

(** The fields of [HttpParser] but the stream and the buffer, and the message. *)
Record Core (R : Type) := {
  readSize_ : Z;
  parseState_ : ParseState;
  error_ : bool;
  finish_ : bool;
  body_ : bytes;
  contentLen_ : Z;
  chunked_ : bool;
  chunkSize_ : Z;
  chunkState_ : ParseChunkState;
  msg_ : R
}.
Arguments readSize_ {R}. Arguments parseState_ {R}. Arguments error_ {R}. Arguments finish_ {R}.
Arguments body_ {R}. Arguments contentLen_ {R}. Arguments chunked_ {R}. Arguments chunkSize_ {R}.
Arguments chunkState_ {R}. Arguments msg_ {R}.

Definition newCore {R} (msg : R) : Core R :=
  {| readSize_ := 0; parseState_ := PARSE_FIRST_LINE; error_ := false; finish_ := false;
     body_ := []; contentLen_ := 0; chunked_ := false; chunkSize_ := 0;
     chunkState_ := PARSE_CHUNK_SIZE; msg_ := msg |}.

Section Setters.
Context {R : Type}.
Implicit Types c : Core R.
Definition setParseState x c : Core R :=
  {| readSize_ := readSize_ c; parseState_ := x; error_ := error_ c; finish_ := finish_ c;
     body_ := body_ c; contentLen_ := contentLen_ c; chunked_ := chunked_ c;
     chunkSize_ := chunkSize_ c; chunkState_ := chunkState_ c; msg_ := msg_ c |}.
Definition setError x c : Core R :=
  {| readSize_ := readSize_ c; parseState_ := parseState_ c; error_ := x; finish_ := finish_ c;
     body_ := body_ c; contentLen_ := contentLen_ c; chunked_ := chunked_ c;
     chunkSize_ := chunkSize_ c; chunkState_ := chunkState_ c; msg_ := msg_ c |}.
Definition setFinish x c : Core R :=
  {| readSize_ := readSize_ c; parseState_ := parseState_ c; error_ := error_ c; finish_ := x;
     body_ := body_ c; contentLen_ := contentLen_ c; chunked_ := chunked_ c;
     chunkSize_ := chunkSize_ c; chunkState_ := chunkState_ c; msg_ := msg_ c |}.
Definition setContentLen x c : Core R :=
  {| readSize_ := readSize_ c; parseState_ := parseState_ c; error_ := error_ c;
     finish_ := finish_ c; body_ := body_ c; contentLen_ := x; chunked_ := chunked_ c;
     chunkSize_ := chunkSize_ c; chunkState_ := chunkState_ c; msg_ := msg_ c |}.
Definition setChunked x c : Core R :=
  {| readSize_ := readSize_ c; parseState_ := parseState_ c; error_ := error_ c;
     finish_ := finish_ c; body_ := body_ c; contentLen_ := contentLen_ c; chunked_ := x;
     chunkSize_ := chunkSize_ c; chunkState_ := chunkState_ c; msg_ := msg_ c |}.
Definition setChunk size state c : Core R :=
  {| readSize_ := readSize_ c; parseState_ := parseState_ c; error_ := error_ c;
     finish_ := finish_ c; body_ := body_ c; contentLen_ := contentLen_ c; chunked_ := chunked_ c;
     chunkSize_ := size; chunkState_ := state; msg_ := msg_ c |}.
Definition appendBody x c : Core R :=
  {| readSize_ := readSize_ c; parseState_ := parseState_ c; error_ := error_ c;
     finish_ := finish_ c; body_ := body_ c ++ x; contentLen_ := contentLen_ c;
     chunked_ := chunked_ c; chunkSize_ := chunkSize_ c; chunkState_ := chunkState_ c;
     msg_ := msg_ c |}.
Definition onMsg (f : R -> R) c : Core R :=
  {| readSize_ := readSize_ c; parseState_ := parseState_ c; error_ := error_ c;
     finish_ := finish_ c; body_ := body_ c; contentLen_ := contentLen_ c; chunked_ := chunked_ c;
     chunkSize_ := chunkSize_ c; chunkState_ := chunkState_ c; msg_ := f (msg_ c) |}.
End Setters.

(** ** The buffer a parser works on *)

Class Buffer (B : Type) := {
  (** [peek], [findCRLF] and, when a line is complete, [setReadPos] behind it:
      the characters from [start] to [end]. *)
  takeLine : M B (option bytes);
  readable : B -> Z;
  (** [std::string(peek(), n)] and [setReadPos(getReadPos() + n)] *)
  takeBytes : Z -> M B bytes
}.

Definition lineOfArray : M ByteArray (option bytes) := fun b =>
  match findCRLF b with
  | None => (Ok None, b)
  | Some finish =>
      let start := peek b in
      (Ok (Some (text b start finish)), setReadPos (u64 (readPos_ b + (finish - start) + 2)) b)
  end.

Definition bytesOfArray (n : Z) : M ByteArray bytes := fun b =>
  if readPos_ b + n <=? zlen (buf_ b)
  then (Ok (slice (readPos_ b) (readPos_ b + n) (buf_ b)), setReadPos (u64 (readPos_ b + n)) b)
  else (Throw Undefined, b).

#[export] Instance bufferByteArray : Buffer ByteArray := {
  takeLine := lineOfArray;
  readable := getReadSize;
  takeBytes := bytesOfArray
}.

#[export] Instance bufferQueue : Buffer bytes := {
  takeLine q :=
    match searchCRLF q with
    | None => (Ok None, q)
    | Some n => (Ok (Some (take (Z.to_nat n) q)), drop (Z.to_nat (n + 2)) q)
    end;
  readable := zlen;
  takeBytes n q := (Ok (take (Z.to_nat n) q), drop (Z.to_nat n) q)
}.

(** ** The shared parser *)

(** What a parser class provides: its virtual [parseFirstLine], the setters
    of its message, and its buffer limit. *)
Class ParserClass (R : Type) := {
  parseFirstLine : bytes -> M (Core R) unit;
  addHeader : bytes -> bytes -> R -> R;
  setBody : bytes -> R -> R;
  s_maxBufferSize : Z
}.

Section Parser.
Context {R : Type} `{ParserClass R}.

(** [line] is [begin .. end); the character behind it is the CR of the CRLF. *)
Definition parseHeader (line : bytes) : M (Core R) unit :=
  if decide (head (line ++ kCRLF) = Some CR) then modify (setParseState PARSE_BODY)
  else
    let temp := Z.of_nat (find_char ":"%char line) in
    let finish := zlen line in
    if negb (temp =? finish) && negb (temp + 2 =? finish) then
      let title := take (Z.to_nat temp) line in
      (* [std::string(temp + 2, end - temp - 2)]: the length is a [size_t] *)
      check (u64 (finish - temp - 2) <=? string_max_size) LengthError ;;;
      let value := drop (Z.to_nat (temp + 2)) line in
      (if same_key title (bs "transfer-encoding") && same_key value (bs "chunked")
       then modify (setChunked true) else ret tt) ;;;
      c <-- gets id ;;
      (if negb (chunked_ c) && same_key title (bs "content-length")
       then match stoi value with
            | Ok n => modify (setContentLen (u64 n))
            | Throw e => throw e
            end
       else ret tt) ;;;
      modify (onMsg (addHeader title value))
    else modify (setError true).

Section Over_buffer.
Context {K : Type} `{Conn K} {B : Type} `{Buffer B} `{Fill B}.

(** The parser object: the socket and the buffer, and the rest. *)
Abbreviation Parser := ((K * B) * Core R)%type.

Definition onCore {A} (m : M (Core R) A) : M Parser A := zoom snd (fun c p => (fst p, c)) m.
Definition onBa {A} (m : M B A) : M Parser A :=
  zoom (fun p => snd (fst p)) (fun b p => ((fst (fst p), b), snd p)) m.
Definition core {A} (f : Core R -> A) : M Parser A := gets (fun p => f (snd p)).

(** The loop of [parseChunkedBody].  It compares [chunkSize_] with
    [PARSE_CHUNK_SIZE]. *)
Fixpoint parseChunked (fuel : nat) : M Parser unit :=
  match fuel with
  | O => throw NoFuel
  | S fuel =>
      c <-- core id ;;
      if error_ c then ret tt
      else if chunkSize_ c =? chunk_state_num PARSE_CHUNK_SIZE then
        line <-- onBa takeLine ;;
        match line with
        | None => ret tt
        | Some hex =>
            let size := u64 (HexToDec hex) in
            onCore (modify (setChunk size (chunkState_ c))) ;;;
            if size =? u64 (-1) then onCore (modify (setError true))
            else if size =? 0 then
              onCore (modify (fun c => setFinish true (onMsg (setBody (body_ c)) c)))
            else onCore (modify (setChunk size PARSE_CHUNK_CONTENT)) ;;; parseChunked fuel
        end
      else
        match chunkState_ c with
        | PARSE_CHUNK_CONTENT =>
            n <-- gets (fun p => readable (snd (fst p))) ;;
            if u64 (chunkSize_ c + 2) <=? n then
              content <-- onBa (takeBytes (u64 (chunkSize_ c + 2))) ;;
              onCore (modify (fun c => setChunk 0 PARSE_CHUNK_SIZE (appendBody content c))) ;;;
              parseChunked fuel
            else ret tt
        | PARSE_CHUNK_SIZE => parseChunked fuel
        end
  end.

(** Two rounds per line that the buffer may hold. *)
Definition parseChunkedBody : M Parser unit :=
  n <-- gets (fun p => readable (snd (fst p))) ;;
  parseChunked (Z.to_nat (2 * n + 2)).

Definition parseFixedBody : M Parser unit :=
  c <-- core id ;;
  if contentLen_ c =? 0 then onCore (modify (setFinish true))
  else
    n <-- gets (fun p => readable (snd (fst p))) ;;
    if contentLen_ c <=? n then
      body <-- onBa (takeBytes (contentLen_ c)) ;;
      onCore (modify (fun c => setFinish true (onMsg (setBody body) c)))
    else ret tt.

(** [while (!error_) { ... }] over the buffered bytes. *)
Fixpoint parseBuffered (fuel : nat) : M Parser unit :=
  match fuel with
  | O => throw NoFuel
  | S fuel =>
      c <-- core id ;;
      if error_ c then ret tt
      else
        match parseState_ c with
        | PARSE_FIRST_LINE =>
            line <-- onBa takeLine ;;
            match line with
            | None => ret tt
            | Some line => onCore (parseFirstLine line) ;;; parseBuffered fuel
            end
        | PARSE_HEADER =>
            line <-- onBa takeLine ;;
            match line with
            | None => ret tt
            | Some line => onCore (parseHeader line) ;;; parseBuffered fuel
            end
        | PARSE_BODY =>
            (if negb (chunked_ c) && (contentLen_ c =? 0)
             then onCore (modify (setFinish true)) else ret tt) ;;;
            if chunked_ c then parseChunkedBody else parseFixedBody
        end
  end.

Definition drain : M Parser unit :=
  n <-- gets (fun p => readable (snd (fst p))) ;;
  parseBuffered (Z.to_nat (n + 2)).

(** [while (!finish_ && !error_) { ... }]: one round per [read]. *)
Fixpoint parseLoop (fuel : nat) : M Parser bool :=
  match fuel with
  | O => throw NoFuel
  | S fuel =>
      c <-- core id ;;
      if negb (finish_ c) && negb (error_ c) then
        if readSize_ c =? s_maxBufferSize then ret false
        else
          len <-- zoom fst (fun sb p => (sb, snd p)) (readInto s_maxBufferSize) ;;
          if len <=? 0 then ret false
          else drain ;;; parseLoop fuel
      else ret (negb (error_ c))
  end.

(** Every round but the last takes at least one byte off the stream. *)
Definition parse : M Parser bool :=
  n <-- gets (fun p => toCome (fst (fst p))) ;;
  parseLoop (Z.to_nat (n + 2)).
End Over_buffer.
End Parser.

(** ** HttpRequestParser *)

Definition s_maxReqBufferSize : Z := 4 * 1024.
Definition s_maxResBufferSize : Z := 64 * 1024 * 1024.

Module RequestParser.
Import Request.

(** [parseURI(begin, end, des)] on the characters of the range: what is left
    of it, up to the delimiter. *)
Definition parseURI (target : bytes) (des : ascii) : M (Core HttpRequest) bytes :=
  let temp := find_char des target in
  (if decide (temp = length target) then ret tt
   else if decide (des = "#"%char) then modify (onMsg (setFragment (drop (S temp) target)))
   else if decide (des = "?"%char) then modify (onMsg (setQuery (drop (S temp) target)))
   else if decide (des = "/"%char) then modify (onMsg (setPath (drop temp target)))
   else ret tt) ;;;
  ret (take temp target).

Definition parseFirstLine (line : bytes) : M (Core HttpRequest) unit :=
  let space := find_char " "%char line in
  if decide (space = length line) then modify (setError true)
  else
    modify (onMsg (setMethod (StringToHttpMethod (take space line)))) ;;;
    let rest := drop (S space) line in
    let space := find_char " "%char rest in
    if decide (space = length rest) then modify (setError true)
    else
      let version := drop (S space) rest in
      let uri := take space rest in
      let go :=
        let slash := find_char "/"%char uri in
        if decide (slash = length uri) then modify (setError true)
        else
          t <-- parseURI (drop slash uri) "#"%char ;;
          t <-- parseURI t "?"%char ;;
          parseURI t "/"%char ;;;
          modify (setParseState PARSE_HEADER) in
      if decide (version = bs "HTTP/1.0") then modify (onMsg (setVersion 16)) ;;; go
      else if decide (version = bs "HTTP/1.1") then modify (onMsg (setVersion 17)) ;;; go
      else modify (setError true).

#[global] Instance parser : ParserClass HttpRequest := {
  HttpParser.parseFirstLine := parseFirstLine;
  HttpParser.addHeader := Request.addHeader;
  HttpParser.setBody := Request.setBody;
  s_maxBufferSize := s_maxReqBufferSize
}.

(** The virtual members, as this class has them. *)
Definition parseHeader : bytes -> M (Core HttpRequest) unit := HttpParser.parseHeader.
Section Parser.
Context {K : Type} `{Conn K}.

Definition parseChunkedBody : M ((K * ByteArray) * Core HttpRequest) unit :=
  HttpParser.parseChunkedBody.
Definition parseFixedBody : M ((K * ByteArray) * Core HttpRequest) unit :=
  HttpParser.parseFixedBody.
Definition parseRequest : M ((K * ByteArray) * Core HttpRequest) bool := HttpParser.parse.

(** A new parser on a stream. *)
Definition newParser (s : K) (r : HttpRequest) : (K * ByteArray) * Core HttpRequest :=
  ((s, newByteArray kInitSize), newCore r).
End Parser.
End RequestParser.

(** ** HttpResponseParser *)

Module ResponseParser.
Import Response.

Definition parseFirstLine (line : bytes) : M (Core HttpResponse) unit :=
  let space := find_char " "%char line in
  if decide (space = length line) then modify (setError true)
  else
    let version := take space line in
    let go :=
      let rest := drop (S space) line in
      let space := find_char " "%char rest in
      if decide (space = length rest) then modify (setError true)
      else
        match stoi (take space rest) with
        | Throw e => throw e
        | Ok status_code =>
            if negb (isHttpStatus status_code) then modify (setError true)
            else
              modify (onMsg (setStatus (toHttpStatus status_code))) ;;;
              modify (onMsg (setReason (drop space rest))) ;;;
              modify (setParseState PARSE_HEADER)
        end in
    if decide (version = bs "HTTP/1.0") then modify (onMsg (setVersion 16)) ;;; go
    else if decide (version = bs "HTTP/1.1") then modify (onMsg (setVersion 17)) ;;; go
    else modify (setError true).

#[global] Instance parser : ParserClass HttpResponse := {
  HttpParser.parseFirstLine := parseFirstLine;
  HttpParser.addHeader := Response.addHeader;
  HttpParser.setBody := Response.setBody;
  s_maxBufferSize := s_maxResBufferSize
}.

Definition parseHeader : bytes -> M (Core HttpResponse) unit := HttpParser.parseHeader.
Section Parser.
Context {K : Type} `{Conn K}.

Definition parseChunkedBody : M ((K * ByteArray) * Core HttpResponse) unit :=
  HttpParser.parseChunkedBody.
Definition parseFixedBody : M ((K * ByteArray) * Core HttpResponse) unit :=
  HttpParser.parseFixedBody.
Definition parseResponse : M ((K * ByteArray) * Core HttpResponse) bool := HttpParser.parse.

Definition newParser (s : K) (r : HttpResponse) : (K * ByteArray) * Core HttpResponse :=
  ((s, newByteArray kInitSize), newCore r).
End Parser.
End ResponseParser.

(** ** The machine the parser implements

    One round of the parsing loops on the buffered bytes [q], as a function;
    [None]: the parser has stopped, or waits for more bytes. *)
Section Machine.
Context {R : Type} `{ParserClass R}.

Definition lineStep (parse : bytes -> M (Core R) unit) (c : Core R) (q : bytes)
    : option (result unit * Core R * bytes) :=
  match searchCRLF q with
  | None => None
  | Some n => Some (parse (take (Z.to_nat n) q) c, drop (Z.to_nat (n + 2)) q)
  end.

(** A chunk-size line. *)
Definition parseChunkSize (hex : bytes) : M (Core R) unit := modify (fun c =>
  let size := u64 (HexToDec hex) in
  if size =? u64 (-1) then setError true (setChunk size (chunkState_ c) c)
  else if size =? 0 then setFinish true (onMsg (setBody (body_ c)) (setChunk size (chunkState_ c) c))
  else setChunk size PARSE_CHUNK_CONTENT c).

Definition step (c : Core R) (q : bytes) : option (result unit * Core R * bytes) :=
  if error_ c || finish_ c then None
  else
    match parseState_ c with
    | PARSE_FIRST_LINE => lineStep parseFirstLine c q
    | PARSE_HEADER => lineStep parseHeader c q
    | PARSE_BODY =>
        if chunked_ c then
          if chunkSize_ c =? 0 then lineStep parseChunkSize c q
          else if u64 (chunkSize_ c + 2) <=? zlen q then
            let n := Z.to_nat (u64 (chunkSize_ c + 2)) in
            Some (Ok tt, setChunk 0 PARSE_CHUNK_SIZE (appendBody (take n q) c), drop n q)
          else None
        else if contentLen_ c =? 0 then Some (Ok tt, setFinish true c, q)
        else if contentLen_ c <=? zlen q then
          let n := Z.to_nat (contentLen_ c) in
          Some (Ok tt, setFinish true (onMsg (setBody (take n q)) c), drop n q)
        else None
    end.

(** Rounds until the parser stops or an exception leaves it. *)
Inductive runs : Core R -> bytes -> result unit -> Core R -> bytes -> Prop :=
| runs_stop c q : step c q = None -> runs c q (Ok tt) c q
| runs_throw c q e c' q' : step c q = Some (Throw e, c', q') -> runs c q (Throw e) c' q'
| runs_step c q c1 q1 r c' q' :
    step c q = Some (Ok tt, c1, q1) -> runs c1 q1 r c' q' -> runs c q r c' q'.

(** What [parseRequest] makes of the way the machine ends on all the bytes
    the peer sends. *)
Definition verdict (r : result unit) (c : Core R) : result bool :=
  match r with Throw e => Throw e | Ok _ => Ok (finish_ c && negb (error_ c)) end.

(** *** Lines *)

Lemma searchCRLF_app q x n : searchCRLF q = Some n -> searchCRLF (q ++ x) = Some n.
Proof.
  revert n. induction q as [|c q IH]; intros n; [done|].
  cbn [searchCRLF app]. destruct q as [|d q]; [done|].
  cbn [app]. case_decide; [done|]. destruct (searchCRLF (d :: q)) as [m|]; [|done].
  cbn [fmap option_fmap option_map] in *. intros [= <-]. specialize (IH m eq_refl). cbn [app] in IH.
  by rewrite IH.
Qed.

Lemma searchCRLF_range q n : searchCRLF q = Some n -> 0 <= n /\ n + 2 <= zlen q.
Proof.
  revert n. induction q as [|c q IH]; intros n; [done|].
  cbn [searchCRLF]. destruct q as [|d q]; [done|]. rewrite zlen_cons.
  case_decide; [intros [= <-]; rewrite zlen_cons; zlia|].
  destruct (searchCRLF (d :: q)) as [m|]; [|done]. cbn. intros [= <-].
  specialize (IH m eq_refl). lia.
Qed.

Lemma take_app_Z {A} n (q x : list A) : n <= zlen q -> take (Z.to_nat n) (q ++ x) = take (Z.to_nat n) q.
Proof. intros. apply take_app_le. unfold zlen in *. lia. Qed.

Lemma drop_app_Z {A} n (q x : list A) :
  n <= zlen q -> drop (Z.to_nat n) (q ++ x) = drop (Z.to_nat n) q ++ x.
Proof. intros. apply drop_app_le. unfold zlen in *. lia. Qed.

Lemma zlen_drop {A} n (q : list A) : 0 <= n <= zlen q -> zlen (drop (Z.to_nat n) q) = zlen q - n.
Proof. unfold zlen. intros. rewrite length_drop. lia. Qed.

Lemma lineStep_app f c q x r c' q' :
  lineStep f c q = Some (r, c', q') -> lineStep f c (q ++ x) = Some (r, c', q' ++ x).
Proof.
  unfold lineStep. destruct (searchCRLF q) as [n|] eqn:E; [|done]. intros [= Ef <-].
  rewrite (searchCRLF_app _ _ _ E). apply searchCRLF_range in E as [? ?].
  rewrite take_app_Z, drop_app_Z by lia. by rewrite Ef.
Qed.

(** More bytes do not change a round that was possible without them. *)
Lemma step_app c q x r c' q' :
  step c q = Some (r, c', q') -> step c (q ++ x) = Some (r, c', q' ++ x).
Proof.
  unfold step. destruct (error_ c || finish_ c); [done|].
  destruct (parseState_ c); [apply lineStep_app..|].
  pose proof (zlen_nonneg x). destruct (chunked_ c).
  - destruct (chunkSize_ c =? 0); [apply lineStep_app|].
    destruct (Z.leb_spec (u64 (chunkSize_ c + 2)) (zlen q)); [|done].
    rewrite zlen_app, (proj2 (Z.leb_le _ _)), take_app_Z, drop_app_Z by lia. by intros [= <- <- <-].
  - destruct (contentLen_ c =? 0); [by intros [= <- <- <-]|].
    destruct (Z.leb_spec (contentLen_ c) (zlen q)); [|done].
    rewrite zlen_app, (proj2 (Z.leb_le _ _)), take_app_Z, drop_app_Z by lia. by intros [= <- <- <-].
Qed.

Lemma runs_app c q c1 q1 x r c' q' :
  runs c q (Ok tt) c1 q1 -> runs c1 (q1 ++ x) r c' q' -> runs c (q ++ x) r c' q'.
Proof.
  intros Hr. remember (Ok tt) as r0 eqn:E. induction Hr; intros Hx; simplify_eq; [done|].
  eapply runs_step; [by eapply step_app|]. by apply IHHr.
Qed.

Lemma runs_throw_app c q e c1 q1 x :
  runs c q (Throw e) c1 q1 -> runs c (q ++ x) (Throw e) c1 (q1 ++ x).
Proof.
  intros Hr. remember (Throw e) as r0 eqn:E. revert E.
  induction Hr as [| |c q c2 q2 r c' q' Hs Hr IH]; intros E; simplify_eq.
  - eapply runs_throw. by eapply step_app.
  - eapply runs_step; [by eapply step_app|]. by apply IH.
Qed.

(** A machine that has stopped for good ignores what follows. *)
Lemma runs_done_app c q c1 q1 x :
  runs c q (Ok tt) c1 q1 -> error_ c1 || finish_ c1 = true ->
  runs c (q ++ x) (Ok tt) c1 (q1 ++ x).
Proof.
  intros Hr Hd. eapply runs_app; [done|]. apply runs_stop. unfold step. by rewrite Hd.
Qed.

Lemma runs_stuck c q r c' q' : runs c q r c' q' -> r = Ok tt -> step c' q' = None.
Proof. induction 1; naive_solver. Qed.

Lemma runs_det c q r1 c1 q1 r2 c2 q2 :
  runs c q r1 c1 q1 -> runs c q r2 c2 q2 -> r1 = r2 /\ c1 = c2 /\ q1 = q2.
Proof.
  intros H1. revert r2 c2 q2. induction H1 as [c q E|c q e c' q' E|c q c1 q1 r c' q' E Hr IH];
    intros r2 c2 q2 H2; inversion H2; simplify_eq; try congruence; try done; by apply IH.
Qed.
End Machine.

(** ** What the machine keeps, and that it stops *)

(** The fields a first line has no business with. *)
Record frame {R} (c c' : Core R) : Prop := {
  fr_error : error_ c = true -> error_ c' = true;
  fr_read : readSize_ c' = readSize_ c;
  fr_finish : finish_ c' = finish_ c;
  fr_chunked : chunked_ c' = chunked_ c;
  fr_size : chunkSize_ c' = chunkSize_ c;
  fr_state : chunkState_ c' = chunkState_ c;
  fr_len : contentLen_ c' = contentLen_ c
}.

(** What the shared parser relies on. *)
Class ParserLaws (R : Type) `{ParserClass R} : Prop := {
  parseFirstLine_frame line c : frame c (snd (parseFirstLine line c));
  maxBufferSize_range : 0 < s_maxBufferSize < 2 ^ 31
}.

(** [readSize_] is never updated; the chunk size and the chunk state agree,
    which makes the test of [parseChunkedBody] equivalent to one of the state. *)
Record core_ok {R} (c : Core R) : Prop := {
  co_read : readSize_ c = 0;
  co_chunk : error_ c = false -> (chunkSize_ c = 0 <-> chunkState_ c = PARSE_CHUNK_SIZE);
  co_size : 0 <= chunkSize_ c < 2 ^ 64;
  co_len : 0 <= contentLen_ c < 2 ^ 64
}.

Section Machine_facts.
Context {R : Type} `{ParserLaws R}.
Implicit Types c : Core R.

Lemma core_ok_frame c c' : core_ok c -> frame c c' -> core_ok c'.
Proof.
  intros [? Hc ? ?] [E0 E1 E2 E3 E4 E5 E6]. split; rewrite ?E1, ?E4, ?E5, ?E6; try done.
  intros He. apply Hc. destruct (error_ c); [|done]. by rewrite E0 in He.
Qed.

Lemma parseHeader_ok line c :
  core_ok c -> core_ok (snd (parseHeader line c)) /\ finish_ (snd (parseHeader line c)) = finish_ c
    /\ chunkSize_ (snd (parseHeader line c)) = chunkSize_ c.
Proof.
  intros [? ? ? ?]. unfold parseHeader. case_decide; [by split|].
  case_match; [|by split]. unfold check. case_match; [|by split].
  unfold bind, ret, modify, gets, id, throw.
  repeat (case_match; simplify_eq; cbn [snd fst] in *); try by split.
  all: split; [split; cbn; try done; apply (wrap_range 64); lia|done].
Qed.

(** The work left: each byte counts twice, a chunk in progress and an open
    message once. *)
Definition work (c : Core R) (q : bytes) : nat :=
  2 * length q + (if chunkSize_ c =? 0 then 0 else 1) + (if finish_ c then 0 else 1).

Lemma lineStep_length f c q r c' q' :
  lineStep f c q = Some (r, c', q') -> (length q' + 2 <= length q)%nat.
Proof.
  unfold lineStep. destruct (searchCRLF q) as [n|] eqn:E; [|done]. intros [= _ <-].
  apply searchCRLF_range in E. unfold zlen in E. rewrite length_drop. lia.
Qed.

Lemma step_ok c q r c' q' :
  core_ok c -> step c q = Some (r, c', q') -> core_ok c' /\ (work c' q' < work c q)%nat.
Proof.
  intros Hc. unfold step. destruct (error_ c) eqn:Ee; [done|]. destruct (finish_ c) eqn:Ef; [done|].
  cbn [orb]. destruct (parseState_ c).
  - intros Hs. pose proof (lineStep_length _ _ _ _ _ _ Hs) as Hl. unfold lineStep in Hs.
    case_match; [|done]. pose proof (parseFirstLine_frame (take (Z.to_nat z) q) c) as Hfr.
    injection Hs as Hs <-. rewrite Hs in Hfr. cbn [snd] in Hfr.
    split; [by eapply core_ok_frame|]. unfold work. rewrite (fr_size _ _ Hfr), (fr_finish _ _ Hfr). lia.
  - intros Hs. pose proof (lineStep_length _ _ _ _ _ _ Hs) as Hl. unfold lineStep in Hs.
    case_match; [|done]. pose proof (parseHeader_ok (take (Z.to_nat z) q) c Hc) as (Hfr & E1 & E2).
    injection Hs as Hs <-. rewrite Hs in *. cbn [snd] in *.
    split; [done|]. unfold work. rewrite E1, E2. lia.
  - destruct Hc as [Hr Hk Hz Hn]. destruct (chunked_ c).
    + destruct (Z.eqb_spec (chunkSize_ c) 0) as [E0|E0].
      * intros Hs. pose proof (lineStep_length _ _ _ _ _ _ Hs) as Hl. unfold lineStep in Hs.
        case_match; [|done]. injection Hs as _ <- _.
        pose proof (wrap_range 64 (HexToDec (take (Z.to_nat z) q)) ltac:(lia)) as Hw.
        set (size := u64 (HexToDec _)) in *. clearbody size. unfold work.
        destruct (Z.eqb_spec size (u64 (-1))); [split; [by split|cbn; rewrite Ef; case_match; lia]|].
        destruct (Z.eqb_spec size 0) as [->|]; [split; [split; cbn; [done|intros _; rewrite <- Hk by done; by rewrite E0|lia|done]|cbn; lia]|].
        split; [by split|cbn; rewrite Ef; case_match; lia].
      * case_match; [|done]. intros [= _ <- <-]. split; [by split|]. unfold work. cbn.
        rewrite Ef, length_drop. rewrite (proj2 (Z.eqb_neq _ _) E0). lia.
    + case_match; [intros [= _ <- <-]; split; [by split|unfold work; cbn; rewrite Ef; lia]|].
      case_match; [|done]. intros [= _ <- <-]. split; [by split|]. unfold work. cbn.
      rewrite Ef, length_drop. lia.
Qed.

(** The machine always stops, in a well-formed state. *)
Lemma runs_total c q :
  core_ok c -> exists r c' q', runs c q r c' q' /\ core_ok c' /\ (work c' q' <= work c q)%nat.
Proof.
  remember (work c q) as n eqn:E. revert c q E.
  induction n as [n IH] using (well_founded_induction lt_wf). intros c q -> Hc.
  destruct (step c q) as [[[[[]|e] c1] q1]|] eqn:Es.
  - destruct (step_ok _ _ _ _ _ Hc Es) as [Hc1 Hw].
    destruct (IH _ Hw c1 q1 eq_refl Hc1) as (r & c' & q' & Hr & Hc' & Hw').
    exists r, c', q'. split; [by eapply runs_step|]. split; [done|lia].
  - destruct (step_ok _ _ _ _ _ Hc Es) as [Hc1 Hw].
    exists (Throw e), c1, q1. split; [by eapply runs_throw|]. split; [done|lia].
  - exists (Ok tt), c, q. split; [by apply runs_stop|done].
Qed.
End Machine_facts.

(** ** The parser on a queue of bytes runs the machine *)

Section On_queue.
Context {R : Type} `{ParserLaws R}.
Implicit Types (c : Core R) (s : Sock).

Lemma takeLine_bind {A} (k : option bytes -> M ((Sock * bytes) * Core R) A) s (q : bytes) c :
  bind (onBa takeLine) k ((s, q), c) =
  match searchCRLF q with
  | None => k None ((s, q), c)
  | Some n => k (Some (take (Z.to_nat n) q)) ((s, drop (Z.to_nat (n + 2)) q), c)
  end.
Proof. unfold onBa, zoom, bind. cbn. by destruct (searchCRLF q). Qed.

Lemma onCore_bind {A B} (m : M (Core R) B) (k : B -> M ((Sock * bytes) * Core R) A) s q c :
  bind (onCore m) k ((s, q), c) =
  match m c with
  | (Ok a, c') => k a ((s, q), c')
  | (Throw e, c') => (Throw e, ((s, q), c'))
  end.
Proof. unfold onCore, zoom, bind. cbn. by destruct (m c) as [[] ?]. Qed.

(** In the middle of a chunked body. *)
Record in_chunks (c : Core R) : Prop := {
  ic_ok : core_ok c;
  ic_error : error_ c = false;
  ic_finish : finish_ c = false;
  ic_state : parseState_ c = PARSE_BODY;
  ic_chunked : chunked_ c = true
}.

(** What a chunked body does next, as a step. *)
Lemma chunk_step c q :
  in_chunks c ->
  step c q = if chunkSize_ c =? 0 then lineStep parseChunkSize c q
    else if u64 (chunkSize_ c + 2) <=? zlen q then
      Some (Ok tt, setChunk 0 PARSE_CHUNK_SIZE (appendBody (take (Z.to_nat (u64 (chunkSize_ c + 2))) q) c),
            drop (Z.to_nat (u64 (chunkSize_ c + 2))) q) else None.
Proof. intros [Hok He Hf Hst Hch]. unfold step. by rewrite He, Hf, Hst, Hch. Qed.

(** Its size line; [again] is the next round. *)
Lemma parseSize_runs again s q c :
  in_chunks c -> chunkSize_ c = 0 ->
  (forall q1 c1, in_chunks c1 -> (length q1 + 2 <= length q)%nat ->
     exists r c' q', runs c1 q1 r c' q' /\ again ((s, q1), c1) = (r, ((s, q'), c'))) ->
  exists r c' q', runs c q r c' q' /\
    (line <-- onBa takeLine ;;
     match line with
     | None => ret tt
     | Some hex =>
         let size := u64 (HexToDec hex) in
         onCore (modify (setChunk size (chunkState_ c))) ;;;
         if size =? u64 (-1) then onCore (modify (setError true))
         else if size =? 0 then
           onCore (modify (fun c => setFinish true (onMsg (setBody (body_ c)) c)))
         else onCore (modify (setChunk size PARSE_CHUNK_CONTENT)) ;;; again
     end) ((s, q), c) = (r, ((s, q'), c')).
Proof.
  intros Hin E0 Hagain. pose proof (chunk_step c q Hin) as Es. rewrite E0 in Es. cbn [Z.eqb] in Es.
  destruct Hin as [Hok He Hf Hst Hch]. rewrite takeLine_bind. unfold lineStep in Es.
  destruct (searchCRLF q) as [n|] eqn:En; [|exists (Ok tt), c, q; split; [by apply runs_stop|done]].
  cbv zeta. rewrite onCore_bind. unfold modify at 1. cbv beta iota.
  set (hex := take _ q) in *. set (q1 := drop _ q) in *.
  assert (Hl : (length q1 + 2 <= length q)%nat).
  { apply (lineStep_length (parseChunkSize) c q (Ok tt) (snd (parseChunkSize hex c))).
    unfold lineStep. by rewrite En. }
  unfold parseChunkSize, modify in Es. cbv beta zeta in Es.
  set (size := u64 (HexToDec hex)) in *.
  assert (Hsz : 0 <= size < 2 ^ 64) by (apply (wrap_range 64); lia). clearbody size.
  destruct (Z.eqb_spec size (u64 (-1))) as [Em|Em].
  { eexists _, _, _. split; [|reflexivity]. eapply runs_step; [exact Es|]. apply runs_stop. done. }
  destruct (Z.eqb_spec size 0) as [Ez|Ez].
  { eexists _, _, _. split; [|reflexivity]. eapply runs_step; [exact Es|]. apply runs_stop.
    unfold step. cbn. by rewrite He. }
  rewrite onCore_bind. unfold modify. cbv beta iota.
  change (setChunk size PARSE_CHUNK_CONTENT (setChunk size (chunkState_ c) c))
    with (setChunk size PARSE_CHUNK_CONTENT c).
  destruct (Hagain q1 (setChunk size PARSE_CHUNK_CONTENT c)) as (r & c' & q' & Hr & E); [|done|].
  { destruct Hok. split; try done; by split. }
  exists r, c', q'. split; [|done]. by eapply runs_step.
Qed.

Lemma parseChunked_runs fuel s q c :
  in_chunks c -> (2 * length q + (if (chunkSize_ c =? 0)%Z then 0 else 1) < fuel)%nat ->
  exists r c' q', runs c q r c' q' /\ parseChunked fuel ((s, q), c) = (r, ((s, q'), c')).
Proof.
  revert q c. induction fuel as [|fuel IH]; intros q c Hin Hfuel; [lia|].
  pose proof (chunk_step c q Hin) as Es. pose proof Hin as [Hok He Hf Hst Hch].
  cbn [parseChunked]. unfold core. rewrite bind_gets. cbn [snd id chunk_state_num]. rewrite He.
  destruct (Z.eqb_spec (chunkSize_ c) 0) as [E0|E0].
  - apply parseSize_runs; [done..|]. intros q1 c1 Hin1 Hl. apply IH; [done|]. case_match; lia.
  - destruct (chunkState_ c) eqn:Ecs; [by destruct (proj2 (co_chunk c Hok He)); congruence|].
    rewrite bind_gets. cbn [readable bufferQueue fst snd].
    destruct (u64 (chunkSize_ c + 2) <=? zlen q) eqn:Ele;
      [|exists (Ok tt), c, q; split; [by apply runs_stop|done]].
    unfold onBa at 1, zoom. unfold bind at 1. cbn [takeBytes bufferQueue fst snd].
    rewrite onCore_bind. unfold modify. cbv beta iota.
    set (m := Z.to_nat _) in *. set (c1 := setChunk 0 _ _) in *.
    destruct (IH (drop m q) c1) as (r & c' & q' & Hr & E).
    { destruct Hok. split; try done; by split. }
    { rewrite length_drop. cbn. lia. }
    exists r, c', q'. split; [|done]. by eapply runs_step.
Qed.

(** The loop's line states: the next line is parsed and [again] goes on. *)
Lemma parseLine_runs parse again s q c :
  core_ok c -> step c q = lineStep parse c q -> (forall l, finish_ (snd (parse l c)) = false) ->
  (forall q1 c1, core_ok c1 -> finish_ c1 = false -> (length q1 + 2 <= length q)%nat ->
     exists r c' q', runs c1 q1 r c' q' /\ again ((s, q1), c1) = (r, ((s, q'), c'))) ->
  exists r c' q', runs c q r c' q' /\
    (x <-- onBa takeLine ;; match x with
      | None => ret tt
      | Some line => onCore (parse line) ;;; again end) ((s, q), c) = (r, ((s, q'), c')).
Proof.
  intros Hok Hs Hpf Hagain. rewrite takeLine_bind. unfold lineStep in Hs.
  destruct (searchCRLF q) as [n|] eqn:En; [|exists (Ok tt), c, q; split; [by apply runs_stop|done]].
  rewrite onCore_bind. specialize (Hpf (take (Z.to_nat n) q)).
  destruct (parse _ c) as [[[]|e] c1] eqn:Ep; cbn [snd] in Hpf.
  - pose proof (step_ok _ _ _ _ _ Hok Hs) as [Hok1 _].
    pose proof (lineStep_length parse c q (Ok tt) c1 (drop (Z.to_nat (n + 2)) q)) as Hl.
    unfold lineStep in Hl. rewrite En, Ep in Hl. specialize (Hl eq_refl).
    destruct (Hagain (drop (Z.to_nat (n + 2)) q) c1) as (r & c' & q' & Hr & E); [done..|lia|].
    exists r, c', q'. split; [by eapply runs_step|done].
  - eexists _, _, _. split; [by eapply runs_throw|done].
Qed.

(** A body that is not chunked. *)
Lemma parseFixed_runs s q c :
  error_ c = false -> finish_ c = false -> parseState_ c = PARSE_BODY -> chunked_ c = false ->
  exists r c' q', runs c q r c' q' /\
    ((if contentLen_ c =? 0 then onCore (modify (setFinish true)) else ret tt) ;;; parseFixedBody) ((s, q), c) = (r, ((s, q'), c')).
Proof.
  intros He Hf Est Ech.
  assert (Es : step c q = if contentLen_ c =? 0 then Some (Ok tt, setFinish true c, q)
    else if contentLen_ c <=? zlen q then
      Some (Ok tt, setFinish true (onMsg (setBody (take (Z.to_nat (contentLen_ c)) q)) c),
            drop (Z.to_nat (contentLen_ c)) q) else None)
    by (unfold step; by rewrite He, Hf, Est, Ech).
  unfold parseFixedBody. destruct (contentLen_ c =? 0) eqn:Ecl.
  - rewrite onCore_bind. unfold modify at 1, core. cbv beta iota. rewrite bind_gets.
    cbn [snd id setFinish contentLen_]. rewrite Ecl.
    eexists _, _, _. split; [|reflexivity]. eapply runs_step; [exact Es|].
    apply runs_stop. unfold step. cbn. by rewrite He.
  - rewrite bind_ret. unfold core. rewrite bind_gets. cbn [snd id]. rewrite Ecl.
    rewrite bind_gets. cbn [readable bufferQueue fst snd].
    destruct (contentLen_ c <=? zlen q) eqn:Ele;
      [|exists (Ok tt), c, q; split; [by apply runs_stop|done]].
    eexists _, _, _. split; [|reflexivity]. eapply runs_step; [exact Es|].
    apply runs_stop. unfold step. cbn. by rewrite He.
Qed.

Lemma parseBuffered_runs fuel s q c :
  core_ok c -> finish_ c = false -> (length q + 1 < fuel)%nat ->
  exists r c' q', runs c q r c' q' /\ parseBuffered fuel ((s, q), c) = (r, ((s, q'), c')).
Proof.
  revert q c. induction fuel as [|fuel IH]; intros q c Hok Hf Hfuel; [lia|].
  cbn [parseBuffered]. unfold core. rewrite bind_gets. cbn [snd id].
  destruct (error_ c) eqn:He.
  { exists (Ok tt), c, q. split; [|done]. apply runs_stop. unfold step. by rewrite He. }
  assert (Hagain : forall q1 c1, core_ok c1 -> finish_ c1 = false -> (length q1 + 2 <= length q)%nat ->
    exists r c' q', runs c1 q1 r c' q' /\ parseBuffered fuel ((s, q1), c1) = (r, ((s, q'), c')))
    by (intros q1 c1 Hok1 Hf1 Hl; apply IH; [done..|lia]).
  destruct (parseState_ c) eqn:Est.
  - apply (parseLine_runs parseFirstLine); [done| | |done].
    + unfold step. by rewrite He, Hf, Est.
    + intros l. rewrite (fr_finish _ _ (parseFirstLine_frame l c)). done.
  - apply (parseLine_runs parseHeader); [done| | |done].
    + unfold step. by rewrite He, Hf, Est.
    + intros l. destruct (parseHeader_ok l c Hok) as (_ & -> & _). done.
  - destruct (chunked_ c) eqn:Ech.
    + cbn [negb andb]. rewrite bind_ret. unfold parseChunkedBody. rewrite bind_gets.
      cbn [readable bufferQueue fst snd]. apply parseChunked_runs; [by split|].
      unfold zlen. case_match; lia.
    + by apply parseFixed_runs.
Qed.

Lemma drain_runs s q c :
  core_ok c -> finish_ c = false ->
  exists r c' q', runs c q r c' q' /\ drain ((s, q), c) = (r, ((s, q'), c')).
Proof.
  intros Hok Hf. unfold drain. rewrite bind_gets. cbn [readable bufferQueue fst snd].
  apply parseBuffered_runs; [done..|]. unfold zlen. lia.
Qed.

Lemma parseLoop_runs fuel s q c r c' q' :
  core_ok c -> step c q = None -> flowing s -> pending s + 1 < Z.of_nat fuel ->
  runs c (q ++ List.concat (incoming s)) r c' q' ->
  exists s' q'', parseLoop fuel ((s, q), c) = (verdict r c', ((s', q''), c')).
Proof.
  revert s q c. induction fuel as [|fuel IH]; intros s q c Hok Hst Hfl Hfuel Hr.
  { pose proof (zlen_nonneg (List.concat (incoming s))). unfold pending in *. lia. }
  cbn [parseLoop]. unfold core. rewrite bind_gets. cbn [snd id].
  destruct (finish_ c) eqn:Hf; [|destruct (error_ c) eqn:He]; cbn [negb andb].
  - assert (Hn : step c (q ++ List.concat (incoming s)) = None)
      by (unfold step; by rewrite Hf, orb_true_r).
    destruct (runs_det _ _ _ _ _ _ _ _ Hr (runs_stop _ _ Hn)) as (-> & -> & ->).
    unfold verdict. rewrite Hf. cbn [andb]. by eexists _, _.
  - assert (Hn : step c (q ++ List.concat (incoming s)) = None)
      by (unfold step; by rewrite He).
    destruct (runs_det _ _ _ _ _ _ _ _ Hr (runs_stop _ _ Hn)) as (-> & -> & ->).
    unfold verdict. rewrite Hf. cbn [andb]. by eexists _, _.
  - pose proof (maxBufferSize_range) as Hmax. rewrite (co_read c Hok), (proj2 (Z.eqb_neq _ _)) by lia.
    destruct (readInto_flowing s_maxBufferSize s q) as [[Hnil E]|(d & s1 & Hd & E & Hfl1 & Hcc & _)]; [lia|done|..].
    + erewrite bind_ok by (unfold zoom; cbn [fst snd]; rewrite E; reflexivity).
      cbn [Z.leb Z.compare]. rewrite Hnil in Hr. cbn in Hr. rewrite app_nil_r in Hr.
      destruct (runs_det _ _ _ _ _ _ _ _ Hr (runs_stop _ _ Hst)) as (-> & -> & ->).
      unfold verdict. rewrite Hf. by eexists _, _.
    + erewrite bind_ok by (unfold zoom; cbn [fst snd]; rewrite E; reflexivity).
      assert (Hpos : 0 < zlen d) by (destruct d; [done|rewrite zlen_cons; zlia]).
      rewrite (proj2 (Z.leb_gt _ _)) by lia.
      destruct (drain_runs s1 (q ++ d) c Hok Hf) as (r1 & c1 & q1 & Hr1 & E1).
      rewrite Hcc, app_assoc in Hr. unfold bind. cbn [snd]. rewrite E1.
      destruct r1 as [[]|e].
      * apply (IH s1 q1 c1).
        { destruct (runs_total c (q ++ d) Hok) as (r2 & c2 & q2 & Hr2 & Hok2 & _).
          by destruct (runs_det _ _ _ _ _ _ _ _ Hr1 Hr2) as (_ & -> & _). }
        { by eapply runs_stuck. }
        { done. }
        { rewrite !pending_concat in *. rewrite Hcc, zlen_app in Hfuel. lia. }
        { destruct (runs_total c1 (q1 ++ List.concat (incoming s1))) as (r2 & c2 & q2 & Hr2 & _).
          { destruct (runs_total c (q ++ d) Hok) as (r2 & c2 & q2 & Hr2 & Hok2 & _).
            by destruct (runs_det _ _ _ _ _ _ _ _ Hr1 Hr2) as (_ & -> & _). }
          pose proof (runs_app _ _ _ _ _ _ _ _ Hr1 Hr2) as Hr3.
          by destruct (runs_det _ _ _ _ _ _ _ _ Hr Hr3) as (-> & -> & ->). }
      * pose proof (runs_throw_app _ _ _ _ _ (List.concat (incoming s1)) Hr1) as Hr3.
        destruct (runs_det _ _ _ _ _ _ _ _ Hr Hr3) as (-> & -> & ->). by eexists _, _.
Qed.

(** What parsing does to the stream: it takes bytes off it, and a parser that
    was not done has taken some when it answers [true]. *)
Lemma parseLoop_stream fuel s q c :
  flowing s -> core_ok c -> exists r s' q' c', parseLoop fuel ((s, q), c) = (r, ((s', q'), c'))
    /\ flowing s' /\ s' = setIncoming (incoming s') s /\ pending s' <= pending s
    /\ (finish_ c = false -> r = Ok true -> pending s' < pending s).
Proof.
  assert (Hid : forall s0, s0 = setIncoming (incoming s0) s0) by (by intros []).
  revert s q c. induction fuel as [|fuel IH]; intros s q c Hfl Hok.
  { exists (Throw NoFuel), s, q, c. split_and!; try done. }
  cbn [parseLoop]. unfold core. rewrite bind_gets. cbn [snd id].
  destruct (negb (finish_ c) && negb (error_ c)) eqn:Eg.
  2:{ eexists _, s, q, c. split; [reflexivity|]. split_and!; try done. intros Hf. rewrite Hf in Eg. cbn in *.
      intros [= He]. by rewrite He in Eg. }
  apply andb_prop in Eg as [Hf He]. apply negb_true_iff in Hf, He.
  pose proof (maxBufferSize_range) as Hmax. rewrite (co_read c Hok), (proj2 (Z.eqb_neq _ _)) by lia.
  destruct (readInto_flowing s_maxBufferSize s q) as [[Hnil E]|(d & s1 & Hd & E & Hfl1 & Hcc & Hs1)]; [lia|done|..].
  - erewrite bind_ok by (unfold zoom; cbn [fst snd]; rewrite E; reflexivity).
    cbn [Z.leb Z.compare]. eexists _, s, q, c. split; [reflexivity|]. by split_and!.
  - erewrite bind_ok by (unfold zoom; cbn [fst snd]; rewrite E; reflexivity).
    assert (Hpos : 0 < zlen d) by (destruct d; [done|rewrite zlen_cons; zlia]).
    rewrite (proj2 (Z.leb_gt _ _)) by lia. cbn [snd].
    assert (Hlt : pending s1 < pending s) by (unfold pending; rewrite Hcc, zlen_app; lia).
    destruct (drain_runs s1 (q ++ d) c Hok Hf) as (r1 & c1 & q1 & Hr1 & E1).
    unfold bind. rewrite E1. destruct r1 as [[]|e].
    + destruct (IH s1 q1 c1) as (r & s' & q' & c' & E2 & Hfl2 & Hs2 & Hle & _); [done| |].
      { destruct (runs_total c (q ++ d) Hok) as (r2 & c2 & q2 & Hr2 & Hok2 & _).
        by destruct (runs_det _ _ _ _ _ _ _ _ Hr1 Hr2) as (_ & -> & _). }
      exists r, s', q', c'. split; [done|]. split; [done|]. split; [|lia].
      rewrite Hs2 at 1. by rewrite Hs1.
    + exists (Throw e), s1, q1, c1. split; [done|]. split; [done|]. split; [done|]. lia.
Qed.
(** One read off pieces that are not the last. *)
Lemma readInto_pieces size s (q : bytes) ps rest :
  0 < size -> flowing s -> incoming s = ps ++ rest -> ps <> [] ->
  exists d ps', d <> [] /\ List.concat ps = d ++ List.concat ps'
    /\ readInto size (s, q) = (Ok (zlen d), (setIncoming (ps' ++ rest) s, q ++ d))
    /\ flowing (setIncoming (ps' ++ rest) s).
Proof.
  intros Hs [Hc Hne] Hin Hps. destruct ps as [|p ps]; [done|]. cbn [app] in Hin.
  rewrite Hin in Hne. apply Forall_cons in Hne as [Hp Hne].
  assert (Hz : 0 < zlen p) by (destruct p; [done|rewrite zlen_cons; zlia]).
  destruct (Z.leb_spec (zlen p) size) as [Hle|Hgt].
  - exists p, ps. split; [done|]. split; [done|]. split; [|done].
    erewrite readInto_queue by (done || (unfold recv; rewrite Hc, Hin, (proj2 (Z.leb_le _ _)) by done; reflexivity)).
    by rewrite (proj2 (Z.ltb_lt _ _)).
  - set (d := take (Z.to_nat size) p). set (e := drop (Z.to_nat size) p).
    assert (Hd : zlen d = size) by (unfold d, zlen in *; rewrite length_take; lia).
    assert (He : zlen e = zlen p - size) by (unfold e; apply zlen_drop; lia).
    exists d, (e :: ps). split; [intros E; apply (f_equal zlen) in E; rewrite Hd in E; change (size = 0) in E; lia|].
    split; [cbn [List.concat]; by rewrite app_assoc; unfold d, e; rewrite take_drop|]. split.
    + erewrite readInto_queue by (done || (unfold recv; rewrite Hc, Hin, (proj2 (Z.leb_gt _ _)) by done; reflexivity)).
      fold d e. by rewrite (proj2 (Z.ltb_lt _ _)) by lia.
    + split; [done|]. cbn [incoming setIncoming app]. constructor; [|done]. intros E. apply (f_equal zlen) in E. rewrite He in E. change (zlen p - size = 0) in E. lia.
Qed.

(** A message that ends with a piece: the parser reads the pieces of the
    message and no other. *)
Lemma parseLoop_exact fuel s q c ps rest c' :
  core_ok c -> step c q = None -> flowing s -> pending s + 1 < Z.of_nat fuel -> incoming s = ps ++ rest ->
  runs c (q ++ List.concat ps) (Ok tt) c' [] -> finish_ c' = true -> error_ c' = false ->
  exists q', parseLoop fuel ((s, q), c) = (Ok true, ((setIncoming rest s, q'), c')).
Proof.
  revert s q c ps. induction fuel as [|fuel IH]; intros s q c ps Hok Hst Hfl Hfuel Hin Hr Hf' He'.
  { pose proof (zlen_nonneg (List.concat (incoming s))). unfold pending in *. lia. }
  assert (Hstop : error_ c || finish_ c = true -> c = c' /\ q ++ List.concat ps = []).
  { intros Hd. assert (Hn : step c (q ++ List.concat ps) = None) by (unfold step; by rewrite Hd).
    by destruct (runs_det _ _ _ _ _ _ _ _ Hr (runs_stop _ _ Hn)) as (_ & -> & ->). }
  cbn [parseLoop]. unfold core. rewrite bind_gets. cbn [snd id].
  destruct (finish_ c) eqn:Hf; [|destruct (error_ c) eqn:He]; cbn [negb andb].
  - destruct Hstop as [-> Hnil]; [apply orb_true_r|]. apply app_eq_nil in Hnil as [-> Hnil].
    destruct ps as [|p ps]; [|exfalso; destruct Hfl as [_ Hne]; rewrite Hin in Hne;
      apply Forall_cons in Hne as [Hp _]; by destruct p].
    cbn [app] in Hin. exists []. rewrite He'. destruct s. cbn in *. by subst.
  - destruct Hstop as [-> _]; [done|]. congruence.
  - pose proof (maxBufferSize_range) as Hmax. rewrite (co_read c Hok), (proj2 (Z.eqb_neq _ _)) by lia.
    destruct (decide (ps = [])) as [->|Hps].
    { cbn in Hr. rewrite app_nil_r in Hr. destruct (runs_det _ _ _ _ _ _ _ _ Hr (runs_stop _ _ Hst)) as (_ & -> & _).
      congruence. }
    destruct (readInto_pieces s_maxBufferSize s q ps rest) as (d & ps' & Hd & Hcc & E & Hfl1); [lia|done..|].
    erewrite bind_ok by (unfold zoom; cbn [fst snd]; rewrite E; reflexivity).
    assert (Hpos : 0 < zlen d) by (destruct d; [done|rewrite zlen_cons; zlia]).
    rewrite (proj2 (Z.leb_gt _ _)) by lia. set (s1 := setIncoming (ps' ++ rest) s) in *.
    destruct (drain_runs s1 (q ++ d) c Hok Hf) as (r1 & c1 & q1 & Hr1 & E1).
    rewrite Hcc, app_assoc in Hr. unfold bind. cbn [snd]. rewrite E1.
    destruct r1 as [[]|e].
    2:{ pose proof (runs_throw_app _ _ _ _ _ (List.concat ps') Hr1) as Hr3.
        by destruct (runs_det _ _ _ _ _ _ _ _ Hr Hr3) as (? & _). }
    assert (Hok1 : core_ok c1).
    { destruct (runs_total c (q ++ d) Hok) as (r2 & c2 & q2 & Hr2 & Hok2 & _).
      by destruct (runs_det _ _ _ _ _ _ _ _ Hr1 Hr2) as (_ & -> & _). }
    destruct (runs_total c1 (q1 ++ List.concat ps') Hok1) as (r2 & c2 & q2 & Hr2 & _).
    destruct (runs_det _ _ _ _ _ _ _ _ Hr (runs_app _ _ _ _ _ _ _ _ Hr1 Hr2)) as (<- & <- & <-).
    apply (IH s1 q1 c1 ps'); try done; [by eapply runs_stuck|].
    assert (Hlt : pending s1 < pending s); [|lia].
    unfold pending. rewrite Hin. cbn [s1 incoming setIncoming]. rewrite !List.concat_app, Hcc, !zlen_app. lia.
Qed.
End On_queue.

(** ** The parser on a ByteArray is the parser on a queue *)

Section Refinement.
Context {R : Type} `{ParserLaws R}.

Record same_parser (p : (Sock * ByteArray) * Core R) (q : (Sock * bytes) * Core R) : Prop := {
  sp_buffered : buffered (fst p) (fst q);
  sp_core : snd p = snd q;
  sp_len : 0 <= contentLen_ (snd p)
}.

Lemma onCore_sim {A} (m : M (Core R) A) :
  (forall c, 0 <= contentLen_ c -> 0 <= contentLen_ (snd (m c))) ->
  sim same_parser (onCore m) (onCore m).
Proof.
  intros Hm [[s b] c] [[s' q] c'] [Hb Hc Hl]. cbn [fst snd] in *. subst c'.
  unfold onCore, zoom. cbn [fst snd]. specialize (Hm c Hl). destruct (m c) as [r c1].
  split; [done|]. by split.
Qed.

Lemma takeLine_sim : sim same_parser (onBa takeLine) (onBa takeLine).
Proof.
  intros [[s b] c] [[s' q] c'] [[Hs Hr Hroom] Hc Hl]. cbn [fst snd] in *. subst s' c'.
  unfold onBa, zoom. cbn [fst snd takeLine bufferByteArray bufferQueue]. unfold lineOfArray.
  pose proof (findCRLF_contents b q Hr) as Hf. pose proof Hr as [[? ? ? ?] Hp Hq].
  destruct (findCRLF b) as [f|]; cbn in Hf; rewrite <- Hf.
  2:{ split; [done|]. split; [by split|done|done]. }
  assert (Hn : 0 <= f - peek b /\ f - peek b + 2 <= zlen q) by (by apply searchCRLF_range).
  assert (Hz : zlen q = writePos_ b - readPos_ b)
    by (rewrite <- Hq; apply contents_length; by split).
  unfold peek in *. split; cbn [fst snd].
  - do 2 f_equal. unfold text. rewrite <- Hq. unfold contents. rewrite take_slice by lia.
    f_equal. lia.
  - split; [|done|done]. rewrite wrap_small by (unfold vector_max_size in *; lia).
    split; cbn; [done| |done]. split; [split; cbn; lia|cbn; lia|].
    unfold contents in *. cbn. rewrite <- Hq, drop_slice by lia. f_equal. lia.
Qed.

Lemma take_sim {A} k (f : bytes -> M _ A) (f' : bytes -> M _ A) m m' :
  0 <= k -> (forall x, sim same_parser (f x) (f' x)) -> sim same_parser m m' ->
  sim same_parser
    (n <-- gets (fun p => readable (snd (fst p))) ;;
     if k <=? n then x <-- onBa (takeBytes k) ;; f x else m)
    (n <-- gets (fun p => readable (snd (fst p))) ;;
     if k <=? n then x <-- onBa (takeBytes k) ;; f' x else m').
Proof.
  intros Hk Hf Hm [[s b] c] [[s' q] c'] Hst. pose proof Hst as [[Hs Hr Hroom] Hc Hl].
  cbn [fst snd] in *. subst s' c'. rewrite !bind_gets. cbn [fst snd readable bufferByteArray bufferQueue].
  pose proof Hr as [Hwf Hp Hq].
  pose proof (getReadSize_contents b Hwf) as Hsz. rewrite Hq in Hsz. rewrite Hsz.
  destruct (Z.leb_spec k (zlen q)); [|by apply Hm].
  destruct Hwf as [? ? ? ?].
  assert (Hz : zlen q = writePos_ b - readPos_ b)
    by (rewrite <- Hq; apply contents_length; by split).
  assert (Eb : onBa (takeBytes k) ((s, b), c) =
    (Ok (take (Z.to_nat k) q), ((s, setReadPos (readPos_ b + k) b), c))).
  { unfold onBa, zoom. cbn [fst snd takeBytes bufferByteArray]. unfold bytesOfArray.
    rewrite (proj2 (Z.leb_le _ _)) by lia. rewrite wrap_small by (unfold vector_max_size in *; lia).
    cbn [fst snd]. rewrite <- Hq. unfold contents. rewrite take_slice by lia.
    do 4 f_equal. lia. }
  assert (Eq : onBa (R := R) (B := bytes) (takeBytes k) ((s, q), c) =
    (Ok (take (Z.to_nat k) q), ((s, drop (Z.to_nat k) q), c))) by done.
  rewrite (bind_ok _ _ _ _ _ Eb), (bind_ok _ _ _ _ _ Eq).
  apply Hf. split; [|done|done]. split; cbn; [done| |done]. split; [split; cbn; lia|cbn; lia|].
  unfold contents in *. cbn. rewrite <- Hq, drop_slice by lia. f_equal. lia.
Qed.

Lemma core_sim {A B} (f : Core R -> A) (k k' : A -> M _ B) :
  (forall c, 0 <= contentLen_ c -> sim same_parser (k (f c)) (k' (f c))) ->
  sim same_parser (bind (core f) k) (bind (core f) k').
Proof.
  intros Hk [[s b] c] [[s' q] c'] Hst. pose proof Hst as [_ Hc Hl]. cbn [fst snd] in *. subst c'.
  unfold core. rewrite !bind_gets. cbn [snd]. by apply Hk.
Qed.

Lemma readable_sim {B} (k k' : Z -> M _ B) :
  (forall n, sim same_parser (k n) (k' n)) ->
  sim same_parser (bind (gets (fun p => readable (snd (fst p)))) k)
                  (bind (gets (fun p => readable (snd (fst p)))) k').
Proof.
  intros Hk [[s b] c] [[s' q] c'] Hst. pose proof Hst as [[Hs Hr Hroom] Hc Hl]. cbn [fst snd] in *.
  rewrite !bind_gets. cbn [fst snd readable bufferByteArray bufferQueue].
  rewrite (getReadSize_contents b (rep_wf _ _ Hr)), (rep_contents _ _ Hr). by apply Hk.
Qed.

Lemma parseChunked_sim fuel : sim same_parser (parseChunked fuel) (parseChunked fuel).
Proof.
  induction fuel as [|fuel IH]; cbn [parseChunked]; [apply sim_throw|].
  apply core_sim. intros c Hc. cbn [id]. destruct (error_ c); [apply sim_ret|].
  destruct (chunkSize_ c =? _).
  - apply sim_bind; [apply takeLine_sim|]. intros [hex|]; [|apply sim_ret].
    apply sim_bind; [by apply onCore_sim|]. intros _.
    apply sim_if; [by apply onCore_sim|]. apply sim_if; [by apply onCore_sim|].
    apply sim_bind; [by apply onCore_sim|done].
  - destruct (chunkState_ c); [done|]. apply take_sim; [apply (wrap_range 64); lia| |apply sim_ret].
    intros x. apply sim_bind; [by apply onCore_sim|done].
Qed.

Lemma parseHeader_len line (c : Core R) : 0 <= contentLen_ c -> 0 <= contentLen_ (snd (parseHeader line c)).
Proof.
  intros Hc. unfold parseHeader. case_decide; [done|].
  case_match; [|done]. unfold check. case_match; [|done].
  unfold bind, ret, modify, gets, id, throw.
  repeat (case_match; simplify_eq; cbn [snd fst] in *); try done.
  all: apply (wrap_range 64); lia.
Qed.

Lemma parseBuffered_sim fuel : sim same_parser (parseBuffered fuel) (parseBuffered fuel).
Proof.
  induction fuel as [|fuel IH]; cbn [parseBuffered]; [apply sim_throw|].
  apply core_sim. intros c Hc. cbn [id]. destruct (error_ c); [apply sim_ret|].
  destruct (parseState_ c).
  - apply sim_bind; [apply takeLine_sim|]. intros [l|]; [|apply sim_ret].
    apply sim_bind; [|done]. apply onCore_sim. intros c0 Hc0.
    by rewrite (fr_len _ _ (parseFirstLine_frame l c0)).
  - apply sim_bind; [apply takeLine_sim|]. intros [l|]; [|apply sim_ret].
    apply sim_bind; [|done]. apply onCore_sim. apply parseHeader_len.
  - apply sim_bind; [apply sim_if; [by apply onCore_sim|apply sim_ret]|]. intros _. apply sim_if.
    + apply readable_sim. intros n. apply parseChunked_sim.
    + apply core_sim. intros c1 Hc1. cbn [id]. apply sim_if; [by apply onCore_sim|].
      apply take_sim; [done| |apply sim_ret]. intros x. by apply onCore_sim.
Qed.

Lemma read_sim size : 0 < size < 2 ^ 31 ->
  sim same_parser (zoom fst (fun sb p => (sb, snd p)) (readInto size))
                  (zoom fst (fun sb p => (sb, snd p)) (readInto size)).
Proof.
  intros Hs [sb c] [sq c'] [Hb Hc Hl]. cbn [fst snd] in *. subst c'.
  destruct (readInto_sim size Hs sb sq Hb) as [E Hb']. unfold zoom. cbn [fst snd].
  destruct (readInto size sb), (readInto size sq); cbn in *. by split.
Qed.

Lemma parseLoop_sim fuel : sim same_parser (parseLoop fuel) (parseLoop fuel).
Proof.
  pose proof maxBufferSize_range as Hmax.
  induction fuel as [|fuel IH]; cbn [parseLoop]; [apply sim_throw|].
  apply core_sim. intros c Hc. cbn [id]. apply sim_if; [|apply sim_ret].
  apply sim_if; [apply sim_ret|]. apply sim_bind; [by apply read_sim|]. intros len.
  apply sim_if; [apply sim_ret|]. apply sim_bind; [|done].
  apply readable_sim. intros n. apply parseBuffered_sim.
Qed.

Lemma parse_sim : sim same_parser parse parse.
Proof.
  unfold parse. apply sim_gets; [|intros n; apply parseLoop_sim].
  intros p q [[Hs _ _] _ _]. by rewrite Hs.
Qed.

(** What a fresh parser object makes of a stream that keeps flowing: it runs
    the machine on all that the peer sends, however it is cut. *)
Lemma parse_flowing s (m : R) :
  flowing s -> pending s <= 2 ^ 60 ->
  exists r c' q' sb, runs (newCore m) (List.concat (incoming s)) r c' q' /\ core_ok c'
    /\ parse ((s, newByteArray kInitSize), newCore m) = (verdict r c', (sb, c')).
Proof.
  intros Hfl Hp. assert (Hok : core_ok (newCore m)) by (split; done).
  destruct (runs_total (newCore m) (List.concat (incoming s)) Hok) as (r & c' & q' & Hr & Hok' & _).
  destruct (parseLoop_runs (Z.to_nat (pending s + 2)) s [] (newCore m) r c' q' Hok eq_refl Hfl) as (s' & q2 & E).
  { pose proof (zlen_nonneg (List.concat (incoming s))). unfold pending in *. lia. }
  { done. }
  destruct (parse_sim ((s, newByteArray kInitSize), newCore m) ((s, []), newCore m)) as [E1 [_ E2 _]].
  { split; cbn [fst snd]; [|done|done].
    split; cbn [fst snd]; [done|apply new_rep; unfold kInitSize; lia|].
    cbn. unfold kCheapPrepend. lia. }
  assert (Eq : parse ((s, []), newCore m) = (verdict r c', ((s', q2), c'))) by exact E.
  rewrite Eq in E1, E2. destruct (parse ((s, newByteArray kInitSize), newCore m)) as [r1 [sb c1]].
  cbn in *. subst. by exists r, c', q', sb.
Qed.

(** The same parser and what it leaves of the stream. *)
Lemma parse_stream s (m : R) :
  flowing s -> pending s <= 2 ^ 60 ->
  exists r s' b c', parse ((s, newByteArray kInitSize), newCore m) = (r, ((s', b), c'))
    /\ flowing s' /\ s' = setIncoming (incoming s') s /\ pending s' <= pending s
    /\ (r = Ok true -> pending s' < pending s).
Proof.
  intros Hfl Hp. assert (Hok : core_ok (newCore m)) by (split; done).
  destruct (parseLoop_stream (Z.to_nat (pending s + 2)) s [] (newCore m) Hfl Hok)
    as (r & s' & q' & c' & E & Hfl' & Hs' & Hle & Hlt).
  destruct (parse_sim ((s, newByteArray kInitSize), newCore m) ((s, []), newCore m)) as [E1 [[Hs1 _ _] E2 _]].
  { split; cbn [fst snd]; [|done|done].
    split; cbn [fst snd]; [done|apply new_rep; unfold kInitSize; lia|].
    cbn. unfold kCheapPrepend. lia. }
  assert (Eq : parse ((s, []), newCore m) = (r, ((s', q'), c'))) by exact E.
  rewrite Eq in *. destruct (parse ((s, newByteArray kInitSize), newCore m)) as [r1 [[s1 b] c1]].
  cbn in *. subst. exists r, s', b, c'. by split_and!; auto.
Qed.

(** A message that ends with a piece. *)
Lemma parse_exact s (m : R) ps rest c' :
  flowing s -> pending s <= 2 ^ 60 -> incoming s = ps ++ rest ->
  runs (newCore m) (List.concat ps) (Ok tt) c' [] -> finish_ c' = true -> error_ c' = false ->
  exists b, parse ((s, newByteArray kInitSize), newCore m) = (Ok true, ((setIncoming rest s, b), c')).
Proof.
  intros Hfl Hp Hin Hr Hf He. assert (Hok : core_ok (newCore m)) by (split; done).
  destruct (parseLoop_exact (Z.to_nat (pending s + 2)) s [] (newCore m) ps rest c' Hok eq_refl Hfl) as (q & E); try done.
  { pose proof (zlen_nonneg (List.concat (incoming s))). unfold pending in *. lia. }
  destruct (parse_sim ((s, newByteArray kInitSize), newCore m) ((s, []), newCore m)) as [E1 [[Hs1 _ _] E2 _]].
  { split; cbn [fst snd]; [|done|done].
    split; cbn [fst snd]; [done|apply new_rep; unfold kInitSize; lia|].
    cbn. unfold kCheapPrepend. lia. }
  assert (Eq : parse ((s, []), newCore m) = (Ok true, ((setIncoming rest s, q), c'))) by exact E.
  rewrite Eq in *. destruct (parse ((s, newByteArray kInitSize), newCore m)) as [r1 [[s1 b] c1]].
  cbn in *. subst. by exists b.
Qed.

(** One read is enough to take a whole segment off the stream. *)
Lemma parse_one_read s (m : R) d :
  flowing s -> incoming s = [d] -> zlen d <= s_maxBufferSize ->
  incoming (fst (fst (snd (parse ((s, newByteArray kInitSize), newCore m))))) = [].
Proof.
  intros Hfl Hin Hd. assert (Hok : core_ok (newCore m)) by (split; done).
  pose proof maxBufferSize_range as Hmax.
  destruct (parse_sim ((s, newByteArray kInitSize), newCore m) ((s, []), newCore m)) as [_ [[-> _ _] _ _]].
  { split; cbn [fst snd]; [|done|done].
    split; cbn [fst snd]; [done|apply new_rep; unfold kInitSize; lia|].
    unfold pending. rewrite Hin. cbn [List.concat newByteArray writePos_]. rewrite app_nil_r.
    unfold kCheapPrepend. lia. }
  unfold parse. rewrite bind_gets. cbn [fst toCome connSock].
  assert (Hp : 0 <= pending s) by apply zlen_nonneg.
  destruct (Z.to_nat (pending s + 2)) as [|fuel] eqn:Ef; [lia|].
  cbn [parseLoop]. unfold core. rewrite bind_gets. cbn [snd id newCore finish_ error_ readSize_ negb andb].
  rewrite (proj2 (Z.eqb_neq 0 _)) by lia.
  destruct Hfl as [Hc Hne].
  assert (E : readInto s_maxBufferSize (s, []) = (Ok (zlen d), (setIncoming [] s, d))).
  { erewrite readInto_queue by (done || (unfold recv; rewrite Hc, Hin, (proj2 (Z.leb_le _ _)) by done; reflexivity)).
    rewrite Hin in Hne. apply Forall_cons in Hne as [Hd0 _].
    rewrite (proj2 (Z.ltb_lt _ _)); [done|]. destruct d; [done|]. rewrite zlen_cons. zlia. }
  erewrite bind_ok by (unfold zoom; cbn [fst snd]; rewrite E; reflexivity).
  destruct (zlen d <=? 0); [done|].
  assert (Hfl1 : flowing (setIncoming [] s)) by (split; [done|constructor]).
  destruct (drain_runs (setIncoming [] s) d (newCore m) Hok eq_refl) as (r1 & c1 & q1 & Hr1 & E1).
  unfold bind. cbn [snd]. rewrite E1. destruct r1 as [[]|e]; [|done].
  destruct (parseLoop_stream fuel (setIncoming [] s) q1 c1) as (r & s' & q' & c' & E2 & Hfl2 & _ & Hle & _);
    [done| |].
  { destruct (runs_total (newCore m) d Hok) as (r2 & c2 & q2 & Hr2 & Hok2 & _).
    by destruct (runs_det _ _ _ _ _ _ _ _ Hr1 Hr2) as (_ & -> & _). }
  rewrite E2. cbn [snd fst]. apply flowing_empty; [done|]. exact Hle.
Qed.
End Refinement.

(** ** The two parser classes keep the laws *)

Lemma parseURI_frame t des c : frame c (snd (RequestParser.parseURI t des c)).
Proof.
  unfold RequestParser.parseURI, bind, ret, modify. repeat case_decide; by split.
Qed.

Lemma frame_trans {R} (c1 c2 c3 : Core R) : frame c1 c2 -> frame c2 c3 -> frame c1 c3.
Proof. intros [] []. split; auto; congruence. Qed.

Lemma frame_bind {R A B} (m : M (Core R) A) (k : A -> M (Core R) B) c :
  frame c (snd (m c)) -> (forall a c', frame c' (snd (k a c'))) -> frame c (snd (bind m k c)).
Proof.
  intros Hm Hk. unfold bind. destruct (m c) as [[a|e] c1]; cbn in *; [|done].
  by eapply frame_trans.
Qed.

Lemma frame_modify {R} (f : Core R -> Core R) c : frame c (f c) -> frame c (snd (modify f c)).
Proof. done. Qed.

Ltac frames :=
  repeat first
    [ progress case_decide
    | apply frame_bind; [|intros ? ?]
    | apply parseURI_frame
    | (apply frame_modify; by split)
    | case_match
    | by split ].

#[export] Instance request_laws : ParserLaws Request.HttpRequest.
Proof.
  split; [|cbn; unfold s_maxReqBufferSize; lia].
  intros line c. cbn [parseFirstLine RequestParser.parser]. unfold RequestParser.parseFirstLine.
  cbv zeta. frames.
Qed.

#[export] Instance response_laws : ParserLaws Response.HttpResponse.
Proof.
  split; [|cbn; unfold s_maxResBufferSize; lia].
  intros line c. cbn [parseFirstLine ResponseParser.parser]. unfold ResponseParser.parseFirstLine.
  cbv zeta. frames.
Qed.

(** ** Properties of both parsers *)

(** C3: parsing does not depend on how the bytes arrive.  For every way the
    peer's bytes can be cut into reads, a request or response parser gives
    the same answer (or the same exception) and the same message. *)
Theorem parse_segmentation {R} `{ParserLaws R} s1 s2 (m : R) :
  flowing s1 -> flowing s2 -> List.concat (incoming s1) = List.concat (incoming s2) ->
  pending s1 <= 2 ^ 60 ->
  let o1 := parse ((s1, newByteArray kInitSize), newCore m) in
  let o2 := parse ((s2, newByteArray kInitSize), newCore m) in
  fst o1 = fst o2 /\ snd (snd o1) = snd (snd o2).
Proof.
  intros Hf1 Hf2 Hc Hp.
  destruct (parse_flowing s1 m Hf1 Hp) as (r1 & c1 & q1 & sb1 & Hr1 & _ & E1).
  destruct (parse_flowing s2 m Hf2) as (r2 & c2 & q2 & sb2 & Hr2 & _ & E2).
  { unfold pending in *. by rewrite <- Hc. }
  rewrite Hc in Hr1. destruct (runs_det _ _ _ _ _ _ _ _ Hr1 Hr2) as (-> & -> & _).
  cbv zeta. by rewrite E1, E2.
Qed.

(** The exceptions a parser may leave with: [std::length_error] from a header
    without a value, and those of [std::stoi]. *)
Definition parser_exception (e : err) : Prop :=
  e = LengthError \/ e = InvalidArgument \/ e = OutOfRange.

Lemma stoi_exception s e : stoi s = Throw e -> parser_exception e.
Proof.
  unfold stoi, parser_exception. repeat case_match; intros; simplify_eq; auto.
Qed.

Lemma parseHeader_exception {R} `{ParserClass R} line (c : Core R) e :
  fst (parseHeader line c) = Throw e -> parser_exception e.
Proof.
  unfold parseHeader. case_decide; [done|]. case_match; [|done]. unfold check.
  case_match; [|cbn; intros [= <-]; by left].
  unfold bind, ret, modify, gets, id, throw.
  repeat (case_match; simplify_eq; cbn [fst] in *); intros; simplify_eq; by eapply stoi_exception.
Qed.

Lemma request_exception (c : Core Request.HttpRequest) q e c' q' :
  runs c q (Throw e) c' q' -> parser_exception e.
Proof.
  intros Hr. remember (Throw e) as r eqn:E. revert E.
  induction Hr as [|c q e' c' q' Hs|]; intros E; simplify_eq; [|by auto].
  unfold step in Hs. case_match; [done|]. destruct (parseState_ c).
  - unfold lineStep in Hs. case_match; [|done]. injection Hs as Hs _.
    assert (Hex : forall l c0, is_ok (fst (RequestParser.parseFirstLine l c0)) = true).
    { intros l c0. unfold RequestParser.parseFirstLine. cbv zeta.
      unfold RequestParser.parseURI, bind, modify, ret. by repeat case_decide. }
    specialize (Hex (take (Z.to_nat z) q) c). cbn [parseFirstLine RequestParser.parser] in Hs.
    by rewrite Hs in Hex.
  - unfold lineStep in Hs. case_match; [|done]. injection Hs as Hs _.
    eapply (parseHeader_exception (take (Z.to_nat z) q) c). by rewrite Hs.
  - unfold lineStep, parseChunkSize, modify in Hs. repeat case_match; simplify_eq.
Qed.

Lemma parse_request_throws s r0 e :
  flowing s -> pending s <= 2 ^ 60 ->
  fst (RequestParser.parseRequest (RequestParser.newParser s r0)) = Throw e -> parser_exception e.
Proof.
  intros Hf Hp. destruct (parse_flowing s r0 Hf Hp) as (r & c & q & sb & Hr & _ & E).
  unfold RequestParser.parseRequest, RequestParser.newParser. rewrite E. cbn [fst].
  destruct r as [[]|e']; cbn; [done|]. intros [= ->]. by eapply request_exception.
Qed.

(** C18: the request parser always returns, and without undefined behaviour:
    whatever the peer sends, it answers, or an exception of [std::string] or
    [std::stoi] leaves it. *)
Theorem parse_request_returns s r0 :
  flowing s -> pending s <= 2 ^ 60 ->
  exists p, RequestParser.parseRequest (RequestParser.newParser s r0) = p
    /\ ((exists b, fst p = Ok b /\ (b = true <-> finish_ (snd (snd p)) = true /\ error_ (snd (snd p)) = false))
        \/ (exists e, fst p = Throw e /\ parser_exception e)).
Proof.
  intros Hf Hp. eexists. split; [reflexivity|].
  destruct (parse_flowing s r0 Hf Hp) as (r & c & q & sb & Hr & _ & E).
  unfold RequestParser.parseRequest, RequestParser.newParser. rewrite E. cbn [fst snd].
  destruct r as [[]|e].
  - left. eexists. split; [reflexivity|]. destruct (finish_ c), (error_ c); cbn; naive_solver.
  - right. exists e. split; [done|]. by eapply request_exception.
Qed.
