(* ===== verification/HttpRoundTrip.v ===== *)
(** * What a message's dump is parsed to (src/reyao/http)

    [dump] of the message classes against the parsers of HttpParser.v: the
    round trips of requests and responses, and chunked bodies. *)

From S2P Require Import Prelude Util Endian ByteArray SocketStream HttpMessage HttpParser.

(** ** Lines *)

Lemma searchCRLF_line l rest : LF ∉ l -> searchCRLF (l ++ kCRLF ++ rest) = Some (zlen l).
Proof.
  induction l as [|c l IH]; intros Hl.
  { cbn. by rewrite decide_True. }
  apply not_elem_of_cons in Hl as [Hc Hl]. specialize (IH Hl). rewrite zlen_cons.
  cbn [app searchCRLF]. destruct (l ++ kCRLF ++ rest) as [|d q] eqn:E; [done|].
  rewrite decide_False.
  - rewrite IH. cbn. f_equal. lia.
  - intros [_ ->]. destruct l as [|e l]; cbn in E; [by injection E|].
    injection E as -> _. apply not_elem_of_cons in Hl as [? _]. done.
Qed.

Lemma find_char_app c a b : c ∉ a -> find_char c (a ++ c :: b) = length a.
Proof.
  induction a as [|d a IH]; intros Ha; cbn.
  - by rewrite decide_True.
  - apply not_elem_of_cons in Ha as [Hd Ha]. rewrite decide_False by done. by rewrite IH.
Qed.

Lemma find_char_none c a : c ∉ a -> find_char c a = length a.
Proof.
  induction a as [|d a IH]; intros Ha; cbn; [done|].
  apply not_elem_of_cons in Ha as [Hd Ha]. rewrite decide_False by done. by rewrite IH.
Qed.

Lemma take_exact {A} (a b : list A) : take (length a) (a ++ b) = a.
Proof. by rewrite take_app_length. Qed.

Lemma drop_exact {A} (a : list A) x b : drop (S (length a)) (a ++ x :: b) = b.
Proof. change (x :: b) with ([x] ++ b). rewrite app_assoc. apply drop_app_length'. rewrite length_app. cbn. lia. Qed.

(** ** Header fields *)

Section Fields.
Context {R : Type} `{ParserLaws R}.
Implicit Types c : Core R.

Definition field (h : bytes * bytes) : bytes := fst h ++ bs ": " ++ snd h ++ kCRLF.

(** A field that a parser takes as it stands: a name without colon and line
    break, a value without line break and not empty. *)
Record field_ok (h : bytes * bytes) : Prop := {
  fo_colon : ":"%char ∉ fst h;
  fo_cr : head (fst h ++ [":"%char]) <> Some CR;
  fo_lf : LF ∉ fst h;
  fo_value : snd h <> [];
  fo_value_lf : LF ∉ snd h;
  fo_size : zlen (snd h) <= 2 ^ 60
}.

(** ... and that says nothing about the body. *)
Definition plain (h : bytes * bytes) : Prop :=
  field_ok h /\ same_key (fst h) (bs "transfer-encoding") = false
  /\ same_key (fst h) (bs "content-length") = false.

Lemma parseHeader_field h c :
  field_ok h ->
  parseHeader (fst h ++ bs ": " ++ snd h) c =
  ((if same_key (fst h) (bs "transfer-encoding") && same_key (snd h) (bs "chunked")
       then modify (setChunked true) else ret tt) ;;;
      c <-- gets id ;;
      (if negb (chunked_ c) && same_key (fst h) (bs "content-length")
       then match stoi (snd h) with
            | Ok n => modify (setContentLen (u64 n))
            | Throw e => throw e
            end
       else ret tt) ;;;
      modify (onMsg (addHeader (fst h) (snd h)))) c.
Proof.
  destruct h as [k v]. cbn [fst snd]. intros [Hcol Hcr Hlf Hv Hvlf Hsz]. cbn [fst snd] in *.
  unfold parseHeader. rewrite decide_False.
  2:{ destruct k as [|x k]; [done|]. exact Hcr. }
  assert (Hf : find_char ":"%char (k ++ bs ": " ++ v) = length k)
    by (cbn [app list_ascii_of_string]; by apply find_char_app).
  rewrite Hf. assert (Hz : zlen (k ++ bs ": " ++ v) = zlen k + 2 + zlen v)
    by (rewrite !zlen_app; change (zlen (bs ": ")) with 2; lia).
  rewrite Hz. fold (zlen k).
  assert (Hpos : 0 < zlen v) by (destruct v; [done|rewrite zlen_cons; zlia]).
  pose proof (zlen_nonneg k).
  rewrite !(proj2 (Z.eqb_neq _ _)) by lia. cbn [negb andb].
  rewrite wrap_small by lia. unfold check. rewrite (proj2 (Z.leb_le _ _)) by (unfold string_max_size; lia).
  rewrite bind_ret. cbv zeta.
  replace (take (Z.to_nat (zlen k)) (k ++ bs ": " ++ v)) with k
    by (unfold zlen; by rewrite Nat2Z.id, take_exact).
  replace (drop (Z.to_nat (zlen k + 2)) (k ++ bs ": " ++ v)) with v; [done|].
  rewrite app_assoc. symmetry. apply drop_app_length'. rewrite length_app. unfold zlen. cbn. lia.
Qed.

Lemma parseHeader_plain h c :
  plain h -> parseHeader (fst h ++ bs ": " ++ snd h) c = (Ok tt, onMsg (addHeader (fst h) (snd h)) c).
Proof.
  intros (Hok & Ht & Hl). rewrite parseHeader_field by done. rewrite Ht, Hl.
  cbn [andb]. unfold bind, ret, gets, id, modify. cbn. by rewrite andb_false_r.
Qed.

Lemma parseHeader_length k n c :
  chunked_ c = false -> same_key k (bs "transfer-encoding") = false ->
  same_key k (bs "content-length") = true -> field_ok (k, dec n) -> 0 <= n < 2 ^ 31 ->
  parseHeader (k ++ bs ": " ++ dec n) c = (Ok tt, onMsg (addHeader k (dec n)) (setContentLen n c)).
Proof.
  intros Hc Ht Hl Hok Hn. rewrite (parseHeader_field (k, dec n)) by done. cbn [fst snd].
  rewrite Ht, Hl, stoi_dec by done. cbn [andb]. unfold bind, ret, gets, id, modify. rewrite Hc. cbn.
  by rewrite wrap_small by lia.
Qed.

Definition add_all (hs : list (bytes * bytes)) (m : R) : R :=
  foldl (fun m h => addHeader (fst h) (snd h) m) m hs.

(** A parser that has read the first line. *)
Record in_header (c : Core R) : Prop := {
  ih_state : parseState_ c = PARSE_HEADER;
  ih_error : error_ c = false;
  ih_finish : finish_ c = false;
  ih_chunked : chunked_ c = false;
  ih_len : contentLen_ c = 0
}.

Lemma line_run l rest c r c' q' :
  parseState_ c = PARSE_HEADER -> error_ c = false -> finish_ c = false -> LF ∉ l ->
  forall c1, parseHeader l c = (Ok tt, c1) -> runs c1 rest r c' q' ->
  runs c (l ++ kCRLF ++ rest) r c' q'.
Proof.
  intros Hs He Hf Hl c1 E Hr. eapply runs_step; [|exact Hr].
  unfold step. rewrite He, Hf, Hs. cbn [orb]. unfold lineStep. rewrite searchCRLF_line by done.
  do 2 f_equal.
  - rewrite take_app_le by (unfold zlen; lia). unfold zlen. rewrite Nat2Z.id, firstn_all. exact E.
  - rewrite app_assoc. apply drop_app_length'. rewrite length_app. unfold zlen. cbn. lia.
Qed.

Lemma lf_field h : field_ok h -> LF ∉ fst h ++ bs ": " ++ snd h.
Proof.
  intros [_ _ Hk _ Hv _]. rewrite !not_elem_of_app. split; [done|]. split; [|done].
  cbn. rewrite !elem_of_cons. intros [?|[?|?%elem_of_nil]]; done.
Qed.

Lemma fields_run hs rest c r c' q' :
  in_header c -> Forall plain hs -> runs (onMsg (add_all hs) c) rest r c' q' ->
  runs c (List.concat (map field hs) ++ rest) r c' q'.
Proof.
  intros Hc Hhs. revert c Hc. induction Hhs as [|h hs Hh _ IH]; intros c Hc Hr.
  { replace (onMsg (add_all []) c) with c in Hr by (by destruct c). done. }
  pose proof Hc as [Hs He Hf Hch Hl].
  cbn [map List.concat]. unfold field at 1. rewrite <- !app_assoc.
  rewrite (app_assoc (bs ": ")), (app_assoc (fst h)).
  eapply line_run; try done; [by apply lf_field, Hh|by apply parseHeader_plain|].
  apply IH; [by split|]. exact Hr.
Qed.

Lemma dec_field_ok k n :
  ":"%char ∉ k -> head (k ++ [":"%char]) <> Some CR -> LF ∉ k -> 0 <= n -> zlen (dec n) <= 2 ^ 60 ->
  field_ok (k, dec n).
Proof.
  intros. destruct (dec_spec n) as (c & l & E & Ha & _); [done|]. split; try done; cbn [snd].
  - by rewrite E.
  - intros Hin. rewrite E in Hin. rewrite forallb_forall in Ha. apply list_elem_of_In, Ha in Hin. done.
Qed.

(** The message a dump's fields and body make of a message. *)
Definition received (hs : list (bytes * bytes)) (cl body : bytes) (m : R) : R :=
  let m := add_all hs m in
  if decide (body = []) then m else setBody body (addHeader cl (dec (zlen body)) m).

Lemma end_of_header rest c r c' q' :
  parseState_ c = PARSE_HEADER -> error_ c = false -> finish_ c = false ->
  runs (setParseState PARSE_BODY c) rest r c' q' -> runs c (kCRLF ++ rest) r c' q'.
Proof.
  intros Hs He Hf Hr. change (kCRLF ++ rest) with ([] ++ kCRLF ++ rest).
  eapply line_run; try done. apply not_elem_of_nil.
Qed.

(** Fields and body, read to the end of the message. *)
Lemma message_run hs cl body rest c :
  in_header c -> Forall plain hs -> zlen body < 2 ^ 31 ->
  same_key cl (bs "transfer-encoding") = false -> same_key cl (bs "content-length") = true ->
  (forall n, 0 <= n < 2 ^ 31 -> field_ok (cl, dec n)) ->
  exists c', runs c (List.concat (map field hs)
      ++ (if decide (body = []) then kCRLF
          else cl ++ bs ": " ++ dec (zlen body) ++ kCRLF ++ kCRLF ++ body) ++ rest) (Ok tt) c' rest
    /\ finish_ c' = true /\ error_ c' = false /\ msg_ c' = received hs cl body (msg_ c).
Proof.
  intros Hc Hhs Hb Ht Hl Hcl. pose proof Hc as [Hs He Hf Hch Hlen].
  set (c1 := onMsg (add_all hs) c).
  unfold received. cbv zeta. case_decide as Hnil.
  - exists (setFinish true (setParseState PARSE_BODY c1)). split; [|done].
    apply fields_run; [done..|]. apply end_of_header; [done..|].
    eapply runs_step; [|apply runs_stop]; unfold step; cbn; rewrite He; cbn; [|done].
    rewrite Hf, Hch, Hlen. done.
  - set (n := zlen body) in *. assert (Hn : 0 < n) by (unfold n; destruct body; [done|rewrite zlen_cons; zlia]).
    set (c2 := onMsg (addHeader cl (dec n)) (setContentLen n c1)).
    exists (setFinish true (onMsg (setBody body) (setParseState PARSE_BODY c2))). split; [|done].
    apply fields_run; [done..|]. rewrite <- !app_assoc.
    rewrite (app_assoc (bs ": ")), (app_assoc cl).
    eapply (line_run _ _ c1); [done..| |apply parseHeader_length; try done; [apply Hcl|]; lia|].
    { apply (lf_field (cl, dec n)). apply Hcl. lia. }
    apply end_of_header; [done..|].
    eapply runs_step; [|apply runs_stop]; unfold step; cbn; rewrite He; cbn; [|done].
    rewrite Hf, Hch, (proj2 (Z.eqb_neq _ _)) by lia. rewrite zlen_app. fold n. zlens.
    rewrite (proj2 (Z.leb_le _ _)) by lia.
    unfold n, zlen. rewrite Nat2Z.id, take_exact, drop_app_length. done.
Qed.
End Fields.

Lemma dec_loop_length fuel n acc : (length (dec_loop fuel n acc) <= fuel + length acc)%nat.
Proof.
  revert n acc. induction fuel as [|fuel IH]; intros n acc; cbn [dec_loop]; [lia|].
  destruct (n <? 10); cbn [length]; [lia|]. specialize (IH (n / 10) (digit (n mod 10) :: acc)).
  cbn [length] in IH. lia.
Qed.

Lemma dec_length n : 0 <= n < 2 ^ 31 -> zlen (dec n) <= 32.
Proof.
  intros Hn. unfold dec, zlen.
  pose proof (dec_loop_length (S (Z.to_nat (Z.log2 n))) n []) as Hl. cbn [length] in Hl.
  assert (Z.log2 n < 31) by (destruct (decide (n = 0)) as [->|]; [done|apply Z.log2_lt_pow2; lia]).
  pose proof (Z.log2_nonneg n). lia.
Qed.

Lemma dec_clean c n : 0 <= n -> is_digit c = false -> c ∉ dec n.
Proof.
  intros Hn Hc Hin. destruct (dec_spec n Hn) as (d & l & E & Ha & _). rewrite E in Hin.
  rewrite forallb_forall in Ha. apply list_elem_of_In, Ha in Hin. by rewrite Hc in Hin.
Qed.

Definition not_connection (h : bytes * bytes) : bool := negb (same_key (fst h) (bs "connection")).

Lemma dump_headers hs :
  List.concat (map Request.dump_header hs) = List.concat (map field (List.filter not_connection hs)).
Proof.
  induction hs as [|h hs IH]; [done|]. cbn [map List.concat List.filter].
  unfold Request.dump_header at 1, not_connection at 1.
  destruct (same_key (fst h) (bs "connection")); cbn [negb]; [by rewrite IH|].
  cbn [map List.concat]. by rewrite IH.
Qed.

Lemma not_elem_dec {A} `{EqDecision A} (x : A) (l : list A) : bool_decide (x ∈ l) = false -> x ∉ l.
Proof. apply bool_decide_eq_false_1. Qed.

(** A [runs] over a first line. *)
Lemma first_line_run {R} `{ParserLaws R} (c : Core R) l rest r c' q' c1 :
  parseState_ c = PARSE_FIRST_LINE -> error_ c = false -> finish_ c = false -> LF ∉ l ->
  parseFirstLine l c = (Ok tt, c1) -> runs c1 rest r c' q' ->
  runs c (l ++ kCRLF ++ rest) r c' q'.
Proof.
  intros Hs He Hf Hl E Hr. eapply runs_step; [|exact Hr].
  unfold step. rewrite He, Hf, Hs. cbn [orb]. unfold lineStep. rewrite searchCRLF_line by done.
  do 2 f_equal.
  - rewrite take_app_le by (unfold zlen; lia). unfold zlen. rewrite Nat2Z.id, firstn_all. exact E.
  - rewrite app_assoc. apply drop_app_length'. rewrite length_app. unfold zlen. cbn. lia.
Qed.

(** ** Requests *)

Section Request_round_trip.
Import Request.

(** The requests whose dump denotes them. *)
Record request_ok (r : HttpRequest) : Prop := {
  rq_method : method_ r <> INVALID_METHOD;
  rq_version : version_ r = 16 \/ version_ r = 17;
  rq_path : head (path_ r) = Some "/"%char;
  rq_path_ok : Forall (fun c => c ∉ path_ r) [" "%char; "#"%char; "?"%char; LF];
  rq_query_ok : Forall (fun c => c ∉ query_ r) [" "%char; "#"%char; LF];
  rq_fragment_ok : Forall (fun c => c ∉ fragment_ r) [" "%char; LF];
  rq_headers : Forall plain (List.filter not_connection (headers_ r));
  rq_body : zlen (body_ r) < 2 ^ 31
}.

(** What the receiver has: the connection option and the body's length have
    become headers; the flag keeps the value [k] it had. *)
Definition received_request (k : bool) (r : HttpRequest) : HttpRequest :=
  received
    ((bs "connection", if keepAlive_ r then bs "keep-alive" else bs "close")
       :: List.filter not_connection (headers_ r))
    (bs "content-length") (body_ r)
    {| Request.method_ := method_ r; Request.version_ := version_ r; Request.keepAlive_ := k;
       Request.path_ := path_ r; Request.query_ := query_ r; Request.fragment_ := fragment_ r;
       Request.body_ := []; Request.headers_ := []; Request.params_ := []; Request.cookies_ := [] |}.

Definition target (r : HttpRequest) : bytes :=
  path_ r ++ (if decide (query_ r = []) then [] else bs "?") ++ query_ r
  ++ (if decide (fragment_ r = []) then [] else bs "#") ++ fragment_ r.

Lemma method_string m : m <> INVALID_METHOD ->
  (" "%char ∉ HttpMethodToString m) /\ (LF ∉ HttpMethodToString m)
  /\ StringToHttpMethod (HttpMethodToString m) = m.
Proof. intros Hm. destruct m; [| | |done]; (split_and!; [apply not_elem_dec; by vm_compute..|done]). Qed.

Lemma version_string v : v = 16 \/ v = 17 ->
  dump_version v = (if decide (v = 16) then bs "HTTP/1.0" else bs "HTTP/1.1")
  /\ (LF ∉ dump_version v).
Proof. intros [-> | ->]; (split; [done|apply not_elem_dec; by vm_compute]). Qed.

Ltac foralls := repeat match goal with
  | H : Forall _ (_ :: _) |- _ => apply Forall_cons in H as [? H]
  | H : Forall _ [] |- _ => clear H
  end.

Lemma target_clean r c : request_ok r -> c = " "%char \/ c = LF -> c ∉ target r.
Proof.
  intros [_ _ _ Hp Hq Hf _ _] Hc. foralls. unfold target. rewrite !not_elem_of_app.
  destruct Hc as [-> | ->]; split_and!; try done; case_decide; apply not_elem_dec; by vm_compute.
Qed.

(** Splitting the target into its parts. *)
Lemma parse_target r (c : Core HttpRequest) :
  request_ok r -> query_ (msg_ c) = [] -> fragment_ (msg_ c) = [] ->
  (t <-- RequestParser.parseURI (target r) "#"%char ;;
   t <-- RequestParser.parseURI t "?"%char ;;
   RequestParser.parseURI t "/"%char ;;;
   modify (setParseState PARSE_HEADER)) c
  = (Ok tt, setParseState PARSE_HEADER
       (onMsg (fun m => setPath (path_ r) (setQuery (query_ r) (setFragment (fragment_ r) m))) c)).
Proof.
  intros [_ _ Hs Hp Hq Hf _ _] Hq0 Hf0. foralls.
  set (pq := path_ r ++ (if decide (query_ r = []) then [] else bs "?") ++ query_ r).
  assert (E1 : RequestParser.parseURI (target r) "#"%char c
               = (Ok pq, onMsg (setFragment (fragment_ r)) c)).
  { assert (Hpq : "#"%char ∉ pq).
    { unfold pq. rewrite !not_elem_of_app. split_and!; try done.
      case_decide; apply not_elem_dec; by vm_compute. }
    assert (Et : target r = pq ++ (if decide (fragment_ r = []) then [] else bs "#") ++ fragment_ r)
      by (unfold target, pq; by rewrite <- !app_assoc).
    rewrite Et. unfold RequestParser.parseURI. destruct (decide (fragment_ r = [])) as [Hfr|Hfr].
    - rewrite Hfr, !app_nil_r, find_char_none, decide_True by done.
      rewrite bind_ret, firstn_all. unfold ret. do 2 f_equal. destruct c as [? ? ? ? ? ? ? ? ? m].
      unfold onMsg. cbn in *. f_equal. rewrite <- Hf0. by destruct m.
    - cbn [list_ascii_of_string app]. rewrite find_char_app by done. rewrite length_app. cbn [length].
      rewrite decide_False by lia. rewrite decide_True by done.
      unfold bind, modify, ret. by rewrite drop_exact, take_exact. }
  rewrite (bind_ok _ _ _ _ _ E1). set (c1 := onMsg _ c) in *.
  assert (E2 : RequestParser.parseURI pq "?"%char c1 = (Ok (path_ r), onMsg (setQuery (query_ r)) c1)).
  { unfold pq, RequestParser.parseURI. destruct (decide (query_ r = [])) as [Hqr|Hqr].
    - rewrite Hqr, !app_nil_r, find_char_none, decide_True by done.
      rewrite bind_ret, firstn_all. unfold ret, c1. destruct c as [? ? ? ? ? ? ? ? ? m].
      destruct m. cbn in *. by subst.
    - cbn [list_ascii_of_string app]. rewrite find_char_app by done. rewrite length_app. cbn [length].
      rewrite decide_False by lia. rewrite decide_False, decide_True by done.
      unfold bind, modify, ret. by rewrite drop_exact, take_exact. }
  rewrite (bind_ok _ _ _ _ _ E2). set (c2 := onMsg _ c1) in *.
  assert (E3 : RequestParser.parseURI (path_ r) "/"%char c2 = (Ok [], onMsg (setPath (path_ r)) c2)).
  { unfold RequestParser.parseURI. destruct (path_ r) as [|x p]; [done|]. cbn in Hs.
    injection Hs as ->. reflexivity. }
  by rewrite (bind_ok _ _ _ _ _ E3).
Qed.

Definition first_line (r : HttpRequest) : bytes :=
  HttpMethodToString (method_ r) ++ bs " " ++ target r ++ bs " " ++ dump_version (version_ r).

Lemma parse_first_line r (v : Z) (k : bool) :
  request_ok r ->
  exists c, RequestParser.parseFirstLine (first_line r) (newCore (newRequest v k)) = (Ok tt, c)
    /\ in_header c
    /\ msg_ c = {| Request.method_ := method_ r; Request.version_ := version_ r;
         Request.keepAlive_ := k; Request.path_ := path_ r; Request.query_ := query_ r;
         Request.fragment_ := fragment_ r; Request.body_ := []; Request.headers_ := [];
         Request.params_ := []; Request.cookies_ := [] |}.
Proof.
  intros Hr. destruct (method_string _ (rq_method r Hr)) as (Hm1 & _ & Hm2).
  destruct (version_string _ (rq_version r Hr)) as (Ev & _).
  pose proof (target_clean r " "%char Hr (or_introl eq_refl)) as Ht.
  unfold RequestParser.parseFirstLine, first_line. cbv zeta. cbn [list_ascii_of_string app].
  rewrite find_char_app by done. rewrite decide_False by (rewrite length_app; cbn; lia).
  rewrite take_exact, drop_exact, Hm2. rewrite find_char_app by done.
  unfold modify at 1. erewrite bind_ok by reflexivity.
  rewrite decide_False by (rewrite length_app; cbn; lia). rewrite take_exact, drop_exact, Ev.
  assert (Hslash : find_char "/"%char (target r) = 0%nat /\ target r <> []).
  { unfold target. pose proof (rq_path r Hr) as Hp. destruct (path_ r) as [|x p]; [done|].
    injection Hp as ->. cbn. by rewrite decide_True. }
  destruct Hslash as [-> Hne]. rewrite drop_0.
  assert (Hlen : 0%nat <> length (target r)) by (destruct (target r); done).
  destruct (rq_version r Hr) as [Hv | Hv]; rewrite Hv.
  - rewrite (decide_True (P := 16 = 16)), decide_True by done.
    unfold modify at 1. erewrite bind_ok by reflexivity. rewrite decide_False by done.
    rewrite parse_target by done. eexists. split; [reflexivity|]. split; [by split|done].
  - rewrite (decide_False (P := 17 = 16)), decide_False, decide_True by done.
    unfold modify at 1. erewrite bind_ok by reflexivity. rewrite decide_False by done.
    rewrite parse_target by done. eexists. split; [reflexivity|]. split; [by split|done].
Qed.
Lemma plain_connection v :
  v = bs "keep-alive" \/ v = bs "close" \/ v = bs "Keep-Alive" \/ v = bs "Close" ->
  forall k, k = bs "connection" \/ k = bs "Connection" -> plain (k, v).
Proof.
  intros Hv k Hk. split; [|by destruct Hk as [-> | ->]].
  destruct Hk as [-> | ->], Hv as [->|[->|[->| ->]]];
    (split; cbn [fst snd]; first [apply not_elem_dec; by vm_compute | by vm_compute]).
Qed.

Lemma length_field k n :
  k = bs "content-length" \/ k = bs "Content-Length" -> 0 <= n < 2 ^ 31 -> field_ok (k, dec n).
Proof.
  intros Hk Hn. pose proof (dec_length n Hn).
  destruct Hk as [-> | ->]; (apply dec_field_ok; [apply not_elem_dec; by vm_compute|by vm_compute|
    apply not_elem_dec; by vm_compute|lia|lia]).
Qed.

Lemma field_eq k v : field (k, v) = k ++ bs ": " ++ v ++ kCRLF.
Proof. done. Qed.

Lemma dump_request r :
  dump r = first_line r ++ kCRLF
    ++ List.concat (map field ((bs "connection", if keepAlive_ r then bs "keep-alive" else bs "close")
                                :: List.filter not_connection (headers_ r)))
    ++ (if decide (body_ r = []) then kCRLF
        else bs "content-length" ++ bs ": " ++ dec (zlen (body_ r)) ++ kCRLF ++ kCRLF ++ body_ r) ++ [].
Proof.
  unfold dump, first_line, target. rewrite dump_headers. cbn [map List.concat].
  rewrite field_eq. change (bs "connection: ") with (bs "connection" ++ bs ": ").
  change (bs "content-length: ") with (bs "content-length" ++ bs ": ").
  rewrite app_nil_r, <- !app_assoc. done.
Qed.

Lemma request_run r v k :
  request_ok r ->
  exists c, runs (newCore (newRequest v k)) (dump r) (Ok tt) c []
    /\ finish_ c = true /\ error_ c = false /\ msg_ c = received_request k r.
Proof.
  intros Hr. destruct (parse_first_line r v k Hr) as (c1 & E1 & Hc1 & Hm1).
  destruct (message_run ((bs "connection", if keepAlive_ r then bs "keep-alive" else bs "close")
              :: List.filter not_connection (headers_ r)) (bs "content-length") (body_ r) [] c1 Hc1)
    as (c2 & Hrun2 & Hf2 & He2 & Hm2); [|apply Hr|done|done|by intros; apply length_field; [left|]|].
  { constructor; [|apply Hr]. apply plain_connection; [|by left]. destruct (keepAlive_ r); auto. }
  assert (Hlf : LF ∉ first_line r).
  { unfold first_line. rewrite !not_elem_of_app. split_and!.
    - by apply method_string, Hr.
    - apply not_elem_dec; by vm_compute.
    - apply target_clean; auto.
    - apply not_elem_dec; by vm_compute.
    - by apply version_string, Hr. }
  exists c2. rewrite dump_request. split; [|split_and!; [done..|by rewrite Hm2, Hm1]].
  exact (first_line_run (newCore (newRequest v k)) (first_line r) _ _ _ _ c1
           eq_refl eq_refl eq_refl Hlf E1 Hrun2).
Qed.

Lemma request_parsed r s v k :
  request_ok r -> flowing s -> List.concat (incoming s) = dump r -> zlen (dump r) <= 2 ^ 60 ->
  exists sb c, RequestParser.parseRequest (RequestParser.newParser s (newRequest v k)) = (Ok true, (sb, c))
    /\ msg_ c = received_request k r.
Proof.
  intros Hr Hf Hin Hlen.
  destruct (parse_flowing s (newRequest v k) Hf) as (r0 & c0 & q0 & sb & Hrun & _ & E).
  { unfold pending. by rewrite Hin. }
  destruct (request_run r v k Hr) as (c & Hrun2 & Hfi & He & Hm). rewrite Hin in Hrun.
  destruct (runs_det _ _ _ _ _ _ _ _ Hrun Hrun2) as (-> & -> & ->).
  exists sb, c. unfold RequestParser.parseRequest, RequestParser.newParser. rewrite E. unfold verdict.
  by rewrite Hfi, He.
Qed.

(** The parser of a request that ends with a piece reads no further. *)
Lemma request_exact r s v k ps rest :
  request_ok r -> flowing s -> pending s <= 2 ^ 60 -> incoming s = ps ++ rest -> List.concat ps = dump r ->
  exists b c, RequestParser.parseRequest (RequestParser.newParser s (newRequest v k))
      = (Ok true, ((setIncoming rest s, b), c))
    /\ msg_ c = received_request k r.
Proof.
  intros Hr Hf Hp Hin Hc. destruct (request_run r v k Hr) as (c & Hrun & Hfi & He & Hm). rewrite <- Hc in Hrun.
  destruct (parse_exact s (newRequest v k) ps rest c Hf Hp Hin Hrun Hfi He) as (b & E). by exists b, c.
Qed.

(** C4: requests round-trip.  The bytes [dump] writes for a request, cut into
    any reads, are parsed to the same method, version, path, query, fragment,
    headers and body; the connection option and the content length have
    become headers. *)
Theorem request_round_trip r s v k :
  request_ok r -> flowing s -> List.concat (incoming s) = dump r -> zlen (dump r) <= 2 ^ 60 ->
  exists sb c, RequestParser.parseRequest (RequestParser.newParser s (newRequest v k)) = (Ok true, (sb, c))
    /\ msg_ c = received_request k r.
Proof. apply request_parsed. Qed.
End Request_round_trip.

(** ** Responses *)

Section Response_round_trip.
Import Response.

Record response_ok (r : HttpResponse) : Prop := {
  rp_version : version_ r = 16 \/ version_ r = 17;
  rp_reason : LF ∉ reason_ r;
  rp_headers : Forall plain (List.filter not_connection (headers_ r));
  rp_body : zlen (body_ r) < 2 ^ 31
}.

Definition reason_phrase (r : HttpResponse) : bytes :=
  if decide (reason_ r = []) then HttpStatusToString (status_ r) else reason_ r.

(** What the receiver has: the reason phrase keeps the space before it. *)
Definition received_response (k : bool) (r : HttpResponse) : HttpResponse :=
  received
    ((bs "Connection", if keepAlive_ r then bs "Keep-Alive" else bs "Close")
       :: List.filter not_connection (headers_ r))
    (bs "Content-Length") (body_ r)
    {| Response.status_ := status_ r; Response.version_ := version_ r; Response.keepAlive_ := k;
       Response.body_ := []; Response.reason_ := bs " " ++ reason_phrase r;
       Response.headers_ := [] |}.

Definition status_line (r : HttpResponse) : bytes :=
  Request.dump_version (version_ r) ++ bs " " ++ dec (status_num (status_ r)) ++ bs " " ++ reason_phrase r.

Lemma status_facts st :
  stoi (dec (status_num st)) = Ok (status_num st) /\ isHttpStatus (status_num st) = true
  /\ toHttpStatus (status_num st) = st /\ (" "%char ∉ dec (status_num st))
  /\ (LF ∉ dec (status_num st)) /\ (LF ∉ HttpStatusToString st).
Proof. destruct st; (split_and!; first [done | apply not_elem_dec; by vm_compute]). Qed.

Lemma parse_status_line r v k :
  response_ok r ->
  exists c, ResponseParser.parseFirstLine (status_line r) (newCore (newResponse v k)) = (Ok tt, c)
    /\ in_header c
    /\ msg_ c = {| Response.status_ := status_ r; Response.version_ := version_ r;
         Response.keepAlive_ := k; Response.body_ := []; Response.reason_ := bs " " ++ reason_phrase r;
         Response.headers_ := [] |}.
Proof.
  intros Hr. destruct (status_facts (status_ r)) as (Hs1 & Hs2 & Hs3 & Hs4 & _).
  destruct (version_string _ (rp_version r Hr)) as (Ev & _).
  assert (Hsp : " "%char ∉ Request.dump_version (version_ r)).
  { rewrite Ev. case_decide; apply not_elem_dec; by vm_compute. }
  unfold ResponseParser.parseFirstLine, status_line. cbv zeta. cbn [list_ascii_of_string app].
  rewrite find_char_app by done. rewrite decide_False by (rewrite length_app; cbn; lia).
  rewrite take_exact, drop_exact. rewrite find_char_app by done.
  rewrite (decide_False (P := _ = length (dec _ ++ _))) by (rewrite length_app; cbn; lia).
  rewrite take_exact, Hs1, Hs2, Hs3. cbn [negb]. rewrite drop_app_length, Ev.
  destruct (rp_version r Hr) as [Hv | Hv]; rewrite Hv.
  - rewrite (decide_True (P := 16 = 16)), decide_True by done. eexists.
    split; [reflexivity|]. split; [by split|]. done.
  - rewrite (decide_False (P := 17 = 16)), decide_False, decide_True by done. eexists.
    split; [reflexivity|]. split; [by split|]. done.
Qed.

Lemma dump_response r :
  dump r = status_line r ++ kCRLF
    ++ List.concat (map field ((bs "Connection", if keepAlive_ r then bs "Keep-Alive" else bs "Close")
                                :: List.filter not_connection (headers_ r)))
    ++ (if decide (body_ r = []) then kCRLF
        else bs "Content-Length" ++ bs ": " ++ dec (zlen (body_ r)) ++ kCRLF ++ kCRLF ++ body_ r) ++ [].
Proof.
  unfold dump, status_line. rewrite dump_headers. cbn [map List.concat].
  rewrite field_eq. change (bs "Connection: ") with (bs "Connection" ++ bs ": ").
  change (bs "Content-Length: ") with (bs "Content-Length" ++ bs ": ").
  fold (reason_phrase r). rewrite app_nil_r, <- !app_assoc. done.
Qed.

Lemma response_parsed r s v k :
  response_ok r -> flowing s -> List.concat (incoming s) = dump r -> zlen (dump r) <= 2 ^ 60 ->
  exists sb c, ResponseParser.parseResponse (ResponseParser.newParser s (newResponse v k)) = (Ok true, (sb, c))
    /\ msg_ c = received_response k r.
Proof.
  intros Hr Hf Hin Hlen.
  destruct (parse_flowing s (newResponse v k) Hf) as (r0 & c0 & q0 & sb & Hrun & _ & E).
  { unfold pending. by rewrite Hin. }
  destruct (parse_status_line r v k Hr) as (c1 & E1 & Hc1 & Hm1).
  destruct (message_run ((bs "Connection", if keepAlive_ r then bs "Keep-Alive" else bs "Close")
              :: List.filter not_connection (headers_ r)) (bs "Content-Length") (body_ r) [] c1 Hc1)
    as (c2 & Hrun2 & Hf2 & He2 & Hm2); [|apply Hr|done|done|by intros; apply length_field; [right|]|].
  { constructor; [|apply Hr]. apply plain_connection; [|by right]. destruct (keepAlive_ r); auto. }
  rewrite Hin, dump_response in Hrun.
  assert (Hlf : LF ∉ status_line r).
  { destruct (status_facts (status_ r)) as (_ & _ & _ & _ & Hl1 & Hl2).
    unfold status_line, reason_phrase. rewrite !not_elem_of_app. split_and!; try done.
    - by apply version_string, Hr.
    - apply not_elem_dec; by vm_compute.
    - apply not_elem_dec; by vm_compute.
    - destruct (decide (reason_ r = [])); [exact Hl2|apply Hr]. }
  pose proof (first_line_run (newCore (newResponse v k)) (status_line r) _ _ _ _ c1
                eq_refl eq_refl eq_refl Hlf E1 Hrun2) as Hrun3.
  destruct (runs_det _ _ _ _ _ _ _ _ Hrun Hrun3) as (-> & -> & ->).
  exists sb, c2. unfold ResponseParser.parseResponse, ResponseParser.newParser. rewrite E. unfold verdict.
  rewrite Hf2, He2. split; [done|]. by rewrite Hm2, Hm1.
Qed.

(** Responses round-trip, but for the reason phrase: the parser stores it
    with the space that separates it from the status code.  Status, version,
    headers and body come back as they were sent, however the bytes are cut. *)
Theorem response_round_trip r s v k :
  response_ok r -> flowing s -> List.concat (incoming s) = dump r -> zlen (dump r) <= 2 ^ 60 ->
  exists sb c, ResponseParser.parseResponse (ResponseParser.newParser s (newResponse v k)) = (Ok true, (sb, c))
    /\ msg_ c = received_response k r.
Proof. apply response_parsed. Qed.
End Response_round_trip.

(** ** Chunked bodies *)

Section Chunked.
Context {R : Type} `{ParserLaws R}.

(** A chunk on the wire: its size line, the data, and a line break. *)
Definition chunk (hd : bytes * bytes) : bytes := fst hd ++ kCRLF ++ snd hd ++ kCRLF.

Definition chunk_ok (hd : bytes * bytes) : Prop :=
  (LF ∉ fst hd) /\ HexToDec (fst hd) = zlen (snd hd) /\ 0 < zlen (snd hd) < 2 ^ 31.

Lemma chunks_run cs last rest (c : Core R) :
  in_chunks c -> chunkSize_ c = 0 -> Forall chunk_ok cs -> (LF ∉ last) -> HexToDec last = 0 ->
  exists c', runs c (List.concat (map chunk cs) ++ last ++ kCRLF ++ rest) (Ok tt) c' rest
    /\ finish_ c' = true /\ error_ c' = false
    /\ msg_ c' = setBody (body_ c ++ List.concat (map (fun hd => snd hd ++ kCRLF) cs)) (msg_ c).
Proof.
  intros Hc Hz Hcs Hlf Hlast. revert c Hc Hz.
  induction Hcs as [|[h d] cs (Hl & Hx & Hd) _ IH]; intros c Hc Hz; cbn [fst snd] in *.
  - pose proof Hc as [[? ? ? ?] He Hf Hs Hch].
    eexists. split.
    { eapply runs_step; [|apply runs_stop].
      - unfold step. rewrite He, Hf, Hs, Hch, Hz. cbn [orb Z.eqb map List.concat app].
        unfold lineStep. rewrite searchCRLF_line by done. f_equal.
        rewrite take_app_le by (unfold zlen; lia). unfold zlen. rewrite Nat2Z.id, firstn_all.
        unfold parseChunkSize, modify. rewrite Hlast. cbv beta zeta. change (u64 0 =? u64 (-1)) with false. change (u64 0 =? 0) with true. cbv iota. f_equal.
        rewrite app_assoc. apply drop_app_length'. rewrite length_app. cbn. lia.
      - unfold step. cbn. by rewrite He. }
    cbn. rewrite app_nil_r. done.
  - pose proof Hc as [[? ? ? ?] He Hf Hs Hch].
    set (c1 := setChunk (zlen d) PARSE_CHUNK_CONTENT c).
    set (c2 := setChunk 0 PARSE_CHUNK_SIZE (appendBody (d ++ kCRLF) c1)).
    destruct (IH c2) as (c' & Hr & Hf' & He' & Hm'); [|done|].
    { split; try done; split; cbn; (done || lia). }
    exists c'. split; [|split; [done|split; [done|]]].
    + cbn [map List.concat]. unfold chunk at 1. cbn [fst snd]. rewrite <- !app_assoc.
      set (tl := List.concat _ ++ _) in *.
      eapply (runs_step _ _ c1 (d ++ kCRLF ++ tl)).
      { unfold step. rewrite He, Hf, Hs, Hch, Hz. cbn [orb Z.eqb].
        unfold lineStep. rewrite searchCRLF_line by done. f_equal.
        rewrite take_app_le by (unfold zlen; lia). unfold zlen. rewrite Nat2Z.id, firstn_all.
        unfold parseChunkSize, modify. rewrite Hx. rewrite wrap_small by lia.
        rewrite !(proj2 (Z.eqb_neq _ _)) by (try change (u64 (-1)) with (2 ^ 64 - 1); lia).
        f_equal. rewrite app_assoc. apply drop_app_length'. rewrite length_app. cbn. lia. }
      eapply (runs_step _ _ c2 tl); [|exact Hr].
      unfold step, c1. cbn [setChunk error_ finish_ parseState_ chunked_ chunkSize_].
      rewrite He, Hf, Hs, Hch. cbn [orb]. rewrite (proj2 (Z.eqb_neq _ _)) by lia.
      rewrite wrap_small by lia. rewrite (app_assoc d).
      assert (Hdl : zlen (d ++ kCRLF) = zlen d + 2) by (rewrite zlen_app; done).
      rewrite zlen_app, Hdl, (proj2 (Z.leb_le _ _)) by zlia. rewrite <- Hdl.
      replace (Z.to_nat (zlen (d ++ kCRLF))) with (length (d ++ kCRLF)) by (unfold zlen; lia).
      rewrite take_exact, drop_app_length. done.
    + rewrite Hm'. cbn [c2 c1 setChunk appendBody body_ msg_ map List.concat]. cbn [snd].
      by rewrite <- !app_assoc.
Qed.

(** A chunked body that has arrived is decoded to the concatenation of
    its chunks, each still followed by the CRLF that ends it on the wire; the
    empty line that ends the body (and its trailers) stays in the buffer. *)
Theorem chunked_body_keeps_crlf s b (c : Core R) cs last rest :
  in_chunks c -> chunkSize_ c = 0 -> body_ c = [] ->
  Forall chunk_ok cs -> (LF ∉ last) -> HexToDec last = 0 ->
  rep b (List.concat (map chunk cs) ++ last ++ kCRLF ++ rest) ->
  writePos_ b + pending s <= 2 ^ 62 ->
  exists b' c', parseChunkedBody ((s, b), c) = (Ok tt, ((s, b'), c')) /\ rep b' rest
    /\ finish_ c' = true /\ error_ c' = false
    /\ msg_ c' = setBody (List.concat (map (fun hd => snd hd ++ kCRLF) cs)) (msg_ c).
Proof.
  intros Hc Hz Hb Hcs Hlf Hlast Hrep Hroom.
  destruct (chunks_run cs last rest c Hc Hz Hcs Hlf Hlast) as (c' & Hr & Hf & He & Hm).
  set (q := List.concat _ ++ _) in *.
  destruct (parseChunked_runs (Z.to_nat (2 * zlen q + 2)) s q c Hc) as (r2 & c2 & q2 & Hr2 & E2).
  { unfold zlen. case_match; lia. }
  destruct (runs_det _ _ _ _ _ _ _ _ Hr Hr2) as (<- & <- & <-).
  assert (Hs : sim same_parser (parseChunkedBody (R := R) (B := ByteArray)) (parseChunkedBody (B := bytes)))
    by (apply readable_sim; intros; apply parseChunked_sim).
  destruct (Hs ((s, b), c) ((s, q), c)) as [E1 [[Hs1 Hs2 _] Hs3 _]].
  { split; cbn [fst snd]; [|done|apply (co_len c (ic_ok c Hc))]. by split. }
  assert (Eq : parseChunkedBody (B := bytes) ((s, q), c) = (Ok tt, ((s, rest), c'))) by exact E2.
  rewrite Eq in *. destruct (parseChunkedBody ((s, b), c)) as [r1 [[s1 b1] c1]].
  cbn [fst snd] in *. subst. exists b1, c'. rewrite Hb in Hm. done.
Qed.
End Chunked.

(** ** Concrete messages *)

Definition peer (l : list bytes) : Sock :=
  {| connected := true; incoming := l; accepts := []; outgoing := [] |}.

Definition demo_request : Request.HttpRequest :=
  Request.setBody (bs "xyz") (Request.setQuery (bs "k=v") (Request.setPath (bs "/a/b")
    (Request.addHeader (bs "Host") (bs "h") (Request.setMethod POST (Request.newRequest 17 true))))).

Ltac check_bytes := first [apply not_elem_dec; by vm_compute | by vm_compute | done].

Lemma demo_request_ok : request_ok demo_request.
Proof.
  split; [done|by right|done| | | |..]; try (repeat constructor; check_bytes).
Qed.

Lemma request_round_trip_witness :
  exists sb c,
    RequestParser.parseRequest (RequestParser.newParser
      (peer [take 20 (Request.dump demo_request); drop 20 (Request.dump demo_request)])
      (Request.newRequest 17 false)) = (Ok true, (sb, c))
    /\ Request.path_ (msg_ c) = bs "/a/b" /\ Request.body_ (msg_ c) = bs "xyz".
Proof.
  destruct (request_round_trip demo_request
    (peer [take 20 (Request.dump demo_request); drop 20 (Request.dump demo_request)]) 17 false
    demo_request_ok) as (sb & c & E & Hm).
  - split; [done|]. repeat constructor; by vm_compute.
  - by vm_compute.
  - by vm_compute.
  - exists sb, c. split; [exact E|]. rewrite Hm. split; by vm_compute.
Defined.

Definition demo_response : Response.HttpResponse :=
  Response.setBody (bs "xyz") (Response.addHeader (bs "Server") (bs "Reyao") (Response.newResponse 17 true)).

Lemma response_round_trip_witness :
  exists sb c,
    ResponseParser.parseResponse (ResponseParser.newParser
      (peer [Response.dump demo_response]) (Response.newResponse 17 false)) = (Ok true, (sb, c))
    /\ Response.reason_ (msg_ c) = bs " OK".
Proof.
  destruct (response_round_trip demo_response (peer [Response.dump demo_response]) 17 false)
    as (sb & c & E & Hm).
  - split; [by right|check_bytes| |by vm_compute]. repeat constructor; check_bytes.
  - split; [done|]. repeat constructor; by vm_compute.
  - by vm_compute.
  - by vm_compute.
  - exists sb, c. split; [exact E|]. rewrite Hm. by vm_compute.
Defined.

Lemma chunked_body_keeps_crlf_witness :
  exists b' c', RequestParser.parseChunkedBody
      ((peer [], snd (write (bs "3" ++ kCRLF ++ bs "abc" ++ kCRLF ++ bs "0" ++ kCRLF ++ kCRLF)
                        (newByteArray kInitSize))),
       setChunked true (setParseState PARSE_BODY (newCore (Request.newRequest 17 false))))
    = (Ok tt, ((peer [], b'), c'))
    /\ contents b' = kCRLF /\ Request.body_ (msg_ c') = bs "abc" ++ kCRLF.
Proof.
  set (wire := bs "3" ++ kCRLF ++ bs "abc" ++ kCRLF ++ bs "0" ++ kCRLF ++ kCRLF).
  assert (Hb : rep (snd (write wire (newByteArray kInitSize))) wire).
  { destruct (write_spec wire (newByteArray kInitSize) []) as (b1 & E1 & Hb1 & _);
      [by apply new_rep|by vm_compute|]. by rewrite E1. }
  destruct (chunked_body_keeps_crlf (peer []) (snd (write wire (newByteArray kInitSize)))
    (setChunked true (setParseState PARSE_BODY (newCore (Request.newRequest 17 false))))
    [(bs "3", bs "abc")] (bs "0") kCRLF) as (b' & c' & E & Hr & _ & _ & Hm).
  - split; try done; split; try done; by cbn.
  - done.
  - done.
  - constructor; [|done]. split; [check_bytes|]. by vm_compute.
  - check_bytes.
  - by vm_compute.
  - exact Hb.
  - by vm_compute.
  - exists b', c'. split; [exact E|]. split; [apply Hr|]. rewrite Hm. by vm_compute.
Defined.

Lemma parse_segmentation_witness :
  let run l := RequestParser.parseRequest (RequestParser.newParser (peer l) (Request.newRequest 17 false)) in
  let d := Request.dump demo_request in
  fst (run [d]) = fst (run [take 1 d; take 30 (drop 1 d); drop 31 d])
  /\ snd (snd (run [d])) = snd (snd (run [take 1 d; take 30 (drop 1 d); drop 31 d])).
Proof.
  cbv zeta. set (d := Request.dump demo_request).
  apply (parse_segmentation (peer [d]) (peer [take 1 d; take 30 (drop 1 d); drop 31 d])).
  - split; [done|]. repeat constructor; by vm_compute.
  - split; [done|]. repeat constructor; by vm_compute.
  - by vm_compute.
  - by vm_compute.
Defined.

(** A header without a value. *)
Lemma parse_request_returns_witness :
  fst (RequestParser.parseRequest (RequestParser.newParser
         (peer [bs "GET / HTTP/1.1" ++ kCRLF ++ bs "Foo:" ++ kCRLF ++ kCRLF]) (Request.newRequest 17 false)))
  = Throw LengthError /\ parser_exception LengthError.
Proof.
  destruct (parse_request_returns (peer [bs "GET / HTTP/1.1" ++ kCRLF ++ bs "Foo:" ++ kCRLF ++ kCRLF])
              (Request.newRequest 17 false)) as (p & E & Hp).
  - split; [done|]. repeat constructor; by vm_compute.
  - by vm_compute.
  - assert (Hf : fst p = Throw LengthError) by (rewrite <- E; by vm_compute).
    destruct Hp as [(b & Hb & _)|(e & He & Hx)]; [by rewrite Hf in Hb|].
    rewrite Hf in He. injection He as <-. rewrite E. split; [exact Hf|exact Hx].
Defined.
