(* ===== verification/HttpServlet.v ===== *)
(** * Servlets, sessions and the server (src/reyao/http/http_servlet.*,
      http_session.*, http_server.* )

    Dispatch of a request to a servlet by its path, and the loop that serves
    a connection.  [fnmatch] is the C library's: a parameter, as are the
    user's servlets, functions from the request to a change of the response. *)

From S2P Require Import Prelude Util Endian ByteArray SocketStream HttpMessage HttpParser HttpRoundTrip.
Import Request (HttpRequest, newRequest).
Import Response (HttpResponse, newResponse).

Definition Servlet : Type := HttpRequest -> HttpResponse -> HttpResponse.

(** ** NoFoundServlet *)

Definition notFoundContent (server_name : bytes) : bytes :=
  bs "<html><head><title>404 Not Found" ++
  bs "</title></head><body><center><h1>404 Not Found</h1></center>" ++
  bs "<hr><center>" ++ server_name ++ bs "</center></body></html>".

Definition NoFoundServlet (server_name : bytes) : Servlet := fun _ rsp =>
  Response.setBody (notFoundContent server_name)
    (Response.addHeader (bs "Content-Type") (bs "text/html")
      (Response.addHeader (bs "Server") (bs "Reyao")
        (Response.setStatus NOT_FOUND rsp))).

(** ** ServletDispatch *)

Record ServletDispatch := {
  servlets_ : gmap bytes Servlet;
  globals_ : list (bytes * Servlet);
  default_ : option Servlet
}.

Definition newServletDispatch : ServletDispatch :=
  {| servlets_ := ∅; globals_ := []; default_ := Some (NoFoundServlet (bs "Reyao")) |}.

Definition setServlets (m : gmap bytes Servlet) (d : ServletDispatch) : ServletDispatch :=
  {| servlets_ := m; globals_ := globals_ d; default_ := default_ d |}.
Definition setGlobals (l : list (bytes * Servlet)) (d : ServletDispatch) : ServletDispatch :=
  {| servlets_ := servlets_ d; globals_ := l; default_ := default_ d |}.
Definition setDefault (s : option Servlet) (d : ServletDispatch) : ServletDispatch :=
  {| servlets_ := servlets_ d; globals_ := globals_ d; default_ := s |}.

Definition addServlet (uri : bytes) (s : Servlet) : M ServletDispatch unit :=
  modify (fun d => setServlets (<[uri := s]> (servlets_ d)) d).

Definition delServlet (uri : bytes) : M ServletDispatch unit :=
  modify (fun d => setServlets (delete uri (servlets_ d)) d).

(** The loop goes on with [it++] after [globals_.erase(it)], which has
    invalidated [it]. *)
Definition addGlobalServlet (uri : bytes) (s : Servlet) : M ServletDispatch unit :=
  d <-- gets id ;;
  check (negb (existsb (fun e => bool_decide (fst e = uri)) (globals_ d))) Undefined ;;;
  modify (setGlobals (globals_ d ++ [(uri, s)])).

(** Here the loop stops after the erase. *)
Fixpoint eraseGlobal (uri : bytes) (l : list (bytes * Servlet)) : list (bytes * Servlet) :=
  match l with
  | [] => []
  | e :: l => if decide (fst e = uri) then l else e :: eraseGlobal uri l
  end.

Definition delGlobalServlet (uri : bytes) : M ServletDispatch unit :=
  modify (fun d => setGlobals (eraseGlobal uri (globals_ d)) d).

(** ** Registration *)

(** The registrations are a map from paths and, in order, a map from patterns. *)
Definition patterns (d : ServletDispatch) : list bytes := map fst (globals_ d).

Inductive servletop :=
| AddServlet (uri : bytes) (s : Servlet)
| DelServlet (uri : bytes)
| AddGlobal (uri : bytes) (s : Servlet)
| DelGlobal (uri : bytes).

Definition run_servletop (o : servletop) : M ServletDispatch unit :=
  match o with
  | AddServlet u s => addServlet u s
  | DelServlet u => delServlet u
  | AddGlobal u s => addGlobalServlet u s
  | DelGlobal u => delGlobalServlet u
  end.

Lemma eraseGlobal_spec uri l :
  NoDup (map fst l) -> NoDup (map fst (eraseGlobal uri l))
    /\ (uri ∉ map fst (eraseGlobal uri l))
    /\ (forall e, e ∈ eraseGlobal uri l <-> e ∈ l /\ fst e <> uri).
Proof.
  induction l as [|e l IH]; intros Hnd; cbn in *.
  { split; [done|]. split; [apply not_elem_of_nil|]. intros e. set_solver. }
  apply NoDup_cons in Hnd as [He Hnd]. destruct (IH Hnd) as (H1 & H2 & H3).
  case_decide as Hu.
  - subst uri. split; [done|]. split; [done|]. intros e'. rewrite elem_of_cons. split.
    + intros Hin. split; [by right|]. intros E. apply He. rewrite <- E. by apply list_elem_of_fmap_2.
    + intros [[-> |?] ?]; done.
  - cbn. split.
    + apply NoDup_cons. split; [|done]. intros (x & E & Hx)%list_elem_of_fmap. apply He.
      rewrite E. apply list_elem_of_fmap_2. by apply H3 in Hx as [? _].
    + split; [by rewrite not_elem_of_cons|]. intros e'. rewrite !elem_of_cons, H3.
      split; [intros [-> |?]; naive_solver|naive_solver].
Qed.

(** No pattern is registered twice, and every registration call keeps
    that: adding a pattern that is there already is where [addGlobalServlet]
    goes on with an invalid iterator, and no other call fails. *)
Theorem servlets_invariant o d :
  NoDup (patterns d) ->
  match run_servletop o d with
  | (Ok _, d') => NoDup (patterns d')
  | (Throw e, d') => e = Undefined /\ d' = d
                     /\ exists uri s, o = AddGlobal uri s /\ uri ∈ patterns d
  end.
Proof.
  intros Hnd. unfold patterns in *. destruct o as [u s|u|u s|u]; cbn [run_servletop]; [done|done|..].
  - unfold addGlobalServlet. rewrite bind_gets. unfold id, check.
    destruct (existsb _ (globals_ d)) eqn:E; cbn.
    + split; [done|]. split; [done|]. exists u, s. split; [done|].
      apply existsb_exists in E as (x & Hx & Hu). apply bool_decide_eq_true in Hu as <-.
      apply list_elem_of_fmap_2, list_elem_of_In. done.
    + rewrite map_app. apply NoDup_app. split; [done|]. split; [|apply NoDup_singleton].
      intros x (y & -> & Hy)%list_elem_of_fmap Hin. apply list_elem_of_singleton in Hin. cbn in Hin.
      assert (existsb (fun e => bool_decide (fst e = u)) (globals_ d) = true); [|congruence].
      apply existsb_exists. exists y. split; [by apply list_elem_of_In|by apply bool_decide_eq_true].
  - by apply eraseGlobal_spec.
Qed.

Section Dispatch.
(** [fnmatch(pattern, string, 0) == 0] *)
Context (fnmatch : bytes -> bytes -> bool).

Definition getServlet (uri : bytes) (d : ServletDispatch) : option Servlet := servlets_ d !! uri.

Fixpoint matchGlobal (uri : bytes) (l : list (bytes * Servlet)) : option Servlet :=
  match l with
  | [] => None
  | (pattern, s) :: l => if fnmatch (cstr pattern) (cstr uri) then Some s else matchGlobal uri l
  end.

Definition getGlobalServlet (uri : bytes) (d : ServletDispatch) : option Servlet :=
  matchGlobal uri (globals_ d).

Definition getMatchServlet (uri : bytes) (d : ServletDispatch) : option Servlet :=
  match servlets_ d !! uri with
  | Some s => Some s
  | None =>
      match matchGlobal uri (globals_ d) with
      | Some s => Some s
      | None => default_ d
      end
  end.

(** [ServletDispatch::handle] *)
Definition handle (d : ServletDispatch) : Servlet := fun req rsp =>
  match getMatchServlet (Request.path_ req) d with
  | Some servlet => servlet req rsp
  | None => rsp
  end.

(** ** HttpSession *)

Section Session.
Context {K : Type} `{Conn K}.

(** A parser of its own for each request: its buffer does not outlive it. *)
Definition recvRequest : M K (bool * HttpRequest) := fun s =>
  let '(r, p) := RequestParser.parseRequest (RequestParser.newParser s (newRequest 17 false)) in
  match r with
  | Ok b => (Ok (b, msg_ (snd p)), fst (fst p))
  | Throw e => (Throw e, fst (fst p))
  end.

(** The [int] of [write] becomes a [bool]. *)
Definition sendResponse (rsp : HttpResponse) : M K bool :=
  rt <-- writeRaw (Response.dump rsp) ;; ret (negb (rt =? 0)).

(** ** HttpServer *)

Section Server.
Context (keepAlive_ : bool) (dispatch_ : ServletDispatch).

(** [req.setKeepAlive(true)] when the request asks for it. *)
Definition markKeepAlive (req : HttpRequest) : HttpRequest :=
  if same_key (Request.getHeader (bs "Connection") req) (bs "Keep-Alive")
  then Request.setKeepAlive true req else req.

(** The response to a request; [getVersion] returns an [int8_t]. *)
Definition respond (req : HttpRequest) : HttpResponse :=
  handle dispatch_ req
    (newResponse (wrap 8 (swrap 8 (Request.version_ req))) (Request.keepAlive_ req && keepAlive_)).

Fixpoint serve (fuel : nat) : M K unit :=
  match fuel with
  | O => throw NoFuel
  | S fuel =>
      rr <-- recvRequest ;;
      if negb (fst rr) then ret tt
      else
        let req := markKeepAlive (snd rr) in
        sendResponse (respond req) ;;;
        if negb keepAlive_ || negb (Request.keepAlive_ req) then ret tt else serve fuel
  end.

(** [handleClient]: every round but the last takes bytes off the stream.  The
    session owns its socket ([HttpSession session(client)], where [owner] is
    [true] by default). *)
Definition handleClient : M K unit :=
  onStream true (
    n <-- gets toCome ;;
    serve (Z.to_nat (n + 1)) ;;;
    closeOn).
End Server.
End Session.

(** ** Dispatch *)

(** Which servlet answers.  A servlet registered for exactly this path
    comes first, whatever patterns match; then the servlet of the first
    pattern, in the order of registration, that matches; then the default. *)
Theorem dispatch_priority d uri :
  (forall s, servlets_ d !! uri = Some s -> getMatchServlet uri d = Some s)
  /\ (forall l1 pattern s l2, servlets_ d !! uri = None ->
        globals_ d = l1 ++ (pattern, s) :: l2 ->
        Forall (fun e => fnmatch (cstr (fst e)) (cstr uri) = false) l1 ->
        fnmatch (cstr pattern) (cstr uri) = true -> getMatchServlet uri d = Some s)
  /\ (servlets_ d !! uri = None ->
      Forall (fun e => fnmatch (cstr (fst e)) (cstr uri) = false) (globals_ d) ->
      getMatchServlet uri d = default_ d).
Proof.
  unfold getMatchServlet. split; [by intros s ->|]. split.
  - intros l1 pattern s l2 -> -> Hl1 Hp.
    assert (E : matchGlobal uri (l1 ++ (pattern, s) :: l2) = Some s); [|by rewrite E].
    induction Hl1 as [|[p t] l1 Hx _ IH]; cbn; [by rewrite Hp|]. cbn in Hx. by rewrite Hx.
  - intros -> Hl. assert (E : matchGlobal uri (globals_ d) = None); [|by rewrite E].
    induction Hl as [|[p t] l Hx _ IH]; cbn; [done|]. cbn in Hx. by rewrite Hx.
Qed.

(** ** Serving a connection *)

Lemma recvRequest_spec s :
  flowing s -> pending s <= 2 ^ 60 ->
  exists r s', recvRequest s = (r, s') /\ flowing s' /\ s' = setIncoming (incoming s') s
    /\ pending s' <= pending s
    /\ (forall m, r = Ok (true, m) -> pending s' < pending s)
    /\ (forall e, r = Throw e -> parser_exception e).
Proof.
  intros Hfl Hp. destruct (parse_stream s (newRequest 17 false) Hfl Hp)
    as (r & s' & b & c & E & Hfl' & Hs' & Hle & Hlt).
  pose proof (fun e => parse_request_throws s (newRequest 17 false) e Hfl Hp) as Hx.
  exists (match r with Ok b => Ok (b, msg_ c) | Throw e => Throw e end), s'.
  unfold recvRequest, RequestParser.parseRequest, RequestParser.newParser in *. rewrite E in *.
  cbn [fst snd] in *. split; [by destruct r|]. split_and!; try done.
  - intros m. destruct r; [|done]. intros [= -> _]. by apply Hlt.
  - intros e. destruct r; [done|]. intros [= ->]. by apply Hx.
Qed.

(** A response goes out whole when the socket takes what it is given. *)
Lemma sendResponse_ok rsp s :
  connected s = true -> accepts s = [] ->
  exists b, sendResponse rsp s = (Ok b, setSent [] (outgoing s ++ Response.dump rsp) s).
Proof.
  intros Hc Ha. eexists. unfold sendResponse, writeRaw, bind, gets, id. cbn [connectedOn sendOn connSock].
  unfold isConnected. rewrite Hc. cbn [negb]. unfold send. rewrite Hc, Ha. done.
Qed.

(** Whether the server waits for another request after [m]. *)
Definition keepsOn (k : bool) (m : HttpRequest) : bool := k && Request.keepAlive_ (markKeepAlive m).

(** The requests that a connection brings one after the other, each as the
    parser reads it off what the one before has left, and how reading ends: at
    the first that is not followed by another, at the end of the stream or a
    malformed request, or with an exception of the parser. *)
Inductive served (k : bool) (d : ServletDispatch) : Sock -> list HttpRequest -> result unit -> Prop :=
| served_end s m s1 : recvRequest s = (Ok (false, m), s1) -> served k d s [] (Ok tt)
| served_throw s e s1 : recvRequest s = (Throw e, s1) -> served k d s [] (Throw e)
| served_last s m s1 : recvRequest s = (Ok (true, m), s1) -> keepsOn k m = false -> served k d s [m] (Ok tt)
| served_next s m s1 reqs r :
    recvRequest s = (Ok (true, m), s1) -> keepsOn k m = true ->
    served k d (snd (sendResponse (respond k d (markKeepAlive m)) s1)) reqs r -> served k d s (m :: reqs) r.

(** What goes out for them. *)
Definition responses (k : bool) (d : ServletDispatch) (reqs : list HttpRequest) : bytes :=
  List.concat (map (fun m => Response.dump (respond k d (markKeepAlive m))) reqs).

(** Of the requests a client sends, those that are answered. *)
Fixpoint answered (k : bool) (reqs : list HttpRequest) : list HttpRequest :=
  match reqs with
  | [] => []
  | m :: reqs => m :: if keepsOn k m then answered k reqs else []
  end.

Lemma serve_spec k d fuel s :
  flowing s -> accepts s = [] -> pending s < Z.of_nat fuel -> pending s <= 2 ^ 60 ->
  exists reqs r s', serve k d fuel s = (r, s') /\ served k d s reqs r
    /\ (r = Ok tt \/ exists e, r = Throw e /\ parser_exception e)
    /\ outgoing s' = outgoing s ++ responses k d reqs.
Proof.
  revert s. induction fuel as [|fuel IH]; intros s Hfl Ha Hfuel Hp.
  { pose proof (zlen_nonneg (List.concat (incoming s))). unfold pending in *. lia. }
  destruct (recvRequest_spec s Hfl Hp) as (r & s1 & E & Hfl1 & Hs1 & Hle & Hlt & Hx).
  assert (Ho : outgoing s1 = outgoing s /\ accepts s1 = []) by (rewrite Hs1; by destruct s).
  destruct Ho as [Ho Ha1]. cbn [serve]. unfold bind at 1. rewrite E.
  destruct r as [[[] m]|e]; cbn [fst snd negb].
  2:{ exists [], (Ok tt), s1. split; [done|]. split; [by eapply served_end|]. split; [by left|]. by rewrite app_nil_r. }
  2:{ exists [], (Throw e), s1. split; [done|]. split; [by eapply served_throw|]. split; [|by rewrite app_nil_r].
      right. exists e. split; [done|]. by apply Hx. }
  specialize (Hlt m eq_refl). set (req := markKeepAlive m). set (rsp := respond k d req).
  set (s2 := setSent [] (outgoing s1 ++ Response.dump rsp) s1).
  destruct (sendResponse_ok rsp s1) as [b Es]; [apply Hfl1|done|]. fold s2 in Es.
  rewrite (bind_ok _ _ _ _ _ Es).
  destruct (negb k || negb (Request.keepAlive_ req)) eqn:Ek; rewrite <- negb_andb in Ek.
  - exists [m], (Ok tt), s2. split; [done|]. split; [|split; [by left|]].
    + eapply served_last; [done|]. by apply negb_true_iff in Ek.
    + unfold responses. cbn. rewrite app_nil_r, Ho. done.
  - apply negb_false_iff in Ek.
    destruct (IH s2) as (reqs & r & s3 & E3 & Hs3 & Hr3 & Ho3); [by destruct Hfl1|done| |..].
    { change (pending s2) with (pending s1). lia. }
    { change (pending s2) with (pending s1). lia. }
    exists (m :: reqs), r, s3. split; [done|]. split; [|split; [done|]].
    + eapply served_next; [done|done|]. change (markKeepAlive m) with req. fold rsp. by rewrite Es.
    + rewrite Ho3. unfold responses. cbn [s2 setSent outgoing map List.concat]. rewrite Ho. by rewrite <- app_assoc.
Qed.

(** The session closes its socket, however the loop ends. *)
Lemma serves_run k d s :
  flowing s -> accepts s = [] -> pending s <= 2 ^ 60 ->
  exists reqs r s', handleClient k d s = (r, s') /\ served k d s reqs r
    /\ outgoing s' = outgoing s ++ responses k d reqs /\ connected s' = false
    /\ (r = Ok tt \/ exists e, r = Throw e /\ parser_exception e).
Proof.
  intros Hfl Ha Hp. unfold handleClient, onStream. rewrite bind_gets.
  destruct (serve_spec k d (Z.to_nat (pending s + 1)) s Hfl Ha) as (reqs & r & s' & E & Hs & Hr & Ho); [|done|].
  { pose proof (zlen_nonneg (List.concat (incoming s))). unfold pending in *. lia. }
  destruct r as [[]|e].
  - exists reqs, (Ok tt), (setConnected false (setConnected false s')).
    rewrite (bind_ok _ _ _ _ _ E). by split_and!.
  - exists reqs, (Throw e), (setConnected false s'). rewrite (bind_throw _ _ _ _ _ E). by split_and!.
Qed.

Lemma served_det k d s reqs r reqs' r' : served k d s reqs r -> served k d s reqs' r' -> reqs = reqs' /\ r = r'.
Proof.
  intros H. revert reqs' r'. induction H as [s m s1 E|s e s1 E|s m s1 E Ek|s m s1 reqs r E Ek Hs IH];
    intros reqs' r' H'; inversion H' as [? ? ? E'|? ? ? E'|? ? ? E'|? ? ? ? ? E']; subst;
    rewrite E in E'; simplify_eq; try (done || congruence).
  by edestruct IH as [-> ->].
Qed.

Lemma served_next_inv k d s m s1 reqs r :
  served k d s reqs r -> recvRequest s = (Ok (true, m), s1) -> keepsOn k m = true ->
  exists reqs', reqs = m :: reqs' /\ served k d (snd (sendResponse (respond k d (markKeepAlive m)) s1)) reqs' r.
Proof.
  intros Hs E Hk. destruct Hs as [s m' s' E'|s e s' E'|s m' s' E' Hk'|s m' s' reqs r E' Hk' Hs];
    rewrite E in E'; simplify_eq; [congruence|]. by exists reqs.
Qed.

(** A request whose bytes end with a piece is read off that piece. *)
Lemma recvRequest_exact m s ps rest :
  request_ok m -> flowing s -> pending s <= 2 ^ 60 -> incoming s = ps ++ rest -> List.concat ps = Request.dump m ->
  recvRequest s = (Ok (true, received_request false m), setIncoming rest s).
Proof.
  intros Hm Hf Hp Hin Hc. destruct (request_exact m s 17 false ps rest Hm Hf Hp Hin Hc) as (b & c & E & Hmc).
  unfold recvRequest. rewrite E. cbn [fst snd]. by rewrite Hmc.
Qed.

Lemma recvRequest_eof s : connected s = true -> incoming s = [] -> recvRequest s = (Ok (false, newRequest 17 false), s).
Proof. destruct s as [c i a o]. cbn. intros -> ->. by vm_compute. Qed.

(** The requests of a client that come one by one, each in pieces of its own. *)
Lemma served_sends k d s sends pieces rest reqs r :
  served k d s reqs r -> flowing s -> accepts s = [] -> pending s <= 2 ^ 60 -> Forall request_ok sends ->
  map (@List.concat ascii) pieces = map Request.dump sends -> incoming s = List.concat pieces ++ rest ->
  exists more, reqs = answered k (map (received_request false) sends) ++ more
    /\ (rest = [] \/ forallb (keepsOn k) (map (received_request false) sends) = false -> more = [] /\ r = Ok tt).
Proof.
  revert s pieces reqs. induction sends as [|m sends IH]; intros s pieces reqs Hs Hf Ha Hp Hok Hpc Hin.
  - destruct pieces; [|done]. cbn in Hin. exists reqs. split; [done|]. intros [->|?]; [|done].
    eapply served_det; [exact Hs|]. eapply served_end, recvRequest_eof; [apply Hf|done].
  - apply Forall_cons in Hok as [Hm Hok]. destruct pieces as [|ps pieces]; [done|]. injection Hpc as Hps Hpc.
    cbn [List.concat] in Hin. rewrite <- app_assoc in Hin.
    pose proof (recvRequest_exact m s ps _ Hm Hf Hp Hin Hps) as E. cbn [map answered forallb].
    destruct (keepsOn k (received_request false m)) eqn:Ek; cbn [andb].
    2:{ exists []. rewrite app_nil_r. destruct (served_det k d s reqs r [received_request false m] (Ok tt)) as [-> ->]; [done| |done].
        by eapply served_last. }
    destruct (served_next_inv _ _ _ _ _ _ _ Hs E Ek) as (reqs' & -> & Hs'). set (rest' := List.concat pieces ++ rest) in *.
    set (sr := setIncoming rest' s) in *.
    destruct Hf as [Hcn Hne]. rewrite Hin in Hne. apply Forall_app in Hne as [_ Hne].
    destruct (sendResponse_ok (respond k d (markKeepAlive (received_request false m))) sr) as [b Es]; [done|done|].
    rewrite Es in Hs'. cbn [snd] in Hs'.
    destruct (IH _ pieces reqs' Hs') as (more & -> & Hmore); [by split|done| |done|done|done|].
    { unfold pending in *. cbn [incoming setSent sr setIncoming]. rewrite Hin, List.concat_app, zlen_app in Hp.
      pose proof (zlen_nonneg (List.concat ps)). lia. }
    by exists more.
Qed.

(** C13: serving a connection.  When the socket takes each response whole,
    [handleClient] always returns.  It has read some requests off the stream,
    one after the other, up to the first that keeps no connection ([served]),
    and what it has sent is, in their order, the dump of the response that
    their servlets made for each.  The connection is closed at the end, also
    when an exception of the parser ends it.  If a client sends well-formed
    requests, each of which ends with a piece of what [recv] returns, these
    are the requests read: all of them up to the first without keep-alive, and
    no other if there is one or nothing else comes. *)
Theorem handleClient_serves k d s :
  flowing s -> accepts s = [] -> pending s <= 2 ^ 60 ->
  exists reqs r s', handleClient k d s = (r, s') /\ served k d s reqs r
    /\ outgoing s' = outgoing s ++ responses k d reqs /\ connected s' = false
    /\ (r = Ok tt \/ exists e, r = Throw e /\ parser_exception e)
    /\ forall sends pieces rest, Forall request_ok sends ->
         map (@List.concat ascii) pieces = map Request.dump sends -> incoming s = List.concat pieces ++ rest ->
         exists more, reqs = answered k (map (received_request false) sends) ++ more
           /\ (rest = [] \/ forallb (keepsOn k) (map (received_request false) sends) = false -> more = [] /\ r = Ok tt).
Proof.
  intros Hfl Ha Hp. destruct (serves_run k d s Hfl Ha Hp) as (reqs & r & s' & E & Hs & Ho & Hc & Hr).
  exists reqs, r, s'. split_and!; try done. intros sends pieces rest Hok Hpc Hin. by eapply served_sends.
Qed.

(** A response that the socket takes a part of is cut: [sendResponse] makes
    one call and returns [true]. *)
Theorem short_send_cuts rsp s n l :
  connected s = true -> accepts s = n :: l -> 0 < n < zlen (Response.dump rsp) ->
  sendResponse rsp s = (Ok true, setSent l (outgoing s ++ take (Z.to_nat n) (Response.dump rsp)) s).
Proof.
  intros Hc Ha Hn. unfold sendResponse, writeRaw, bind, gets, id. cbn [connectedOn sendOn connSock].
  unfold isConnected. rewrite Hc. cbn [negb]. unfold send. rewrite Hc, Ha, (proj2 (Z.ltb_ge _ _)) by lia.
  assert (Hz : zlen (take (Z.to_nat n) (Response.dump rsp)) = n) by (unfold zlen in *; rewrite length_take; lia).
  rewrite Hz. by rewrite (proj2 (Z.eqb_neq _ _)) by lia.
Qed.

(** One exchange; see [http_exchange].  A connection that is kept ends when the
    client sends nothing more. *)
Lemma exchange_run k d req s :
  request_ok req -> flowing s -> List.concat (incoming s) = Request.dump req -> zlen (Request.dump req) <= 2 ^ 60 ->
  accepts s = [] -> outgoing s = [] ->
  let rsp := respond k d (markKeepAlive (received_request false req)) in
  response_ok rsp -> zlen (Response.dump rsp) <= 2 ^ 60 ->
  exists s', handleClient k d s = (Ok tt, s') /\ connected s' = false
    /\ forall c v ka, flowing c -> List.concat (incoming c) = outgoing s' ->
         exists sb x, ResponseParser.parseResponse (ResponseParser.newParser c (newResponse v ka)) = (Ok true, (sb, x))
           /\ msg_ x = received_response ka rsp.
Proof.
  intros Hreq Hfl Hin Hlen Ha Ho rsp Hrsp Hlr.
  assert (Hp : pending s <= 2 ^ 60) by (unfold pending; by rewrite Hin).
  destruct (serves_run k d s Hfl Ha Hp) as (reqs & r & s' & E & Hs & Hos & Hc & _).
  destruct (served_sends k d s [req] [incoming s] [] reqs r Hs Hfl Ha Hp) as (more & -> & Hmore);
    [by apply Forall_singleton|cbn; by rewrite Hin|cbn; by rewrite !app_nil_r|].
  destruct Hmore as [-> ->]; [by left|]. exists s'. split; [done|]. split; [done|].
  intros cl v ka Hflc Hinc. apply response_parsed; [done|done| |done]. rewrite Hinc, Hos, Ho.
  unfold responses. cbn [app map answered]. destruct (keepsOn k _); cbn [app map List.concat]; by rewrite !app_nil_r.
Qed.

(** One exchange, from end to end.  A client sends the dump of a request and
    nothing else, and the bytes reach the server in any pieces; the server
    parses that request, dispatches it, sends the response its servlet made
    and closes; and a client that gets these bytes, again in any pieces,
    parses that response (its reason phrase with a leading space). *)
Theorem http_exchange k d req s :
  request_ok req -> flowing s -> List.concat (incoming s) = Request.dump req -> zlen (Request.dump req) <= 2 ^ 60 ->
  accepts s = [] -> outgoing s = [] ->
  let rsp := respond k d (markKeepAlive (received_request false req)) in
  response_ok rsp -> zlen (Response.dump rsp) <= 2 ^ 60 ->
  exists s', handleClient k d s = (Ok tt, s') /\ connected s' = false
    /\ forall c v ka, flowing c -> List.concat (incoming c) = outgoing s' ->
         exists sb x, ResponseParser.parseResponse (ResponseParser.newParser c (newResponse v ka)) = (Ok true, (sb, x))
           /\ msg_ x = received_response ka rsp.
Proof. apply exchange_run. Qed.

(** A request that arrives in the same read as the one before it is
    lost: it is in the buffer of the first request's parser, and the next
    parser starts with an empty one. *)
Theorem pipelined_request_lost r1 x s :
  request_ok r1 -> connected s = true -> incoming s = [Request.dump r1 ++ x] ->
  zlen (Request.dump r1 ++ x) <= s_maxReqBufferSize ->
  exists s1, recvRequest s = (Ok (true, received_request false r1), s1) /\ incoming s1 = []
    /\ recvRequest s1 = (Ok (false, newRequest 17 false), s1).
Proof.
  intros Hr Hc Hin Hlen.
  destruct (request_run r1 17 false Hr) as (c & Hrun & Hf & He & Hm).
  assert (Hne : Request.dump r1 ++ x <> []).
  { rewrite dump_request. unfold first_line. by destruct (Request.method_ r1). }
  assert (Hfl : flowing s) by (split; [done|]; rewrite Hin; by repeat constructor).
  assert (Hp : pending s <= 2 ^ 60).
  { unfold pending. rewrite Hin. cbn [List.concat]. rewrite app_nil_r. unfold s_maxReqBufferSize in Hlen. lia. }
  pose proof (runs_done_app _ _ _ _ x Hrun) as Hrun1. rewrite Hf, orb_true_r in Hrun1.
  specialize (Hrun1 eq_refl).
  destruct (parse_flowing s (newRequest 17 false) Hfl Hp) as (r0 & c0 & q0 & sb & Hrun0 & _ & E).
  rewrite Hin in Hrun0. cbn [List.concat] in Hrun0. rewrite app_nil_r in Hrun0.
  destruct (runs_det _ _ _ _ _ _ _ _ Hrun0 Hrun1) as (-> & -> & ->).
  pose proof (parse_one_read s (newRequest 17 false) _ Hfl Hin Hlen) as Hone.
  destruct (recvRequest_spec s Hfl Hp) as (r & s1 & E1 & Hfl1 & _).
  exists s1. assert (Es : r = Ok (true, received_request false r1) /\ incoming s1 = []).
  { unfold recvRequest, RequestParser.parseRequest, RequestParser.newParser in E1. rewrite E in *.
    unfold verdict in E1. rewrite Hf, He in E1. cbn [andb negb fst snd] in *.
    injection E1 as <- <-. by rewrite Hm. }
  destruct Es as [-> Hnil]. split; [done|]. split; [done|].
  destruct s1 as [co inc acc out]. destruct Hfl1 as [Hc1 _]. cbn in Hc1, Hnil. subst.
  by vm_compute.
Qed.
End Dispatch.

(** ** Concrete servers *)

Definition demo_dispatch : ServletDispatch :=
  snd (addGlobalServlet (bs "/a*") (fun _ => Response.setBody (bs "glob"))
    (snd (addServlet (bs "/a/b") (fun _ => Response.setBody (bs "exact")) newServletDispatch))).

(** A pattern matcher that knows one pattern. *)
Definition demo_fnmatch (pattern uri : bytes) : bool := bool_decide (take 2 uri = bs "/a").

Lemma dispatch_priority_witness :
  (exists s, getMatchServlet demo_fnmatch (bs "/a/b") demo_dispatch = Some s
     /\ Response.body_ (s (newRequest 17 false) (newResponse 17 false)) = bs "exact")
  /\ (exists s, getMatchServlet demo_fnmatch (bs "/a/c") demo_dispatch = Some s
     /\ Response.body_ (s (newRequest 17 false) (newResponse 17 false)) = bs "glob")
  /\ (exists s, getMatchServlet demo_fnmatch (bs "/z") demo_dispatch = Some s
     /\ Response.status_ (s (newRequest 17 false) (newResponse 17 false)) = NOT_FOUND).
Proof.
  split; [|split].
  - exists (fun _ => Response.setBody (bs "exact")). split; [|by vm_compute].
    by apply (proj1 (dispatch_priority demo_fnmatch demo_dispatch (bs "/a/b"))).
  - exists (fun _ => Response.setBody (bs "glob")). split; [|by vm_compute].
    apply (proj1 (proj2 (dispatch_priority demo_fnmatch demo_dispatch (bs "/a/c"))) [] (bs "/a*") _ []);
      [done|done|constructor|by vm_compute].
  - exists (NoFoundServlet (bs "Reyao")). split; [|by vm_compute].
    rewrite (proj2 (proj2 (dispatch_priority demo_fnmatch demo_dispatch (bs "/z"))));
      [done|done|repeat constructor; by vm_compute].
Defined.

Lemma servlets_invariant_witness :
  NoDup (patterns demo_dispatch)
  /\ fst (run_servletop (AddGlobal (bs "/a*") (fun _ r => r)) demo_dispatch) = Throw Undefined.
Proof.
  assert (Hnd : NoDup (patterns demo_dispatch)) by apply NoDup_singleton.
  split; [exact Hnd|].
  pose proof (servlets_invariant (AddGlobal (bs "/a*") (fun _ r => r)) demo_dispatch Hnd) as H.
  destruct (run_servletop (AddGlobal (bs "/a*") (fun _ r => r)) demo_dispatch) as [[u|e] d'] eqn:E.
  - exfalso. apply (f_equal (fun x => is_ok (fst x))) in E. by vm_compute in E.
  - destruct H as [-> _]. reflexivity.
Defined.

(** Two requests in two reads, the second without keep-alive. *)
Definition req_of (uri : bytes) (keep : bool) : HttpRequest :=
  Request.setPath uri (newRequest 17 keep).

Lemma handleClient_serves_witness :
  let r1 := req_of (bs "/a/b") true in
  let r2 := req_of (bs "/a/c") false in
  let s := peer [take 9 (Request.dump r1); drop 9 (Request.dump r1); Request.dump r2; bs "more"] in
  exists s', handleClient demo_fnmatch true demo_dispatch s = (Ok tt, s') /\ connected s' = false
    /\ outgoing s' = responses demo_fnmatch true demo_dispatch [received_request false r1; received_request false r2].
Proof.
  intros r1 r2 s.
  destruct (handleClient_serves demo_fnmatch true demo_dispatch s) as (reqs & r & s' & E & _ & Ho & Hc & _ & H).
  - split; [done|]. repeat constructor; by vm_compute.
  - done.
  - by vm_compute.
  - destruct (H [r1; r2] [[take 9 (Request.dump r1); drop 9 (Request.dump r1)]; [Request.dump r2]] [bs "more"])
      as (more & -> & Hm).
    + repeat apply Forall_cons_2; [..|apply Forall_nil_2]; (split; [done|by right|done| | | |..]); (repeat constructor; check_bytes).
    + by vm_compute.
    + reflexivity.
    + destruct Hm as [-> ->]; [right; by vm_compute|].
      exists s'. split; [exact E|]. split; [exact Hc|]. rewrite Ho. by vm_compute.
Defined.

Lemma pipelined_request_lost_witness :
  let both := Request.dump (req_of (bs "/a/b") true) ++ Request.dump (req_of (bs "/a/c") false) in
  exists s1, recvRequest (peer [both])
      = (Ok (true, received_request false (req_of (bs "/a/b") true)), s1)
    /\ recvRequest s1 = (Ok (false, newRequest 17 false), s1).
Proof.
  cbv zeta.
  destruct (pipelined_request_lost (req_of (bs "/a/b") true)
    (Request.dump (req_of (bs "/a/c") false))
    (peer [Request.dump (req_of (bs "/a/b") true) ++ Request.dump (req_of (bs "/a/c") false)]))
    as (s1 & E1 & _ & E2).
  - split; [done|by right|done| | | |..]; (repeat constructor; check_bytes).
  - done.
  - done.
  - by vm_compute.
  - exists s1. split; [exact E1|exact E2].
Defined.

Lemma http_exchange_witness :
  let req := req_of (bs "/a/b") false in
  let rsp := respond demo_fnmatch true demo_dispatch (markKeepAlive (received_request false req)) in
  exists s', handleClient demo_fnmatch true demo_dispatch (peer [Request.dump req]) = (Ok tt, s')
    /\ exists sb x, ResponseParser.parseResponse (ResponseParser.newParser (peer [outgoing s']) (newResponse 17 false))
         = (Ok true, (sb, x)) /\ msg_ x = received_response false rsp.
Proof.
  cbv zeta. destruct (http_exchange demo_fnmatch true demo_dispatch (req_of (bs "/a/b") false)
    (peer [Request.dump (req_of (bs "/a/b") false)])) as (s' & E & _ & H).
  - split; [done|by right|done| | | |..]; (repeat constructor; check_bytes).
  - split; [done|]. repeat constructor; by vm_compute.
  - cbn [peer incoming List.concat]. by rewrite app_nil_r.
  - by vm_compute.
  - done.
  - done.
  - split; [by right|check_bytes|repeat constructor; check_bytes|by vm_compute].
  - by vm_compute.
  - exists s'. split; [exact E|]. apply H; [|by cbn; rewrite app_nil_r].
    split; [done|]. constructor; [|constructor]. clear -E. vm_compute in E. injection E as <-. by vm_compute.
Defined.

(** A socket with room for ten bytes. *)
Lemma short_send_cuts_witness :
  let s := {| connected := true; incoming := []; accepts := [10]; outgoing := [] |} in
  let rsp := newResponse 17 false in
  sendResponse rsp s = (Ok true, setSent [] (take 10 (Response.dump rsp)) s).
Proof. intros s rsp. apply (short_send_cuts rsp s 10 []); [done|done|by vm_compute]. Defined.
