(* ===== verification/HttpMain.v ===== *)
(** * The example server (src/cmd/http_server.cc)

    What [main] registers: one page for the path "/".  The scheduler it starts
    is that of Life.v, the server that of HttpServlet.v and Server.v. *)

From S2P Require Import Prelude Util Endian ByteArray SocketStream HttpMessage HttpParser HttpRoundTrip HttpServlet.
Import Request (HttpRequest, newRequest).
Import Response (HttpResponse, newResponse).

(** The two lambdas; [file] is what "readme.html" holds when the request is
    handled, if it can be opened. *)
Definition pageServlet (file : option bytes) : Servlet := fun _ rsp =>
  Response.setBody (ReadFile file)
    (Response.addHeader (bs "Content-Type") (bs "text/html")
      (Response.addHeader (bs "Server") (bs "Reyao") rsp)).

Definition registerPages (file : option bytes) : M ServletDispatch unit :=
  addServlet (bs "/") (pageServlet file) ;;; addGlobalServlet (bs "/") (pageServlet file).

(** The dispatch of the server, and the third argument of its constructor. *)
Definition mainDispatch (file : option bytes) : ServletDispatch := snd (registerPages file newServletDispatch).
Definition mainKeepAlive : bool := true.

(** ** What the server makes of a request *)

Lemma add_all_facts hs (r : HttpRequest) :
  Forall (fun h => not_connection h = true) hs -> sorted (Request.headers_ r) ->
  let r' := add_all hs r in
  Request.path_ r' = Request.path_ r /\ Request.version_ r' = Request.version_ r
  /\ Request.keepAlive_ r' = Request.keepAlive_ r /\ sorted (Request.headers_ r')
  /\ as_map (Request.headers_ r') !! foldcase (bs "connection") = as_map (Request.headers_ r) !! foldcase (bs "connection").
Proof.
  intros Hh. revert r. induction Hh as [|h hs Hh _ IH]; intros r Hs; cbv zeta; [done|].
  destruct (map_set_spec (fst h) (snd h) _ Hs) as (Hs1 & Hm & _).
  change (add_all (h :: hs) r) with (add_all hs (Request.addHeader (fst h) (snd h) r)).
  destruct (IH (Request.addHeader (fst h) (snd h) r) Hs1) as (Hp & Hv & Hk & Hs2 & Hm2). split_and!; try done.
  rewrite Hm2. change (Request.headers_ (Request.addHeader _ _ r)) with (map_set (fst h) (snd h) (Request.headers_ r)).
  rewrite Hm. apply lookup_insert_ne. intros E%same_key_spec. unfold not_connection in Hh.
  by rewrite E in Hh.
Qed.

Lemma received_facts r :
  let m := received_request false r in
  Request.path_ m = Request.path_ r /\ Request.version_ m = Request.version_ r /\ Request.keepAlive_ m = false
  /\ Request.getHeader (bs "Connection") m = (if Request.keepAlive_ r then bs "keep-alive" else bs "close").
Proof.
  cbv zeta. unfold received_request, received.
  match goal with |- context [add_all (?h :: ?hs) ?m] => set (m0 := m); set (h0 := h); set (l := hs) end.
  assert (Hl : Forall (fun h => not_connection h = true) l).
  { apply Forall_forall. intros h Hh. apply list_elem_of_In, filter_In in Hh. apply Hh. }
  destruct (map_set_spec (fst h0) (snd h0) [] ltac:(constructor)) as (Hs1 & Hm1 & _).
  destruct (add_all_facts l (Request.addHeader (fst h0) (snd h0) m0) Hl Hs1) as (Hp & Hv & Hk & Hs & Hc).
  cbn [Request.headers_ Request.addHeader Request.setHeaders m0] in Hc. rewrite Hm1 in Hc.
  change (foldcase (fst h0)) with (foldcase (bs "connection")) in Hc. rewrite lookup_insert_eq in Hc.
  assert (Hget : forall x, sorted (Request.headers_ x) ->
    as_map (Request.headers_ x) !! foldcase (bs "connection") = Some (snd h0) ->
    Request.getHeader (bs "Connection") x = (if Request.keepAlive_ r then bs "keep-alive" else bs "close")).
  { intros x Hx Hg. unfold Request.getHeader. rewrite map_find_spec by done.
    change (foldcase (bs "Connection")) with (foldcase (bs "connection")). by rewrite Hg. }
  change (add_all (h0 :: l) m0) with (add_all l (Request.addHeader (fst h0) (snd h0) m0)).
  set (m1 := add_all l _) in *. destruct (decide (Request.body_ r = [])) as [_|_].
  - split_and!; try done. by apply Hget.
  - split_and!; try done. destruct (map_set_spec (bs "content-length") (dec (zlen (Request.body_ r))) _ Hs) as (Hs2 & Hm2 & _).
    apply Hget; [done|]. etrans; [exact (f_equal (fun g => g !! foldcase (bs "connection")) Hm2)|].
    by rewrite lookup_insert_ne.
Qed.

Lemma seen_facts r :
  Request.keepAlive_ r = false ->
  let m := markKeepAlive (received_request false r) in
  Request.path_ m = Request.path_ r /\ Request.version_ m = Request.version_ r /\ Request.keepAlive_ m = false.
Proof.
  intros Hk. destruct (received_facts r) as (Hp & Hv & Hka & Hc). rewrite Hk in Hc. cbv zeta.
  unfold markKeepAlive. rewrite Hc. change (same_key _ _) with false. by split_and!.
Qed.

Section Main.
(** [fnmatch] without flags: a pattern without special characters matches
    itself only. *)
Context (fnmatch : bytes -> bytes -> bool)
  (fnmatch_plain : forall uri, fnmatch (bs "/") uri = bool_decide (uri = bs "/")).

(** The servlet that answers a path: the C string counts. *)
Definition answers (file : option bytes) (path : bytes) : Servlet :=
  if decide (cstr path = bs "/") then pageServlet file else NoFoundServlet (bs "Reyao").

Lemma handle_main file req rsp :
  handle fnmatch (mainDispatch file) req rsp = answers file (Request.path_ req) req rsp.
Proof using fnmatch_plain.
  unfold handle, getMatchServlet, answers. set (p := Request.path_ req).
  change (servlets_ (mainDispatch file)) with (<[bs "/" := pageServlet file]> (∅ : gmap bytes Servlet)).
  change (globals_ (mainDispatch file)) with [(bs "/", pageServlet file)]. cbn [matchGlobal].
  destruct (decide (p = bs "/")) as [->|Hne].
  - by rewrite lookup_insert_eq.
  - rewrite lookup_insert_ne by congruence. rewrite lookup_empty. change (cstr (bs "/")) with (bs "/").
    rewrite fnmatch_plain. destruct (decide (cstr p = bs "/")) as [E|E].
    + by rewrite bool_decide_true.
    + by rewrite bool_decide_false.
Qed.
(** The response on its way, and at the client. *)
Definition mainResponse (file : option bytes) (req : HttpRequest) : HttpResponse :=
  respond fnmatch mainKeepAlive (mainDispatch file) (markKeepAlive (received_request false req)).

Definition mainStatus (path : bytes) : HttpStatus := if decide (cstr path = bs "/") then OK else NOT_FOUND.
Definition mainBody (file : option bytes) (path : bytes) : bytes :=
  if decide (cstr path = bs "/") then ReadFile file else notFoundContent (bs "Reyao").

Lemma mainResponse_eq file req :
  request_ok req -> Request.keepAlive_ req = false ->
  mainResponse file req =
    {| Response.status_ := mainStatus (Request.path_ req); Response.version_ := Request.version_ req;
       Response.keepAlive_ := false; Response.body_ := mainBody file (Request.path_ req); Response.reason_ := [];
       Response.headers_ := [(bs "Content-Type", bs "text/html"); (bs "Server", bs "Reyao")] |}.
Proof using fnmatch_plain.
  intros Hreq Hk. destruct (seen_facts req Hk) as (Hp & Hv & Hka). unfold mainResponse, respond.
  rewrite handle_main, Hp, Hv, Hka. unfold answers, mainStatus, mainBody.
  assert (Ev : wrap 8 (swrap 8 (Request.version_ req)) = Request.version_ req)
    by (by destruct (rq_version _ Hreq) as [-> | ->]).
  rewrite Ev. by destruct (decide _).
Qed.

Lemma mainBody_size file path : zlen (ReadFile file) < 2 ^ 31 -> zlen (mainBody file path) < 2 ^ 31.
Proof. intros Hf. unfold mainBody. destruct (decide _); [done|]. by vm_compute. Qed.

(** The bytes in front of the body fit into a kilobyte. *)
Lemma main_dump_size v st body :
  v = 16 \/ v = 17 -> st = OK \/ st = NOT_FOUND -> zlen body < 2 ^ 31 ->
  zlen (Response.dump {| Response.status_ := st; Response.version_ := v; Response.keepAlive_ := false;
    Response.body_ := body; Response.reason_ := [];
    Response.headers_ := [(bs "Content-Type", bs "text/html"); (bs "Server", bs "Reyao")] |}) <= zlen body + 1024.
Proof.
  intros Hv Hst Hb. pose proof (zlen_nonneg body). pose proof (dec_length (zlen body) ltac:(lia)) as Hd.
  unfold Response.dump.
  cbn [Response.status_ Response.version_ Response.keepAlive_ Response.body_ Response.reason_ Response.headers_].
  rewrite !zlen_app.
  assert (H1 : zlen (Request.dump_version v) <= 100) by (by destruct Hv as [-> | ->]).
  assert (H2 : zlen (dec (status_num st)) <= 100) by (by destruct Hst as [-> | ->]).
  assert (H3 : zlen (if decide ([] = @nil ascii) then HttpStatusToString st else []) <= 100)
    by (by destruct Hst as [-> | ->]).
  assert (H4 : zlen (List.concat (map Request.dump_header [(bs "Content-Type", bs "text/html"); (bs "Server", bs "Reyao")])) <= 100)
    by done.
  change (zlen (bs " ")) with 1. change (zlen kCRLF) with 2. change (zlen (bs "Connection: ")) with 12.
  change (zlen (bs "Close")) with 5.
  assert (H5 : zlen (if decide (body = []) then kCRLF
      else bs "Content-Length: " ++ dec (zlen body) ++ kCRLF ++ kCRLF ++ body) <= zlen body + 100).
  { destruct (decide (body = [])); [change (zlen kCRLF) with 2; lia|]. rewrite !zlen_app.
    change (zlen (bs "Content-Length: ")) with 16. change (zlen kCRLF) with 2. lia. }
  lia.
Qed.

(** C17: The example server answers.  A client asks for any path without
    keep-alive, its bytes cut in any way, and the socket of the server takes
    the response whole ([accepts s = []]; of one that takes a part the rest is
    never sent).  It is answered and the connection is closed: for the path "/" with the page, its line breaks left out, for
    every other with status 404 and the default page; what the client parses
    has that status, that body, and the headers the servlets set. *)
Theorem main_serves file req s :
  request_ok req -> Request.keepAlive_ req = false -> flowing s ->
  List.concat (incoming s) = Request.dump req -> zlen (Request.dump req) <= 2 ^ 60 ->
  accepts s = [] -> outgoing s = [] -> zlen (ReadFile file) < 2 ^ 31 ->
  exists s', handleClient fnmatch mainKeepAlive (mainDispatch file) s = (Ok tt, s') /\ connected s' = false
    /\ forall c v ka, flowing c -> List.concat (incoming c) = outgoing s' ->
         exists sb x, ResponseParser.parseResponse (ResponseParser.newParser c (newResponse v ka)) = (Ok true, (sb, x))
           /\ Response.status_ (msg_ x) = mainStatus (Request.path_ req)
           /\ Response.body_ (msg_ x) = mainBody file (Request.path_ req)
           /\ Response.getHeader (bs "Server") (msg_ x) = bs "Reyao"
           /\ Response.getHeader (bs "Content-Type") (msg_ x) = bs "text/html".
Proof using fnmatch_plain.
  intros Hreq Hk Hfl Hin Hlen Ha Ho Hf. pose proof (mainResponse_eq file req Hreq Hk) as Hr.
  pose proof (mainBody_size file (Request.path_ req) Hf) as Hb.
  assert (Hst : mainStatus (Request.path_ req) = OK \/ mainStatus (Request.path_ req) = NOT_FOUND)
    by (unfold mainStatus; destruct (decide _); auto).
  pose proof (main_dump_size _ _ _ (rq_version _ Hreq) Hst Hb) as Hd. rewrite <- Hr in Hd.
  destruct (exchange_run fnmatch mainKeepAlive (mainDispatch file) req s Hreq Hfl Hin Hlen Ha Ho)
    as (s' & E & Hc & Hx).
  - change (response_ok (mainResponse file req)). rewrite Hr. split; cbn [Response.version_ Response.reason_ Response.headers_ Response.body_].
    + apply Hreq.
    + apply not_elem_of_nil.
    + repeat constructor; check_bytes.
    + done.
  - change (zlen (Response.dump (mainResponse file req)) <= 2 ^ 60). lia.
  - exists s'. split; [done|]. split; [done|]. intros c v ka Hflc Hinc.
    destruct (Hx c v ka Hflc Hinc) as (sb & x & Ex & Hm). exists sb, x. split; [done|]. rewrite Hm.
    change (respond _ _ _ _) with (mainResponse file req). rewrite Hr. unfold received_response, received.
    cbn [Response.version_ Response.reason_ Response.headers_ Response.body_ Response.status_ Response.keepAlive_].
    destruct (decide (mainBody file (Request.path_ req) = [])) as [->|_]; split_and!; done.
Qed.
End Main.

(** ** A request for the page *)

Definition plain_fnmatch (pattern uri : bytes) : bool := bool_decide (uri = pattern).

(** A page of two lines. *)
Definition demoPage : option bytes := Some (bs "<h1>reyao</h1>" ++ ["010"%char] ++ bs "<hr>").

Lemma main_serves_witness :
  let req := req_of (bs "/") false in
  exists s', handleClient plain_fnmatch mainKeepAlive (mainDispatch demoPage) (peer [Request.dump req]) = (Ok tt, s')
    /\ connected s' = false.
Proof.
  cbv zeta.
  destruct (main_serves plain_fnmatch (fun _ => eq_refl) demoPage (req_of (bs "/") false)
    (peer [Request.dump (req_of (bs "/") false)])) as (s' & E & Hc & _).
  - split; [done|by right|done| | | |..]; (repeat constructor; check_bytes).
  - done.
  - split; [done|]. repeat constructor; by vm_compute.
  - cbn [peer incoming List.concat]. by rewrite app_nil_r.
  - by vm_compute.
  - done.
  - done.
  - by vm_compute.
  - exists s'. split; [exact E|exact Hc].
Defined.
