(* ===== verification/RWLock.v ===== *)
(** * Reader-writer locks and what they guard (src/reyao/mutex.cc, mutex.h, http/http_servlet.cc)

    [RWLock] with its two guards, and calls of any number of threads that
    work on shared data step by step while they hold a guard.  Used for the
    servlet dispatch, whose lookups and changes come from all workers. *)

From S2P Require Import Prelude HttpMessage HttpServlet.

(** ** The lock *)

(** The calls that hold the lock, by their number. *)
Record RWLock := { readers : gset nat; writer : option nat }.

Definition newRWLock : RWLock := {| readers := ∅; writer := None |}.

(** [pthread_rwlock_rdlock] waits for a writer, [pthread_rwlock_wrlock] for
    everybody. *)
Definition readLock (i : nat) (l : RWLock) : option RWLock :=
  match writer l with
  | Some _ => None
  | None => Some {| readers := {[ i ]} ∪ readers l; writer := None |}
  end.

Definition writeLock (i : nat) (l : RWLock) : option RWLock :=
  match writer l with
  | Some _ => None
  | None => if decide (readers l = ∅) then Some {| readers := ∅; writer := Some i |} else None
  end.

Definition unlock (i : nat) (l : RWLock) : RWLock :=
  {| readers := readers l ∖ {[ i ]}; writer := if decide (writer l = Some i) then None else writer l |}.

(** ** Guarded calls *)

Section Guarded.
Context {A L : Type}.

(** A call constructs a [ReadLock] or a [WriteLock], makes its steps on the
    shared data and its local ones, and destroys the guard. *)
Inductive Kind := Reader | Writer.

Record Call := { kind : Kind; local : L; body : list (A -> L -> A * L) }.

Inductive Phase := Outside | Inside (rest : list (A -> L -> A * L)) (l : L) | Finished (l : L).

Record Guarded := { rwlock_ : RWLock; shared : A; phases : list Phase }.

Context (cs : list Call).

Definition newGuarded (a : A) : Guarded :=
  {| rwlock_ := newRWLock; shared := a; phases := map (fun _ => Outside) cs |}.

Definition lockFor (k : Kind) (i : nat) (l : RWLock) : option RWLock :=
  match k with Reader => readLock i l | Writer => writeLock i l end.

(** The next step of call [i]. *)
Definition next (i : nat) (s : Guarded) : option Guarded :=
  match cs !! i, phases s !! i with
  | Some c, Some Outside =>
      match lockFor (kind c) i (rwlock_ s) with
      | Some l => Some {| rwlock_ := l; shared := shared s; phases := <[i := Inside (body c) (local c)]> (phases s) |}
      | None => None
      end
  | Some c, Some (Inside (f :: rest) l) =>
      let '(a, l) := f (shared s) l in
      Some {| rwlock_ := rwlock_ s; shared := a; phases := <[i := Inside rest l]> (phases s) |}
  | Some c, Some (Inside [] l) =>
      Some {| rwlock_ := unlock i (rwlock_ s); shared := shared s; phases := <[i := Finished l]> (phases s) |}
  | _, _ => None
  end.

Fixpoint steps (l : list nat) (s : Guarded) : option Guarded :=
  match l with
  | [] => Some s
  | i :: l => match next i s with Some s => steps l s | None => None end
  end.

(** The calls in the order in which they get their lock. *)
Fixpoint entries (l : list nat) (s : Guarded) : list nat :=
  match l with
  | [] => []
  | i :: l =>
      match next i s with
      | Some s' => match phases s !! i with Some Outside => [i] | _ => [] end ++ entries l s'
      | None => []
      end
  end.

(** The calls one after the other, each in one piece, and their results. *)
Definition runBody (fs : list (A -> L -> A * L)) (a : A) (l : L) : A * L :=
  foldl (fun '(a, l) f => f a l) (a, l) fs.

Fixpoint atomic (order : list nat) (a : A) : A * list (nat * L) :=
  match order with
  | [] => (a, [])
  | i :: order =>
      match cs !! i with
      | None => atomic order a
      | Some c =>
          let '(a, l) := runBody (body c) a (local c) in
          let '(a, rs) := atomic order a in (a, (i, l) :: rs)
      end
  end.

Lemma atomic_snoc order i c a :
  cs !! i = Some c ->
  atomic (order ++ [i]) a
  = let r := runBody (body c) (fst (atomic order a)) (local c) in (r.1, snd (atomic order a) ++ [(i, r.2)]).
Proof.
  intros Hc. revert a. induction order as [|j order IH]; intros a; cbn [app atomic].
  - rewrite Hc. cbn. by destruct (runBody _ _ _).
  - destruct (cs !! j) as [d|]; [|by rewrite IH]. destruct (runBody (body d) a (local d)) as [b l].
    rewrite IH. destruct (atomic order b) as [b' rs]. done.
Qed.

(** A reader changes nothing. *)
Definition pure (fs : list (A -> L -> A * L)) : Prop := Forall (fun f => forall a l, fst (f a l) = a) fs.

Lemma runBody_pure fs a l : pure fs -> fst (runBody fs a l) = a.
Proof.
  intros Hp. revert a l. induction Hp as [|f fs Hf _ IH]; intros a l; [done|]. unfold runBody. cbn [foldl].
  specialize (Hf a l). destruct (f a l) as [b l']. cbn in Hf. subst b. apply IH.
Qed.

Context (Hpure : forall i c, cs !! i = Some c -> kind c = Reader -> pure (body c)).

(** ** The invariant *)

Definition inside (s : Guarded) (i : nat) (k : Kind) : Prop :=
  exists c fs l, cs !! i = Some c /\ kind c = k /\ phases s !! i = Some (Inside fs l).

(** [order] is the order of entry so far. *)
Record GInv (a : A) (order : list nat) (s : Guarded) : Prop := {
  g_length : length (phases s) = length cs;
  g_readers : forall i, i ∈ readers (rwlock_ s) <-> inside s i Reader;
  g_writer : forall i, writer (rwlock_ s) = Some i <-> inside s i Writer;
  g_exclusive : writer (rwlock_ s) <> None -> readers (rwlock_ s) = ∅;
  g_idle : writer (rwlock_ s) = None -> shared s = fst (atomic order a);
  g_inside : forall i c fs l, cs !! i = Some c -> phases s !! i = Some (Inside fs l) ->
    (i, snd (runBody fs (shared s) l)) ∈ snd (atomic order a)
    /\ fst (runBody fs (shared s) l) = fst (atomic order a)
    /\ (kind c = Reader -> pure fs);
  g_finished : forall i l, phases s !! i = Some (Finished l) -> (i, l) ∈ snd (atomic order a)
}.

Lemma newGuarded_inv a : GInv a [] (newGuarded a).
Proof.
  assert (Hp : forall i p, phases (newGuarded a) !! i = Some p -> p = Outside).
  { intros i p Hi. cbn in Hi. by apply list_lookup_fmap_Some in Hi as (? & -> & _). }
  split; cbn [rwlock_ newGuarded newRWLock readers writer shared]; try done.
  - cbn. by rewrite length_map.
  - intros i. split; [by intros ?%not_elem_of_empty|]. by intros (c & fs & l & _ & _ & ?%Hp).
  - intros i. split; [done|]. by intros (c & fs & l & _ & _ & ?%Hp).
  - by intros i c fs l _ ?%Hp.
  - by intros i l ?%Hp.
Qed.

(** One call moves to another phase. *)
Definition put (i : nat) (p : Phase) (l : RWLock) (a : A) (s : Guarded) : Guarded :=
  {| rwlock_ := l; shared := a; phases := <[i := p]> (phases s) |}.

Definition isInside (p : Phase) : bool := match p with Inside _ _ => true | _ => false end.

Lemma inside_put i c q p l a s j k :
  cs !! i = Some c -> phases s !! i = Some q ->
  inside (put i p l a s) j k <-> (j = i /\ isInside p = true /\ kind c = k) \/ (j <> i /\ inside s j k).
Proof.
  intros Hc Hq. assert (Hi : (i < length (phases s))%nat) by (by eapply lookup_lt_Some). split.
  - intros (d & fs & x & Hd & Hk & Hp). cbn in Hp. apply list_lookup_insert_Some in Hp as [(<- & -> & _)|[Hne Hp]].
    + left. split; [done|]. split; [done|]. congruence.
    + right. split; [done|]. by exists d, fs, x.
  - intros [(-> & Hp & Hk)|(Hne & d & fs & x & Hd & Hk & Hp)].
    + destruct p as [|fs x|]; try done. exists c, fs, x. cbn. by rewrite list_lookup_insert_eq.
    + exists d, fs, x. cbn. by rewrite list_lookup_insert_ne.
Qed.

(** Nobody is inside beside a writer. *)
Lemma alone a order s i j k : GInv a order s -> writer (rwlock_ s) = Some i -> inside s j k -> j = i.
Proof.
  intros Hs Hw Hj. destruct k.
  - apply (g_readers _ _ _ Hs) in Hj. rewrite (g_exclusive _ _ _ Hs) in Hj by congruence. by apply not_elem_of_empty in Hj.
  - apply (g_writer _ _ _ Hs) in Hj. congruence.
Qed.

(** What a call that gets its lock finds. *)
Lemma lockFor_inv k i lk lk' :
  lockFor k i lk = Some lk' ->
  writer lk = None /\ match k with
                      | Reader => lk' = {| readers := {[ i ]} ∪ readers lk; writer := None |}
                      | Writer => readers lk = ∅ /\ lk' = {| readers := ∅; writer := Some i |}
                      end.
Proof.
  unfold lockFor, readLock, writeLock. destruct k, (writer lk); try done.
  - by intros [= <-].
  - case_decide; [|done]. by intros [= <-].
Qed.

Lemma enter_inv a order s i c lk :
  GInv a order s -> cs !! i = Some c -> phases s !! i = Some Outside -> lockFor (kind c) i (rwlock_ s) = Some lk ->
  GInv a (order ++ [i]) (put i (Inside (body c) (local c)) lk (shared s) s).
Proof using Hpure.
  intros Hs Hc Hi El. destruct (lockFor_inv _ _ _ _ El) as [Hw Hk]. pose proof (g_idle _ _ _ Hs Hw) as Hidle.
  assert (Hin : forall j k, inside (put i (Inside (body c) (local c)) lk (shared s) s) j k
    <-> (j = i /\ kind c = k) \/ (j <> i /\ inside s j k)).
  { intros j k. rewrite (inside_put i c Outside) by done. naive_solver. }
  assert (Hout : forall k, ~ inside s i k) by (intros k (d & fs & l & _ & _ & Hp); congruence).
  assert (Hone : kind c = Writer -> forall j, ~ inside s j Reader).
  { intros Hkw j Hj. rewrite Hkw in Hk. destruct Hk as [He _]. apply (g_readers _ _ _ Hs) in Hj. rewrite He in Hj.
    by apply not_elem_of_empty in Hj. }
  assert (Hnw : forall j, ~ inside s j Writer) by (intros j Hj; apply (g_writer _ _ _ Hs) in Hj; congruence).
  assert (Hat := atomic_snoc order i c a Hc). cbn zeta in Hat. rewrite <- Hidle in Hat.
  split; cbn [rwlock_ shared phases put].
  - rewrite length_insert. apply Hs.
  - intros j. rewrite Hin. destruct (kind c) eqn:Ek; [rewrite Hk|destruct Hk as [He ->]]; cbn [readers].
    + rewrite elem_of_union, elem_of_singleton, (g_readers _ _ _ Hs). destruct (decide (j = i)); naive_solver.
    + split; [by intros ?%not_elem_of_empty|]. intros [[_ ?]|[_ Hj]]; [done|]. by destruct (Hone eq_refl j).
  - intros j. rewrite Hin. destruct (kind c) eqn:Ek; [rewrite Hk|destruct Hk as [He ->]]; cbn [writer].
    + split; [done|]. intros [[_ ?]|[_ Hj]]; [done|]. by destruct (Hnw j).
    + split; [intros [= ->]; by left|]. intros [[-> _]|[_ Hj]]; [done|]. by destruct (Hnw j).
  - destruct (kind c); [rewrite Hk|destruct Hk as [_ ->]]; done.
  - intros Hw'. rewrite Hat. cbn. destruct (kind c) eqn:Ek; [|by destruct Hk as [_ ->]].
    by rewrite runBody_pure by (by eapply Hpure).
  - intros j d fs l Hd Hp. rewrite Hat. cbn [fst snd].
    apply list_lookup_insert_Some in Hp as [(<- & [= <- <-] & _)|[Hne Hp]].
    + assert (d = c) as -> by congruence. split; [apply elem_of_app; right; by left|]. split; [done|]. by apply Hpure with i.
    + destruct (g_inside _ _ _ Hs j d fs l Hd Hp) as (H1 & H2 & H3).
      assert (Hj : inside s j (kind d)) by (by exists d, fs, l). destruct (kind d) eqn:Ed; [|by destruct (Hnw j)].
      split; [apply elem_of_app; by left|]. split; [|done]. rewrite runBody_pure by (by apply H3).
      destruct (kind c) eqn:Ek; [|by destruct (Hone eq_refl j)]. by rewrite runBody_pure by (by eapply Hpure).
  - intros j l Hp. rewrite Hat. cbn [snd]. apply list_lookup_insert_Some in Hp as [(_ & [=] & _)|[_ Hp]].
    apply elem_of_app. left. by apply (g_finished _ _ _ Hs).
Qed.

Lemma body_step_inv a order s i c f fs l :
  GInv a order s -> cs !! i = Some c -> phases s !! i = Some (Inside (f :: fs) l) ->
  GInv a order (put i (Inside fs (snd (f (shared s) l))) (rwlock_ s) (fst (f (shared s) l)) s).
Proof.
  intros Hs Hc Hi. destruct (g_inside _ _ _ Hs i c _ l Hc Hi) as (H1 & H2 & H3).
  assert (Hme : inside s i (kind c)) by (by exists c, (f :: fs), l).
  assert (Hin : forall j k, inside (put i (Inside fs (snd (f (shared s) l))) (rwlock_ s) (fst (f (shared s) l)) s) j k
    <-> inside s j k).
  { intros j k. rewrite (inside_put i c (Inside (f :: fs) l)) by done. destruct (decide (j = i)) as [->|]; [|naive_solver].
    split; [intros [(_ & _ & <-)|[? _]]; done|]. intros (d & fs' & l' & Hd & Hk & _). left. split; [done|]. split; [done|].
    congruence. }
  assert (Hrun : runBody (f :: fs) (shared s) l = runBody fs (fst (f (shared s) l)) (snd (f (shared s) l))).
  { unfold runBody. cbn [foldl]. by destruct (f (shared s) l). }
  assert (Hsh : kind c = Reader -> fst (f (shared s) l) = shared s).
  { intros Hk. specialize (H3 Hk). apply Forall_cons in H3 as [Hf _]. apply Hf. }
  split; cbn [rwlock_ shared phases put].
  - rewrite length_insert. apply Hs.
  - intros j. rewrite Hin. apply (g_readers _ _ _ Hs).
  - intros j. rewrite Hin. apply (g_writer _ _ _ Hs).
  - apply (g_exclusive _ _ _ Hs).
  - intros Hw. destruct (kind c) eqn:Ek; [rewrite Hsh by done; by apply (g_idle _ _ _ Hs)|].
    apply (g_writer _ _ _ Hs) in Hme. congruence.
  - intros j d fs' l' Hd Hp. apply list_lookup_insert_Some in Hp as [(<- & [= <- <-] & _)|[Hne Hp]].
    + assert (d = c) as -> by congruence. rewrite <- Hrun. split; [done|]. split; [done|]. intros Hk.
      specialize (H3 Hk). by apply Forall_cons in H3 as [_ ?].
    + destruct (g_inside _ _ _ Hs j d fs' l' Hd Hp) as (G1 & G2 & G3).
      destruct (kind c) eqn:Ek; [by rewrite Hsh|]. destruct Hne. symmetry.
      apply (alone a order s i j (kind d) Hs); [by apply (g_writer _ _ _ Hs)|by exists d, fs', l'].
  - intros j l' Hp. apply list_lookup_insert_Some in Hp as [(_ & [=] & _)|[_ Hp]]. by apply (g_finished _ _ _ Hs).
Qed.

Lemma leave_inv a order s i c l :
  GInv a order s -> cs !! i = Some c -> phases s !! i = Some (Inside [] l) ->
  GInv a order (put i (Finished l) (unlock i (rwlock_ s)) (shared s) s).
Proof.
  intros Hs Hc Hi. destruct (g_inside _ _ _ Hs i c _ l Hc Hi) as (H1 & H2 & _). cbn in H1, H2.
  assert (Hin : forall j k, inside (put i (Finished l) (unlock i (rwlock_ s)) (shared s) s) j k <-> j <> i /\ inside s j k).
  { intros j k. rewrite (inside_put i c (Inside [] l)) by done. cbn. naive_solver. }
  split; cbn [rwlock_ shared phases put unlock readers writer].
  - rewrite length_insert. apply Hs.
  - intros j. rewrite Hin, elem_of_difference, elem_of_singleton, (g_readers _ _ _ Hs). naive_solver.
  - intros j. rewrite Hin, <- (g_writer _ _ _ Hs). case_decide as Hw; [|naive_solver congruence].
    rewrite Hw. naive_solver.
  - intros Hw. case_decide as Hwi; [done|]. rewrite (g_exclusive _ _ _ Hs) by done. set_solver.
  - intros _. done.
  - intros j d fs l' Hd Hp. apply list_lookup_insert_Some in Hp as [(_ & [=] & _)|[_ Hp]].
    by apply (g_inside _ _ _ Hs j d fs l').
  - intros j l' Hp. apply list_lookup_insert_Some in Hp as [(<- & [= <-] & _)|[_ Hp]]; [done|].
    by apply (g_finished _ _ _ Hs).
Qed.

(** The calls of [order] have entered, each once. *)
Definition entered (order : list nat) (s : Guarded) : Prop :=
  NoDup order /\ forall i, i ∈ order -> phases s !! i <> Some Outside.

Lemma entered_put order i p q l a s :
  entered order s -> phases s !! i = Some q -> p <> Outside -> entered order (put i p l a s).
Proof.
  intros [Hn Ho] Hi Hp. split; [done|]. intros j Hj E. cbn in E.
  apply list_lookup_insert_Some in E as [(_ & -> & _)|[_ E]]; [done|]. by apply (Ho j).
Qed.

Lemma next_inv a order s i s' :
  GInv a order s -> entered order s -> next i s = Some s' ->
  let order' := order ++ match phases s !! i with Some Outside => [i] | _ => [] end in
  GInv a order' s' /\ entered order' s'.
Proof using Hpure.
  intros Hs Ho E. unfold next in E. destruct (cs !! i) as [c|] eqn:Hc; [|done].
  destruct (phases s !! i) as [[|[|f fs] l|l]|] eqn:Hi; try done; cbn zeta.
  - destruct (lockFor (kind c) i (rwlock_ s)) as [lk|] eqn:El; [|done]. injection E as <-.
    split; [by apply enter_inv|]. destruct Ho as [Hn Hi']. split.
    + apply NoDup_app. split; [done|]. split; [|apply NoDup_singleton].
      intros j Hj ->%list_elem_of_singleton. by apply (Hi' i).
    + intros j Hj Ej. cbn in Ej. apply list_lookup_insert_Some in Ej as [(_ & [=] & _)|[Hne Ej]].
      apply elem_of_app in Hj as [Hj| ->%list_elem_of_singleton]; [by apply (Hi' j)|done].
  - injection E as <-. rewrite app_nil_r. split; [by apply (leave_inv a order s i c)|by eapply (entered_put order i _ _ _ _ s)].
  - destruct (f (shared s) l) as [b l'] eqn:Ef. injection E as <-. rewrite app_nil_r.
    pose proof (body_step_inv a order s i c f fs l Hs Hc Hi) as H1. rewrite Ef in H1. split; [exact H1|].
    by eapply (entered_put order i _ _ _ _ s).
Qed.

Lemma guarded_steps_inv a l order s s' :
  GInv a order s -> entered order s -> steps l s = Some s' ->
  GInv a (order ++ entries l s) s' /\ entered (order ++ entries l s) s'.
Proof using Hpure.
  revert order s. induction l as [|i l IH]; intros order s Hs Ho E; cbn [steps entries] in *.
  - injection E as <-. by rewrite app_nil_r.
  - destruct (next i s) as [s1|] eqn:E1; [|done]. destruct (next_inv a order s i s1 Hs Ho E1) as [Hs1 Ho1].
    rewrite app_assoc. by apply IH.
Qed.

(** Guarded calls are atomic.  In every interleaving of the steps of any
    calls that hold a [WriteLock], or hold a [ReadLock] and change nothing,
    every call that has returned has the result it has when the calls run one
    after the other, each in one piece, in the order in which they got their
    locks, which lies between their starts and their ends; when no call is in
    its critical section the data are those of that sequential run; and
    unless all have returned, some call can go on. *)
Lemma guarded_calls_atomic a l s :
  steps l (newGuarded a) = Some s ->
  let order := entries l (newGuarded a) in
  NoDup order
  /\ (forall i r, phases s !! i = Some (Finished r) -> (i, r) ∈ snd (atomic order a))
  /\ ((forall i p, phases s !! i = Some p -> isInside p = false) -> shared s = fst (atomic order a))
  /\ ((exists i s', next i s = Some s') \/ forall i p, phases s !! i = Some p -> exists r, p = Finished r).
Proof using Hpure.
  intros E order. assert (H0 : entered [] (newGuarded a)) by (split; [constructor|by intros i ?%not_elem_of_nil]).
  destruct (guarded_steps_inv a l [] _ s (newGuarded_inv a) H0 E) as [Hs [Hn _]]. split; [exact Hn|].
  split; [apply (g_finished _ _ _ Hs)|]. split.
  - intros Hno. apply (g_idle _ _ _ Hs). destruct (writer (rwlock_ s)) as [i|] eqn:Hw; [|done].
    apply (g_writer _ _ _ Hs) in Hw as (c & fs & x & _ & _ & Hp). by specialize (Hno i _ Hp).
  - assert (Hc : forall i p, phases s !! i = Some p -> exists c, cs !! i = Some c).
    { intros i p Hp. apply lookup_lt_is_Some_2. rewrite <- (g_length _ _ _ Hs). by eapply lookup_lt_Some. }
    destruct (decide (Exists (fun p => isInside p = true) (phases s))) as [Hex|Hno].
    + left. apply Exists_exists in Hex as (p & Hin & Hp). apply list_elem_of_lookup in Hin as [i Hi].
      destruct (Hc i p Hi) as [c Hci]. destruct p as [|[|f fs] x|]; try done; exists i; unfold next; rewrite Hci, Hi.
      * by eexists.
      * destruct (f (shared s) x). by eexists.
    + assert (Hout : forall i k, ~ inside s i k).
      { intros i k (c & fs & x & _ & _ & Hp). destruct Hno. apply Exists_exists. eexists. split; [by eapply list_elem_of_lookup_2|done]. }
      destruct (decide (Exists (fun p => (match p with Outside => true | _ => false end) = true) (phases s))) as [Hex|Hno2].
      * left. apply Exists_exists in Hex as (p & Hin & Hp). destruct p; try done.
        apply list_elem_of_lookup in Hin as [i Hi]. destruct (Hc i _ Hi) as [c Hci]. exists i. unfold next.
        rewrite Hci, Hi. destruct (writer (rwlock_ s)) as [j|] eqn:Hw; [by apply (g_writer _ _ _ Hs), Hout in Hw|].
        assert (Hr : readers (rwlock_ s) = ∅).
        { apply set_eq. intros j. split; [|by intros ?%not_elem_of_empty].
          intros Hj. by apply (g_readers _ _ _ Hs), Hout in Hj. }
        unfold lockFor, readLock, writeLock. rewrite Hw. destruct (kind c); [by eexists|]. rewrite decide_True by done. by eexists.
      * right. intros i p Hp. assert (Hin : p ∈ phases s) by (by eapply list_elem_of_lookup_2).
        destruct p as [|fs x|r]; [|by destruct Hno; apply Exists_exists; eexists|by exists r].
        destruct Hno2. apply Exists_exists. by eexists.
Qed.
End Guarded.

(** ** The servlet dispatch *)

Section Dispatch.
Context (fnmatch : bytes -> bytes -> bool).

(** The calls on a [ServletDispatch] and what they answer. *)
Inductive dispatchop :=
| Register (o : servletop)
| GetServlet (uri : bytes)
| GetGlobalServlet (uri : bytes)
| GetMatchServlet (uri : bytes).

Inductive Answer := Pending | Found (o : option Servlet) | Changed (r : result unit).

Definition LStep : Type := ServletDispatch -> Answer -> ServletDispatch * Answer.

(** A lookup that has not returned goes on. *)
Definition unless (found : ServletDispatch -> option (option Servlet)) : LStep := fun d a =>
  match a with
  | Pending => (d, match found d with Some o => Found o | None => Pending end)
  | _ => (d, a)
  end.

Definition inServlets (uri : bytes) : LStep := unless (fun d =>
  match servlets_ d !! uri with Some s => Some (Some s) | None => None end).
Definition inGlobals (uri : bytes) : LStep := unless (fun d =>
  match matchGlobal fnmatch uri (globals_ d) with Some s => Some (Some s) | None => None end).
Definition otherwise (o : ServletDispatch -> option Servlet) : LStep := unless (fun d => Some (o d)).

(** The steps under the guard; those of [getMatchServlet] are its two
    searches and the default. *)
Definition callOf (o : dispatchop) : Call (A := ServletDispatch) (L := Answer) :=
  match o with
  | Register o =>
      {| kind := Writer; local := Pending;
         body := [fun d _ => let '(r, d) := run_servletop o d in (d, Changed r)] |}
  | GetServlet uri => {| kind := Reader; local := Pending; body := [inServlets uri; otherwise (fun _ => None)] |}
  | GetGlobalServlet uri => {| kind := Reader; local := Pending; body := [inGlobals uri; otherwise (fun _ => None)] |}
  | GetMatchServlet uri =>
      {| kind := Reader; local := Pending; body := [inServlets uri; inGlobals uri; otherwise default_] |}
  end.

(** The same call in one piece. *)
Definition answer (o : dispatchop) (d : ServletDispatch) : ServletDispatch * Answer :=
  match o with
  | Register o => let '(r, d) := run_servletop o d in (d, Changed r)
  | GetServlet uri => (d, Found (getServlet uri d))
  | GetGlobalServlet uri => (d, Found (getGlobalServlet fnmatch uri d))
  | GetMatchServlet uri => (d, Found (getMatchServlet fnmatch uri d))
  end.

Fixpoint sequential (ops : list dispatchop) (order : list nat) (d : ServletDispatch)
    : ServletDispatch * list (nat * Answer) :=
  match order with
  | [] => (d, [])
  | i :: order =>
      match ops !! i with
      | None => sequential ops order d
      | Some o =>
          let '(d, a) := answer o d in
          let '(d, rs) := sequential ops order d in (d, (i, a) :: rs)
      end
  end.

Lemma callOf_answer o d : runBody (body (callOf o)) d (local (callOf o)) = answer o d.
Proof.
  destruct o as [o|uri|uri|uri]; unfold runBody; cbn.
  - by destruct (run_servletop o d).
  - unfold getServlet. by destruct (servlets_ d !! uri).
  - unfold getGlobalServlet. by destruct (matchGlobal fnmatch uri (globals_ d)).
  - unfold getMatchServlet, inServlets, inGlobals, unless. destruct (servlets_ d !! uri); [done|]. cbn.
    by destruct (matchGlobal fnmatch uri (globals_ d)).
Qed.

Lemma atomic_sequential ops order d : atomic (map callOf ops) order d = sequential ops order d.
Proof.
  revert d. induction order as [|i order IH]; intros d; cbn [atomic sequential]; [done|].
  rewrite list_lookup_fmap. destruct (ops !! i) as [o|]; cbn [fmap option_fmap option_map]; [|done].
  rewrite callOf_answer. destruct (answer o d) as [d' a]. by rewrite IH.
Qed.

Lemma unless_pure f d a : fst (unless f d a) = d.
Proof. by destruct a. Qed.

Lemma callOf_pure ops i c : map callOf ops !! i = Some c -> kind c = Reader -> pure (body c).
Proof.
  intros Hi Hk. apply list_lookup_fmap_Some in Hi as (o & -> & _).
  destruct o; try done; repeat constructor; intros d a; apply unless_pure.
Qed.

(** C36: The servlet dispatch is linearizable.  However the steps of any
    registrations and lookups from any threads interleave, every call that
    has returned has the answer it has when the calls run one after the other
    in the order in which they got the lock; when nobody is inside, the
    servlets are those of that sequential run; and some call can always go on
    until all have returned. *)
Theorem dispatch_linearizable ops l d s :
  let cs := map callOf ops in
  steps cs l (newGuarded cs d) = Some s ->
  let order := entries cs l (newGuarded cs d) in
  NoDup order
  /\ (forall i a, phases s !! i = Some (Finished a) -> (i, a) ∈ snd (sequential ops order d))
  /\ ((forall i p, phases s !! i = Some p -> isInside p = false) -> shared s = fst (sequential ops order d))
  /\ ((exists i s', next cs i s = Some s') \/ forall i p, phases s !! i = Some p -> exists a, p = Finished a).
Proof.
  intros cs E order. destruct (guarded_calls_atomic cs (callOf_pure ops) d l s E) as (H1 & H2 & H3 & H4).
  rewrite <- atomic_sequential. done.
Qed.
End Dispatch.

(** A lookup that begins before and ends after a registration has entered
    waits for it or comes first; here it comes first. *)
Definition demo_empty : ServletDispatch := setDefault None newServletDispatch.

Lemma dispatch_linearizable_witness :
  let ops := [GetMatchServlet (bs "/a"); Register (AddServlet (bs "/a") (fun _ rsp => rsp))] in
  let cs := map (callOf demo_fnmatch) ops in
  let l := [0; 0; 0; 0; 0; 1; 1; 1]%nat in
  exists s, steps cs l (newGuarded cs demo_empty) = Some s
    /\ shared s = fst (sequential demo_fnmatch ops [0; 1]%nat demo_empty).
Proof.
  intros ops cs l. destruct (steps cs l (newGuarded cs demo_empty)) as [s|] eqn:E; [|vm_compute in E; discriminate].
  exists s. split; [reflexivity|].
  destruct (dispatch_linearizable demo_fnmatch ops l demo_empty s E) as (_ & _ & H & _).
  apply H. intros i p Hp. vm_compute in E. injection E as <-. cbn in Hp.
  destruct i as [|[|i]]; cbn in Hp; [injection Hp as <-; reflexivity|injection Hp as <-; reflexivity|discriminate].
Defined.
