(* ===== verification/Codec.v ===== *)
(** * The RPC codec (src/reyao/rpc/codec.*, rpc_server.*, rpc_client.h)

    Frames around protobuf messages: a length, the length of the type name,
    the type name with its NUL, the payload.  The protobuf library is a
    parameter. *)

From S2P Require Import Prelude Util Endian ByteArray SocketStream.

(** The protobuf runtime: messages, descriptors, and what the codec calls.
    [ParseFromArray] tells whether it parsed, and what the message then holds.
    The law is the library's promise: a message of the type of [m] that parses
    what [m] was serialized to becomes [m]. *)
Class Protobuf (Msg Desc : Type) := {
  GetTypeName : Msg -> bytes;
  Serialize : Msg -> bytes;
  GetDescriptor : Msg -> Desc;
  FindMessageTypeByName : bytes -> option Desc;
  GetPrototype : Desc -> option Msg;
  New : Msg -> Msg;
  ParseFromArray : Msg -> bytes -> bool * Msg;
  parse_serialize m d prototype :
    FindMessageTypeByName (GetTypeName m) = Some d -> GetPrototype d = Some prototype ->
    ParseFromArray (New prototype) (Serialize m) = (true, m)
}.

Definition kHeaderLen : Z := 4.
Definition kMinMessageLen : Z := kHeaderLen + 2.
Definition kMaxMessageLen : Z := 64 * 1024 * 1024.

Inductive ErrorCode :=
  kNoError | kInvalidLength | kInvalidNameLength | kUnknownMessageType | kParseError | kServerClosed.

#[export] Instance ErrorCode_eq_dec : EqDecision ErrorCode.
Proof. solve_decision. Defined.

Record ErrMsg := { errcode : ErrorCode; errstr : bytes }.

Section Codec.
Context `{Host} {Msg Desc : Type} `{Protobuf Msg Desc}.

Section Connection.
Context {K : Type} `{Conn K}.

(** ** Writing *)

Definition serializeToByteArray (msg : Msg) : M ByteArray unit :=
  let typeName := GetTypeName msg in
  let nameLen := i32 (u64 (zlen typeName + 1)) in
  writeInt32 nameLen ;;;
  write typeName ;;;
  write [zeroc] ;;;
  let byteSize := i32 (zlen (Serialize msg)) in
  getWriteArea (u64 byteSize) ;;;
  storeAtWritePos (Serialize msg) ;;;
  modify (fun b => setWritePos (u64 (writePos_ b + byteSize)) b) ;;;
  b <-- gets id ;;
  assert_ (getReadSize b =? u64 (4 + u64 nameLen + byteSize)) ;;;
  let len := byteSwapOnLittleEndian int32_t (i32 (getReadSize b)) in
  writePrepend (to_mem 4 len).

(** [send]: the result of the write is not looked at. *)
Definition sendMessage (msg : Msg) : M K unit := fun s =>
  match serializeToByteArray msg (newByteArray kInitSize) with
  | (Throw e, _) => (Throw e, s)
  | (Ok _, ba) =>
      match writeAll (s, ba) with
      | (Throw e, p) => (Throw e, fst p)
      | (Ok _, p) => (Ok tt, fst p)
      end
  end.

(** ** Reading *)

Definition CreateMessage (typeName : bytes) : option Msg :=
  match FindMessageTypeByName typeName with
  | None => None
  | Some descriptor =>
      match GetPrototype descriptor with
      | None => None
      | Some prototype => Some (New prototype)
      end
  end.

(** [std::string(ba.peek(), n)] *)
Definition peekString (n : Z) : M ByteArray bytes :=
  b <-- gets id ;;
  check ((0 <=? n) && (readPos_ b + n <=? zlen (buf_ b))) Undefined ;;;
  ret (slice (readPos_ b) (readPos_ b + n) (buf_ b)).

(** The message pointer and what [errMsg] holds afterwards. *)
Definition Parse (len : Z) : M ByteArray (option Msg * ErrMsg) :=
  nameLen <-- readInt32 ;;
  if (nameLen <? 2) || (len - kHeaderLen <? nameLen) then
    ret (None, {| errcode := kInvalidNameLength;
                  errstr := bs "invalid name length = " ++ to_string nameLen |})
  else
    name <-- peekString (nameLen - 1) ;;
    modify (fun b => setReadPos (u64 (readPos_ b + nameLen - 1)) b) ;;;
    nul <-- readInt8 ;;
    if negb (nul =? 0) then
      ret (None, {| errcode := kParseError; errstr := bs "invalid type name" |})
    else
      match CreateMessage name with
      | None =>
          ret (None, {| errcode := kUnknownMessageType; errstr := bs "type name = " ++ name |})
      | Some msg =>
          let payloadLen := len - kHeaderLen - nameLen in
          payload <-- peekString payloadLen ;;
          let '(ok, msg) := ParseFromArray msg payload in
          ret (Some msg, if ok then {| errcode := kNoError; errstr := bs "no error" |}
                         else {| errcode := kParseError;
                                 errstr := bs "message " ++ name ++ bs " parse error" |})
      end.

Definition onByteArray {A} (m : M ByteArray A) : M (K * ByteArray) A := onBuf m.

Definition closedByPeer : ErrMsg := {| errcode := kServerClosed; errstr := bs "closed by peer" |}.

(** The body of the loop of [receive]; [again] is its next round. *)
Definition receiveBody (again : M (K * ByteArray) (option Msg * ErrMsg))
    : M (K * ByteArray) (option Msg * ErrMsg) :=
  n <-- gets (fun p => getReadSize (snd p)) ;;
  if kHeaderLen + kMinMessageLen <? n then
    len <-- onByteArray readInt32 ;;
    if (kMaxMessageLen <? len) || (len <? kMinMessageLen) then
      ret (None, {| errcode := kInvalidLength;
                    errstr := bs "invalid length len= " ++ to_string len |})
    else
      n <-- gets (fun p => getReadSize (snd p)) ;;
      if u64 len <=? n then onByteArray (Parse len) else again
  else again.

(** [while (ss_.read(&ba, 4096) > 0)] *)
Fixpoint receiveLoop (fuel : nat) : M (K * ByteArray) (option Msg * ErrMsg) :=
  match fuel with
  | O => throw NoFuel
  | S fuel =>
      rt <-- readInto 4096 ;;
      if 0 <? rt then receiveBody (receiveLoop fuel) else ret (None, closedByPeer)
  end.

(** Every round but the last takes bytes off the stream. *)
Definition receive : M K (option Msg * ErrMsg) := fun s =>
  let '(r, p) := receiveLoop (Z.to_nat (toCome s + 1)) (s, newByteArray kInitSize) in (r, fst p).

(** ** RpcServer and RpcClient *)

(** [handlers_], a [std::map] by descriptor; the callback of a client. *)
Section Rpc.
Context `{EqDecision Desc, Countable Desc}.

Definition handlerMap : Type := gmap Desc (Msg -> Msg).

Definition registerRpcHandler (d : Desc) (h : Msg -> Msg) (m : handlerMap) : handlerMap := <[d := h]> m.

Definition handleClient (handlers_ : handlerMap) : M K unit :=
  r <-- receive ;;
  match fst r with
  | Some msg =>
      if decide (errcode (snd r) = kNoError) then
        match handlers_ !! GetDescriptor msg with
        | Some onMessage => sendMessage (onMessage msg) ;;; closeOn
        | None => closeOn
        end
      else closeOn
  | None => closeOn
  end.

(** [RpcClient::Call] on a connection: the response handed to [handler]. *)
Definition Call (req : Msg) : M K (option Msg) :=
  sendMessage req ;;;
  r <-- receive ;;
  closeOn ;;;
  ret (if decide (errcode (snd r) = kNoError) then fst r else None).
End Rpc.
End Connection.

(** ** Frames *)

Definition be32 (v : Z) : bytes := wire BIG_ENDIAN 4 v.

(** What follows the length, and the whole frame. *)
Definition packet (msg : Msg) : bytes :=
  be32 (zlen (GetTypeName msg) + 1) ++ GetTypeName msg ++ [zeroc] ++ Serialize msg.
Definition frame (msg : Msg) : bytes := be32 (zlen (packet msg)) ++ packet msg.

(** The frame's length fits the [int32_t] of its header. *)
Definition fits (msg : Msg) : Prop := zlen (packet msg) < 2 ^ 31 - 16.

Lemma zlen_be32 v : zlen (be32 v) = 4.
Proof. apply zlen_wire. Qed.

Lemma zlen_packet msg :
  zlen (packet msg) = 4 + zlen (GetTypeName msg) + 1 + zlen (Serialize msg).
Proof. unfold packet. rewrite !zlen_app, zlen_be32. change (zlen [zeroc]) with 1. lia. Qed.

Lemma writePrepend_spec d b q :
  rep b q -> zlen d <= readPos_ b ->
  exists b', writePrepend d b = (Ok tt, b') /\ wf b' /\ contents b' = d ++ q.
Proof.
  intros [[? ? ? ?] Hp Hq] Hd. unfold writePrepend. rewrite bind_gets. unfold id, assert_, check.
  rewrite (proj2 (Z.leb_le _ _)) by done. rewrite bind_ret. zlens.
  assert (Hw : u64 (readPos_ b - zlen d) = readPos_ b - zlen d)
    by (apply wrap_small; unfold vector_max_size in *; lia).
  unfold modify at 1. erewrite bind_ok by reflexivity. rewrite (proj2 (Z.leb_le _ _)) by lia.
  rewrite bind_ret. eexists. split; [reflexivity|]. cbn. rewrite Hw. split.
  - split; cbn; rewrite ?zlen_memput by lia; lia.
  - unfold contents in *. cbn. rewrite (slice_app _ (readPos_ b)) by lia. f_equal.
    + replace (readPos_ b) with (readPos_ b - zlen d + zlen d) at 2 by lia.
      apply slice_memput_at. lia.
    + rewrite slice_memput_after by lia. done.
Qed.

Lemma to_mem_be32 v :
  BYTE_ORDER = LITTLE_ENDIAN -> to_mem 4 (byteSwapOnLittleEndian int32_t v) = be32 v.
Proof.
  intros Hle. rewrite byteSwapOnLittleEndian_swaps. unfold be32.
  pose proof (to_mem_wire BIG_ENDIAN int32_t v) as E. rewrite decide_False in E.
  - apply E; [cbn; lia|by right].
  - by rewrite Hle.
Qed.

(** [serializeToByteArray] writes exactly one frame; none of its assertions
    fails. *)
Lemma serialize_spec msg :
  BYTE_ORDER = LITTLE_ENDIAN -> fits msg ->
  exists b, serializeToByteArray msg (newByteArray kInitSize) = (Ok tt, b)
    /\ wf b /\ contents b = frame msg.
Proof.
  intros Hle Hf. unfold fits in Hf. rewrite zlen_packet in Hf.
  set (name := GetTypeName msg) in *. set (payload := Serialize msg) in *. zlens.
  assert (Hb0 : rep (newByteArray kInitSize) []) by (apply new_rep; unfold kInitSize; lia).
  assert (Hw0 : writePos_ (newByteArray kInitSize) = 8) by done.
  unfold serializeToByteArray. fold name payload. cbv zeta.
  rewrite (wrap_small 64 (zlen name + 1)), (swrap_small 32 (zlen name + 1)), (swrap_small 32 (zlen payload)) by lia.
  destruct (writeScalar_spec int32_t (zlen name + 1) _ _ ltac:(cbn; lia) Hb0) as (b1 & E1 & Hb1 & Hw1 & He1).
  { by right. }
  { unfold room, vector_max_size. rewrite Hw0. cbn. lia. }
  cbn [ity_bytes int32_t Z.of_nat Pos.of_succ_nat] in Hw1. rewrite Hw0 in Hw1.
  change (wire (endian_ (newByteArray kInitSize)) (ity_bytes int32_t) (zlen name + 1))
    with (be32 (zlen name + 1)) in Hb1.
  rewrite app_nil_l in Hb1.
  unfold writeInt32. rewrite (bind_ok _ _ _ _ _ E1).
  destruct (write_spec name b1 _ Hb1) as (b2 & E2 & Hb2 & Hw2 & He2).
  { unfold room, vector_max_size. lia. }
  rewrite (bind_ok _ _ _ _ _ E2).
  destruct (write_spec [zeroc] b2 _ Hb2) as (b3 & E3 & Hb3 & Hw3 & He3).
  { unfold room, vector_max_size. change (zlen [zeroc]) with 1. lia. }
  change (zlen [zeroc]) with 1 in Hw3. rewrite (bind_ok _ _ _ _ _ E3).
  rewrite (wrap_small 64 (zlen payload)) by lia.
  destruct (getWriteArea_spec (zlen payload) b3 _ Hb3) as (b4 & E4 & Hb4 & Hs4 & Hw4 & He4).
  { unfold room, vector_max_size. lia. }
  rewrite (bind_ok _ _ _ _ _ E4).
  destruct (storeAtWritePos_spec payload b4 _ Hb4 Hs4) as (b5 & E5 & Hb5 & _ & Hu5 & Hw5 & He5 & _).
  rewrite (bind_ok _ _ _ _ _ E5). unfold modify at 1. erewrite bind_ok by reflexivity.
  set (b6 := setWritePos _ b5) in *. rewrite bind_gets. unfold id.
  rewrite <- !app_assoc in Hb5. assert (Hp : be32 (zlen name + 1) ++ name ++ [zeroc] ++ payload = packet msg) by done.
  rewrite Hp in Hb5.
  assert (Hsz : getReadSize b6 = zlen (packet msg))
    by (by rewrite (getReadSize_contents _ (rep_wf _ _ Hb5)), (rep_contents _ _ Hb5)).
  rewrite Hsz, zlen_packet. fold name payload.
  rewrite !(wrap_small 64) by (rewrite ?(wrap_small 64); lia).
  unfold assert_ at 1, check. rewrite (proj2 (Z.eqb_eq _ _)) by lia. rewrite bind_ret.
  rewrite swrap_small by lia. rewrite to_mem_be32 by done.
  destruct (writePrepend_spec (be32 (4 + zlen name + 1 + zlen payload)) b6 _ Hb5) as (b7 & E7 & Hwf & Hc).
  { rewrite zlen_be32. pose proof (rep_prepend _ _ Hb5). unfold kCheapPrepend in *. lia. }
  exists b7. split; [done|]. split; [done|]. rewrite Hc. unfold frame. by rewrite zlen_packet.
Qed.

(** The write from a buffer is the write of its bytes. *)
Lemma writeAll_raw {K} `{Conn K} (s : K) b :
  wf b -> fst (writeAll (s, b)) = fst (writeRaw (contents b) s)
    /\ fst (snd (writeAll (s, b))) = snd (writeRaw (contents b) s).
Proof using Type.
  intros Hwf. pose proof (getReadSize_contents b Hwf) as Hsz.
  pose proof (contents_length b Hwf) as Hl. destruct Hwf as [? ? ? ?].
  unfold writeAll. rewrite bind_gets. cbn [snd]. rewrite Hsz. unfold writeFrom, writeRaw. rewrite !bind_gets.
  cbn [fst]. unfold id. destruct (negb (connectedOn s)); [done|].
  assert (E1 : onBuf (getReadArea (zlen (contents b))) (s, b) = (Ok (contents b), (s, b))).
  { unfold onBuf, zoom, getReadArea. cbn [fst snd]. rewrite bind_gets. unfold id. rewrite Hsz, Z.ltb_irrefl.
    unfold check. rewrite (proj2 (Z.leb_le _ _)) by lia. rewrite bind_ret. unfold ret, contents.
    by replace (readPos_ b + zlen (slice (readPos_ b) (writePos_ b) (buf_ b))) with (writePos_ b)
      by (fold (contents b); lia). }
  rewrite (bind_ok _ _ _ _ _ E1). unfold bind, onSock, zoom. cbn [fst snd].
  destruct (sendOn (contents b) s) as [[rt|e] s']; [|done]. by destruct (0 <? rt).
Qed.

Lemma sendMessage_raw {K} `{Conn K} msg (s : K) :
  BYTE_ORDER = LITTLE_ENDIAN -> fits msg -> sendMessage msg s = (writeRaw (frame msg) ;;; ret tt) s.
Proof using Type.
  intros Hle Hf. destruct (serialize_spec msg Hle Hf) as (b & E & Hwf & Hq).
  destruct (writeAll_raw s b Hwf) as [Er Es]. rewrite Hq in *. unfold sendMessage, bind. rewrite E.
  destruct (writeAll (s, b)) as [[n|e] [s1 b1]], (writeRaw (frame msg) s) as [[n'|e'] s2]; cbn in *; by simplify_eq.
Qed.

Lemma sendMessage_spec msg s :
  BYTE_ORDER = LITTLE_ENDIAN -> fits msg -> connected s = true -> accepts s = [] ->
  sendMessage msg s = (Ok tt, setSent [] (outgoing s ++ frame msg) s).
Proof.
  intros Hle Hf Hc Ha. rewrite sendMessage_raw by done. unfold writeRaw. unfold bind at 1. rewrite bind_gets.
  unfold id. cbn [connectedOn sendOn connSock]. unfold isConnected. rewrite Hc. cbn [negb].
  unfold send. by rewrite Hc, Ha.
Qed.

(** ** Parsing a packet *)

Lemma peekString_spec n b q :
  rep b q -> 0 <= n <= zlen q -> peekString n b = (Ok (take (Z.to_nat n) q), b).
Proof.
  intros [[? ? ? ?] Hp Hq] Hn. unfold peekString. rewrite bind_gets. unfold id, check.
  assert (Hl : zlen q = writePos_ b - readPos_ b) by (rewrite <- Hq; apply contents_length; by split).
  rewrite !(proj2 (Z.leb_le _ _)) by lia. cbn [andb]. rewrite bind_ret. unfold ret.
  do 2 f_equal. rewrite <- Hq. unfold contents. rewrite take_slice by lia. f_equal. lia.
Qed.

Lemma skip_spec n b q :
  rep b q -> 0 <= n <= zlen q ->
  rep (setReadPos (u64 (readPos_ b + n)) b) (drop (Z.to_nat n) q).
Proof.
  intros [[? ? ? ?] Hp Hq] Hn.
  assert (Hl : zlen q = writePos_ b - readPos_ b) by (rewrite <- Hq; apply contents_length; by split).
  rewrite wrap_small by (unfold vector_max_size in *; lia).
  split; [split; cbn; lia|cbn; lia|]. unfold contents in *. cbn. rewrite <- Hq, drop_slice by lia.
  f_equal. lia.
Qed.

Lemma readInt32_spec b q :
  rep b q -> endian_ b = BIG_ENDIAN -> 4 <= zlen q ->
  exists b', readInt32 b = (Ok (i32 (unwire BIG_ENDIAN (take 4 q))), b') /\ rep b' (drop 4 q)
    /\ endian_ b' = BIG_ENDIAN /\ writePos_ b' = writePos_ b.
Proof.
  intros Hb He Hq. pose proof (readScalar_spec int32_t b q ltac:(cbn; lia) Hb) as Hr.
  rewrite He in Hr. specialize (Hr (or_intror eq_refl)). cbn zeta in Hr.
  rewrite decide_True in Hr by (cbn; lia). destruct Hr as (b' & E & Hb' & Hw & Hen).
  exists b'. split; [exact E|]. split; [exact Hb'|]. split; [congruence|done].
Qed.

(** [Parse] reads inside the packet: with [len] bytes in the buffer it
    returns, whatever they are. *)
Lemma Parse_safe len b q :
  rep b q -> endian_ b = BIG_ENDIAN -> kMinMessageLen <= len <= zlen q -> len < 2 ^ 31 ->
  exists r b', Parse len b = (Ok r, b').
Proof.
  intros Hb He Hlen Hmax. unfold kMinMessageLen, kHeaderLen in *.
  destruct (readInt32_spec b q Hb He) as (b1 & E1 & Hb1 & He1 & _); [lia|].
  unfold Parse, kHeaderLen. rewrite (bind_ok _ _ _ _ _ E1). set (nl := i32 _).
  destruct ((nl <? 2) || (len - 4 <? nl)) eqn:Enl; [by eexists _, _|].
  apply orb_false_elim in Enl as [Hn1%Z.ltb_ge Hn2%Z.ltb_ge].
  assert (Hq1 : zlen (drop 4 q) = zlen q - 4) by (unfold zlen in *; rewrite length_drop; lia).
  rewrite (bind_ok _ _ _ _ _ (peekString_spec (nl - 1) b1 _ Hb1 ltac:(lia))).
  unfold modify at 1. erewrite bind_ok by reflexivity.
  pose proof (skip_spec (nl - 1) b1 _ Hb1 ltac:(lia)) as Hb2.
  rewrite <- Z.add_sub_assoc. set (b2 := setReadPos _ b1) in *. set (q2 := drop _ (drop 4 q)) in *.
  assert (Hq2 : zlen q2 = zlen q - 4 - (nl - 1)) by (unfold q2; rewrite <- Hq1; unfold zlen in *; rewrite !length_drop in *; lia).
  pose proof (read_spec 1 b2 q2 Hb2 ltac:(lia)) as Hrd. rewrite decide_True in Hrd by lia.
  destruct Hrd as (b3 & E3 & Hb3 & _ & _).
  unfold readInt8. rewrite (bind_ok _ _ b2 (cast int8_t (of_mem (take (Z.to_nat 1) q2))) b3)
    by (by rewrite (bind_ok _ _ _ _ _ E3)).
  destruct (negb _); [by eexists _, _|]. destruct (CreateMessage _) as [m|]; [|by eexists _, _].
  erewrite bind_ok; [|apply (peekString_spec (len - 4 - nl) b3 _ Hb3)].
  - destruct (ParseFromArray _ _). by eexists _, _.
  - assert (zlen (drop (Z.to_nat 1) q2) = zlen q2 - 1) by (unfold zlen in *; rewrite length_drop; lia). lia.
Qed.

Lemma unwire_be32 v rest : 0 <= v < 2 ^ 31 -> i32 (unwire BIG_ENDIAN (take 4 (be32 v ++ rest))) = v.
Proof.
  intros Hv. rewrite take_app_length' by (symmetry; apply length_wire). unfold be32. rewrite unwire_wire.
  change (8 * Z.of_nat 4) with 32. rewrite swrap_wrap by lia. apply swrap_small; lia.
Qed.

Lemma drop_be32 v rest : drop 4 (be32 v ++ rest) = rest.
Proof. apply drop_app_length'. symmetry. apply length_wire. Qed.

(** [Parse] of a packet gives the message back. *)
Lemma Parse_packet msg rest b d prototype :
  rep b (packet msg ++ rest) -> endian_ b = BIG_ENDIAN -> fits msg -> GetTypeName msg <> [] ->
  FindMessageTypeByName (GetTypeName msg) = Some d -> GetPrototype d = Some prototype ->
  exists b', Parse (zlen (packet msg)) b
    = (Ok (Some msg, {| errcode := kNoError; errstr := bs "no error" |}), b').
Proof.
  intros Hb He Hf Hne Hd Hpr. unfold fits in Hf. rewrite zlen_packet in *.
  set (name := GetTypeName msg) in *. set (payload := Serialize msg) in *.
  unfold packet in Hb. fold name payload in Hb. rewrite <- !app_assoc in Hb. zlens.
  destruct (readInt32_spec b _ Hb He) as (b1 & E1 & Hb1 & He1 & _).
  { rewrite zlen_app, zlen_be32. zlia. }
  unfold Parse, kHeaderLen. rewrite (bind_ok _ _ _ _ _ E1). rewrite unwire_be32 by lia.
  rewrite drop_be32 in Hb1.
  assert (Hpos : 0 < zlen name) by (destruct name; [done|rewrite zlen_cons; zlia]).
  rewrite (proj2 (Z.ltb_ge _ 2)), (proj2 (Z.ltb_ge _ (zlen name + 1))) by lia. cbn [orb].
  replace (zlen name + 1 - 1) with (zlen name) by lia.
  erewrite bind_ok by (apply (peekString_spec _ _ _ Hb1); rewrite zlen_app; zlia).
  unfold modify at 1. erewrite bind_ok by reflexivity.
  replace (readPos_ b1 + (zlen name + 1) - 1) with (readPos_ b1 + zlen name) by lia.
  pose proof (skip_spec (zlen name) b1 _ Hb1 ltac:(rewrite zlen_app; zlia)) as Hb2.
  set (b2 := setReadPos _ b1) in *.
  unfold zlen in Hb2 at 1. rewrite Nat2Z.id, drop_app_length in Hb2.
  pose proof (read_spec 1 b2 _ Hb2 ltac:(lia)) as Hrd.
  rewrite decide_True in Hrd by (rewrite zlen_app; change (zlen [zeroc]) with 1; zlia).
  destruct Hrd as (b3 & E3 & Hb3 & _ & _). change (Z.to_nat 1) with 1%nat in *. cbn [take drop app] in *.
  rewrite drop_0 in Hb3.
  assert (E8 : readInt8 b2 = (Ok 0, b3)).
  { unfold readInt8. rewrite (bind_ok _ _ _ _ _ E3). unfold ret. do 2 f_equal.
    unfold of_mem. by case_decide. }
  rewrite (bind_ok _ _ _ _ _ E8). cbn [Z.eqb negb].
  unfold zlen at 1. rewrite Nat2Z.id, take_app_length. fold (zlen name).
  unfold CreateMessage. fold name. rewrite Hd, Hpr.
  replace (4 + zlen name + 1 + zlen payload - 4 - (zlen name + 1)) with (zlen payload) by lia.
  erewrite bind_ok by (apply (peekString_spec _ _ _ Hb3); rewrite zlen_app; zlia).
  unfold zlen. rewrite Nat2Z.id, take_app_length.
  unfold payload. erewrite parse_serialize by done. by eexists.
Qed.

(** ** Receiving *)

Record receiving (s : Sock) (b : ByteArray) (q : bytes) : Prop := {
  bf_flow : flowing s;
  bf_rep : rep b q;
  bf_endian : endian_ b = BIG_ENDIAN;
  bf_room : writePos_ b + pending s <= 2 ^ 62
}.

Lemma receiving_new s : flowing s -> pending s <= 2 ^ 60 -> receiving s (newByteArray kInitSize) [].
Proof.
  intros Hf Hp. split; [done|apply new_rep; unfold kInitSize; lia|done|].
  cbn. unfold kCheapPrepend. lia.
Qed.

(** One round: the connection is closed, or a read fills the buffer. *)
Lemma receiveLoop_step fuel s b q :
  receiving s b q ->
  (incoming s = [] /\ exists b', receiveLoop (S fuel) (s, b) = (Ok (None, closedByPeer), (s, b')))
  \/ exists d s' b', receiving s' b' (q ++ d)
      /\ receiveLoop (S fuel) (s, b) = receiveBody (receiveLoop fuel) (s', b')
      /\ pending s' < pending s
      /\ (forall d0 l0, incoming s = d0 :: l0 -> zlen d0 <= 4096 -> d = d0 /\ incoming s' = l0)
      /\ s' = setIncoming (incoming s') s.
Proof.
  intros [Hfl Hr He Hroom]. cbn [receiveLoop].
  destruct (recv_flowing 4096 s ltac:(lia) Hfl)
    as [[Hnil E]|(d & s' & Hd & Hz & E & Hfl' & Hcc & Hs' & Hpe & _ & Hl)].
  - left. split; [done|].
    destruct (readInto_spec 4096 s b q 0 [] s ltac:(lia) Hr Hroom (proj1 Hfl) E) as (b' & E1 & _).
    rewrite (bind_ok _ _ _ _ _ E1). by eexists.
  - right. destruct (readInto_spec 4096 s b q _ d s' ltac:(lia) Hr Hroom (proj1 Hfl) E)
      as (b' & E1 & Hr' & He' & Hroom').
    rewrite (proj2 (Z.ltb_lt _ _)) in Hr' by lia.
    exists d, s', b'. split; [split; [done|done|congruence|done]|]. split; [|split; [lia|by split]].
    rewrite (bind_ok _ _ _ _ _ E1), (proj2 (Z.ltb_lt _ _)) by lia. done.
Qed.

(** A buffer that is too short for a header. *)
Lemma receiveBody_short again (s : Sock) b q :
  rep b q -> zlen q <= 10 -> receiveBody again (s, b) = again (s, b).
Proof.
  intros Hr Hq. unfold receiveBody. rewrite bind_gets. cbn [snd].
  rewrite (getReadSize_contents b (rep_wf _ _ Hr)), (rep_contents _ _ Hr).
  unfold kMinMessageLen, kHeaderLen. by rewrite (proj2 (Z.ltb_ge _ _)) by lia.
Qed.

(** With a header: the length is checked, and it is the packet's turn when
    the buffer has that many bytes; otherwise the loop goes on without the
    four bytes of the length. *)
Lemma receiveBody_header again (s : Sock) b q :
  rep b q -> endian_ b = BIG_ENDIAN -> 10 < zlen q ->
  let len := i32 (unwire BIG_ENDIAN (take 4 q)) in
  exists b', rep b' (drop 4 q) /\ endian_ b' = BIG_ENDIAN /\ writePos_ b' = writePos_ b
    /\ receiveBody again (s, b) =
       if (kMaxMessageLen <? len) || (len <? kMinMessageLen)
       then (Ok (None, {| errcode := kInvalidLength;
                          errstr := bs "invalid length len= " ++ to_string len |}), (s, b'))
       else if len <=? zlen q - 4 then onByteArray (Parse len) (s, b')
       else again (s, b').
Proof.
  intros Hr He Hq len. destruct (readInt32_spec b q Hr He) as (b' & E & Hr' & He' & Hw'); [lia|].
  exists b'. split; [done|]. split; [done|]. split; [done|].
  unfold receiveBody. rewrite bind_gets. cbn [snd].
  rewrite (getReadSize_contents b (rep_wf _ _ Hr)), (rep_contents _ _ Hr).
  unfold kMinMessageLen, kHeaderLen at 1. rewrite (proj2 (Z.ltb_lt _ _)) by (unfold kHeaderLen; lia).
  assert (E1 : onByteArray readInt32 (s, b) = (Ok len, (s, b')))
    by (unfold onByteArray, onBuf, zoom; cbn [fst snd]; by rewrite E).
  rewrite (bind_ok _ _ _ _ _ E1). fold kMinMessageLen.
  destruct ((kMaxMessageLen <? len) || (len <? kMinMessageLen)) eqn:El; [done|].
  apply orb_false_elim in El as [Hl1%Z.ltb_ge Hl2%Z.ltb_ge].
  unfold kMaxMessageLen, kMinMessageLen, kHeaderLen in *.
  rewrite bind_gets. cbn [snd].
  rewrite (getReadSize_contents b' (rep_wf _ _ Hr')), (rep_contents _ _ Hr').
  assert (Hd : zlen (drop 4 q) = zlen q - 4) by (unfold zlen in *; rewrite length_drop; lia).
  rewrite Hd, wrap_small by lia. by destruct (len <=? zlen q - 4).
Qed.

Lemma zlen_frame msg : zlen (frame msg) = 4 + zlen (packet msg).
Proof. unfold frame. by rewrite zlen_app, zlen_be32. Qed.

Lemma receive_frame msg d prototype s behind l :
  10 < zlen (frame msg) <= 4096 -> GetTypeName msg <> [] ->
  FindMessageTypeByName (GetTypeName msg) = Some d -> GetPrototype d = Some prototype ->
  flowing s -> pending s <= 2 ^ 60 ->
  incoming s = (frame msg ++ behind) :: l -> zlen (frame msg ++ behind) <= 4096 ->
  exists s', receive s = (Ok (Some msg, {| errcode := kNoError; errstr := bs "no error" |}), s')
    /\ s' = setIncoming (incoming s') s.
Proof.
  intros Hlen Hne Hd Hpr Hfl Hp Hin Hsz. rewrite zlen_frame in Hlen.
  assert (Hf : fits msg) by (unfold fits; lia). unfold receive. cbn [toCome connSock].
  assert (Hp0 : 0 <= pending s) by apply zlen_nonneg.
  destruct (Z.to_nat (pending s + 1)) as [|fuel] eqn:Ef; [lia|].
  destruct (receiveLoop_step fuel s _ _ (receiving_new s Hfl Hp))
    as [[Hnil _]|(d1 & s3 & b3 & Hb3 & E & _ & Hd1 & Hst)]; [by rewrite Hin in Hnil|].
  destruct (Hd1 _ _ Hin Hsz) as [-> _]. destruct Hb3 as [_ Hr He _]. rewrite app_nil_l in Hr.
  unfold frame in Hr. rewrite <- app_assoc in Hr.
  destruct (receiveBody_header (receiveLoop fuel) s3 b3 _ Hr He) as (b4 & Hr4 & He4 & _ & E4).
  { rewrite !zlen_app, zlen_be32. zlia. }
  rewrite unwire_be32 in E4 by (pose proof (zlen_nonneg (packet msg)); lia).
  rewrite drop_be32 in Hr4.
  rewrite E, E4. unfold kMaxMessageLen, kMinMessageLen, kHeaderLen.
  rewrite !(proj2 (Z.ltb_ge _ _)) by lia. cbn [orb].
  rewrite (proj2 (Z.leb_le _ _)) by (rewrite !zlen_app, zlen_be32; zlia).
  destruct (Parse_packet msg behind b4 d prototype Hr4 He4 Hf Hne Hd Hpr) as (b5 & E5).
  unfold onByteArray, onBuf, zoom. cbn [fst snd]. rewrite E5. by exists s3.
Qed.

(** An RPC message arrives.  What [send] puts on the wire, arriving in
    one read (with anything behind it), makes [receive] return the message
    with [kNoError], on every little-endian host, for every registered type
    and a frame of more than 10 and at most 4096 bytes. *)
Theorem rpc_round_trip msg d prototype s1 :
  BYTE_ORDER = LITTLE_ENDIAN -> 10 < zlen (frame msg) <= 4096 -> GetTypeName msg <> [] ->
  FindMessageTypeByName (GetTypeName msg) = Some d -> GetPrototype d = Some prototype ->
  connected s1 = true -> accepts s1 = [] ->
  exists sent, sendMessage msg s1 = (Ok tt, setSent [] (outgoing s1 ++ sent) s1)
    /\ forall s2 behind l, flowing s2 -> pending s2 <= 2 ^ 60 ->
         incoming s2 = (sent ++ behind) :: l -> zlen (sent ++ behind) <= 4096 ->
         fst (receive s2) = Ok (Some msg, {| errcode := kNoError; errstr := bs "no error" |}).
Proof.
  intros Hle Hlen Hne Hd Hpr Hc Ha. pose proof Hlen as Hlen'. rewrite zlen_frame in Hlen'.
  assert (Hf : fits msg) by (unfold fits; lia).
  exists (frame msg). split; [by apply sendMessage_spec|].
  intros s2 behind l Hfl Hp Hin Hsz.
  destruct (receive_frame msg d prototype s2 behind l) as (s3 & -> & _); done.
Qed.

(** The RPC server answers.  A request whose type has a handler gets the
    frame of what the handler returns, one without gets nothing, and in both
    cases the connection is closed. *)
Theorem rpc_server_answers `{EqDecision Desc, Countable Desc} handlers req d prototype s l :
  BYTE_ORDER = LITTLE_ENDIAN -> 10 < zlen (frame req) <= 4096 -> GetTypeName req <> [] ->
  FindMessageTypeByName (GetTypeName req) = Some d -> GetPrototype d = Some prototype ->
  flowing s -> pending s <= 2 ^ 60 -> accepts s = [] -> incoming s = frame req :: l ->
  (forall h, handlers !! GetDescriptor req = Some h -> fits (h req)) ->
  exists s', handleClient handlers s = (Ok tt, s') /\ connected s' = false
    /\ outgoing s' = outgoing s ++ (match handlers !! GetDescriptor req with
                                    | Some h => frame (h req) | None => [] end).
Proof.
  intros Hle Hlen Hne Hd Hpr Hfl Hp Ha Hin Hh.
  destruct (receive_frame req d prototype s [] l) as (s1 & E & Hs1); try done.
  { by rewrite app_nil_r. } { by rewrite app_nil_r; lia. }
  unfold handleClient. rewrite (bind_ok _ _ _ _ _ E). cbn [fst snd errcode].
  rewrite decide_True by done.
  destruct (handlers !! GetDescriptor req) as [h|] eqn:Eh.
  - rewrite (bind_ok _ _ _ _ _ (sendMessage_spec (h req) s1 Hle (Hh h eq_refl)
      ltac:(rewrite Hs1; apply Hfl) ltac:(rewrite Hs1; exact Ha))).
    eexists. split; [reflexivity|]. split; [done|]. cbn. rewrite Hs1. done.
  - eexists. split; [reflexivity|]. split; [done|]. cbn. rewrite Hs1, app_nil_r. done.
Qed.

(** A message the peer receives when its frame arrives in one read. *)
Definition receivable (msg : Msg) : Prop :=
  10 < zlen (frame msg) <= 4096 /\ GetTypeName msg <> []
  /\ exists d prototype, FindMessageTypeByName (GetTypeName msg) = Some d /\ GetPrototype d = Some prototype.

Lemma receivable_fits msg : receivable msg -> fits msg.
Proof. intros [Hl _]. rewrite zlen_frame in Hl. unfold fits. lia. Qed.

Lemma receive_closed s :
  connected s = true -> incoming s = [] -> receive s = (Ok (None, closedByPeer), s).
Proof.
  intros Hc Hin. assert (Hfl : flowing s) by (split; [done|by rewrite Hin]).
  assert (Hp : pending s = 0) by (unfold pending; by rewrite Hin).
  unfold receive. cbn [toCome connSock]. rewrite Hp. change (Z.to_nat (0 + 1)) with 1%nat.
  destruct (receiveLoop_step 0 s _ _ (receiving_new s Hfl ltac:(lia)))
    as [[_ [b E]]|(d & s' & b' & _ & _ & Hlt & _)]; [|pose proof (zlen_nonneg (List.concat (incoming s'))); unfold pending in *; lia].
  by rewrite E.
Qed.

(** One RPC; see [rpc_exchange]. *)
Lemma rpc_run `{EqDecision Desc, Countable Desc} handlers req s :
  BYTE_ORDER = LITTLE_ENDIAN -> receivable req ->
  (forall h, handlers !! GetDescriptor req = Some h -> receivable (h req)) ->
  connected s = true -> accepts s = [] -> outgoing s = [] -> incoming s = inOneRead (frame req) ->
  exists s', handleClient handlers s = (Ok tt, s') /\ connected s' = false
    /\ forall c, connected c = true -> accepts c = [] -> outgoing c = [] -> incoming c = inOneRead (outgoing s') ->
         exists c', Call req c = (Ok (option_map (fun h => h req) (handlers !! GetDescriptor req)), c')
           /\ outgoing c' = frame req /\ connected c' = false.
Proof.
  intros Hle Hreq Hh Hc Ha Ho Hin. pose proof Hreq as (Hlen & Hne & d & prototype & Hd & Hpr).
  assert (Hone : forall msg, receivable msg -> inOneRead (frame msg) = [frame msg] /\ frame msg <> []).
  { intros msg [Hm _]. destruct (frame msg); [unfold zlen in Hm; cbn in Hm; lia|done]. }
  rewrite (proj1 (Hone _ Hreq)) in Hin.
  assert (Hfl : forall x msg, receivable msg -> connected x = true -> incoming x = [frame msg] ->
    flowing x /\ pending x <= 2 ^ 60).
  { intros x msg Hm Hx Hi. split; [split; [done|rewrite Hi; apply Forall_singleton, (Hone _ Hm)]|].
    unfold pending. rewrite Hi. cbn [List.concat]. rewrite app_nil_r. destruct Hm as [? _]. lia. }
  destruct (Hfl s req Hreq Hc Hin) as [Hfs Hps].
  destruct (rpc_server_answers handlers req d prototype s [] Hle Hlen Hne Hd Hpr Hfs Hps Ha Hin) as (s' & E & Hcl & Hout).
  { intros h Eh. by apply receivable_fits, Hh. }
  exists s'. split; [done|]. split; [done|]. intros c Hcc Hca Hco Hci. rewrite Ho in Hout. cbn in Hout.
  set (c1 := setSent [] (outgoing c ++ frame req) c).
  assert (Es : sendMessage req c = (Ok tt, c1)) by (apply sendMessage_spec; [done|by apply receivable_fits|done..]).
  unfold Call. rewrite (bind_ok _ _ _ _ _ Es).
  destruct (handlers !! GetDescriptor req) as [h|] eqn:Eh.
  - specialize (Hh h eq_refl). rewrite Hout, (proj1 (Hone _ Hh)) in Hci.
    destruct (Hfl c1 (h req) Hh Hcc Hci) as [Hfc Hpc]. destruct Hh as (Hl & Hn & d' & p' & Hd' & Hp').
    destruct (receive_frame (h req) d' p' c1 [] []) as (c2 & Er & Hc2); try done; [by rewrite app_nil_r|rewrite app_nil_r; lia|].
    rewrite (bind_ok _ _ _ _ _ Er). eexists. split; [done|]. split; [|done]. cbn. rewrite Hc2. cbn. by rewrite Hco.
  - rewrite Hout in Hci. rewrite (bind_ok _ _ _ _ _ (receive_closed c1 Hcc Hci)).
    eexists. split; [done|]. split; [|done]. cbn. by rewrite Hco.
Qed.

(** One RPC from end to end.  The client's [Call] puts the frame of the
    request on the wire and, when the server's bytes come back in one read,
    hands its callback exactly what the handler registered for that type made
    of the request; without a handler the server closes the connection and
    the callback is not run.  Both sides have then closed. *)
Theorem rpc_exchange `{EqDecision Desc, Countable Desc} handlers req s :
  BYTE_ORDER = LITTLE_ENDIAN -> receivable req ->
  (forall h, handlers !! GetDescriptor req = Some h -> receivable (h req)) ->
  connected s = true -> accepts s = [] -> outgoing s = [] -> incoming s = inOneRead (frame req) ->
  exists s', handleClient handlers s = (Ok tt, s') /\ connected s' = false
    /\ forall c, connected c = true -> accepts c = [] -> outgoing c = [] -> incoming c = inOneRead (outgoing s') ->
         exists c', Call req c = (Ok (option_map (fun h => h req) (handlers !! GetDescriptor req)), c')
           /\ outgoing c' = frame req /\ connected c' = false.
Proof. apply rpc_run. Qed.

(** C19: [receive] is safe on any input: whatever the peer sends, it returns a
    message or an error code, and [Parse] reads no byte outside the packet. *)
Theorem receive_safe s :
  flowing s -> pending s <= 2 ^ 60 -> exists r s', receive s = (Ok r, s').
Proof.
  intros Hfl Hp.
  assert (H1 : forall fuel s b q, receiving s b q -> pending s < Z.of_nat fuel ->
    exists r p, receiveLoop fuel (s, b) = (Ok r, p)).
  { clear. intros fuel. induction fuel as [|fuel IH]; intros s b q Hb Hf.
    { pose proof (zlen_nonneg (List.concat (incoming s))). unfold pending in *. lia. }
    destruct (receiveLoop_step fuel s b q Hb) as [[_ [p E]]|(d & s' & b' & Hb' & E & Hlt & _)];
      [by eexists _, _|].
    rewrite E. pose proof Hb' as [Hfl' Hr' He' Hroom'].
    destruct (Z.leb_spec (zlen (q ++ d)) 10) as [Hs|Hs].
    { rewrite (receiveBody_short _ _ _ _ Hr' Hs). apply (IH s' b' _ Hb'). lia. }
    destruct (receiveBody_header (receiveLoop fuel) s' b' _ Hr' He' Hs) as (b2 & Hr2 & He2 & Hw2 & E2).
    rewrite E2. clear E2. set (len := i32 _) in *.
    destruct ((kMaxMessageLen <? len) || (len <? kMinMessageLen)) eqn:El; [by eexists _, _|].
    apply orb_false_elim in El as [Hl1%Z.ltb_ge Hl2%Z.ltb_ge].
    destruct (Z.leb_spec len (zlen (q ++ d) - 4)).
    - assert (Hd : zlen (drop 4 (q ++ d)) = zlen (q ++ d) - 4) by (unfold zlen in *; rewrite length_drop; lia).
      destruct (Parse_safe len b2 _ Hr2 He2) as (r & b3 & E3); [lia|unfold kMaxMessageLen in *; lia|].
      unfold onByteArray, onBuf, zoom. cbn [fst snd]. rewrite E3. by eexists _, _.
    - apply (IH s' b2 (drop 4 (q ++ d))); [|lia]. split; try done. by rewrite Hw2. }
  destruct (H1 (Z.to_nat (pending s + 1)) s _ _ (receiving_new s Hfl Hp)) as (r & p & E).
  { pose proof (zlen_nonneg (List.concat (incoming s))). unfold pending in *. lia. }
  unfold receive. cbn [toCome connSock]. rewrite E. by eexists _, _.
Qed.

(** Four characters of a name, read as a length, are far too long or negative. *)
Lemma name_as_length c1 c2 c3 c4 :
  0 < code c1 ->
  i32 (unwire BIG_ENDIAN [c1; c2; c3; c4]) < 2 \/ 2 ^ 24 <= i32 (unwire BIG_ENDIAN [c1; c2; c3; c4]).
Proof.
  intros Hc. pose proof (code_range c1). pose proof (code_range c2).
  pose proof (code_range c3). pose proof (code_range c4).
  unfold unwire. rewrite decide_False by done. cbn [rev app le_value].
  set (v := code c4 + _). assert (Hv : v = code c4 + 256 * code c3 + 65536 * code c2 + 16777216 * code c1)
    by (unfold v; lia). clearbody v.
  destruct (decide (v < 2 ^ 31)).
  - rewrite swrap_small by lia. right. lia.
  - left. assert (i32 v = v - 2 ^ 32) as ->; [|lia].
    unfold swrap. rewrite <- (Z.mod_add _ (-1)) by lia. rewrite Z.mod_small; lia.
Qed.

Lemma receiveLoop_closed fuel s b q :
  receiving s b q -> incoming s = [] -> exists p, receiveLoop (S fuel) (s, b) = (Ok (None, closedByPeer), p).
Proof.
  intros Hb Hnil.
  destruct (receiveLoop_step fuel s b q Hb) as [[_ [b' E]]|(d & s' & b' & _ & _ & Hlt & _)]; [by eexists|].
  unfold pending in Hlt. rewrite Hnil in Hlt. cbn in Hlt. unfold zlen in Hlt. cbn in Hlt. lia.
Qed.

(** A packet without its frame's length is rejected: the name length is taken
    for the frame's and the beginning of the name for the name length. *)
Lemma headless_packet msg fuel (s : Sock) b :
  receiving s b (packet msg) -> incoming s = [] ->
  (exists c, head (GetTypeName msg) = Some c /\ 0 < code c) -> zlen (packet msg) <= 4096 ->
  exists e p, receiveBody (receiveLoop (S fuel)) (s, b) = (Ok (None, e), p) /\ errcode e <> kNoError.
Proof.
  intros Hb3 Hin2 (c & Hhead & Hc) Hmax. pose proof Hb3 as [Hfl3 Hr3 He3 Hroom3].
  destruct (Z.leb_spec (zlen (packet msg)) 10) as [Hs|Hs].
  { rewrite (receiveBody_short _ _ _ _ Hr3 Hs).
    destruct (receiveLoop_closed fuel s b _ Hb3 Hin2) as [p ->]. by eexists _, _. }
  destruct (receiveBody_header (receiveLoop (S fuel)) s b _ Hr3 He3 Hs) as (b4 & Hr4 & He4 & _ & E4).
  rewrite E4. clear E4. unfold packet in Hr4 at 1. rewrite drop_be32 in Hr4.
  pose proof (zlen_nonneg (GetTypeName msg)). pose proof (zlen_packet msg) as Hpk.
  pose proof (zlen_nonneg (Serialize msg)).
  set (nl := zlen (GetTypeName msg) + 1) in *.
  assert (Hname : i32 (unwire BIG_ENDIAN (take 4 (packet msg))) = nl)
    by (unfold packet; apply unwire_be32; lia).
  rewrite Hname.
  destruct (_ || _) eqn:El; [by eexists _, _|].
  apply orb_false_elim in El as [_ Hl2%Z.ltb_ge]. unfold kMinMessageLen, kHeaderLen in Hl2.
  rewrite (proj2 (Z.leb_le nl _)) by lia.
  destruct (GetTypeName msg) as [|c1 [|c2 [|c3 [|c4 name]]]] eqn:En;
    try (unfold nl, zlen in Hl2; cbn in Hl2; lia).
  injection Hhead as ->.
  destruct (readInt32_spec b4 _ Hr4 He4) as (b5 & E5 & _); [unfold zlen; cbn; lia|].
  unfold onByteArray, onBuf, zoom, Parse, kHeaderLen. cbn [fst snd]. rewrite (bind_ok _ _ _ _ _ E5).
  cbn [take app]. pose proof (name_as_length c c2 c3 c4 Hc) as Hnl.
  assert (Hif : (i32 (unwire BIG_ENDIAN [c; c2; c3; c4]) <? 2)
                || (nl - 4 <? i32 (unwire BIG_ENDIAN [c; c2; c3; c4])) = true).
  { destruct Hnl as [Hnl|Hnl]; [by rewrite (proj2 (Z.ltb_lt _ _))|].
    rewrite (proj2 (Z.ltb_lt (nl - 4) _)), orb_true_r; [done|]. lia. }
  rewrite firstn_O, Hif. by eexists _, _.
Qed.

(** A frame that TCP delivers in two reads is lost.  Unless all of it is
    there when the length is first read, [receive] forgets the length it has
    taken out of the buffer and reads the name length in its place: a
    complete, correct frame whose first read ends inside the packet, behind
    the first ten bytes, is rejected. *)
Theorem split_frame_rejected msg d1 d2 s :
  flowing s -> incoming s = [d1; d2] -> d1 ++ d2 = frame msg ->
  10 < zlen d1 < zlen (frame msg) -> zlen (frame msg) <= 4096 ->
  (exists c, head (GetTypeName msg) = Some c /\ 0 < code c) ->
  exists e s', receive s = (Ok (None, e), s') /\ errcode e <> kNoError.
Proof.
  intros Hfl Hin Hfr Hd1 Hmax Hhead.
  assert (Hp : pending s = zlen (frame msg)).
  { unfold pending. rewrite Hin. cbn [List.concat]. by rewrite app_nil_r, Hfr. }
  assert (Hz : zlen d1 + zlen d2 = zlen (frame msg)) by (by rewrite <- zlen_app, Hfr).
  rewrite zlen_frame in *.
  assert (Hfuel : exists fuel, Z.to_nat (pending s + 1) = S (S (S fuel))).
  { exists (Z.to_nat (pending s - 2)). lia. }
  destruct Hfuel as [fuel Ef]. unfold receive. cbn [toCome connSock]. rewrite Ef.
  destruct (receiveLoop_step (S (S fuel)) s _ _ (receiving_new s Hfl ltac:(lia)))
    as [[Hnil _]|(d & s1 & b1 & Hb1 & E1 & _ & Hd & _)]; [by rewrite Hin in Hnil|].
  destruct (Hd _ _ Hin ltac:(lia)) as [-> Hin1]. rewrite app_nil_l in Hb1. rewrite E1. clear E1 Hd.
  pose proof Hb1 as [Hfl1 Hr1 He1 Hroom1].
  destruct (receiveBody_header (receiveLoop (S (S fuel))) s1 b1 d1 Hr1 He1) as (b2 & Hr2 & He2 & Hw2 & E2); [lia|].
  assert (Hlen : i32 (unwire BIG_ENDIAN (take 4 d1)) = zlen (packet msg)).
  { replace (take 4 d1) with (take 4 (frame msg)).
    - unfold frame. apply unwire_be32. lia.
    - rewrite <- Hfr. apply take_app_le. unfold zlen in *. lia. }
  rewrite Hlen in E2. unfold kMaxMessageLen, kMinMessageLen, kHeaderLen in E2.
  rewrite !(proj2 (Z.ltb_ge _ _)) in E2 by lia. cbn [orb] in E2.
  rewrite (proj2 (Z.leb_gt _ _)) in E2 by lia. rewrite E2. clear E2.
  assert (Hb2 : receiving s1 b2 (drop 4 d1)) by (split; try done; by rewrite Hw2).
  destruct (receiveLoop_step (S fuel) s1 b2 _ Hb2) as [[Hnil _]|(d & s2 & b3 & Hb3 & E3 & _ & Hd & _)];
    [by rewrite Hin1 in Hnil|].
  destruct (Hd _ _ Hin1 ltac:(zlia)) as [-> Hin2]. rewrite E3. clear E3 Hd.
  assert (Hq : drop 4 d1 ++ d2 = packet msg).
  { rewrite <- (drop_be32 (zlen (packet msg)) (packet msg)). fold (frame msg). rewrite <- Hfr.
    symmetry. apply drop_app_le. unfold zlen in *. lia. }
  rewrite Hq in Hb3. destruct (headless_packet msg fuel s2 b3 Hb3 Hin2 Hhead) as (e & p & -> & He); [lia|].
  by exists e, (fst p).
Qed.

(** The smallest frames are never delivered: a message with an empty
    payload and a type name of one character makes a frame of ten bytes,
    complete and longer than the header and [kMinMessageLen] allow; [receive]
    waits for more until the peer closes. *)
Theorem smallest_frame_lost msg s :
  flowing s -> incoming s = [frame msg] ->
  zlen (GetTypeName msg) = 1 -> Serialize msg = [] ->
  exists s', receive s = (Ok (None, closedByPeer), s').
Proof.
  intros Hfl Hin Hn Hs.
  assert (Hz : zlen (frame msg) = 10) by (rewrite zlen_frame, zlen_packet, Hn, Hs; done).
  assert (Hp : pending s = 10).
  { unfold pending. rewrite Hin. cbn [List.concat]. by rewrite app_nil_r. }
  unfold receive. cbn [toCome connSock]. rewrite Hp. change (Z.to_nat (10 + 1)) with 11%nat.
  destruct (receiveLoop_step 10 s _ _ (receiving_new s Hfl ltac:(lia)))
    as [[_ [p ->]]|(d & s1 & b1 & Hb1 & -> & _ & Hd & _)]; [by eexists|].
  destruct (Hd _ _ Hin ltac:(lia)) as [-> Hin1]. rewrite app_nil_l in Hb1.
  pose proof Hb1 as [_ Hr1 _ _]. rewrite (receiveBody_short _ _ _ _ Hr1) by lia.
  destruct (receiveLoop_closed 9 s1 b1 _ Hb1 Hin1) as [p ->]. by eexists.
Qed.
End Codec.

(** ** A concrete protobuf *)

(** Messages of two types, "T" and "echo.Msg": a type name and a payload. *)
#[export] Instance pairs : Protobuf (bytes * bytes) bytes.
Proof.
  refine {| GetTypeName := fst; Serialize := snd; GetDescriptor := fst;
    FindMessageTypeByName n := if decide (n = bs "T" \/ n = bs "echo.Msg") then Some n else None;
    GetPrototype d := Some (d, []); New m := m; ParseFromArray m p := (true, (fst m, p)) |}.
  intros [n p] d prototype Hd [= <-]. cbn in *. case_decide; [|done]. by injection Hd as <-.
Defined.

Definition wire_sock (l : list bytes) : Sock :=
  {| connected := true; incoming := l; accepts := []; outgoing := [] |}.

Definition echo : bytes * bytes := (bs "echo.Msg", bs "hi").

Lemma rpc_round_trip_witness :
  exists sent, sendMessage (H := x86) echo (wire_sock []) = (Ok tt, setSent [] ([] ++ sent) (wire_sock []))
    /\ fst (receive (H := x86) (wire_sock [sent ++ bs "x"]))
       = Ok (Some echo, {| errcode := kNoError; errstr := bs "no error" |}).
Proof.
  assert (E : exists sent, sendMessage (H := x86) echo (wire_sock []) = (Ok tt, setSent [] ([] ++ sent) (wire_sock []))
    /\ sent = frame (Msg := bytes * bytes) echo).
  { eexists. split; [vm_compute; reflexivity|by vm_compute]. }
  destruct (rpc_round_trip (H := x86) echo (bs "echo.Msg") (bs "echo.Msg", []) (wire_sock []))
    as (sent & E1 & E2); [by vm_compute..|].
  destruct E as (sent' & E3 & Es). exists sent. split; [exact E1|].
  assert (sent = sent') as ->.
  { rewrite E1 in E3. cbn in E3. by injection E3. }
  apply (E2 _ (bs "x") []).
  - split; [done|]. subst sent'. repeat constructor; by vm_compute.
  - subst sent'. by vm_compute.
  - done.
  - subst sent'. by vm_compute.
Defined.

Lemma receive_safe_witness :
  exists r s', receive (H := x86) (wire_sock [bs "garbage on the wire"]) = (Ok r, s').
Proof.
  apply (receive_safe (H := x86)); [split; [done|]; repeat constructor; by vm_compute|by vm_compute].
Defined.

Lemma split_frame_rejected_witness :
  exists e s', receive (H := x86) (wire_sock [take 12 (frame echo); drop 12 (frame echo)])
    = (Ok (None, e), s') /\ errcode e <> kNoError.
Proof.
  apply (split_frame_rejected (H := x86) echo (take 12 (frame echo)) (drop 12 (frame echo))).
  - split; [done|]. repeat constructor; by vm_compute.
  - done.
  - by vm_compute.
  - by vm_compute.
  - by vm_compute.
  - exists "e"%char. split; by vm_compute.
Defined.

Lemma smallest_frame_lost_witness :
  exists s', receive (H := x86) (wire_sock [frame (bs "T", [])]) = (Ok (None, closedByPeer), s').
Proof.
  apply (smallest_frame_lost (H := x86) (bs "T", [])); try done.
  split; [done|]. repeat constructor; by vm_compute.
Defined.

Lemma rpc_server_answers_witness :
  exists s', handleClient (H := x86)
      (registerRpcHandler (bs "echo.Msg") (fun m => (fst m, snd m ++ bs "!")) ∅)
      (wire_sock [frame echo]) = (Ok tt, s')
    /\ connected s' = false /\ outgoing s' = frame (bs "echo.Msg", bs "hi!").
Proof.
  destruct (rpc_server_answers (H := x86)
    (registerRpcHandler (bs "echo.Msg") (fun m => (fst m, snd m ++ bs "!")) ∅) echo
    (bs "echo.Msg") (bs "echo.Msg", []) (wire_sock [frame echo]) []) as (s' & E & Hc & Ho);
    [by vm_compute..| | | | | |].
  - split; [done|]. repeat constructor; by vm_compute.
  - by vm_compute.
  - done.
  - done.
  - intros h [= <-]. by vm_compute.
  - exists s'. split; [exact E|]. split; [exact Hc|]. rewrite Ho. by vm_compute.
Defined.

Lemma rpc_exchange_witness :
  let handlers := registerRpcHandler (Msg := bytes * bytes) (bs "echo.Msg") (fun m => (fst m, snd m ++ bs "!")) ∅ in
  exists s', handleClient (H := x86) handlers (wire_sock [frame echo]) = (Ok tt, s')
    /\ exists c', Call (H := x86) echo (wire_sock (inOneRead (outgoing s'))) = (Ok (Some (bs "echo.Msg", bs "hi!")), c').
Proof.
  intros handlers.
  assert (Hr : receivable echo /\ receivable (bs "echo.Msg", bs "hi!")).
  { split; (split; [by vm_compute|split; [by vm_compute|exists (bs "echo.Msg"), (bs "echo.Msg", []); by split]]). }
  destruct (rpc_exchange (H := x86) handlers echo (wire_sock [frame echo])) as (s' & E & _ & Hcall).
  - by vm_compute.
  - exact (proj1 Hr).
  - intros h [= <-]. exact (proj2 Hr).
  - reflexivity.
  - reflexivity.
  - reflexivity.
  - by vm_compute.
  - exists s'. split; [exact E|].
    destruct (Hcall (wire_sock (inOneRead (outgoing s')))) as (c' & Ec & _); [reflexivity..|].
    exists c'. exact Ec.
Defined.
