(* ===== verification/Talk.v ===== *)
(** * Programs over a connection (src/reyao: http/*, rpc/*, socket_stream.cc)

    What a program that only uses [Conn] does with its connection is a tree:
    the next call and, by its answer, the rest.  The servers and clients of
    HttpServlet.v and Codec.v are such programs, for every connection
    ([Says]); so a theorem about trees holds for all of them. *)

From S2P Require Import Prelude Endian ByteArray SocketStream HttpMessage HttpParser HttpServlet Codec.
Import Request (HttpRequest, newRequest).

(** ** Trees *)

Inductive Talk (X : Type) :=
| Done (x : X)
| Recv (size : Z) (k : Z * bytes -> Talk X)
| Send (buf : bytes) (k : Z -> Talk X)
| Connected (k : bool -> Talk X)
| Close (k : Talk X)
| ToCome (k : Z -> Talk X).
Arguments Done {X}.
Arguments Recv {X}.
Arguments Send {X}.
Arguments Connected {X}.
Arguments Close {X}.
Arguments ToCome {X}.

Section Run.
Context {K : Type} `{SocketStream.Conn K}.

Fixpoint run {X} (c : Talk X) : M K X :=
  match c with
  | Done x => ret x
  | Recv size k => a <-- recvOn size ;; run (k a)
  | Send buf k => n <-- sendOn buf ;; run (k n)
  | Connected k => b <-- gets connectedOn ;; run (k b)
  | Close k => closeOn ;;; run k
  | ToCome k => n <-- gets toCome ;; run (k n)
  end.
End Run.

(** Every size is an [int], whatever the answers. *)
Fixpoint fits {X} (c : Talk X) : Prop :=
  match c with
  | Done _ => True
  | Recv size k => 0 < size < 2 ^ 31 /\ forall a, fits (k a)
  | Send buf k => zlen buf < 2 ^ 31 /\ forall n, fits (k n)
  | Connected k => forall b, fits (k b)
  | Close k => fits k
  | ToCome k => forall n, fits (k n)
  end.

Fixpoint andThen {X Y} (c : Talk X) (f : X -> Talk Y) : Talk Y :=
  match c with
  | Done x => f x
  | Recv size k => Recv size (fun a => andThen (k a) f)
  | Send buf k => Send buf (fun n => andThen (k n) f)
  | Connected k => Connected (fun b => andThen (k b) f)
  | Close k => Close (andThen k f)
  | ToCome k => ToCome (fun n => andThen (k n) f)
  end.

Lemma fits_andThen {X Y} (c : Talk X) (f : X -> Talk Y) : fits c -> (forall x, fits (f x)) -> fits (andThen c f).
Proof. intros Hc Hf. induction c; cbn in *; naive_solver. Qed.

Lemma run_andThen {K} `{SocketStream.Conn K} {X Y} (c : Talk X) (f : X -> Talk Y) (s : K) :
  run (andThen c f) s = (x <-- run c ;; run (f x)) s.
Proof.
  revert s. induction c as [x|size k IH|buf k IH|k IH|k IH|k IH]; intros s; cbn [andThen run]; [done|..];
    unfold bind at 1 2 3; unfold bind in IH.
  - destruct (recvOn size s) as [[a|e] s']; [apply IH|done].
  - destruct (sendOn buf s) as [[a|e] s']; [apply IH|done].
  - apply IH.
  - destruct (closeOn s) as [[a|e] s']; [apply IH|done].
  - apply IH.
Qed.

(** ** Computations that are trees

    [m] is a computation on any connection and a state [T] of its own. *)
Definition Says {T A} (m : forall K, SocketStream.Conn K -> M (K * T) A) : Type :=
  { c : T -> Talk (result A * T) | (forall t, fits (c t))
    /\ forall K (H : SocketStream.Conn K) s t r t' s',
         run (c t) s = (Ok (r, t'), s') -> m K H (s, t) = (r, (s', t')) }.

Section Says.
Context {T : Type}.
Abbreviation Comp A := (forall K, SocketStream.Conn K -> M (K * T) A).

Lemma says_ext {A} (m n : Comp A) : (forall K H p, m K H p = n K H p) -> Says n -> Says m.
Proof.
  intros E [c [Hf Hc]]. exists c. split; [done|]. intros K H s t r t' s' Hr. rewrite E. by apply Hc.
Qed.

(** A computation on the own state only. *)
Lemma says_own {A} (f : M T A) : Says (fun K H => zoom snd (fun t (p : K * T) => (fst p, t)) f).
Proof.
  exists (fun t => Done (f t)). split; [done|]. intros K H s t r t' s' [= E <-]. unfold zoom. cbn [fst snd]. by rewrite E.
Qed.

Lemma says_ret {A} (a : A) : Says (fun K H => ret a : M (K * T) A).
Proof. exists (fun t => Done (Ok a, t)). split; [done|]. by intros K H s t r t' s' [= <- <- <-]. Qed.

Lemma says_throw {A} e : Says (fun K H => throw e : M (K * T) A).
Proof. exists (fun t => Done (Throw e, t)). split; [done|]. by intros K H s t r t' s' [= <- <- <-]. Qed.

Lemma says_bind {A B} (m : Comp A) (k : forall K, SocketStream.Conn K -> A -> M (K * T) B) :
  Says m -> (forall a, Says (fun K H => k K H a)) -> Says (fun K H => bind (m K H) (k K H)).
Proof.
  intros [c [Hf Hc]] Hk.
  exists (fun t => andThen (c t) (fun x => match fst x with
    | Ok a => proj1_sig (Hk a) (snd x) | Throw e => Done (Throw e, snd x) end)).
  split.
  - intros t. apply fits_andThen; [done|]. intros [[a|e] t1]; cbn [fst snd]; [apply (proj2_sig (Hk a))|done].
  - intros K H s t r t' s' E. rewrite run_andThen in E. inv_bind E. destruct a as [r1 t1].
    unfold bind. rewrite (Hc K H _ _ _ _ _ E0). destruct r1 as [a|e]; cbn [fst snd] in E.
    + by apply (proj2_sig (Hk a)).
    + by injection E as <- <- <-.
Qed.

(** The calls of the connection. *)
Lemma says_recv size :
  0 < size < 2 ^ 31 -> Says (fun K H => zoom fst (fun s (p : K * T) => (s, snd p)) (recvOn size)).
Proof.
  intros Hs. exists (fun t => Recv size (fun a => Done (Ok a, t))). split; [done|].
  intros K H s t r t' s' E. cbn [run] in E. inv_bind E. injection E as <- <- <-.
  unfold zoom. cbn [fst snd]. by rewrite E0.
Qed.

Lemma says_send buf :
  zlen buf < 2 ^ 31 -> Says (fun K H => zoom fst (fun s (p : K * T) => (s, snd p)) (sendOn buf)).
Proof.
  intros Hs. exists (fun t => Send buf (fun a => Done (Ok a, t))). split; [done|].
  intros K H s t r t' s' E. cbn [run] in E. inv_bind E. injection E as <- <- <-.
  unfold zoom. cbn [fst snd]. by rewrite E0.
Qed.

Lemma says_close : Says (fun K H => zoom fst (fun s (p : K * T) => (s, snd p)) closeOn).
Proof.
  exists (fun t => Close (Done (Ok tt, t))). split; [done|].
  intros K H s t r t' s' E. cbn [run] in E. inv_bind E. injection E as <- <- <-.
  unfold zoom. cbn [fst snd]. destruct a. by rewrite E0.
Qed.

Lemma says_connected : Says (fun K H => gets (fun p : K * T => connectedOn (fst p))).
Proof.
  exists (fun t => Connected (fun b => Done (Ok b, t))). split; [done|].
  intros K H s t r t' s' E. by injection E as <- <- <-.
Qed.

Lemma says_toCome : Says (fun K H => gets (fun p : K * T => toCome (fst p))).
Proof.
  exists (fun t => ToCome (fun n => Done (Ok n, t))). split; [done|].
  intros K H s t r t' s' E. by injection E as <- <- <-.
Qed.

Lemma says_gets {A} (f : T -> A) : Says (fun K H => gets (fun p : K * T => f (snd p))).
Proof. apply (says_ext _ (fun K H => zoom snd (fun t (p : K * T) => (fst p, t)) (gets f))); [by intros K H []|apply says_own]. Qed.
End Says.

Create HintDb talk.
#[export] Hint Resolve says_ret says_throw says_own says_connected says_toCome says_gets : talk.

(** One step of a computation. *)
Ltac step :=
  lazymatch goal with
  | |- Says (fun _ _ => if ?b then _ else _) => destruct b
  | |- Says (fun _ _ => match ?x with _ => _ end) => destruct x
  | |- Says (fun _ _ => bind _ _) => refine (says_bind _ _ _ _); [|intros ?; cbn beta]
  | |- _ => solve [auto with talk]
  end.

(** ** Streams *)

Lemma says_readInto {B} `{SocketStream.Fill B} size :
  0 < size < 2 ^ 31 -> Says (fun K H => readInto size : M (K * B) Z).
Proof.
  intros Hs. apply (says_ext _ (fun K H => b <-- gets (fun p => connectedOn (fst p)) ;; if b then
    onBuf (reserve size) ;;; rd <-- onSock (recvOn size) ;;
    (if 0 <? fst rd then onBuf (commit (snd rd)) else ret tt) ;;; ret (fst rd) else ret (-1))).
  { intros K H0 [s b]. unfold readInto. rewrite !bind_gets. cbn [fst]. by destruct (connectedOn s). }
  unfold onBuf, onSock. repeat first [by apply says_recv | step].
Qed.

(** A computation on the connection alone. *)
Definition alone {K A} (m : M K A) : M (K * unit) A := zoom fst (fun s p => (s, snd p)) m.

Lemma says_alone_bind {A B} (m : forall K, SocketStream.Conn K -> M K A)
    (k : forall K, SocketStream.Conn K -> A -> M K B) :
  Says (fun K H => alone (m K H)) -> (forall a, Says (fun K H => alone (k K H a))) ->
  Says (fun K H => alone (bind (m K H) (k K H))).
Proof.
  intros Hm Hk. apply (says_ext _ (fun K H => a <-- alone (m K H) ;; alone (k K H a))).
  - intros K H [s t]. unfold alone, zoom, bind. cbn [fst snd]. by destruct (m K H s) as [[a|e] s'].
  - by apply says_bind.
Qed.

Lemma says_alone_ret {A} (a : A) : Says (fun K H => alone (ret a)).
Proof. apply (says_ext _ (fun K H => ret a)); [by intros K H []|apply says_ret]. Qed.

Lemma says_alone_throw {A} e : Says (fun K H => alone (throw e : M K A)).
Proof. apply (says_ext _ (fun K H => throw e)); [by intros K H []|apply says_throw]. Qed.

Lemma says_alone_close : Says (fun K H => alone closeOn).
Proof. apply says_close. Qed.

Lemma says_alone_toCome : Says (fun K H => alone (gets toCome)).
Proof. apply (says_ext _ (fun K H => gets (fun p => toCome (fst p)))); [by intros K H []|apply says_toCome]. Qed.

#[export] Hint Resolve says_alone_ret says_alone_throw says_alone_close says_alone_toCome : talk.

(** A stream that is closed when its function is left. *)
Lemma says_onStream {A} owner_ (m : forall K, SocketStream.Conn K -> M K A) :
  Says (fun K H => alone (m K H)) -> Says (fun K H => alone (onStream owner_ (m K H))).
Proof.
  intros [c [Hf Hc]]. exists (fun t => andThen (c t) (fun x => if owner_ then Close (Done x) else Done x)). split.
  - intros t. apply fits_andThen; [done|]. by destruct owner_.
  - intros K H s t r t' s' E. rewrite run_andThen in E. inv_bind E. destruct a as [r1 t1].
    apply Hc in E0. unfold alone, zoom, onStream in *. cbn [fst snd] in *.
    destruct (m K H s) as [r2 s2]. injection E0 as -> -> ->. destruct owner_; cbn [run] in E.
    + inv_bind E. injection E as <- <- <-. by rewrite E0.
    + by injection E as <- <- <-.
Qed.

Lemma says_writeRaw buf : zlen buf < 2 ^ 31 -> Says (fun K H => alone (writeRaw buf)).
Proof.
  intros Hs. apply (says_ext _ (fun K H => b <-- gets (fun p => connectedOn (fst p)) ;;
    if b then zoom fst (fun s p => (s, snd p)) (sendOn buf) else ret (-1))).
  { intros K H [s t]. unfold alone, writeRaw, zoom, bind, gets, id. cbn [fst snd]. by destruct (connectedOn s). }
  repeat first [by apply says_send | step].
Qed.

(** A buffer of its own, that does not outlive the computation. *)
Lemma says_with {T A B} (x : T) (m : forall K, SocketStream.Conn K -> M (K * T) A)
    (f : result A -> T -> result B) :
  Says m -> Says (fun K H => alone (fun s => let '(r, p) := m K H (s, x) in (f r (snd p), fst p))).
Proof.
  intros [c [Hf Hc]]. exists (fun t => andThen (c x) (fun y => Done (f (fst y) (snd y), t))). split.
  - intros t. by apply fits_andThen.
  - intros K H s t r t' s' E. rewrite run_andThen in E. inv_bind E. destruct a as [r1 t1]. injection E as <- <- <-.
    unfold alone, zoom. cbn [fst snd]. by rewrite (Hc K H _ _ _ _ _ E0).
Qed.

(** ** The HTTP parser *)

(** The state of a parser as its connection and the rest. *)
Definition flat {K B C A} (m : M ((K * B) * C) A) : M (K * (B * C)) A := fun p =>
  let '(r, q) := m ((fst p, fst (snd p)), snd (snd p)) in (r, (fst (fst q), (snd (fst q), snd q))).

Section Parser.
Context {R : Type} `{ParserClass R} {B : Type} `{Buffer B} `{Fill B}.
Abbreviation Comp A := (forall K, SocketStream.Conn K -> M ((K * B) * Core R) A).

Lemma says_flat_bind {A A'} (m : Comp A) (k : forall K, SocketStream.Conn K -> A -> M ((K * B) * Core R) A') :
  Says (fun K H => flat (m K H)) -> (forall a, Says (fun K H => flat (k K H a))) ->
  Says (fun K H => flat (bind (m K H) (k K H))).
Proof.
  intros Hm Hk. apply (says_ext _ (fun K H => a <-- flat (m K H) ;; flat (k K H a))).
  - intros K Hc [s [b c]]. unfold flat, bind. cbn [fst snd].
    destruct (m K Hc ((s, b), c)) as [[a|e] [[s' b'] c']]; [|done]. done.
  - by apply says_bind.
Qed.

Lemma says_flat_ret {A} (a : A) : Says (fun K H => flat (ret a : M ((K * B) * Core R) A)).
Proof. apply (says_ext _ (fun K H => ret a)); [by intros K Hc [s []]|apply says_ret]. Qed.

Lemma says_flat_throw {A} e : Says (fun K H => flat (throw e : M ((K * B) * Core R) A)).
Proof. apply (says_ext _ (fun K H => throw e)); [by intros K Hc [s []]|apply says_throw]. Qed.

Lemma says_onCore {A} (m : M (Core R) A) : Says (fun K H => flat (onCore m : M ((K * B) * Core R) A)).
Proof.
  apply (says_ext _ (fun K H => zoom snd (fun t p => (fst p, t)) (zoom snd (fun c p => (fst p, c)) m))).
  - intros K Hc [s [b c]]. unfold flat, onCore, zoom. cbn [fst snd]. by destruct (m c).
  - apply says_own.
Qed.

Lemma says_onBa {A} (m : M B A) : Says (fun K H => flat (onBa m : M ((K * B) * Core R) A)).
Proof.
  apply (says_ext _ (fun K H => zoom snd (fun t p => (fst p, t)) (zoom fst (fun b p => (b, snd p)) m))).
  - intros K Hc [s [b c]]. unfold flat, onBa, zoom. cbn [fst snd]. by destruct (m b).
  - apply says_own.
Qed.

Lemma says_core {A} (f : Core R -> A) : Says (fun K H => flat (core f : M ((K * B) * Core R) A)).
Proof. apply (says_ext _ (fun K H => gets (fun p => f (snd (snd p))))); [by intros K Hc [s []]|apply (says_gets (fun t => f (snd t)))]. Qed.

Lemma says_readable : Says (fun K H => flat (gets (fun p : (K * B) * Core R => readable (snd (fst p))))).
Proof.
  apply (says_ext _ (fun K H => gets (fun p => readable (fst (snd p))))); [by intros K Hc [s []]|].
  apply (says_gets (fun t : B * Core R => readable (fst t))).
Qed.

Lemma says_parse_toCome : Says (fun K H => flat (gets (fun p : (K * B) * Core R => toCome (fst (fst p))))).
Proof. apply (says_ext _ (fun K H => gets (fun p => toCome (fst p)))); [by intros K Hc [s []]|apply says_toCome]. Qed.

Lemma says_parse_read size :
  0 < size < 2 ^ 31 ->
  Says (fun K H => flat (zoom fst (fun sb (p : (K * B) * Core R) => (sb, snd p)) (readInto size))).
Proof.
  intros Hs. destruct (says_readInto (B := B) size Hs) as [c [Hf Hc]].
  exists (fun t => andThen (c (fst t)) (fun x => Done (fst x, (snd x, snd t)))). split.
  - intros t. by apply fits_andThen.
  - intros K Hc' s [b x] r t' s' E. rewrite run_andThen in E. inv_bind E. destruct a as [r1 b1]. injection E as <- <- <-.
    cbn [fst] in E0. unfold flat, zoom. cbn [fst snd]. by rewrite (Hc K Hc' _ _ _ _ _ E0).
Qed.

#[local] Hint Resolve says_flat_ret says_flat_throw says_onCore says_onBa says_core says_readable says_parse_toCome : talk.

Ltac pstep :=
  lazymatch goal with
  | |- Says (fun _ _ => flat (bind _ _)) => refine (says_flat_bind _ _ _ _); [|intros ?; cbn beta zeta]
  | |- Says (fun _ _ => flat (if ?b then _ else _)) => destruct b
  | |- Says (fun _ _ => flat (match ?x with _ => _ end)) => destruct x
  | |- _ => solve [auto with talk]
  end.

Lemma says_parseChunked fuel : Says (fun K H => flat (parseChunked fuel : M ((K * B) * Core R) unit)).
Proof. induction fuel as [|fuel IH]; cbn [parseChunked]; cbv zeta; repeat pstep. Qed.

Lemma says_parseBuffered fuel : Says (fun K H => flat (parseBuffered fuel : M ((K * B) * Core R) unit)).
Proof.
  induction fuel as [|fuel IH]; cbn [parseBuffered]; unfold parseChunkedBody, parseFixedBody;
    repeat first [apply says_parseChunked | pstep].
Qed.

Lemma says_drain : Says (fun K H => flat (drain : M ((K * B) * Core R) unit)).
Proof. unfold drain. repeat first [apply says_parseBuffered | pstep]. Qed.

Lemma says_parse :
  0 < s_maxBufferSize < 2 ^ 31 -> Says (fun K H => flat (HttpParser.parse : M ((K * B) * Core R) bool)).
Proof.
  intros Hs. unfold parse. pstep; [pstep|]. generalize (Z.to_nat (a + 2)) as fuel. clear a.
  induction fuel as [|fuel IH]; cbn [parseLoop]; repeat first [apply says_drain | by apply says_parse_read | pstep].
Qed.
End Parser.

(** ** The HTTP server *)

Ltac astep :=
  lazymatch goal with
  | |- Says (fun _ _ => alone (bind _ _)) => refine (says_alone_bind _ _ _ _); [|intros ?; cbn beta zeta]
  | |- Says (fun _ _ => alone (if ?b then _ else _)) => destruct b
  | |- Says (fun _ _ => alone (match ?x with _ => _ end)) => destruct x
  | |- _ => solve [auto with talk]
  end.

Lemma says_recvRequest : Says (fun K H => alone recvRequest).
Proof.
  apply (says_ext _ (fun K H => alone (fun s => let '(r, p) := flat (RequestParser.parseRequest)
      (s, (newByteArray kInitSize, newCore (newRequest 17 false))) in
    (match r with Ok b => Ok (b, msg_ (snd (snd p))) | Throw e => Throw e end, fst p)))).
  - intros K H [s t]. unfold alone, recvRequest, RequestParser.newParser, flat, zoom. cbn [fst snd].
    by destruct (RequestParser.parseRequest _) as [[b|e] [[s1 b1] c1]].
  - apply (says_with (newByteArray kInitSize, newCore (newRequest 17 false)) (fun K H => flat RequestParser.parseRequest)
      (fun r t => match r with Ok b => Ok (b, msg_ (snd t)) | Throw e => Throw e end)).
    by apply (says_parse (R := HttpRequest)).
Qed.

(** The responses' sizes are [int]s. *)
Definition sizesFit (keepAlive : bool) (d : ServletDispatch) (fnmatch : bytes -> bytes -> bool) : Prop :=
  forall req, zlen (Response.dump (respond fnmatch keepAlive d req)) < 2 ^ 31.

Lemma says_handleHttp fnmatch keepAlive d :
  sizesFit keepAlive d fnmatch -> Says (fun K H => alone (HttpServlet.handleClient fnmatch keepAlive d)).
Proof.
  intros Hsz. unfold HttpServlet.handleClient. apply says_onStream. astep; [astep|]. astep; [|astep].
  generalize (Z.to_nat (a + 1)) as fuel. clear a. induction fuel as [|fuel IH]; cbn [serve]; unfold sendResponse; [astep|].
  repeat first [apply says_recvRequest | apply says_writeRaw, Hsz | astep].
Qed.

(** ** The RPC server and client *)

Section Rpc.
Context `{Host} {Msg Desc : Type} `{Protobuf Msg Desc} `{Countable Desc} (Hle : BYTE_ORDER = LITTLE_ENDIAN).

Lemma says_receiveLoop fuel : Says (fun K H => receiveLoop fuel : M (K * ByteArray) _).
Proof using Type.
  induction fuel as [|fuel IH]; cbn [receiveLoop]; [apply says_throw|].
  unfold receiveBody, onByteArray, onBuf.
  repeat first [by apply says_readInto | apply (says_gets getReadSize) | step].
Qed.

Lemma says_receive : Says (fun K H => alone receive).
Proof using Type.
  apply (says_ext _ (fun K H => alone (n <-- gets toCome ;;
    fun s => let '(r, p) := receiveLoop (Z.to_nat (n + 1)) (s, newByteArray kInitSize) in (r, fst p)))); [done|].
  astep; [astep|]. apply (says_with (newByteArray kInitSize) (fun K H => receiveLoop (Z.to_nat (a + 1))) (fun r _ => r)), says_receiveLoop.
Qed.

(** Frames that an [int32_t] can measure. *)
Lemma says_sendMessage msg : Codec.fits msg -> Says (fun K H => alone (sendMessage msg)).
Proof using Hle.
  intros Hf. apply (says_ext _ (fun K H => alone (writeRaw (frame msg) ;;; ret tt))).
  - intros K Hc [s t]. unfold alone, zoom. cbn [fst snd]. by rewrite sendMessage_raw.
  - astep; [|astep]. apply says_writeRaw. unfold Codec.fits in Hf. rewrite zlen_frame. lia.
Qed.

Lemma says_handleRpc handlers :
  (forall d h msg, handlers !! d = Some h -> Codec.fits (h msg)) ->
  Says (fun K H => alone (Codec.handleClient handlers)).
Proof using Hle.
  intros Hh. unfold Codec.handleClient. astep; [apply says_receive|]. destruct (fst a) as [msg|]; [|astep].
  astep; [|astep]. destruct (handlers !! _) as [f|] eqn:Ef; [|astep]. astep; [|astep].
  apply says_sendMessage. by eapply Hh.
Qed.

Lemma says_call req : Codec.fits req -> Says (fun K H => alone (Call req)).
Proof using Hle.
  intros Hf. unfold Call. repeat first [by apply says_sendMessage | apply says_receive | astep].
Qed.
End Rpc.
