(* ===== verification/Worker.v ===== *)
(** * Coroutines and workers (src/reyao/coroutine.cc, coroutine.h, worker.cc, worker.h)

    The life of a coroutine, the task queue of a worker and its loop.  What
    user code does between two switches is a [Prog]: the calls of this
    library that it makes, up to its end, an exception or a suspension.  One
    call of [iterate] is one turn of the loop of [Worker::run]; what other
    threads, the timers and the kernel do while the worker idles is given to
    it as a [Round]. *)

From S2P Require Import Prelude Epoller.

Inductive State := INIT | RUNNING | SUSPEND | DONE | EXCEPT.

#[export] Instance State_eq_dec : EqDecision State.
Proof. solve_decision. Defined.

(** [State] names as [Coroutine::toString] prints them. *)
Definition toString (s : State) : string :=
  match s with
  | INIT => "INIT"
  | RUNNING => "RUNNING"
  | SUSPEND => "SUSPEND"
  | DONE => "DONE"
  | EXCEPT => "EXECPT"
  end.

(** A callable, by the calls it makes.  [AddTask], [AddSelf], [AddCo] and [Stop] are
    [addTask] of a function, of the running coroutine, of a coroutine and [stop] on the
    worker that runs it. *)
Inductive Prog :=
| Return
| Raise
| YieldToSuspend (k : Prog)
| AddTask (f : Prog) (k : Prog)
| AddSelf (k : Prog)
| AddCo (c : nat) (k : Prog)
| Stop (k : Prog)
| AddEvent (fd type : Z) (func : option Prog) (k : bool -> Prog)
| DelEvent (fd type : Z) (k : bool -> Prog)
| HandleEvent (fd type : Z) (k : bool -> Prog)
| HandleAllEvent (fd : Z) (k : bool -> Prog).

Record Coroutine := { func_ : option Prog; context_ : Prog; state_ : State }.

Section Worker.
Context {KE : Type} `{Epoll KE}.

Abbreviation Task := (Epoller.Task (C := nat) (F := Prog)).
Abbreviation Poller := (Epoller (W := nat) (C := nat) (F := Prog) (K := KE)).

(** The worker and the coroutines of its thread.  [cur] is
    [t_curCoroutine], [None] for the main coroutine; [idle] is the state of
    the idle coroutine, [coFunc] the local variable of [run]; [signals] counts
    the writes to the poller's eventfd; [added] and [taken] log the task
    queue. *)
Record Worker := mkWorker {
  self : nat;
  running_ : bool;
  tasks_ : list Task;
  idle_ : bool;
  poller_ : Poller;
  coroutines : gmap nat Coroutine;
  s_coroutineId : nat;
  cur : option nat;
  idle : State;
  coFunc : option nat;
  signals : nat;
  added : list Task;
  taken : list Task
}.

Definition setRunning b w := mkWorker (self w) b (tasks_ w) (idle_ w) (poller_ w) (coroutines w)
  (s_coroutineId w) (cur w) (idle w) (coFunc w) (signals w) (added w) (taken w).
Definition setIdleFlag b w := mkWorker (self w) (running_ w) (tasks_ w) b (poller_ w) (coroutines w)
  (s_coroutineId w) (cur w) (idle w) (coFunc w) (signals w) (added w) (taken w).
Definition setPoller p w := mkWorker (self w) (running_ w) (tasks_ w) (idle_ w) p (coroutines w)
  (s_coroutineId w) (cur w) (idle w) (coFunc w) (signals w) (added w) (taken w).
Definition setCoroutines l w := mkWorker (self w) (running_ w) (tasks_ w) (idle_ w) (poller_ w) l
  (s_coroutineId w) (cur w) (idle w) (coFunc w) (signals w) (added w) (taken w).
Definition setCur c w := mkWorker (self w) (running_ w) (tasks_ w) (idle_ w) (poller_ w) (coroutines w)
  (s_coroutineId w) c (idle w) (coFunc w) (signals w) (added w) (taken w).
Definition setIdle s w := mkWorker (self w) (running_ w) (tasks_ w) (idle_ w) (poller_ w) (coroutines w)
  (s_coroutineId w) (cur w) s (coFunc w) (signals w) (added w) (taken w).
Definition setCoFunc c w := mkWorker (self w) (running_ w) (tasks_ w) (idle_ w) (poller_ w) (coroutines w)
  (s_coroutineId w) (cur w) (idle w) c (signals w) (added w) (taken w).
Definition signal w := mkWorker (self w) (running_ w) (tasks_ w) (idle_ w) (poller_ w) (coroutines w)
  (s_coroutineId w) (cur w) (idle w) (coFunc w) (S (signals w)) (added w) (taken w).
Definition pushTask t w := mkWorker (self w) (running_ w) (tasks_ w ++ [t]) (idle_ w) (poller_ w)
  (coroutines w) (s_coroutineId w) (cur w) (idle w) (coFunc w) (signals w) (added w ++ [t]) (taken w).
Definition popTask t rest w := mkWorker (self w) (running_ w) rest (idle_ w) (poller_ w)
  (coroutines w) (s_coroutineId w) (cur w) (idle w) (coFunc w) (signals w) (added w) (taken w ++ [t]).
Definition allocate c w := mkWorker (self w) (running_ w) (tasks_ w) (idle_ w) (poller_ w)
  (<[S (s_coroutineId w) := c]> (coroutines w)) (S (s_coroutineId w)) (cur w) (idle w) (coFunc w)
  (signals w) (added w) (taken w).

(** [Worker(sche, name)] with the poller it creates. *)
Definition newWorker (id : nat) (p : Poller) : Worker :=
  mkWorker id false [] false p ∅ 0 None INIT None 0 [] [].

(** ** Tasks *)

(** [Task(cf)]: an id without an object stands for the null pointer. *)
Definition isTask (t : Task) (w : Worker) : bool :=
  match t with TaskFunc _ => true | TaskCo c => bool_decide (is_Some (coroutines w !! c)) end.

Definition addTaskNoLock (t : Task) : M Worker bool :=
  needNotify <-- gets (fun w => match tasks_ w with [] => true | _ => idle_ w end) ;;
  b <-- gets (isTask t) ;;
  (if b : bool then modify (pushTask t) else ret tt) ;;;
  ret needNotify.

Definition notify : M Worker unit :=
  w <-- gets id ;;
  if Epoller.notify (poller_ w) then modify signal else ret tt.

Definition addTask (t : Task) : M Worker unit :=
  needNotify <-- addTaskNoLock t ;;
  if needNotify : bool then notify else ret tt.

Fixpoint addTasks (ts : list Task) : M Worker unit :=
  match ts with
  | [] => ret tt
  | t :: ts => addTask t ;;; addTasks ts
  end.

Definition stop : M Worker unit := modify (setRunning false) ;;; notify.

(** The [worker->addTask] calls a poller operation made on this worker; those
    for another worker stay in the log. *)
Definition drain : M Worker unit :=
  w <-- gets id ;;
  let mine := filter (fun x => x.1 = self w) (scheduled (poller_ w)) in
  let others := filter (fun x => x.1 <> self w) (scheduled (poller_ w)) in
  modify (setPoller {| ioEvents_ := ioEvents_ (poller_ w); pendingEvents_ := pendingEvents_ (poller_ w);
    polling_ := polling_ (poller_ w); kernel := kernel (poller_ w); scheduled := others |}) ;;;
  addTasks (map snd mine).

Definition onPoller {A} (m : M Poller A) : M Worker A :=
  a <-- zoom poller_ setPoller m ;; drain ;;; ret a.

(** ** Coroutines *)

Definition getCoroutine (c : nat) : M Worker Coroutine := fun w =>
  match coroutines w !! c with Some x => (Ok x, w) | None => (Throw Undefined, w) end.

Definition updCoroutine (c : nat) (f : Coroutine -> Coroutine) : M Worker unit :=
  modify (fun w => setCoroutines (alter f c (coroutines w)) w).

Definition setState (s : State) (x : Coroutine) : Coroutine :=
  {| func_ := func_ x; context_ := context_ x; state_ := s |}.

(** [Coroutine(func, stackSize)] *)
Definition newCoroutine (f : Prog) : M Worker nat :=
  c <-- gets s_coroutineId ;;
  modify (allocate {| func_ := Some f; context_ := f; state_ := INIT |}) ;;;
  ret (S c).

Definition reusable (s : State) : bool :=
  match s with INIT | DONE | EXCEPT => true | _ => false end.

Definition reuse (c : nat) (f : Prog) : M Worker unit :=
  x <-- getCoroutine c ;;
  assert_ (reusable (state_ x)) ;;;
  updCoroutine c (fun _ => {| func_ := Some f; context_ := f; state_ := INIT |}).

(** [yield]: back to the main coroutine, the context saved. *)
Definition yield (c : nat) (k : Prog) : M Worker unit :=
  updCoroutine c (fun x => {| func_ := func_ x; context_ := k; state_ := state_ x |}) ;;;
  modify (setCur None).

(** [Coroutine::YieldToSuspend] in coroutine [c]. *)
Definition yieldToSuspend (c : nat) (k : Prog) : M Worker unit :=
  x <-- getCoroutine c ;;
  assert_ (bool_decide (state_ x = RUNNING)) ;;;
  updCoroutine c (setState SUSPEND) ;;;
  yield c k.

(** The context runs: [Coroutine::Entry] around the function. *)
Fixpoint exec (c : nat) (p : Prog) : M Worker unit :=
  match p with
  | Return =>
      updCoroutine c (fun x => {| func_ := None; context_ := context_ x; state_ := DONE |}) ;;;
      yield c Return
  | Raise => updCoroutine c (setState EXCEPT) ;;; yield c Return
  | YieldToSuspend k => yieldToSuspend c k
  | AddTask f k => addTask (TaskFunc f) ;;; exec c k
  | AddSelf k => addTask (TaskCo c) ;;; exec c k
  | AddCo d k => addTask (TaskCo d) ;;; exec c k
  | Stop k => stop ;;; exec c k
  | AddEvent fd type func k =>
      w <-- gets self ;;
      b <-- onPoller (Epoller.addEvent w c fd type func) ;; exec c (k b)
  | DelEvent fd type k => b <-- onPoller (Epoller.delEvent fd type) ;; exec c (k b)
  | HandleEvent fd type k => b <-- onPoller (Epoller.handleEvent fd type) ;; exec c (k b)
  | HandleAllEvent fd k => b <-- onPoller (Epoller.handleAllEvent fd) ;; exec c (k b)
  end.

Definition resume (c : nat) : M Worker unit :=
  x <-- getCoroutine c ;;
  assert_ (bool_decide (state_ x <> RUNNING)) ;;;
  updCoroutine c (setState RUNNING) ;;;
  modify (setCur (Some c)) ;;;
  exec c (context_ x).

(** ** The loop *)

(** What other threads, the timers and the kernel do during one turn: the
    tasks added before it takes one; and when it idles, the result of
    [getExpire], the tasks added and whether [stop] is called while the poller
    waits, the timers that expire and the descriptors that are ready. *)
Record Round := {
  early : list Task;
  expire : Z;
  arrivals : list Task;
  stops : bool;
  expired : list (option Prog);
  ready : list Ready
}.

Definition canStop (timeout : Z) : M Worker bool :=
  w <-- gets id ;;
  let has_task := match tasks_ w with [] => false | _ => true end in
  ret (negb (running_ w) && negb has_task && (timeout =? -1)).

(** One turn of [Worker::idle], up to its [YieldToSuspend] or its end. *)
Definition idleLoop (r : Round) : M Worker unit :=
  b <-- canStop (expire r) ;;
  if b : bool then modify (setIdle DONE)
  else
    modify (fun w => setPoller (setPolling true (poller_ w)) w) ;;;
    addTasks (arrivals r) ;;;
    (if stops r then stop else ret tt) ;;;
    w <-- gets self ;;
    onPoller (Epoller.wait w (expired r) (ready r)) ;;;
    modify (setIdle SUSPEND).

Definition resumeIdle (r : Round) : M Worker unit :=
  s <-- gets idle ;;
  assert_ (bool_decide (s <> RUNNING)) ;;;
  modify (setIdle RUNNING) ;;;
  idleLoop r.

Definition takeTask : M Worker (option Task) := fun w =>
  match tasks_ w with
  | [] => (Ok None, w)
  | t :: rest => (Ok (Some t), popTask t rest w)
  end.

Definition finished (s : State) : bool := match s with DONE | EXCEPT => true | _ => false end.

(** The branches of the loop; [idling] answers whether it goes on. *)

Definition claimCoroutine (f : Prog) : M Worker nat :=
  co <-- gets coFunc ;;
  match co with
  | Some c => reuse c f ;;; ret c
  | None => c <-- newCoroutine f ;; modify (setCoFunc (Some c)) ;;; ret c
  end.

Definition runFunc (f : Prog) : M Worker unit :=
  c <-- claimCoroutine f ;;
  resume c ;;;
  x <-- getCoroutine c ;;
  if bool_decide (state_ x = SUSPEND) then modify (setCoFunc None) else ret tt.

Definition idling (r : Round) : M Worker bool :=
  s <-- gets idle ;;
  if bool_decide (s = DONE) then ret false
  else
    modify (setIdleFlag true) ;;;
    resumeIdle r ;;;
    modify (setIdleFlag false) ;;;
    ret true.

Definition iterate (r : Round) : M Worker bool :=
  addTasks (early r) ;;;
  task <-- takeTask ;;
  match task with
  | Some (TaskCo c) =>
      x <-- getCoroutine c ;;
      if finished (state_ x) then idling r else resume c ;;; ret true
  | Some (TaskFunc f) => runFunc f ;;; ret true
  | None => idling r
  end.

(** [Worker::run], one round of the script per turn. *)
Fixpoint loop (rs : list Round) : M Worker unit :=
  match rs with
  | [] => throw NoFuel
  | r :: rs => b <-- iterate r ;; if b : bool then loop rs else ret tt
  end.

Definition run (rs : list Round) : M Worker unit :=
  modify (setRunning true) ;;; modify (setIdle INIT) ;;; modify (setCoFunc None) ;;; loop rs.

(** ** Invariant *)

(** A program that only registers descriptors the poller's table can take:
    [int]s from 2 on (see [Epoller.growTo]), read or write events. *)
Fixpoint prog_ok (p : Prog) : Prop :=
  match p with
  | Return | Raise => True
  | YieldToSuspend k | AddSelf k | AddCo _ k | Stop k => prog_ok k
  | AddTask f k => prog_ok f /\ prog_ok k
  | AddEvent fd type func k =>
      2 <= fd < 2 ^ 31 /\ is_type type
      /\ match func with Some f => prog_ok f | None => True end /\ forall b, prog_ok (k b)
  | DelEvent fd type k | HandleEvent fd type k => 0 <= fd /\ is_type type /\ forall b, prog_ok (k b)
  | HandleAllEvent fd k => 0 <= fd /\ forall b, prog_ok (k b)
  end.

Definition task_ok (t : Task) : Prop := match t with TaskFunc f => prog_ok f | TaskCo _ => True end.

(** The queue and the poller: no task is lost or invented, every queued
    coroutine exists, and the poller's table is well formed. *)
Record QInv (w : Worker) : Prop := {
  q_shape : Shape (poller_ w);
  q_known : forall x, known (poller_ w) x -> task_ok x.2;
  q_tasks : Forall task_ok (tasks_ w);
  q_exist : forall c, TaskCo c ∈ tasks_ w -> is_Some (coroutines w !! c);
  q_log : added w = taken w ++ tasks_ w
}.

(** The coroutines: [o] is the one that runs. *)
Record CInv (w : Worker) (o : option nat) : Prop := {
  c_cur : cur w = o;
  c_running : forall c x, coroutines w !! c = Some x -> state_ x = RUNNING <-> o = Some c;
  c_prog : forall c x, coroutines w !! c = Some x -> prog_ok (context_ x);
  c_ids : forall c, is_Some (coroutines w !! c) -> (c <= s_coroutineId w)%nat
}.

(** What the calls of a running function leave alone. *)
Record Same (w w' : Worker) : Prop := {
  sm_self : self w' = self w;
  sm_idle_ : idle_ w' = idle_ w;
  sm_coroutines : coroutines w' = coroutines w;
  sm_id : s_coroutineId w' = s_coroutineId w;
  sm_cur : cur w' = cur w;
  sm_idle : idle w' = idle w;
  sm_coFunc : coFunc w' = coFunc w;
  sm_taken : taken w' = taken w
}.

Lemma Same_refl w : Same w w.
Proof. by split. Qed.

Lemma Same_trans w1 w2 w3 : Same w1 w2 -> Same w2 w3 -> Same w1 w3.
Proof. intros [] []. split; congruence. Qed.

Lemma CInv_same w w' o : Same w w' -> CInv w o -> CInv w' o.
Proof.
  intros [] [Hcur Hrun Hprog Hids]. split.
  - congruence.
  - rewrite sm_coroutines0. apply Hrun.
  - rewrite sm_coroutines0. apply Hprog.
  - rewrite sm_coroutines0, sm_id0. apply Hids.
Qed.

Lemma notify_ok w : exists w', notify w = (Ok tt, w') /\ Same w w' /\ poller_ w' = poller_ w
  /\ tasks_ w' = tasks_ w /\ added w' = added w.
Proof.
  unfold notify. rewrite bind_gets. unfold id. destruct (Epoller.notify _); eexists; (split; [done|]); by split.
Qed.

Lemma addTaskNoLock_spec t w :
  addTaskNoLock t w = (Ok (match tasks_ w with [] => true | _ => idle_ w end),
                       if isTask t w then pushTask t w else w).
Proof. unfold addTaskNoLock. rewrite !bind_gets. by destruct (isTask t w). Qed.

Lemma QInv_push w t : QInv w -> task_ok t -> isTask t w = true -> QInv (pushTask t w).
Proof.
  intros [Hs Hk Ht He Hl] Hok Hi. split; cbn; try done.
  - apply Forall_app. by repeat constructor.
  - intros c Hc. apply elem_of_app in Hc as [Hc|Hc%list_elem_of_singleton]; [by apply He|]. subst t.
    by apply bool_decide_eq_true in Hi.
  - by rewrite Hl, app_assoc.
Qed.

Lemma addTask_ok w t :
  QInv w -> task_ok t -> exists w', addTask t w = (Ok tt, w') /\ QInv w' /\ Same w w' /\ poller_ w' = poller_ w
    /\ tasks_ w' = if isTask t w then tasks_ w ++ [t] else tasks_ w.
Proof.
  intros HQ Hok. unfold addTask. rewrite (bind_ok _ _ _ _ _ (addTaskNoLock_spec t w)).
  set (w1 := if isTask t w then pushTask t w else w).
  assert (H1 : QInv w1 /\ Same w w1 /\ poller_ w1 = poller_ w
    /\ tasks_ w1 = if isTask t w then tasks_ w ++ [t] else tasks_ w).
  { unfold w1. destruct (isTask t w) eqn:Hi; [|by split_and!]. split; [by apply QInv_push|by split_and!]. }
  destruct H1 as (HQ1 & HS & HP & HT).
  destruct (match tasks_ w with [] => true | _ => idle_ w end); [|by exists w1].
  destruct (notify_ok w1) as (w2 & E2 & HS2 & HP2 & HT2 & HA2). exists w2. split; [done|].
  split; [|split; [by eapply Same_trans|split; congruence]].
  destruct HQ1 as [Hs1 Hk1 Ht1 He1 Hl1]. destruct HS2.
  split; rewrite ?HP2, ?HT2, ?HA2, ?sm_coroutines0, ?sm_taken0; done.
Qed.

Lemma addTasks_ok ts w :
  QInv w -> Forall task_ok ts -> exists w', addTasks ts w = (Ok tt, w') /\ QInv w' /\ Same w w' /\ poller_ w' = poller_ w
    /\ tasks_ w' = tasks_ w ++ filter (fun t => isTask t w = true) ts.
Proof.
  revert w. induction ts as [|t ts IH]; intros w HQ Hts.
  { exists w. split_and!; try done. by rewrite filter_nil, app_nil_r. }
  apply Forall_cons in Hts as [Ht Hts]. destruct (addTask_ok w t HQ Ht) as (w1 & E1 & HQ1 & HS1 & HP1 & HT1).
  destruct (IH w1 HQ1 Hts) as (w2 & E2 & HQ2 & HS2 & HP2 & HT2). exists w2.
  cbn [addTasks]. rewrite (bind_ok _ _ _ _ _ E1). split_and!; try done; [by eapply Same_trans|congruence|].
  assert (Hf : filter (fun t => isTask t w1 = true) ts = filter (fun t => isTask t w = true) ts).
  { apply list_filter_iff. intros u. unfold isTask. by rewrite (sm_coroutines _ _ HS1). }
  rewrite HT2, HT1, Hf, filter_cons. destruct (isTask t w) eqn:Hi.
  - rewrite decide_True by done. by rewrite <- app_assoc.
  - by rewrite decide_False.
Qed.

Lemma drain_ok w : QInv w -> exists w', drain w = (Ok tt, w') /\ QInv w' /\ Same w w'.
Proof.
  intros HQ. unfold drain. rewrite bind_gets. unfold id. rewrite bind_modify.
  set (p := {| ioEvents_ := _ |}). set (mine := map snd _).
  assert (HQ1 : QInv (setPoller p w)).
  { destruct HQ as [Hs Hk Ht He Hl]. split; cbn; try done.
    - destruct Hs. by split.
    - intros x [Hx|Hx]; [by apply Hk; left|]. apply Hk. right. unfold p in Hx. cbn in Hx.
      by apply list_elem_of_filter in Hx as [_ ?]. }
  assert (Hm : Forall task_ok mine).
  { apply Forall_forall. intros t Ht. unfold mine in Ht. apply list_elem_of_fmap in Ht as (x & -> & Hx).
    apply list_elem_of_filter in Hx as [_ Hx]. apply (q_known w HQ). by right. }
  destruct (addTasks_ok mine _ HQ1 Hm) as (w' & E & HQ' & HS & _). exists w'. split; [done|].
  split; [done|]. destruct HS. by split.
Qed.

Lemma onPoller_ok {A} (m : M Poller A) a p' w :
  m (poller_ w) = (Ok a, p') -> Shape p' -> (forall x, known p' x -> task_ok x.2) -> QInv w ->
  exists w', onPoller m w = (Ok a, w') /\ QInv w' /\ Same w w'.
Proof.
  intros Em Hs Hk HQ. unfold onPoller.
  assert (Ez : zoom poller_ setPoller m w = (Ok a, setPoller p' w)) by (unfold zoom; by rewrite Em).
  rewrite (bind_ok _ _ _ _ _ Ez).
  destruct (drain_ok (setPoller p' w)) as (w' & E & HQ' & HS).
  { destruct HQ as [_ _ Ht He Hl]. by split. }
  exists w'. rewrite (bind_ok _ _ _ _ _ E). split; [done|]. split; [done|]. destruct HS. by split.
Qed.

(** The registration calls of a running function. *)
Lemma regop_ok_worker w o :
  QInv w -> regop_ok (poller_ w) o -> (forall x, brings o x -> task_ok x.2) ->
  exists b w', onPoller (run_regop o) w = (Ok b, w') /\ QInv w' /\ Same w w'.
Proof.
  intros HQ Ho Hb. destruct (regop_shape (poller_ w) o (q_shape w HQ) Ho) as (b & p' & E & Hs & Hk).
  exists b. eapply onPoller_ok; [exact E|done| |done].
  intros x Hx. destruct (Hk x Hx) as [?|?]; [by apply (q_known w HQ)|by apply Hb].
Qed.

(** What running a coroutine leaves alone. *)
Record Kept (w w' : Worker) : Prop := {
  kp_self : self w' = self w;
  kp_idle_ : idle_ w' = idle_ w;
  kp_id : s_coroutineId w' = s_coroutineId w;
  kp_idle : idle w' = idle w;
  kp_coFunc : coFunc w' = coFunc w;
  kp_taken : taken w' = taken w
}.

Lemma Same_Kept w w' : Same w w' -> Kept w w'.
Proof. intros []. by split. Qed.

Lemma Kept_trans w1 w2 w3 : Kept w1 w2 -> Kept w2 w3 -> Kept w1 w3.
Proof. intros [] []. split; congruence. Qed.

Definition halted (s : State) : Prop := s = SUSPEND \/ s = DONE \/ s = EXCEPT.

Lemma QInv_alter w f c cu :
  QInv w -> QInv (setCur cu (setCoroutines (alter f c (coroutines w)) w)).
Proof.
  intros [Hs Hk Ht He Hl]. split; cbn; try done. intros d Hd. destruct (He d Hd) as [x Hx].
  destruct (decide (c = d)) as [->|]; [rewrite lookup_alter_eq, Hx|rewrite lookup_alter_ne by done]; by eexists.
Qed.

(** Changing one coroutine, and which one runs, together. *)
Lemma CInv_alter w o f c o' x :
  CInv w o -> coroutines w !! c = Some x -> prog_ok (context_ (f x)) ->
  (state_ (f x) = RUNNING <-> o' = Some c) -> (forall d, d <> c -> o = Some d <-> o' = Some d) ->
  CInv (setCur o' (setCoroutines (alter f c (coroutines w)) w)) o'.
Proof.
  intros [Hcur Hrun Hprog Hids] Hx Hp Hst Ho. split; cbn.
  - done.
  - intros d y Hy. destruct (decide (c = d)) as [<-|Hne].
    + rewrite lookup_alter_eq, Hx in Hy. by injection Hy as <-.
    + rewrite lookup_alter_ne in Hy by done. rewrite (Hrun d y Hy). by apply Ho.
  - intros d y Hy. destruct (decide (c = d)) as [<-|Hne].
    + rewrite lookup_alter_eq, Hx in Hy. by injection Hy as <-.
    + rewrite lookup_alter_ne in Hy by done. by eapply Hprog.
  - intros d [y Hy]. apply Hids. destruct (decide (c = d)) as [<-|Hne]; [by eexists|].
    rewrite lookup_alter_ne in Hy by done. by eexists.
Qed.

(** How the run of a coroutine ends. *)
Definition ran (c : nat) (w w' : Worker) : Prop :=
  QInv w' /\ CInv w' None /\ Kept w w'
  /\ (exists x, coroutines w' !! c = Some x /\ halted (state_ x))
  /\ (forall d, d <> c -> coroutines w' !! d = coroutines w !! d).

(** The switch back to the main coroutine, with the final state set. *)
Lemma switch_ran w c f k x :
  QInv w -> CInv w (Some c) -> coroutines w !! c = Some x -> prog_ok k -> halted (state_ (f x)) ->
  exists w', (updCoroutine c f ;;; yield c k) w = (Ok tt, w') /\ ran c w w'.
Proof.
  intros HQ HC Hx Hk Hh. unfold yield, updCoroutine. rewrite !bind_modify. unfold modify.
  eexists. split; [done|].
  set (g := fun y => {| func_ := func_ (f y); context_ := k; state_ := state_ (f y) |}).
  assert (Ew : forall cs, alter (fun y => {| func_ := func_ y; context_ := k; state_ := state_ y |}) c (alter f c cs)
    = alter g c cs) by (intros cs; by rewrite alter_alter_eq).
  cbn [coroutines setCoroutines]. rewrite Ew.
  assert (Eq : setCur None (setCoroutines (alter g c (coroutines w)) (setCoroutines (alter f c (coroutines w)) w))
    = setCur None (setCoroutines (alter g c (coroutines w)) w)) by done.
  rewrite Eq. split_and!.
  - by apply QInv_alter.
  - apply (CInv_alter w (Some c) g c None x HC Hx); [done| |].
    + cbn. split; [|done]. intros E. destruct Hh as [Hh|[Hh|Hh]]; congruence.
    + intros d Hd. split; congruence.
  - by split.
  - exists (g x). cbn. by rewrite lookup_alter_eq, Hx.
  - intros d Hd. cbn. by rewrite lookup_alter_ne.
Qed.

Lemma ran_same w w1 w' c : Same w w1 -> ran c w1 w' -> ran c w w'.
Proof.
  intros HS (HQ & HC & HK & Hx & Hd). split_and!; try done.
  - by eapply Kept_trans; [apply Same_Kept|].
  - intros d Hne. by rewrite Hd, (sm_coroutines _ _ HS).
Qed.

(** The rest [m] of the run after a call that went well. *)
Lemma ran_after c w w1 (m : M Worker unit) :
  CInv w (Some c) -> is_Some (coroutines w !! c) -> QInv w1 -> Same w w1 ->
  (forall v, QInv v -> CInv v (Some c) -> is_Some (coroutines v !! c) ->
     exists w', m v = (Ok tt, w') /\ ran c v w') ->
  exists w', m w1 = (Ok tt, w') /\ ran c w w'.
Proof.
  intros HC Hx HQ1 HS Hm. destruct (Hm w1) as (w' & E & Hr).
  - done.
  - by eapply CInv_same.
  - by rewrite (sm_coroutines _ _ HS).
  - exists w'. split; [done|]. by eapply ran_same.
Qed.

(** Running a coroutine always comes back to the loop, with the coroutine
    suspended or finished. *)
Lemma exec_ok c p w :
  QInv w -> CInv w (Some c) -> is_Some (coroutines w !! c) -> prog_ok p ->
  exists w', exec c p w = (Ok tt, w') /\ ran c w w'.
Proof.
  revert w. induction p as [| |k IH|f _ k IH|k IH|d k IH|k IH|fd ty fn k IH|fd ty k IH|fd ty k IH|fd k IH];
    intros w HQ HC [x Hx] Hp; cbn [exec].
  - by eapply switch_ran; [..|right; left].
  - by eapply switch_ran; [..|right; right].
  - unfold yieldToSuspend.
    assert (Eg : getCoroutine c w = (Ok x, w)) by (unfold getCoroutine; by rewrite Hx).
    rewrite (bind_ok _ _ _ _ _ Eg).
    assert (Hr : state_ x = RUNNING) by (by apply (c_running _ _ HC c x Hx)).
    rewrite Hr. unfold assert_, check. rewrite bool_decide_true, bind_ret by done.
    by eapply switch_ran; [..|left].
  - destruct Hp as [Hf Hk]. destruct (addTask_ok w (TaskFunc f) HQ Hf) as (w1 & E & HQ1 & HS & _).
    rewrite (bind_ok _ _ _ _ _ E). by apply (ran_after c w w1); eauto.
  - destruct (addTask_ok w (TaskCo c) HQ I) as (w1 & E & HQ1 & HS & _).
    rewrite (bind_ok _ _ _ _ _ E). by apply (ran_after c w w1); eauto.
  - destruct (addTask_ok w (TaskCo d) HQ I) as (w1 & E & HQ1 & HS & _).
    rewrite (bind_ok _ _ _ _ _ E). by apply (ran_after c w w1); eauto.
  - destruct (notify_ok (setRunning false w)) as (w1 & E & HS & HP & HT & HA).
    assert (Es : stop w = (Ok tt, w1)) by (unfold stop; by rewrite bind_modify).
    assert (HS' : Same w w1) by (destruct HS; by split).
    rewrite (bind_ok _ _ _ _ _ Es). apply (ran_after c w w1); eauto.
    destruct HQ as [Hs Hkn Ht He Hl]. destruct HS'. split; rewrite ?HP, ?HT, ?HA, ?sm_coroutines0, ?sm_taken0; done.
  - destruct Hp as (Hfd & Hty & Hfn & Hk). rewrite bind_gets.
    destruct (regop_ok_worker w (RAdd (self w) c fd ty fn) HQ) as (b & w1 & E & HQ1 & HS).
    { split; [lia|]. split; [done|left; lia]. } { intros y ->. by destruct fn. }
    cbn [run_regop] in E. rewrite (bind_ok _ _ _ _ _ E).
    by apply (ran_after c w w1); eauto.
  - destruct Hp as (Hfd & Hty & Hk).
    destruct (regop_ok_worker w (RDel fd ty) HQ) as (b & w1 & E & HQ1 & HS); [done|done|].
    cbn [run_regop] in E. rewrite (bind_ok _ _ _ _ _ E).
    by apply (ran_after c w w1); eauto.
  - destruct Hp as (Hfd & Hty & Hk).
    destruct (regop_ok_worker w (RHandle fd ty) HQ) as (b & w1 & E & HQ1 & HS); [done|done|].
    cbn [run_regop] in E. rewrite (bind_ok _ _ _ _ _ E).
    by apply (ran_after c w w1); eauto.
  - destruct Hp as (Hfd & Hk).
    destruct (regop_ok_worker w (RHandleAll fd) HQ) as (b & w1 & E & HQ1 & HS); [done|done|].
    cbn [run_regop] in E. rewrite (bind_ok _ _ _ _ _ E).
    by apply (ran_after c w w1); eauto.
Qed.

(** ** The loop *)

Lemma resume_ok c x w :
  QInv w -> CInv w None -> coroutines w !! c = Some x ->
  exists w', resume c w = (Ok tt, w') /\ ran c w w'.
Proof.
  intros HQ HC Hx. unfold resume.
  assert (Eg : getCoroutine c w = (Ok x, w)) by (unfold getCoroutine; by rewrite Hx).
  rewrite (bind_ok _ _ _ _ _ Eg).
  assert (Hr : state_ x <> RUNNING) by (intros Hr; by apply (c_running _ _ HC c x Hx) in Hr).
  unfold assert_, check. rewrite bool_decide_true, bind_ret by done.
  unfold updCoroutine. rewrite !bind_modify.
  set (w1 := setCur (Some c) _).
  destruct (exec_ok c (context_ x) w1) as (w' & E & HQ' & HC' & HK & Hex & Hd).
  - by apply (QInv_alter w (setState RUNNING) c (Some c)).
  - apply (CInv_alter w None (setState RUNNING) c (Some c) x HC Hx); [exact (c_prog _ _ HC c x Hx)|done|].
    intros d Hd. split; congruence.
  - unfold w1. cbn. rewrite lookup_alter_eq, Hx. by eexists.
  - exact (c_prog _ _ HC c x Hx).
  - exists w'. split; [done|]. split_and!; try done.
    + destruct HK. by split.
    + intros d Hne. rewrite Hd by done. unfold w1. cbn. by rewrite lookup_alter_ne.
Qed.

(** The state at the top of the loop. *)
Record LoopInv (w : Worker) : Prop := {
  l_queue : QInv w;
  l_coroutines : CInv w None;
  l_flag : idle_ w = false;
  l_idle : idle w = INIT \/ idle w = SUSPEND \/ idle w = DONE;
  l_coFunc : forall c, coFunc w = Some c -> exists x, coroutines w !! c = Some x /\ finished (state_ x) = true
}.

(** The poller when [epoll_wait] has returned and the expired callbacks are
    queued: what the kernel may report depends on it. *)
Definition waited (w : nat) (expired : list (option Prog)) (p : Poller) : Poller :=
  foldl (fun p f => match f with Some f => schedule w (TaskFunc f) p | None => p end)
    (setPolling false (setPolling true p)) expired.

Record round_ok (w : Worker) (r : Round) : Prop := {
  r_early : Forall task_ok (early r);
  r_arrivals : Forall task_ok (arrivals r);
  r_expired : Forall (fun f => from_option prog_ok True f) (expired r);
  r_ready : readies_ok (waited (self w) (expired r) (setPolling true (poller_ w))) (ready r)
}.

Lemma waited_ok w ex p :
  Shape p -> (forall x, known p x -> task_ok x.2) -> Forall (fun f => from_option prog_ok True f) ex ->
  Shape (waited w ex p) /\ forall x, known (waited w ex p) x -> task_ok x.2.
Proof.
  intros Hs Hk Hex. unfold waited.
  assert (H0 : Shape (setPolling false (setPolling true p))
    /\ forall x, known (setPolling false (setPolling true p)) x -> task_ok x.2).
  { split; [destruct Hs; by split|]. intros x Hx. by apply Hk. }
  revert H0. generalize (setPolling false (setPolling true p)).
  induction Hex as [|f ex Hf _ IH]; intros q [Hq Hkq]; cbn [foldl]; [done|]. apply IH.
  destruct f as [f|]; [|done]. split; [by apply shape_schedule|].
  intros x [Hx|Hx]; [by apply Hkq; left|]. cbn in Hx. apply elem_of_app in Hx as [Hx|Hx].
  - apply Hkq. by right.
  - apply list_elem_of_singleton in Hx as ->. exact Hf.
Qed.

Lemma wait_ok w ex rs p :
  Shape p -> (forall x, known p x -> task_ok x.2) -> Forall (fun f => from_option prog_ok True f) ex ->
  readies_ok (waited w ex p) rs ->
  exists p', Epoller.wait w ex rs p = (Ok tt, p') /\ Shape p' /\ forall x, known p' x -> task_ok x.2.
Proof.
  intros Hs Hk Hex Hrs. destruct (waited_ok w ex p Hs Hk Hex) as [Hs1 Hk1].
  destruct (readies_shape rs _ Hs1 Hrs) as (p' & E & Hs' & Hk'). exists p'. split; [exact E|].
  split; [done|]. intros x Hx. by apply Hk1, Hk'.
Qed.

(** What an idle turn leaves alone. *)
Lemma idleLoop_ok r w :
  QInv w -> CInv w None -> round_ok w r ->
  exists w', idleLoop r w = (Ok tt, w') /\ QInv w' /\ CInv w' None
    /\ idle_ w' = idle_ w /\ coroutines w' = coroutines w /\ coFunc w' = coFunc w /\ taken w' = taken w
    /\ (idle w' = DONE \/ idle w' = SUSPEND)
    /\ (idle w' = DONE <-> running_ w = false /\ tasks_ w = [] /\ expire r = -1).
Proof.
  intros HQ HC [_ Harr Hexp Hrdy]. unfold idleLoop.
  set (b := negb (running_ w) && negb (match tasks_ w with [] => false | _ => true end) && (expire r =? -1)).
  assert (Ec : canStop (expire r) w = (Ok b, w)) by done. rewrite (bind_ok _ _ _ _ _ Ec).
  assert (Hb : b = true <-> running_ w = false /\ tasks_ w = [] /\ expire r = -1).
  { unfold b. rewrite !andb_true_iff, !negb_true_iff, Z.eqb_eq. destruct (tasks_ w); naive_solver. }
  destruct b.
  { eexists. split; [done|]. destruct HQ, HC. split_and!; try done; [by split..|by left|]. cbn. tauto. }
  rewrite bind_modify. set (w1 := setPoller _ w).
  assert (HQ1 : QInv w1).
  { destruct HQ as [Hs Hk Ht He Hl]. split; cbn; try done. destruct Hs; by split. }
  destruct (addTasks_ok (arrivals r) w1 HQ1 Harr) as (w2 & E2 & HQ2 & HS2 & HP2 & _).
  rewrite (bind_ok _ _ _ _ _ E2).
  assert (E3 : exists w3, (if stops r then stop else ret tt) w2 = (Ok tt, w3) /\ QInv w3 /\ Same w2 w3
    /\ poller_ w3 = poller_ w2).
  { destruct (stops r); [|by exists w2]. destruct (notify_ok (setRunning false w2)) as (w3 & E & HS & HP & HT & HA).
    exists w3. unfold stop. rewrite bind_modify. split; [done|]. assert (HS' : Same w2 w3) by (destruct HS; by split).
    split; [|done]. destruct HQ2 as [Hs Hk Ht He Hl]. destruct HS'.
    split; rewrite ?HP, ?HT, ?HA, ?sm_coroutines0, ?sm_taken0; done. }
  destruct E3 as (w3 & E3 & HQ3 & HS3 & HP3). rewrite (bind_ok _ _ _ _ _ E3), bind_gets.
  assert (HS13 : Same w1 w3) by (by eapply Same_trans).
  destruct (wait_ok (self w3) (expired r) (ready r) (poller_ w3)) as (p' & E4 & Hs4 & Hk4).
  { apply (q_shape _ HQ3). } { apply (q_known _ HQ3). } { done. }
  { rewrite HP3, HP2, (sm_self _ _ HS13). exact Hrdy. }
  destruct (onPoller_ok _ _ _ _ E4 Hs4 Hk4 HQ3) as (w4 & E5 & HQ4 & HS4).
  rewrite (bind_ok _ _ _ _ _ E5). eexists. split; [done|].
  assert (HS14 : Same w1 w4) by (by eapply Same_trans).
  assert (HC4 : CInv w4 None) by (eapply CInv_same; [exact HS14|]; destruct HC; by split).
  destruct HQ4, HC4, HS14. split_and!; try done; [by split..|by right|]. cbn. split; [done|]. by intros Hx%Hb.
Qed.

Lemma idling_ok r w :
  QInv w -> CInv w None -> round_ok w r -> (idle w = INIT \/ idle w = SUSPEND \/ idle w = DONE) ->
  (forall c, coFunc w = Some c -> exists x, coroutines w !! c = Some x /\ finished (state_ x) = true) ->
  idle_ w = false ->
  exists b w', idling r w = (Ok b, w') /\ LoopInv w' /\ taken w' = taken w /\ (b = false <-> idle w = DONE)
    /\ (b = false -> w' = w)
    /\ (b = true -> (idle w' = DONE \/ idle w' = SUSPEND)
         /\ (idle w' = DONE <-> running_ w = false /\ tasks_ w = [] /\ expire r = -1)).
Proof.
  intros HQ HC Hr Hi Hc Hf. unfold idling. rewrite bind_gets. destruct (decide (idle w = DONE)) as [Hd|Hd].
  - rewrite bool_decide_true by done. exists false, w. by split_and!.
  - rewrite bool_decide_false, bind_modify by done. unfold resumeIdle.
    set (w1 := setIdleFlag true w).
    assert (E : (s <-- gets idle ;; assert_ (bool_decide (s <> RUNNING)) ;;; modify (setIdle RUNNING) ;;; idleLoop r) w1
      = idleLoop r (setIdle RUNNING w1)).
    { rewrite bind_gets. unfold assert_, check. rewrite bool_decide_true; [by rewrite bind_ret, bind_modify|].
      cbn. intros Hx. rewrite Hx in Hi. naive_solver. }
    destruct (idleLoop_ok r (setIdle RUNNING w1)) as (w2 & E2 & HQ2 & HC2 & Hfl & Hco & Hcf & Htk & Hst & Hdn).
    { destruct HQ. by split. } { destruct HC. by split. } { destruct Hr. by split. }
    rewrite (bind_ok _ _ _ _ _ (eq_trans E E2)), bind_modify. eexists true, _. split; [done|]. split; [|split_and!].
    + destruct HQ2, HC2. split; [by split..|done| |].
      * cbn. naive_solver.
      * cbn. rewrite Hco, Hcf. exact Hc.
    + exact Htk.
    + split; [done|]. by intros ?.
    + done.
    + intros _. by split.
Qed.

(** Reusing or creating the coroutine of a function. *)
Definition fresh (f : Prog) : Coroutine := {| func_ := Some f; context_ := f; state_ := INIT |}.

Lemma alter_insert_of (g : Coroutine -> Coroutine) (m : gmap nat Coroutine) x c y :
  m !! c = Some x -> g x = y -> alter g c m = <[c := y]> m.
Proof.
  intros Hx <-. apply map_eq. intros d. destruct (decide (c = d)) as [<-|].
  - by rewrite lookup_alter_eq, lookup_insert_eq, Hx.
  - by rewrite lookup_alter_ne, lookup_insert_ne.
Qed.

(** [resume] runs the context of the coroutine. *)
Lemma resume_run c x w :
  coroutines w !! c = Some x -> state_ x <> RUNNING ->
  resume c w = exec c (context_ x) (setCur (Some c) (setCoroutines (<[c := setState RUNNING x]> (coroutines w)) w)).
Proof.
  intros Hx Hr. unfold resume. assert (Eg : getCoroutine c w = (Ok x, w)) by (unfold getCoroutine; by rewrite Hx).
  rewrite (bind_ok _ _ _ _ _ Eg). unfold assert_, check. rewrite bool_decide_true, bind_ret by done.
  unfold updCoroutine. by rewrite !bind_modify, (alter_insert_of _ _ _ c (setState RUNNING x) Hx eq_refl).
Qed.

Lemma claim_run f w :
  LoopInv w ->
  exists c w1, claimCoroutine f w = (Ok c, w1) /\ coroutines w1 = <[c := fresh f]> (coroutines w)
    /\ coFunc w1 = Some c /\ idle_ w1 = idle_ w /\ idle w1 = idle w /\ taken w1 = taken w /\ tasks_ w1 = tasks_ w
    /\ poller_ w1 = poller_ w /\ running_ w1 = running_ w /\ added w1 = added w /\ cur w1 = cur w
    /\ (s_coroutineId w <= s_coroutineId w1)%nat /\ (c <= s_coroutineId w1)%nat.
Proof.
  intros [_ HC _ _ Hc]. unfold claimCoroutine. rewrite bind_gets. destruct (coFunc w) as [c|] eqn:Ec.
  - destruct (Hc c eq_refl) as (x & Hx & Hfin).
    assert (Er : reuse c f w = (Ok tt, setCoroutines (alter (fun _ => fresh f) c (coroutines w)) w)).
    { unfold reuse. assert (Eg : getCoroutine c w = (Ok x, w)) by (unfold getCoroutine; by rewrite Hx).
      rewrite (bind_ok _ _ _ _ _ Eg). unfold assert_, check.
      replace (reusable (state_ x)) with true by (by destruct (state_ x)). by rewrite bind_ret. }
    exists c. eexists. rewrite (bind_ok _ _ _ _ _ Er). split; [done|]. cbn.
    rewrite (alter_insert_of _ _ x c (fresh f) Hx eq_refl). split_and!; try done.
    apply (c_ids _ _ HC). by eexists.
  - exists (S (s_coroutineId w)). eexists. split; [done|]. cbn. split_and!; try done. lia.
Qed.

Lemma claim_ok f w c w1 :
  LoopInv w -> prog_ok f -> claimCoroutine f w = (Ok c, w1) -> QInv w1 /\ CInv w1 None.
Proof.
  intros HL Hf E. destruct (claim_run f w HL) as (c' & w1' & E' & Hco & _ & _ & _ & Htk & Hts & Hp & _ & Had & Hcu & Hid & Hc).
  rewrite E' in E. injection E as -> ->. destruct HL as [[Hs Hk Ht He Hl] [Hcur Hrun Hprog Hids] _ _ _]. split; split.
  - by rewrite Hp.
  - by rewrite Hp.
  - by rewrite Hts.
  - intros d Hd. rewrite Hts in Hd. rewrite Hco. apply lookup_insert_is_Some'. right. by apply He.
  - congruence.
  - congruence.
  - intros d y Hy. rewrite Hco in Hy. apply lookup_insert_Some in Hy as [[<- <-]|[_ Hy]]; [done|by apply Hrun].
  - intros d y Hy. rewrite Hco in Hy. apply lookup_insert_Some in Hy as [[<- <-]|[_ Hy]]; [done|by eapply Hprog].
  - intros d Hd. rewrite Hco in Hd. apply lookup_insert_is_Some' in Hd as [<-|Hd]; [done|].
    apply Hids in Hd. lia.
Qed.

Lemma runFunc_ok f w :
  LoopInv w -> prog_ok f ->
  exists w', runFunc f w = (Ok tt, w') /\ QInv w' /\ CInv w' None /\ idle_ w' = idle_ w /\ idle w' = idle w
    /\ taken w' = taken w
    /\ (forall c, coFunc w' = Some c -> exists x, coroutines w' !! c = Some x /\ finished (state_ x) = true).
Proof.
  intros HL Hf. unfold runFunc.
  destruct (claim_run f w HL) as (c & w1 & E1 & Hco & Hcf1 & Hfl1 & Hi1 & Ht1 & _).
  destruct (claim_ok f w c w1 HL Hf E1) as [HQ1 HC1].
  assert (Hx1 : coroutines w1 !! c = Some (fresh f)) by (by rewrite Hco, lookup_insert_eq).
  rewrite (bind_ok _ _ _ _ _ E1).
  destruct (resume_ok c (fresh f) w1 HQ1 HC1 Hx1) as (w2 & E2 & HQ2 & HC2 & HK & (x & Hx & Hh) & _).
  rewrite (bind_ok _ _ _ _ _ E2).
  assert (Eg : getCoroutine c w2 = (Ok x, w2)) by (unfold getCoroutine; by rewrite Hx).
  rewrite (bind_ok _ _ _ _ _ Eg). destruct HK.
  destruct (decide (state_ x = SUSPEND)) as [Hsus|Hsus].
  - rewrite bool_decide_true by done. eexists. split; [done|]. destruct HQ2, HC2.
    split_and!; try done; [by split..|cbn; congruence|cbn; congruence|cbn; congruence].
  - rewrite bool_decide_false by done. exists w2. split; [done|]. split_and!; try done; try congruence.
    intros d Hd. rewrite kp_coFunc0, Hcf1 in Hd. injection Hd as <-. exists x. split; [done|].
    destruct Hh as [Hh|[Hh|Hh]]; [done|by rewrite Hh..].
Qed.

Lemma QInv_pop w t rest : QInv w -> tasks_ w = t :: rest -> QInv (popTask t rest w).
Proof.
  intros [Hs Hk Ht He Hl] Et. rewrite Et in *. apply Forall_cons in Ht as [Ht Hrest]. split; cbn; try done.
  - intros c Hin. apply He. by right.
  - by rewrite Hl, <- app_assoc.
Qed.

(** The queue from which a turn takes its task. *)
Definition queue (w : Worker) (r : Round) : list Task :=
  tasks_ w ++ filter (fun t => isTask t w = true) (early r).

(** One turn of the loop. *)
Lemma turn_ok w r :
  LoopInv w -> round_ok w r ->
  exists b w', iterate r w = (Ok b, w') /\ LoopInv w' /\ taken w' = taken w ++ take 1 (queue w r)
    /\ (b = false -> idle w = DONE
         /\ match queue w r with
            | [] => True
            | TaskCo c :: _ => exists x, coroutines w !! c = Some x /\ finished (state_ x) = true
            | TaskFunc _ :: _ => False
            end).
Proof.
  intros [HQ HC Hf Hi Hc] Hr. unfold iterate.
  destruct (addTasks_ok (early r) w HQ (r_early _ _ Hr)) as (w1 & E1 & HQ1 & HS & HP & HT).
  rewrite (bind_ok _ _ _ _ _ E1). fold (queue w r) in HT.
  assert (HC1 : CInv w1 None) by by eapply CInv_same.
  assert (Hr1 : forall v, self v = self w1 -> poller_ v = poller_ w1 -> round_ok v r).
  { intros v Hs Hp. destruct Hr as [He Ha Hx Hy]. split; try done. by rewrite Hs, Hp, HP, (sm_self _ _ HS). }
  destruct HS as [Hsf Hsi Hsc Hsd Hsu Hsl Hso Hst]. unfold takeTask. unfold bind at 1.
  rewrite <- HT. destruct (tasks_ w1) as [|t rest] eqn:Et.
  - destruct (idling_ok r w1 HQ1 HC1) as (b & w' & E & HL & Htk & Hb & _); [by apply Hr1|by rewrite Hsl| |congruence|].
    { intros c. rewrite Hso, Hsc. apply Hc. }
    exists b, w'. split; [done|]. split; [done|]. split; [rewrite app_nil_r; congruence|].
    intros Hb'%Hb. split; [congruence|done].
  - set (w2 := popTask t rest w1).
    assert (HQ2 : QInv w2) by by apply QInv_pop.
    assert (HC2 : CInv w2 None) by (destruct HC1; by split).
    assert (Ht2 : taken w2 = taken w ++ [t]) by (cbn; congruence).
    assert (Hcf2 : forall c, coFunc w2 = Some c -> exists x, coroutines w2 !! c = Some x /\ finished (state_ x) = true).
    { intros c. cbn. rewrite Hso, Hsc. apply Hc. }
    change (take 1 (t :: rest)) with [t]. destruct t as [c|f].
    + destruct (q_exist w1 HQ1 c) as [x Hx]; [rewrite Et; by left|].
      assert (Eg : getCoroutine c w2 = (Ok x, w2)) by (unfold getCoroutine; cbn; by rewrite Hx).
      rewrite (bind_ok _ _ _ _ _ Eg). destruct (finished (state_ x)) eqn:Hfin.
      * destruct (idling_ok r w2 HQ2 HC2) as (b & w' & E & HL & Htk & Hb & _);
          [by apply Hr1|cbn; by rewrite Hsl|done|cbn; congruence|].
        exists b, w'. split; [done|]. split; [done|]. split; [congruence|].
        intros Hb'%Hb. split; [cbn in Hb'; congruence|]. exists x. by rewrite <- Hsc.
      * destruct (resume_ok c x w2 HQ2 HC2) as (w' & E & HQ' & HC' & HK & (y & Hy & Hh) & Hd); [done|].
        exists true, w'. rewrite (bind_ok _ _ _ _ _ E). destruct HK. cbn in *.
        split; [done|]. split; [|split; [congruence|done]].
        split; try done; [congruence|by rewrite kp_idle0, Hsl|]. intros d Hd'. rewrite kp_coFunc0 in Hd'.
        destruct (decide (d = c)) as [->|Hne]; [|rewrite Hd by done; by apply Hcf2].
        destruct (Hcf2 c Hd') as (z & Hz & Hzf). congruence.
    + assert (Hf2 : prog_ok f).
      { pose proof (q_tasks w1 HQ1) as Hta. rewrite Et in Hta. by apply Forall_cons in Hta as [? _]. }
      destruct (runFunc_ok f w2) as (w' & E & HQ' & HC' & Hfl & Hil & Htk & Hcf); [|done|].
      { split; try done; cbn; [congruence|by rewrite Hsl]. }
      exists true, w'. rewrite (bind_ok _ _ _ _ _ E). cbn in *.
      split; [done|]. split; [split; try done; [congruence|by rewrite Hil, Hsl]|]. split; [congruence|done].
Qed.

(** C10: Every turn of the worker's loop returns, whatever the tasks do and
    the other threads, the timers and the kernel answer: no assertion of
    [resume], [reuse], [YieldToSuspend] or the poller fails, no exception of
    a task leaves its coroutine, and the invariant holds again: no coroutine
    is left RUNNING, the one kept for functions has finished, and the tasks
    ever added are those taken, in that order, followed by the queue.  The
    turn takes exactly the first task; the loop ends only once the idle
    coroutine has, with an empty queue or a finished coroutine in front. *)
Theorem worker_turn w r :
  LoopInv w -> round_ok w r ->
  exists b w', iterate r w = (Ok b, w') /\ LoopInv w' /\ taken w' = taken w ++ take 1 (queue w r)
    /\ (b = false -> idle w = DONE
         /\ match queue w r with
            | [] => True
            | TaskCo c :: _ => exists x, coroutines w !! c = Some x /\ finished (state_ x) = true
            | TaskFunc _ :: _ => False
            end).
Proof. apply turn_ok. Qed.

(** ** Stopping *)

(** Programs that make no calls on the poller: they cannot be woken again
    from outside. *)
Fixpoint calm (p : Prog) : Prop :=
  match p with
  | Return | Raise => True
  | YieldToSuspend k | AddSelf k | AddCo _ k | Stop k => calm k
  | AddTask f k => calm f /\ calm k
  | AddEvent _ _ _ _ | DelEvent _ _ _ | HandleEvent _ _ _ | HandleAllEvent _ _ => False
  end.

Fixpoint weight (p : Prog) : nat :=
  match p with
  | YieldToSuspend k | Stop k => weight k
  | AddSelf k | AddCo _ k => 1 + weight k
  | AddTask f k => 1 + weight f + weight k
  | _ => 0
  end.

Definition calmTask (t : Task) : Prop := match t with TaskFunc f => calm f | TaskCo _ => True end.
Definition taskWeight (t : Task) : nat := match t with TaskFunc f => 1 + weight f | TaskCo _ => 1 end.
Definition tasksWeight (ts : list Task) : nat := sum_list_with taskWeight ts.
Definition coWeight (m : gmap nat Coroutine) : nat := map_fold (fun _ x n => (weight (context_ x) + n)%nat) 0%nat m.

(** What is left to do: every turn that takes a task lowers it. *)
Definition work (w : Worker) : nat := tasksWeight (tasks_ w) + coWeight (coroutines w).

Lemma prog_ok_calm p : calm p -> prog_ok p.
Proof. induction p; cbn; naive_solver. Qed.

Lemma coWeight_insert m c x :
  m !! c = None -> coWeight (<[c := x]> m) = (weight (context_ x) + coWeight m)%nat.
Proof. intros Hc. unfold coWeight. rewrite map_fold_insert_L; [done| |done]. intros. lia. Qed.

Lemma coWeight_put m c x y :
  m !! c = Some x -> (coWeight (<[c := y]> m) + weight (context_ x) = coWeight m + weight (context_ y))%nat.
Proof.
  intros Hx. rewrite <- (insert_delete_id m c x Hx) at 2. rewrite <- insert_delete_eq.
  rewrite !coWeight_insert by apply lookup_delete_eq. lia.
Qed.

Lemma tasksWeight_app ts us : tasksWeight (ts ++ us) = (tasksWeight ts + tasksWeight us)%nat.
Proof. apply sum_list_with_app. Qed.

(** The calls of a calm function: only the queue grows. *)
Record Calm (w : Worker) : Prop := {
  cm_tasks : Forall calmTask (tasks_ w);
  cm_contexts : forall c x, coroutines w !! c = Some x -> calm (context_ x);
  cm_log : scheduled (poller_ w) = [];
  cm_running : running_ w = false
}.

Lemma addTask_run w t :
  exists w', addTask t w = (Ok tt, w') /\ Same w w' /\ poller_ w' = poller_ w /\ running_ w' = running_ w
    /\ tasks_ w' = if isTask t w then tasks_ w ++ [t] else tasks_ w.
Proof.
  unfold addTask. rewrite (bind_ok _ _ _ _ _ (addTaskNoLock_spec t w)).
  destruct (match tasks_ w with [] => true | _ => idle_ w end), (isTask t w);
    unfold notify; rewrite ?bind_gets; unfold id; cbn [pushTask poller_];
    try destruct (Epoller.notify (poller_ w)); eexists; (split; [done|]); split; try done; by split.
Qed.

(** A calm run, by the coroutine's new context [k] and the added tasks. *)
(** A run of coroutine [c] from [w] that has [n] left to do. *)
Definition calmly (c : nat) (n : nat) (w : Worker) (r : result unit * Worker) : Prop :=
  exists w' y, r = (Ok tt, w') /\ coroutines w' = <[c := y]> (coroutines w)
    /\ calm (context_ y) /\ Forall calmTask (tasks_ w')
    /\ (tasksWeight (tasks_ w') + weight (context_ y) <= tasksWeight (tasks_ w) + n)%nat
    /\ poller_ w' = poller_ w /\ running_ w' = false.

Lemma add_calm t k c x w :
  calmTask t -> Calm w -> coroutines w !! c = Some x ->
  (forall w1, Calm w1 -> coroutines w1 !! c = Some x -> calmly c (weight k) w1 (exec c k w1)) ->
  calmly c (taskWeight t + weight k) w ((addTask t ;;; exec c k) w).
Proof.
  intros Ht HC Hx IH. destruct (addTask_run w t) as (w1 & E & HS & HP & HR & HT). rewrite (bind_ok _ _ _ _ _ E).
  destruct (IH w1) as (w' & y & E' & Hco & Hcy & Hct & Hw & Hp' & Hr').
  { destruct HC as [Hts Hc Hl Hrn]. split; [rewrite HT|rewrite (sm_coroutines _ _ HS)|rewrite HP|rewrite HR]; try done.
    destruct (isTask _ w); [|done]. apply Forall_app. by repeat constructor. }
  { by rewrite (sm_coroutines _ _ HS). }
  exists w', y. rewrite Hco, (sm_coroutines _ _ HS). split_and!; try done; [|congruence].
  rewrite HT in Hw. destruct (isTask _ w); rewrite ?tasksWeight_app in Hw; cbn in *; lia.
Qed.

Lemma exec_calm c p w x :
  calm p -> Calm w -> coroutines w !! c = Some x -> state_ x = RUNNING -> calmly c (weight p) w (exec c p w).
Proof.
  revert w. induction p as [| |k IH|f _ k IH|k IH|d k IH|k IH| | | |]; intros w Hp HC Hx Hr; try done; cbn [exec].
  - eexists _, {| func_ := None; context_ := Return; state_ := DONE |}. split; [done|]. cbn.
    split; [by rewrite alter_alter_eq; apply (alter_insert_of _ _ x)|]. destruct HC. split_and!; try done; lia.
  - eexists _, {| func_ := func_ x; context_ := Return; state_ := EXCEPT |}. split; [done|]. cbn.
    split; [by rewrite alter_alter_eq; apply (alter_insert_of _ _ x)|]. destruct HC. split_and!; try done; lia.
  - unfold yieldToSuspend.
    assert (Eg : getCoroutine c w = (Ok x, w)) by (unfold getCoroutine; by rewrite Hx).
    rewrite (bind_ok _ _ _ _ _ Eg), Hr. unfold assert_, check. rewrite bool_decide_true, bind_ret by done.
    eexists _, {| func_ := func_ x; context_ := k; state_ := SUSPEND |}. split; [done|]. cbn.
    split; [by rewrite alter_alter_eq; apply (alter_insert_of _ _ x)|]. destruct HC. split_and!; try done.
  - destruct Hp as [Hf Hk]. apply (add_calm (TaskFunc f) k c x w); [done..|]. intros w1 H1 Hx1. by apply IH.
  - apply (add_calm (TaskCo c) k c x w); [done..|]. intros w1 H1 Hx1. by apply IH.
  - apply (add_calm (TaskCo d) k c x w); [done..|]. intros w1 H1 Hx1. by apply IH.
  - destruct (notify_ok (setRunning false w)) as (w1 & E & HS & HP & HT & HA).
    assert (Es : stop w = (Ok tt, w1)) by (unfold stop; by rewrite bind_modify).
    rewrite (bind_ok _ _ _ _ _ Es). destruct HC as [Ht Hc Hl Hrn].
    assert (HR : running_ w1 = false).
    { unfold notify in E. rewrite bind_gets in E. unfold id in E.
      destruct (Epoller.notify _) in E; by injection E as <-. }
    destruct (IH w1 Hp) as (w' & y & E' & Hco & Hcy & Hct & Hw & Hp' & Hr').
    { split; [rewrite HT|rewrite (sm_coroutines _ _ HS)|rewrite HP|rewrite HR]; done. }
    { by rewrite (sm_coroutines _ _ HS). } { done. }
    exists w', y. rewrite Hco, (sm_coroutines _ _ HS). split_and!; try done; [|by rewrite Hp', HP].
    rewrite HT in Hw. exact Hw.
Qed.

(** Nothing happens any more outside the worker. *)
Definition quiet : Round :=
  {| early := []; expire := -1; arrivals := []; stops := false; expired := []; ready := [] |}.

Lemma quiet_ok w : round_ok w quiet.
Proof. by split. Qed.

Lemma drain_empty v :
  scheduled (poller_ v) = [] -> exists p, drain v = (Ok tt, setPoller p v) /\ scheduled p = [].
Proof.
  intros Hl. unfold drain. rewrite bind_gets. unfold id. rewrite bind_modify, Hl. eexists. by split.
Qed.

Lemma quiet_idleLoop v :
  running_ v = false -> scheduled (poller_ v) = [] ->
  exists p st, idleLoop quiet v = (Ok tt, setIdle st (setPoller p v)) /\ scheduled p = []
    /\ (tasks_ v = [] <-> st = DONE).
Proof.
  intros Hr Hl. unfold idleLoop.
  assert (Ec : canStop (expire quiet) v = (Ok (match tasks_ v with [] => true | _ => false end), v)).
  { unfold canStop. rewrite bind_gets. unfold id. rewrite Hr. by destruct (tasks_ v). }
  rewrite (bind_ok _ _ _ _ _ Ec). destruct (tasks_ v) as [|t rest].
  - exists (poller_ v), DONE. split; [by destruct v|done].
  - rewrite bind_modify. cbn [arrivals stops expired ready quiet addTasks]. rewrite !bind_ret, bind_gets.
    cbn [self setPoller]. set (u := setPoller _ _).
    destruct (drain_empty (setPoller (setPolling false (setPolling true (poller_ u))) u)) as (p & E & Hp); [exact Hl|].
    assert (Eo : onPoller (Epoller.wait (self v) [] []) u = (Ok tt, setPoller p u)).
    { unfold onPoller. erewrite bind_ok by done. by rewrite (bind_ok _ _ _ _ _ E). }
    rewrite (bind_ok _ _ _ _ _ Eo). exists p, SUSPEND. by split.
Qed.

Lemma calm_idling w :
  Calm w -> idle w <> RUNNING ->
  exists b w', idling quiet w = (Ok b, w') /\ (b = false <-> idle w = DONE) /\ Calm w'
    /\ tasks_ w' = tasks_ w /\ coroutines w' = coroutines w
    /\ (b = true -> tasks_ w = [] <-> idle w' = DONE).
Proof.
  intros HC Hi. unfold idling. rewrite bind_gets. destruct (decide (idle w = DONE)) as [Hd|Hd].
  { rewrite bool_decide_true by done. by exists false, w. }
  rewrite bool_decide_false, bind_modify by done. destruct HC as [Ht Hc Hl Hr].
  destruct (quiet_idleLoop (setIdle RUNNING (setIdleFlag true w)) Hr Hl) as (p & st & E & Hp & Hst).
  assert (Er : resumeIdle quiet (setIdleFlag true w) = (Ok tt, setIdle st (setPoller p (setIdle RUNNING (setIdleFlag true w))))).
  { unfold resumeIdle. rewrite bind_gets. unfold assert_, check. cbn [idle setIdleFlag].
    by rewrite bool_decide_true, bind_ret, bind_modify by done. }
  rewrite (bind_ok _ _ _ _ _ Er), bind_modify. eexists true, _. split; [done|]. by split_and!.
Qed.

Lemma resume_calm c x w :
  Calm w -> coroutines w !! c = Some x -> state_ x <> RUNNING ->
  exists w', resume c w = (Ok tt, w') /\ Calm w' /\ (work w' <= work w)%nat.
Proof.
  intros HCa Hx Hr.
  pose proof (resume_run c x w Hx Hr) as Er. set (w2 := setCur (Some c) _) in Er.
  assert (Ea : coroutines w2 = <[c := setState RUNNING x]> (coroutines w)) by done.
  destruct HCa as [Hct Hcc Hl Hrn].
  destruct (exec_calm c (context_ x) w2 (setState RUNNING x)) as (w' & y & E & Hco & Hcy & Hct' & Hw & Hp & Hrn').
  { by eapply Hcc. }
  { split; try done. intros d z Hz. rewrite Ea in Hz.
    apply lookup_insert_Some in Hz as [[<- <-]|[_ Hz]]; [exact (Hcc c x Hx)|exact (Hcc d z Hz)]. }
  { by rewrite Ea, lookup_insert_eq. } { done. }
  exists w'. rewrite Er, E. split; [done|]. rewrite Ea, insert_insert_eq in Hco. split.
  - split; [done| |by rewrite Hp|done]. intros d z Hz. rewrite Hco in Hz.
    apply lookup_insert_Some in Hz as [[<- <-]|[_ Hz]]; [done|by eapply Hcc].
  - unfold work. rewrite Hco. pose proof (coWeight_put (coroutines w) c x y Hx).
    change (tasks_ w2) with (tasks_ w) in Hw. lia.
Qed.

(** Running a calm function leaves less to do. *)
Lemma calm_func f w :
  LoopInv w -> Calm w -> calm f ->
  exists w', runFunc f w = (Ok tt, w') /\ Calm w' /\ idle w' = idle w /\ (work w' < work w + weight f + 1)%nat.
Proof.
  intros HL1 HCa Hct.
  destruct (claim_run f w HL1) as (c & w2 & E & Hco & _ & _ & _ & _ & Hts & Hp & Hrn & _).
  assert (HCa2 : Calm w2).
  { destruct HCa. split; rewrite ?Hts, ?Hp, ?Hrn; try done. intros d y Hy. rewrite Hco in Hy.
    apply lookup_insert_Some in Hy as [[<- <-]|[_ Hy]]; [done|by eapply cm_contexts0]. }
  destruct (resume_calm c (fresh f) w2 HCa2) as (w3 & E3 & HCa3 & Hw); [by rewrite Hco, lookup_insert_eq|done|].
  destruct (runFunc_ok f w HL1 (prog_ok_calm f Hct)) as (w4 & E4 & _ & _ & _ & Hil & _). exists w4.
  split; [done|].
  assert (H34 : w4 = w3 \/ w4 = setCoFunc None w3).
  { unfold runFunc in E4. rewrite (bind_ok _ _ _ _ _ E), (bind_ok _ _ _ _ _ E3) in E4.
    apply bind_inv in E4 as (y & v & Eg & E4). unfold getCoroutine in Eg.
    destruct (coroutines w3 !! c); [|done]. injection Eg as <- <-.
    destruct (bool_decide _); injection E4 as <-; [by right|by left]. }
  assert (Hww : work w4 = work w3 /\ Calm w4) by (destruct H34 as [-> | ->]; [done|]; split; [done|]; destruct HCa3; by split).
  destruct Hww as [-> ?]. split; [done|]. split; [done|]. unfold work in *.
  assert (Hcw : (coWeight (coroutines w2) <= coWeight (coroutines w) + weight f)%nat).
  { rewrite Hco. destruct (coroutines w !! c) as [z|] eqn:Hz.
    - pose proof (coWeight_put _ c z (fresh f) Hz). cbn [context_ fresh] in *. lia.
    - rewrite coWeight_insert by done. cbn [context_ fresh]. lia. }
  rewrite Hts in Hw. cbn in *. lia.
Qed.

(** A calm turn takes a task and lowers the work, or lets the idle coroutine
    end. *)
Lemma calm_turn w :
  LoopInv w -> Calm w ->
  exists b w', iterate quiet w = (Ok b, w') /\ Calm w'
    /\ (tasks_ w <> [] -> b = true -> (work w' < work w)%nat)
    /\ (tasks_ w = [] -> tasks_ w' = [] /\ (b = false <-> idle w = DONE) /\ (b = true -> idle w' = DONE))
    /\ (b = true -> idle w <> DONE -> idle w' = DONE -> tasks_ w' = []).
Proof.
  intros [HQ HC Hfl Hi Hcf] HCa. unfold iterate. cbn [early quiet addTasks]. rewrite bind_ret.
  assert (Hnr : idle w <> RUNNING) by (intros Hx; rewrite Hx in Hi; by destruct Hi as [|[|]]).
  unfold takeTask. unfold bind at 1. destruct (tasks_ w) as [|t rest] eqn:Et.
  { destruct (calm_idling w HCa Hnr) as (b & w' & E & Hb & HCa' & Ht' & _ & Hd). exists b, w'.
    split; [done|]. split; [done|]. split; [done|]. rewrite Et in *. split; [|done]. intros _.
    split; [done|]. split; [done|]. intros Hbt. by apply Hd. }
  destruct HCa as [Hct Hcc Hl Hr]. rewrite Et in Hct. apply Forall_cons in Hct as [Hct Hcrest].
  set (w1 := popTask t rest w). assert (HCa1 : Calm w1) by (by split).
  destruct t as [c|f].
  - destruct (q_exist w HQ c) as [x Hx]; [rewrite Et; by left|].
    assert (Eg : getCoroutine c w1 = (Ok x, w1)) by (unfold getCoroutine; cbn; by rewrite Hx).
    rewrite (bind_ok _ _ _ _ _ Eg). destruct (finished (state_ x)).
    + destruct (calm_idling w1 HCa1 Hnr) as (b & w' & E & _ & HCa' & Ht' & Hco' & Hd). exists b, w'.
      split; [done|]. split; [done|]. split; [|split; [done|]].
      * intros _ _. unfold work. rewrite Ht', Hco', Et. cbn. lia.
      * intros Hb _ Hdone. rewrite Ht'. by apply Hd.
    + destruct (resume_calm c x w1 HCa1 Hx) as (w' & E & HCa' & Hw).
      { intros Hrun. by apply (c_running _ _ HC c x Hx) in Hrun. }
      destruct (resume_ok c x w1) as (w'' & E' & _ & _ & HK & _); [by apply QInv_pop|by destruct HC; split|done|].
      rewrite E in E'. injection E' as <-.
      exists true, w'. rewrite (bind_ok _ _ _ _ _ E). split; [done|]. split; [done|]. split; [|split; [done|]].
      * intros _ _. unfold work in *. rewrite Et. cbn in *. lia.
      * intros _ Hnd Hdone. by rewrite (kp_idle _ _ HK) in Hdone.
  - cbn [calmTask] in Hct. assert (HL1 : LoopInv w1).
    { split; [by apply QInv_pop|by destruct HC; split|done..]. }
    destruct (calm_func f w1 HL1 HCa1 Hct) as (w' & E & HCa' & Hil & Hw). exists true, w'.
    rewrite (bind_ok _ _ _ _ _ E). split; [done|]. split; [done|]. split; [|split; [done|]].
    + intros _ _. unfold work in *. rewrite Et. cbn in *. lia.
    + intros _ Hnd Hdone. by rewrite Hil in Hdone.
Qed.

Lemma loop_calm n w :
  LoopInv w -> Calm w -> (idle w = DONE -> tasks_ w = []) -> (work w + 2 <= n)%nat ->
  exists w', loop (replicate n quiet) w = (Ok tt, w') /\ LoopInv w' /\ tasks_ w' = [].
Proof.
  revert w. induction n as [|n IH]; intros w HL HCa Hd Hn; [lia|]. cbn [replicate loop].
  destruct (turn_ok w quiet HL (quiet_ok w)) as (b0 & w0 & E0 & HL0 & _ & Hb0).
  destruct (calm_turn w HL HCa) as (b & w1 & E & HCa1 & Hw & Hemp & Hdone).
  rewrite E in E0. injection E0 as <- <-. rewrite (bind_ok _ _ _ _ _ E).
  destruct (tasks_ w) as [|t rest] eqn:Et.
  - destruct (Hemp eq_refl) as (Ht1 & Hb & Hi). destruct b; [|by exists w1].
    destruct n as [|n]; [lia|]. cbn [replicate loop].
    destruct (turn_ok w1 quiet HL0 (quiet_ok w1)) as (b2 & w2 & E2 & HL2 & _).
    destruct (calm_turn w1 HL0 HCa1) as (b3 & w3 & E3 & _ & _ & Hemp3 & _).
    rewrite E3 in E2. injection E2 as <- <-. destruct (Hemp3 Ht1) as (Ht3 & Hb3 & _).
    assert (b3 = false) as -> by (apply Hb3; by apply Hi). rewrite (bind_ok _ _ _ _ _ E3). by exists w3.
  - assert (Hnd : idle w <> DONE) by (by intros ?%Hd).
    destruct b; [|by destruct (Hb0 eq_refl) as [? _]].
    apply IH; [done|done|by apply Hdone|]. specialize (Hw ltac:(done) eq_refl). lia.
Qed.

(** C16: Once [stop] has been called and nothing happens outside the worker
    any more, its loop comes to an end, in a number of turns bounded by the
    work that is left, and every task that was ever added has been taken:
    stopping loses no task. *)
Theorem stop_terminates w :
  LoopInv w -> Calm w -> idle w <> DONE ->
  exists w', loop (replicate (work w + 2) quiet) w = (Ok tt, w') /\ tasks_ w' = [] /\ taken w' = added w'.
Proof.
  intros HL HCa Hd. destruct (loop_calm (work w + 2) w HL HCa) as (w' & E & HL' & Ht); [done|lia|].
  exists w'. split; [done|]. split; [done|]. rewrite (q_log _ (l_queue _ HL')), Ht. by rewrite app_nil_r.
Qed.

(** A finished coroutine in front of the queue sends the worker to sleep
    although other tasks wait behind it: the turn goes through the idle
    coroutine and [epoll_wait], and takes none of them. *)
Theorem finished_task_idles w r c x t rest :
  LoopInv w -> round_ok w r -> early r = [] -> tasks_ w = TaskCo c :: t :: rest ->
  coroutines w !! c = Some x -> finished (state_ x) = true -> idle w <> DONE ->
  exists w', iterate r w = (Ok true, w') /\ idle w' = SUSPEND /\ taken w' = taken w ++ [TaskCo c]
    /\ iterate r w = idling r (popTask (TaskCo c) (t :: rest) w).
Proof.
  intros [HQ HC Hfl Hi Hcf] Hr He Et Hx Hfin Hnd.
  set (w1 := popTask (TaskCo c) (t :: rest) w).
  assert (E : iterate r w = idling r w1).
  { unfold iterate. rewrite He. cbn [addTasks]. rewrite bind_ret. unfold takeTask. unfold bind at 1. rewrite Et.
    assert (Eg : getCoroutine c w1 = (Ok x, w1)) by (unfold getCoroutine; cbn; by rewrite Hx).
    by rewrite (bind_ok _ _ _ _ _ Eg), Hfin. }
  destruct (idling_ok r w1) as (b & w' & E' & _ & Htk & Hb & _ & Hdone);
    [by apply QInv_pop|by destruct HC; split|by destruct Hr; split|done..|].
  exists w'. rewrite E, E'. destruct b; [|by destruct Hnd; apply Hb]. split; [done|].
  destruct (Hdone eq_refl) as [[Hd|Hs] Hiff]; [|by split]. by apply Hiff in Hd as (_ & ? & _).
Qed.

(** ** Suspending and going on *)

(** A coroutine that has suspended with [k] left to run. *)
Definition parked (k : Prog) (x : Coroutine) : Coroutine :=
  {| func_ := func_ x; context_ := k; state_ := SUSPEND |}.

Lemma park_run c k x y :
  coroutines x !! c = Some y -> state_ y = RUNNING ->
  yieldToSuspend c k x = (Ok tt, setCur None (setCoroutines (<[c := parked k y]> (coroutines x)) x)).
Proof.
  intros Hy Hr. unfold yieldToSuspend, yield, updCoroutine.
  assert (Eg : getCoroutine c x = (Ok y, x)) by (unfold getCoroutine; by rewrite Hy).
  rewrite (bind_ok _ _ _ _ _ Eg). unfold assert_, check. rewrite bool_decide_true, bind_ret by done.
  rewrite !bind_modify. unfold modify. cbn [coroutines setCoroutines]. rewrite alter_alter_eq.
  by rewrite (alter_insert_of _ _ y c (parked k y) Hy).
Qed.

(** The worker when the turn that takes coroutine [c] has switched to it. *)
Definition resumed (c : nat) (x : Coroutine) (rest : list Task) (w : Worker) : Worker :=
  setCur (Some c) (setCoroutines (<[c := setState RUNNING x]> (coroutines w)) (popTask (TaskCo c) rest w)).

(** The turn that takes a suspended coroutine runs it. *)
Lemma iterate_resumes r w c x rest :
  early r = [] -> tasks_ w = TaskCo c :: rest -> coroutines w !! c = Some x -> state_ x = SUSPEND ->
  iterate r w = (exec c (context_ x) ;;; ret true) (resumed c x rest w).
Proof.
  intros He Ht Hx Hs. unfold iterate. rewrite He. cbn [addTasks]. rewrite bind_ret.
  unfold takeTask. unfold bind at 1. rewrite Ht. set (w1 := popTask _ _ w).
  assert (Eg : getCoroutine c w1 = (Ok x, w1)) by (unfold getCoroutine; cbn; by rewrite Hx).
  rewrite (bind_ok _ _ _ _ _ Eg), Hs. cbn [finished]. unfold bind at 1.
  rewrite (resume_run c x w1) by (done || by rewrite Hs). done.
Qed.

(** ** Adding a task from another thread

    The worker's thread on its way into [epoll_wait] and a thread that adds
    one task, step by step: taking from the queue and [addTaskNoLock] hold the
    mutex, the other accesses do not. *)
Inductive WorkerAt := AtTop | AtCheck | AtEnter | AtWait.
Inductive AdderAt := Adding (t : Task) | Notifying (needNotify : bool) | Added.

Inductive race : WorkerAt * AdderAt * Worker -> WorkerAt * AdderAt * Worker -> Prop :=
| race_top a w w' : takeTask w = (Ok None, w') -> race (AtTop, a, w) (AtCheck, a, setIdleFlag true w')
| race_check a w w' timeout : canStop timeout w = (Ok false, w') -> race (AtCheck, a, w) (AtEnter, a, w')
| race_enter a w : race (AtEnter, a, w) (AtWait, a, setPoller (setPolling true (poller_ w)) w)
| race_signalled a w : (0 < signals w)%nat ->
    race (AtWait, a, w) (AtTop, a, setIdleFlag false (setPoller (setPolling false (poller_ w)) w))
| race_add p t w b w' : addTaskNoLock t w = (Ok b, w') -> race (p, Adding t, w) (p, Notifying b, w')
| race_notify p b w w' : (if b : bool then notify else ret tt) w = (Ok tt, w') ->
    race (p, Notifying b, w) (p, Added, w').

(** A wakeup can be lost.  A task added after the worker has looked at its
    queue and before it has set [polling_] is queued without a signal: the
    worker blocks in [epoll_wait] with the task in its queue, and neither
    thread can go on before the timeout.  A task added while the worker is
    already polling always signals it. *)
Theorem wakeup_race w f :
  tasks_ w = [] -> signals w = 0%nat -> running_ w = true ->
  (polling_ (poller_ w) = false ->
   exists w', rtc race (AtTop, Adding (TaskFunc f), w) (AtWait, Added, w')
     /\ tasks_ w' = [TaskFunc f] /\ forall s, ~ race (AtWait, Added, w') s)
  /\ (polling_ (poller_ w) = true -> forall a w', rtc race (AtWait, Adding (TaskFunc f), w) (AtWait, a, w') ->
      a = Added -> (0 < signals w')%nat /\ exists s, race (AtWait, a, w') s).
Proof.
  intros Ht Hs Hr. split.
  - intros Hp. set (w1 := pushTask (TaskFunc f) (setIdleFlag true w)).
    exists (setPoller (setPolling true (poller_ w1)) w1). split; [|split; [cbn; by rewrite Ht|]].
    + eapply rtc_l; [apply (race_top _ w w); unfold takeTask; by rewrite Ht|].
      eapply rtc_l; [apply (race_check _ (setIdleFlag true w) (setIdleFlag true w) 0);
        unfold canStop; rewrite bind_gets; unfold id; cbn; by rewrite Hr|].
      eapply rtc_l; [apply (race_add _ _ (setIdleFlag true w) true w1); rewrite addTaskNoLock_spec; cbn; by rewrite Ht|].
      eapply rtc_l; [apply (race_notify _ _ w1 w1); unfold notify; rewrite bind_gets; unfold id, Epoller.notify; cbn;
        by rewrite Hp|].
      eapply rtc_l; [apply race_enter|apply rtc_refl].
    + intros s Hstep. inversion Hstep; subst. cbn in *. lia.
  - intros Hp a w' Hrtc ->. apply rtc_inv in Hrtc as [Hx|(s1 & H1 & Hrtc)]; [done|].
    inversion H1 as [| | |? ? Hsig|? ? ? b w1 Hadd|]; subst; [lia|]. rewrite addTaskNoLock_spec, Ht in Hadd.
    cbn in Hadd. injection Hadd as <- <-.
    apply rtc_inv in Hrtc as [Hx|(s2 & H2 & Hrtc)]; [done|].
    inversion H2 as [| | |? ? Hsig| |? ? ? w2 Hnot]; subst; [cbn in *; lia|].
    unfold notify in Hnot. rewrite bind_gets in Hnot. unfold id, Epoller.notify in Hnot.
    cbn in Hnot. rewrite Hp in Hnot. injection Hnot as <-.
    apply rtc_inv in Hrtc as [Hx|(s3 & H5 & Hrtc)].
    + injection Hx as <-. split; [cbn; lia|]. eexists. apply race_signalled. cbn. lia.
    + inversion H5; subst. apply rtc_inv in Hrtc as [Hx|(s4 & Hs4 & _)]; [done|].
      inversion Hs4 as [? ? ? Htake| | | | |]; subst. unfold takeTask in Htake. cbn in Htake. by rewrite Ht in Htake.
Qed.
End Worker.

(** ** Concrete runs *)

Abbreviation W0 := (newWorker (KE := gmap Z Z) 0%nat (newEpoller ∅)).

(** A fresh poller holds nothing. *)
Lemma new_poller_ok : Shape (poller_ W0) /\ forall x, known (poller_ W0) x -> task_ok x.2.
Proof.
  split; [by apply newEpoller_inv|]. intros x [(f & u & Hf & _ & Hx)|Hx]; [|by inversion Hx].
  by rewrite registered_out in Hx by exact Hf.
Qed.

Lemma W0_inv : LoopInv W0.
Proof.
  destruct new_poller_ok as [Hs Hk]. split; [| |done|by left|done].
  - split; [exact Hs|exact Hk|constructor|by inversion 1|done].
  - by split; [|intros c x Hx..|intros c [x Hx]].
Qed.

(** A function that waits for descriptor 3, adds a function and itself. *)
Definition reader : Prog :=
  AddEvent 3 EPOLLIN None (fun b => if b then YieldToSuspend (AddTask Return (AddSelf (YieldToSuspend Return)))
                                    else Raise).
Definition firstRound : Round :=
  {| early := [TaskFunc reader]; expire := -1; arrivals := []; stops := false; expired := []; ready := [] |}.

Lemma worker_turn_witness :
  exists b w', iterate firstRound W0 = (Ok b, w') /\ LoopInv w' /\ taken w' = [TaskFunc reader]
    /\ registered (poller_ w') 3 EPOLLIN = Some (0%nat, TaskCo 1%nat).
Proof.
  destruct (worker_turn W0 firstRound W0_inv) as (b & w' & E & HL & Ht & _).
  - split; [|done..]. apply Forall_singleton. cbn. split; [lia|]. split; [by left|]. split; [done|]. by intros [].
  - exists b, w'. split; [exact E|]. split; [exact HL|]. split; [exact Ht|].
    assert (w' = snd (iterate firstRound W0)) as -> by (by rewrite E). by vm_compute.
Defined.

(** Three functions in the queue of a worker that has been stopped. *)
Definition W1 : Worker (KE := gmap Z Z) :=
  pushTask (TaskFunc (AddSelf (YieldToSuspend Raise))) (pushTask (TaskFunc (AddTask Return Return))
    (pushTask (TaskFunc Raise) W0)).

Lemma W1_inv : LoopInv W1.
Proof.
  destruct W0_inv as [HQ HC Hf Hi Hc]. split; [|by destruct HC; split|done..].
  unfold W1. apply QInv_push; [apply QInv_push; [apply QInv_push; [done|done|done]|by split|done]|by split|done].
Qed.

Lemma stop_terminates_witness :
  exists w', loop (replicate (work W1 + 2) quiet) W1 = (Ok tt, w') /\ tasks_ w' = [] /\ length (taken w') = 5%nat.
Proof.
  destruct (stop_terminates W1) as (w' & E & Ht & Hl).
  - exact W1_inv.
  - split; [|by intros c x Hx|done|done]. repeat constructor.
  - done.
  - exists w'. split; [exact E|]. split; [exact Ht|].
    assert (w' = snd (loop (replicate (work W1 + 2) quiet) W1)) as -> by (by rewrite E). by vm_compute.
Defined.

(** A finished coroutine queued before a function. *)
Definition W2 : Worker (KE := gmap Z Z) :=
  pushTask (TaskFunc Return) (pushTask (TaskCo 1%nat)
    (allocate {| func_ := None; context_ := Return; state_ := DONE |} W0)).

Lemma finished_task_idles_witness :
  exists w', iterate quiet W2 = (Ok true, w') /\ idle w' = SUSPEND /\ tasks_ w' = [TaskFunc Return].
Proof.
  destruct (finished_task_idles W2 quiet 1%nat {| func_ := None; context_ := Return; state_ := DONE |}
    (TaskFunc Return) []) as (w' & E & Hi & _); try done.
  - destruct new_poller_ok as [Hs Hk]. split; [| |done|by left|done].
    + split; [exact Hs|exact Hk|by repeat constructor| |done]. intros c Hc.
      apply elem_of_cons in Hc as [Hc|Hc]; [injection Hc as ->; by eexists|by apply list_elem_of_singleton in Hc].
    + split; [done|..]; cbn.
      * intros c x Hx. by apply lookup_insert_Some in Hx as [[<- <-]|[_ Hx]].
      * intros c x Hx. by apply lookup_insert_Some in Hx as [[<- <-]|[_ Hx]].
      * intros c Hc. apply lookup_insert_is_Some' in Hc as [<-|[? ?]]; [lia|done].
  - exists w'. split; [exact E|]. split; [exact Hi|].
    assert (w' = snd (iterate quiet W2)) as -> by (by rewrite E). by vm_compute.
Defined.

Lemma wakeup_race_witness :
  exists w', rtc race (AtTop, Adding (TaskFunc Return), setRunning true W0) (AtWait, Added, w')
    /\ tasks_ w' = [TaskFunc Return] /\ forall s, ~ race (AtWait, Added, w') s.
Proof. exact (proj1 (wakeup_race (setRunning true W0) Return eq_refl eq_refl eq_refl) eq_refl). Defined.
