(* ===== verification/Scheduler.v ===== *)
(** * The scheduler (src/reyao/scheduler.cc, scheduler.h, workerthread.cc)

    The workers of all threads, how tasks are dealt out to them, and how
    they are started and stopped.  The workers are those of Worker.v; the
    thread ids the operating system hands out are an argument of [init]. *)

From S2P Require Import Prelude Epoller Worker.

Section Scheduler.
Context {KE : Type} `{Epoll KE}.

Abbreviation Task := (Epoller.Task (C := nat) (F := Prog)).
Abbreviation Worker := (Worker (KE := KE)).

(** [workers] is the memory of the workers; worker 0 is [mainWorker_].
    [joinThreads] counts the calls of [joinThread], [quitLatch_] and
    [initLatch_] are the counts of the latches. *)
Record Scheduler := mkScheduler {
  workers : gmap nat Worker;
  workerMap_ : gmap Z nat;
  workers_ : list nat;
  threads_ : list nat;
  threadNum_ : Z;
  index_ : Z;
  running_ : bool;
  initLatch_ : Z;
  quitLatch_ : Z
}.

Definition mainWorker_ : nat := 0.

Definition setWorkers m s := mkScheduler m (workerMap_ s) (workers_ s) (threads_ s) (threadNum_ s)
  (index_ s) (running_ s) (initLatch_ s) (quitLatch_ s).
Definition setIndex i s := mkScheduler (workers s) (workerMap_ s) (workers_ s) (threads_ s) (threadNum_ s)
  i (running_ s) (initLatch_ s) (quitLatch_ s).
Definition setRunning b s := mkScheduler (workers s) (workerMap_ s) (workers_ s) (threads_ s) (threadNum_ s)
  (index_ s) b (initLatch_ s) (quitLatch_ s).
Definition setInitLatch c s := mkScheduler (workers s) (workerMap_ s) (workers_ s) (threads_ s) (threadNum_ s)
  (index_ s) (running_ s) c (quitLatch_ s).
Definition setQuitLatch c s := mkScheduler (workers s) (workerMap_ s) (workers_ s) (threads_ s) (threadNum_ s)
  (index_ s) (running_ s) (initLatch_ s) c.

(** [CountDownLatch::countDown] on a count. *)
Definition countDown (count : Z) : Z := count - 1.

(** [Scheduler(thread_num)] on the thread [tid], where the poller of each
    worker is [newEpoller k]. *)
Definition newScheduler (k : KE) (thread_num tid : Z) : M Scheduler unit :=
  assert_ (1 <=? thread_num) ;;;
  modify (fun _ =>
    {| workers := {[ mainWorker_ := newWorker mainWorker_ (newEpoller k) ]};
       workerMap_ := {[ tid := mainWorker_ ]};
       workers_ := if thread_num =? 1 then [mainWorker_] else [];
       threads_ := [];
       threadNum_ := if thread_num =? 1 then thread_num else thread_num - 1;
       index_ := 0; running_ := false; initLatch_ := 1; quitLatch_ := 1 |}).

(** One [WorkerThread] of [init], with the id of its thread. *)
Definition addThread (k : KE) (tid : Z) (s : Scheduler) : Scheduler :=
  let id := S (length (threads_ s)) in
  mkScheduler (<[id := newWorker id (newEpoller k)]> (workers s)) (<[tid := id]> (workerMap_ s))
    (workers_ s ++ [id]) (threads_ s ++ [id]) (threadNum_ s) (index_ s) (running_ s)
    (initLatch_ s) (quitLatch_ s).

Fixpoint addThreads (k : KE) (n : nat) (tid : nat -> Z) (s : Scheduler) : Scheduler :=
  match n with
  | O => s
  | S n => addThreads k n (fun i => tid (S i)) (addThread k (tid O) s)
  end.

(** [init] up to the call of [mainWorker_.run()]. *)
Definition init (k : KE) (tid : nat -> Z) : M Scheduler unit :=
  s <-- gets id ;;
  if running_ s then ret tt
  else
    modify (addThreads k (Z.to_nat (threadNum_ s)) tid) ;;;
    modify (setRunning true) ;;;
    modify (fun s => setInitLatch (countDown (initLatch_ s)) s).

(** A call of a method of worker [id]. *)
Definition onWorker {A} (id : nat) (m : M Worker A) : M Scheduler A := fun s =>
  match workers s !! id with
  | Some w => let '(r, w') := m w in (r, setWorkers (<[id := w']> (workers s)) s)
  | None => (Throw Undefined, s)
  end.

(** [workers_.at(index_)], then the next index; [int] division by zero is
    undefined. *)
Definition getNextWorker : M Scheduler nat :=
  s <-- gets id ;;
  w <-- (match workers_ s !! Z.to_nat (index_ s) with
         | Some w => ret w
         | None => throw OutOfRange
         end) ;;
  check (negb (threadNum_ s =? 0)) Undefined ;;;
  modify (setIndex (Z.rem (index_ s + 1) (threadNum_ s))) ;;;
  ret w.

(** [addTask(cf, t)]; an unknown thread is only logged. *)
Definition addTask (cf : Task) (t : Z) : M Scheduler unit :=
  if negb (t =? -1) then
    s <-- gets id ;;
    match workerMap_ s !! t with
    | None => ret tt
    | Some w => onWorker w (Worker.addTask cf)
    end
  else
    w <-- getNextWorker ;; onWorker w (Worker.addTask cf).

Fixpoint addAll (cfs : list Task) : M Scheduler unit :=
  match cfs with
  | [] => ret tt
  | cf :: cfs => addTask cf (-1) ;;; addAll cfs
  end.

Fixpoint forWorkers (ws : list nat) (m : M Worker unit) : M Scheduler unit :=
  match ws with
  | [] => ret tt
  | w :: ws => onWorker w m ;;; forWorkers ws m
  end.

(** [joinThread], once the threads have ended. *)
Definition joinThread : M Scheduler unit := modify (fun s => setQuitLatch (countDown (quitLatch_ s)) s).

(** [stop]; [joinThread] runs here or in a thread of its own. *)
Definition stop : M Scheduler unit :=
  s <-- gets id ;;
  if negb (running_ s) then ret tt
  else
    modify (setRunning false) ;;;
    onWorker mainWorker_ Worker.stop ;;;
    match threads_ s with
    | [] => ret tt
    | _ => forWorkers (workers_ s) Worker.stop ;;; joinThread
    end.

(** [timerInsertAtFront]: wake the idle workers among the threads. *)
Definition notifyIdle : M Worker unit :=
  w <-- gets id ;; if idle_ w then Worker.notify else ret tt.
Definition timerInsertAtFront : M Scheduler unit :=
  s <-- gets id ;; forWorkers (threads_ s) notifyIdle.

(** ** Invariant *)

(** The state after [init]: every id denotes a worker, the first
    [threadNum_] of [workers_] are dealt to, and the index is among them. *)
Record SInv (s : Scheduler) : Prop := {
  s_workers : forall w, w ∈ workers_ s -> is_Some (workers s !! w);
  s_main : is_Some (workers s !! mainWorker_);
  s_threads : forall w, w ∈ threads_ s -> w ∈ workers_ s;
  s_map : forall t w, workerMap_ s !! t = Some w -> is_Some (workers s !! w);
  s_num : 1 <= threadNum_ s <= zlen (workers_ s);
  s_index : 0 <= index_ s < threadNum_ s
}.

(** What creating the threads adds. *)
Lemma addThreads_spec k n tid s :
  let s' := addThreads k n tid s in
  workers_ s' = workers_ s ++ seq (S (length (threads_ s))) n
  /\ threads_ s' = threads_ s ++ seq (S (length (threads_ s))) n
  /\ threadNum_ s' = threadNum_ s /\ index_ s' = index_ s /\ running_ s' = running_ s
  /\ initLatch_ s' = initLatch_ s /\ quitLatch_ s' = quitLatch_ s
  /\ (forall w, w ∈ seq (S (length (threads_ s))) n \/ is_Some (workers s !! w) -> is_Some (workers s' !! w))
  /\ (forall t w, workerMap_ s' !! t = Some w ->
        workerMap_ s !! t = Some w \/ w ∈ seq (S (length (threads_ s))) n).
Proof.
  revert tid s. induction n as [|n IH]; intros tid s; cbn [addThreads seq].
  - rewrite !app_nil_r. split_and!; try done; [intros w [Hw|Hw]; [by inversion Hw|done]|by left].
  - destruct (IH (fun i => tid (S i)) (addThread k (tid O) s)) as (H1 & H2 & H3 & H4 & H5 & H6 & H7 & H8 & H9).
    assert (Hlen : length (threads_ (addThread k (tid O) s)) = S (length (threads_ s)))
      by (cbn; rewrite length_app; cbn; lia).
    rewrite Hlen in *. cbn [workers_ threads_ addThread threadNum_ index_ running_ initLatch_ quitLatch_] in *.
    rewrite H1, H2. split_and!; try done; try by rewrite <- app_assoc.
    + intros w Hw. apply H8. destruct Hw as [Hw|Hw].
      * apply elem_of_cons in Hw as [->|Hw]; [|by left]. right. cbn. rewrite lookup_insert_eq. by eexists.
      * right. cbn. apply lookup_insert_is_Some'. by right.
    + intros t w Hw. destruct (H9 t w Hw) as [Hm|Hs]; [|right; by right]. cbn in Hm.
      apply lookup_insert_Some in Hm as [[_ <-]|[_ Hm]]; [right; by left|by left].
Qed.

Lemma onWorker_run {A} id (m : M Worker A) s w r w' :
  workers s !! id = Some w -> m w = (r, w') ->
  onWorker id m s = (r, setWorkers (<[id := w']> (workers s)) s).
Proof. intros Hw Em. unfold onWorker. by rewrite Hw, Em. Qed.

Lemma SInv_worker s id w : SInv s -> SInv (setWorkers (<[id := w]> (workers s)) s).
Proof.
  intros [H1 H2 H3 H4 H5 H6]. split; cbn; try done.
  - intros v Hv. apply lookup_insert_is_Some'. right. by apply H1.
  - apply lookup_insert_is_Some'. by right.
  - intros t v Hv. apply lookup_insert_is_Some'. right. by eapply H4.
Qed.

(** The worker that the [i]-th next task goes to. *)
Definition nextWorker (s : Scheduler) (i : Z) : nat :=
  default mainWorker_ (workers_ s !! Z.to_nat ((index_ s + i) mod threadNum_ s)).

Lemma getNextWorker_run s :
  SInv s -> exists w, workers_ s !! Z.to_nat (index_ s) = Some w /\ w = nextWorker s 0
    /\ getNextWorker s = (Ok w, setIndex ((index_ s + 1) mod threadNum_ s) s).
Proof.
  intros [_ _ _ _ Hn Hi]. destruct (lookup_lt_is_Some_2 (workers_ s) (Z.to_nat (index_ s))) as [w Hw].
  { unfold zlen in Hn. lia. }
  exists w. split; [done|]. split; [unfold nextWorker; by rewrite Z.add_0_r, Z.mod_small, Hw|].
  unfold getNextWorker. rewrite bind_gets. unfold id. rewrite Hw, bind_ret. unfold check.
  rewrite (proj2 (Z.eqb_neq _ _)) by lia. cbn [negb]. rewrite bind_ret, bind_modify.
  by rewrite Z.rem_mod_nonneg by lia.
Qed.

(** The tasks of [fs] that go to worker [w], the first being the [i]-th. *)
Fixpoint dealt (s : Scheduler) (w : nat) (i : Z) (fs : list Prog) : list Task :=
  match fs with
  | [] => []
  | f :: fs => (if decide (nextWorker s i = w) then [TaskFunc f] else []) ++ dealt s w (i + 1) fs
  end.

Definition tasksOf (s : Scheduler) (w : nat) : list Task :=
  match workers s !! w with Some x => tasks_ x | None => [] end.

Lemma tasksOf_put s id w v :
  tasksOf (setWorkers (<[id := w]> (workers s)) s) v = if decide (id = v) then tasks_ w else tasksOf s v.
Proof.
  unfold tasksOf. cbn. destruct (decide (id = v)) as [->|Hne].
  - by rewrite lookup_insert_eq.
  - by rewrite lookup_insert_ne.
Qed.

Lemma addTask_next s f :
  SInv s ->
  exists s', addTask (TaskFunc f) (-1) s = (Ok tt, s') /\ SInv s' /\ workers_ s' = workers_ s
    /\ threadNum_ s' = threadNum_ s /\ index_ s' = (index_ s + 1) mod threadNum_ s
    /\ forall v, tasksOf s' v = tasksOf s v ++ if decide (nextWorker s 0 = v) then [TaskFunc f] else [].
Proof.
  intros Hs. destruct (getNextWorker_run s Hs) as (w & Hw & Ew & E).
  destruct (s_workers s Hs w) as [x Hx]; [by eapply list_elem_of_lookup_2|].
  destruct (Worker.addTask_run x (TaskFunc f)) as (x' & Ex & _ & _ & _ & Ht). cbn [isTask] in Ht.
  unfold addTask. cbn [Z.eqb negb Pos.eqb]. rewrite (bind_ok _ _ _ _ _ E).
  set (s1 := setIndex _ s).
  rewrite (onWorker_run w _ s1 x (Ok tt) x') by done. eexists. split; [done|].
  assert (Hs1 : SInv s1).
  { destruct Hs as [H1 H2 H3 H4 H5 H6]. split; cbn; try done. apply Z.mod_pos_bound. lia. }
  split; [by apply SInv_worker|]. split_and!; try done. intros v. rewrite tasksOf_put, <- Ew.
  change (tasksOf s1 v) with (tasksOf s v).
  destruct (decide (w = v)) as [<-|]; [|by rewrite app_nil_r]. unfold tasksOf. by rewrite Hx.
Qed.

Lemma nextWorker_shift s s' i :
  workers_ s' = workers_ s -> threadNum_ s' = threadNum_ s -> index_ s' = (index_ s + 1) mod threadNum_ s ->
  nextWorker s' i = nextWorker s (i + 1).
Proof.
  intros Hw Hn Hi. unfold nextWorker. rewrite Hw, Hn, Hi, Zplus_mod_idemp_l. do 4 f_equal. lia.
Qed.

Lemma dealt_shift s s' w i fs :
  (forall i, nextWorker s' i = nextWorker s (i + 1)) -> dealt s' w i fs = dealt s w (i + 1) fs.
Proof. intros H1. revert i. induction fs as [|f fs IH]; intros i; cbn [dealt]; [done|]. by rewrite H1, IH. Qed.

Lemma addAll_dealt fs s :
  SInv s ->
  exists s', addAll (map TaskFunc fs) s = (Ok tt, s') /\ SInv s'
    /\ forall w, tasksOf s' w = tasksOf s w ++ dealt s w 0 fs.
Proof.
  revert s. induction fs as [|f fs IH]; intros s Hs; cbn [map addAll dealt].
  - exists s. split_and!; try done. intros w. by rewrite app_nil_r.
  - destruct (addTask_next s f Hs) as (s1 & E & Hs1 & Hw & Hn & Hi & Ht). rewrite (bind_ok _ _ _ _ _ E).
    destruct (IH s1 Hs1) as (s2 & E2 & Hs2 & Ht2). exists s2. split; [done|]. split; [done|]. intros w.
    rewrite Ht2, Ht, (dealt_shift s s1) by (intros; by apply nextWorker_shift). by rewrite <- app_assoc.
Qed.

(** C24: Tasks added without naming a thread are dealt out in turn: the
    [i]-th goes to worker [(index_ + i) mod threadNum_] of [workers_], behind
    the tasks it has, in the order they were added, and no other queue
    changes; the call never runs out of the vector. *)
Theorem addTask_round_robin fs s :
  SInv s ->
  exists s', addAll (map TaskFunc fs) s = (Ok tt, s') /\ SInv s'
    /\ forall w, tasksOf s' w = tasksOf s w ++ dealt s w 0 fs.
Proof. apply addAll_dealt. Qed.

(** Construction and [init]. *)
Lemma init_run k n t0 tid s0 cf :
  1 <= n < 2 ^ 31 ->
  let m := Z.to_nat (Z.max 1 (n - 1)) in
  exists s1 s, newScheduler k n t0 s0 = (Ok tt, s1) /\ init k tid s1 = (Ok tt, s)
    /\ SInv s /\ running_ s = true /\ initLatch_ s = 0 /\ threads_ s = seq 1 m
    /\ (forall i, if decide (n = 1) then nextWorker s i = mainWorker_ else nextWorker s i ∈ threads_ s)
    /\ (2 <= n -> fst (addTask cf (-1) s1) = Throw OutOfRange).
Proof.
  intros Hn m. unfold newScheduler, assert_, check. rewrite (proj2 (Z.leb_le _ _)) by lia. rewrite bind_ret.
  set (s1 := {| workers := _ |}). eexists s1, _. split; [done|].
  assert (Ei : init k tid s1 = (Ok tt, let s2 := setRunning true (addThreads k (Z.to_nat (threadNum_ s1)) tid s1) in
    setInitLatch (countDown (initLatch_ s2)) s2)) by done.
  split; [exact Ei|]. clear Ei.
  assert (Em : Z.to_nat (threadNum_ s1) = m).
  { unfold m, s1. cbn. destruct (Z.eqb_spec n 1); lia. }
  rewrite Em. destruct (addThreads_spec k m tid s1) as (H1 & H2 & H3 & H4 & H5 & H6 & H7 & H8 & H9).
  set (s2 := addThreads k m tid s1) in *. cbn [threads_ s1 length app] in *.
  assert (Hmain : is_Some (workers s2 !! mainWorker_)).
  { apply H8. right. by exists (newWorker mainWorker_ (newEpoller k)). }
  assert (Hm1 : (1 <= m)%nat) by lia.
  assert (Hz : zlen (workers_ s2) = (if n =? 1 then 1 else 0) + Z.of_nat m).
  { rewrite H1. unfold zlen. rewrite length_app, length_seq. unfold s1. cbn. destruct (n =? 1); cbn; lia. }
  assert (Hnum : threadNum_ s2 = if n =? 1 then 1 else n - 1) by (rewrite H3; unfold s1; cbn; by destruct (Z.eqb_spec n 1)).
  split; [split; cbn|split_and!; try done; cbn].
  - intros w Hw. rewrite H1 in Hw. apply H8. apply elem_of_app in Hw as [Hw|Hw]; [|by left]. right.
    unfold s1 in Hw |- *. cbn in *. destruct (n =? 1); [|by inversion Hw].
    apply list_elem_of_singleton in Hw as ->. by eexists.
  - done.
  - intros w Hw. rewrite H2 in Hw. rewrite H1. apply elem_of_app. by right.
  - intros t w Hw. destruct (H9 t w Hw) as [Hm|Hs]; [|apply H8; by left]. unfold s1 in Hm. cbn in Hm.
    apply lookup_singleton_Some in Hm as [_ <-]. done.
  - rewrite Hz, Hnum. destruct (Z.eqb_spec n 1); lia.
  - rewrite H4, Hnum. cbn. destruct (Z.eqb_spec n 1); lia.
  - by rewrite H6.
  - intros i. unfold nextWorker. cbn. rewrite H1, H2, H4, Hnum. unfold s1. cbn.
    destruct (Z.eqb_spec n 1) as [->|Hne].
    + rewrite decide_True, Z.mod_1_r by done. done.
    + rewrite decide_False by done. cbn [app].
      rewrite ?Z.add_0_l. pose proof (Z.mod_pos_bound i (n - 1) ltac:(lia)) as Hb.
      set (j := Z.to_nat _). assert (Hj : (j < m)%nat) by (unfold j, m; lia).
      rewrite (proj2 (lookup_seq 1 m j (S j))) by lia.
      apply elem_of_seq. cbn. lia.
  - intros Hn2. unfold addTask. cbn [Z.eqb negb Pos.eqb]. unfold getNextWorker, s1. unfold bind at 1.
    rewrite bind_gets. unfold id. cbn. by rewrite (proj2 (Z.eqb_neq n 1)) by lia.
Qed.

(** What [Scheduler(n)] and [init] set up.  With [n >= 2] threads the
    tasks go to the [n - 1] created threads and never to the main worker; with
    [n = 1] one more thread is created all the same, and all tasks go to the
    main worker.  Before [init] a scheduler of several threads has no worker
    to give a task to: [addTask] throws. *)
Theorem init_layout k n t0 tid s0 cf :
  1 <= n < 2 ^ 31 ->
  let m := Z.to_nat (Z.max 1 (n - 1)) in
  exists s1 s, newScheduler k n t0 s0 = (Ok tt, s1) /\ init k tid s1 = (Ok tt, s)
    /\ SInv s /\ running_ s = true /\ initLatch_ s = 0 /\ threads_ s = seq 1 m
    /\ (forall i, if decide (n = 1) then nextWorker s i = mainWorker_ else nextWorker s i ∈ threads_ s)
    /\ (2 <= n -> fst (addTask cf (-1) s1) = Throw OutOfRange).
Proof. apply init_run. Qed.

(** ** Stopping *)

Lemma stop_run (w : Worker) :
  exists w', Worker.stop w = (Ok tt, w') /\ Worker.running_ w' = false /\ tasks_ w' = tasks_ w.
Proof.
  unfold Worker.stop. rewrite bind_modify. unfold Worker.notify. rewrite bind_gets. unfold id.
  destruct (Epoller.notify _); eexists; split; done.
Qed.

Definition stopped (s : Scheduler) (w : nat) : Prop :=
  exists x, workers s !! w = Some x /\ Worker.running_ x = false.

Lemma stop_worker id s :
  is_Some (workers s !! id) ->
  exists x, onWorker id Worker.stop s = (Ok tt, setWorkers (<[id := x]> (workers s)) s)
    /\ Worker.running_ x = false /\ tasks_ x = tasksOf s id.
Proof.
  intros [w Hw]. destruct (stop_run w) as (x & E & Hr & Ht). exists x.
  rewrite (onWorker_run id _ s w (Ok tt) x Hw E). split; [done|]. split; [done|]. unfold tasksOf. by rewrite Hw.
Qed.

Lemma stopped_put s id x v :
  Worker.running_ x = false -> v = id \/ stopped s v -> stopped (setWorkers (<[id := x]> (workers s)) s) v.
Proof.
  intros Hr Hv. unfold stopped. cbn. destruct (decide (id = v)) as [<-|Hne].
  - rewrite lookup_insert_eq. by exists x.
  - rewrite lookup_insert_ne by done. by destruct Hv as [->|Hv].
Qed.

Lemma stop_workers ws s :
  (forall w, w ∈ ws -> is_Some (workers s !! w)) ->
  exists m, forWorkers ws Worker.stop s = (Ok tt, setWorkers m s)
    /\ (forall w, w ∈ ws \/ stopped s w -> stopped (setWorkers m s) w)
    /\ (forall w, tasksOf (setWorkers m s) w = tasksOf s w).
Proof.
  revert s. induction ws as [|w ws IH]; intros s Hws; cbn [forWorkers].
  - exists (workers s). split; [by destruct s|]. split; [|done]. intros w [Hw|Hw]; [by inversion Hw|done].
  - destruct (stop_worker w s) as (x & E & Hr & Ht); [apply Hws; by left|]. rewrite (bind_ok _ _ _ _ _ E).
    set (s1 := setWorkers _ s). destruct (IH s1) as (m & E1 & Hst & Ht1).
    { intros v Hv. apply lookup_insert_is_Some'. right. apply Hws. by right. }
    exists m. split; [done|]. split.
    + intros v Hv. apply Hst. destruct Hv as [Hv|Hv].
      * apply elem_of_cons in Hv as [->|Hv]; [|by left]. right. apply stopped_put; [done|by left].
      * right. apply stopped_put; [done|by right].
    + intros v. rewrite Ht1. unfold s1. rewrite tasksOf_put. by destruct (decide (w = v)) as [<-|].
Qed.

(** [stop] reaches every worker: after it the main worker and all workers
    of the threads have their [running_] cleared, no queue has lost a task, the
    quit latch is open, and calling it again does nothing. *)
Theorem stop_reaches_all s :
  SInv s -> running_ s = true -> threads_ s <> [] -> quitLatch_ s = 1 ->
  exists s', stop s = (Ok tt, s') /\ running_ s' = false /\ quitLatch_ s' = 0
    /\ (forall w, w = mainWorker_ \/ w ∈ workers_ s -> stopped s' w)
    /\ (forall w, tasksOf s' w = tasksOf s w)
    /\ stop s' = (Ok tt, s').
Proof.
  intros Hs Hr Ht Hq. unfold stop at 1. rewrite bind_gets. unfold id. rewrite Hr. cbn [negb]. rewrite bind_modify.
  destruct (stop_worker mainWorker_ (setRunning false s) (s_main s Hs)) as (x & E & Hx & Htx).
  rewrite (bind_ok _ _ _ _ _ E). set (s1 := setWorkers _ _).
  destruct (stop_workers (workers_ s) s1) as (m & E1 & Hst & Ht1).
  { intros w Hw. apply lookup_insert_is_Some'. right. by apply (s_workers s Hs). }
  assert (Em : (match threads_ s with [] => ret tt | _ => forWorkers (workers_ s) Worker.stop ;;; joinThread end) s1
    = (Ok tt, setQuitLatch (countDown (quitLatch_ s)) (setWorkers m s1))).
  { destruct (threads_ s); [done|]. by rewrite (bind_ok _ _ _ _ _ E1). }
  eexists. split; [exact Em|]. split; [done|]. split; [cbn; by rewrite Hq|]. split; [|split].
  - intros w Hw. change (stopped (setWorkers m s1) w). apply Hst. destruct Hw as [->|Hw]; [right|by left].
    apply stopped_put; [done|by left].
  - intros w. change (tasksOf (setWorkers m s1) w = tasksOf s w). rewrite Ht1. unfold s1.
    rewrite tasksOf_put. by destruct (decide (mainWorker_ = w)) as [<-|].
  - done.
Qed.
End Scheduler.

Abbreviation S0 := (mkScheduler (KE := gmap Z Z) ∅ ∅ [] [] 0 0 false 0 0).

(** Four threads: three workers. *)
Definition four : Scheduler (KE := gmap Z Z) :=
  snd (init ∅ (fun i => 101 + Z.of_nat i) (snd (newScheduler ∅ 4 100 S0))).

Lemma four_inv : SInv four.
Proof.
  destruct (init_run (∅ : gmap Z Z) 4 100 (fun i => 101 + Z.of_nat i) S0 (TaskFunc Return)) as (s1 & s & E1 & E2 & Hs & _).
  { lia. } unfold four. rewrite E1. cbn [snd]. by rewrite E2.
Qed.

Lemma addTask_round_robin_witness :
  exists s', addAll (map TaskFunc [Return; Raise; Return; AddSelf Return]) four = (Ok tt, s')
    /\ tasksOf s' 1 = [TaskFunc Return; TaskFunc (AddSelf Return)] /\ tasksOf s' 2 = [TaskFunc Raise]
    /\ tasksOf s' 0 = [].
Proof.
  destruct (addTask_round_robin [Return; Raise; Return; AddSelf Return] four four_inv) as (s' & E & _ & Ht).
  exists s'. split; [exact E|]. rewrite !Ht. split_and!; by vm_compute.
Defined.

Lemma init_layout_witness :
  exists s1, newScheduler (∅ : gmap Z Z) 1 100 S0 = (Ok tt, s1)
    /\ exists s, init ∅ (fun i => 101 + Z.of_nat i) s1 = (Ok tt, s)
    /\ threads_ s = [1%nat] /\ forall i, nextWorker s i = mainWorker_.
Proof.
  destruct (init_layout (∅ : gmap Z Z) 1 100 (fun i => 101 + Z.of_nat i) S0 (TaskFunc Return))
    as (s1 & s & E1 & E2 & _ & _ & _ & Ht & Hn & _); [lia|].
  exists s1. split; [exact E1|]. exists s. split; [exact E2|]. split; [exact Ht|exact Hn].
Defined.

Lemma stop_reaches_all_witness :
  exists s', stop four = (Ok tt, s') /\ stopped s' 3 /\ quitLatch_ s' = 0.
Proof.
  destruct (stop_reaches_all four four_inv) as (s' & E & _ & Hq & Hst & _); [done|done|done|].
  exists s'. split; [exact E|]. split; [apply Hst; right; vm_compute; by repeat constructor|exact Hq].
Defined.
