(* ===== verification/Condition.v ===== *)
(** * Coroutine conditions (src/reyao/coroutine.cc, coroutine.h)

    [CoroutineCondition] over the workers of Scheduler.v: a coroutine stores
    itself and its worker and suspends; a notification, which may come from
    any thread, gives the coroutine back to that worker.  [wait] is three
    steps, because nothing keeps a notification from running between them. *)

From S2P Require Import Prelude Epoller Worker Scheduler.

Section Condition.
Context {KE : Type} `{Epoll KE}.

Abbreviation Worker := (Worker.Worker (KE := KE)).
Abbreviation Scheduler := (Scheduler.Scheduler (KE := KE)).

(** [None] is the null pointer. *)
Record CoroutineCondition := { worker_ : option nat; co_ : option nat }.

Definition newCondition : CoroutineCondition := {| worker_ := None; co_ := None |}.

Record State := { cond : CoroutineCondition; sche : Scheduler }.

Definition setCond x s : State := {| cond := x; sche := sche s |}.
Definition setSche x s : State := {| cond := cond s; sche := x |}.

Definition onSche {A} (m : M Scheduler A) : M State A := zoom sche setSche m.

(** The steps of [wait], called by coroutine [c] of worker [w] with [k] left
    to run. *)
Definition storeWorker (w : nat) : M State unit :=
  modify (fun s => setCond {| worker_ := Some w; co_ := co_ (cond s) |} s).
Definition storeCo (c : nat) : M State unit :=
  modify (fun s => setCond {| worker_ := worker_ (cond s); co_ := Some c |} s).
Definition suspend (w c : nat) (k : Prog) : M State unit := onSche (onWorker w (yieldToSuspend c k)).

Definition wait (w c : nat) (k : Prog) : M State unit :=
  storeWorker w ;;; storeCo c ;;; suspend w c k.

(** [notify]; the call on a null worker is undefined, and an id without an
    object stands for a null coroutine (ids start at 1). *)
Definition notify : M State unit :=
  x <-- gets cond ;;
  match worker_ x with
  | None => throw Undefined
  | Some w => onSche (onWorker w (Worker.addTask (TaskCo (default 0%nat (co_ x)))))
  end.

(** ** What the steps do to the worker *)

Lemma onSche_worker (m : M Worker unit) s w x x' :
  workers (sche s) !! w = Some x -> m x = (Ok tt, x') ->
  onSche (onWorker w m) s = (Ok tt, setSche (setWorkers (<[w := x']> (workers (sche s))) (sche s)) s).
Proof.
  intros Hx E. unfold onSche, zoom. by rewrite (onWorker_run w m (sche s) x (Ok tt) x' Hx E).
Qed.

(** [addTask] of a coroutine that exists, up to the signal. *)
Lemma wake_run c (x : Worker) :
  exists x', Worker.addTask (TaskCo c) x = (Ok tt, x') /\ Same x x' /\ Worker.running_ x' = Worker.running_ x
    /\ tasks_ x' = if bool_decide (is_Some (coroutines x !! c)) then tasks_ x ++ [TaskCo c] else tasks_ x.
Proof. destruct (addTask_run x (TaskCo c)) as (x' & E & HS & _ & Hr & Ht). by exists x'. Qed.

(** The state of a waiter that has been woken, whichever came first. *)
Record Woken (w c : nat) (k : Prog) (s s' : State) (x : Worker) (y : Coroutine) : Prop := {
  wk_worker : exists x', workers (sche s') !! w = Some x' /\ cur x' = None
    /\ coroutines x' = <[c := parked k y]> (coroutines x)
    /\ tasks_ x' = tasks_ x ++ [TaskCo c];
  wk_others : forall v, v <> w -> workers (sche s') !! v = workers (sche s) !! v
}.

Lemma waited_first w c k s x y :
  workers (sche s) !! w = Some x -> coroutines x !! c = Some y -> state_ y = RUNNING ->
  exists s', (wait w c k ;;; notify) s = (Ok tt, s') /\ Woken w c k s s' x y.
Proof.
  intros Hx Hy Hr. set (s1 := setCond {| worker_ := Some w; co_ := Some c |} s).
  set (x1 := setCur None (setCoroutines (<[c := parked k y]> (coroutines x)) x)).
  set (s2 := setSche (setWorkers (<[w := x1]> (workers (sche s))) (sche s)) s1).
  assert (Ew : wait w c k s = (Ok tt, s2)).
  { unfold wait, storeWorker, storeCo. rewrite !bind_modify.
    exact (onSche_worker (yieldToSuspend c k) s1 w x x1 Hx (park_run c k x y Hy Hr)). }
  rewrite (bind_ok _ _ _ _ _ Ew). destruct (wake_run c x1) as (x2 & E & [] & _ & Ht).
  assert (Hx1 : workers (sche s2) !! w = Some x1) by (cbn; by rewrite lookup_insert_eq).
  unfold notify. rewrite bind_gets. cbn [cond s2 s1 setSche setCond worker_ co_ default].
  eexists. split; [exact (onSche_worker _ s2 w x1 x2 Hx1 E)|]. split.
  - exists x2. cbn. rewrite lookup_insert_eq, Ht. split_and!; try done.
    cbn. rewrite lookup_insert_eq. by rewrite bool_decide_true by (by eexists).
  - intros v Hv. cbn. by rewrite !lookup_insert_ne.
Qed.

Lemma notified_first w c k s x y :
  workers (sche s) !! w = Some x -> coroutines x !! c = Some y -> state_ y = RUNNING ->
  exists s', (storeWorker w ;;; storeCo c ;;; notify ;;; suspend w c k) s = (Ok tt, s') /\ Woken w c k s s' x y.
Proof.
  intros Hx Hy Hr. set (s1 := setCond {| worker_ := Some w; co_ := Some c |} s).
  destruct (wake_run c x) as (x1 & E & [] & _ & Ht).
  rewrite bool_decide_true in Ht by (by eexists).
  set (s2 := setSche (setWorkers (<[w := x1]> (workers (sche s))) (sche s)) s1).
  assert (En : notify s1 = (Ok tt, s2)).
  { unfold notify. rewrite bind_gets. cbn [cond s1 setCond worker_ co_ default]. exact (onSche_worker _ s1 w x x1 Hx E). }
  unfold storeWorker, storeCo. rewrite !bind_modify.
  change (setCond _ (setCond _ s)) with s1. rewrite (bind_ok _ _ _ _ _ En).
  assert (Hx1 : workers (sche s2) !! w = Some x1) by (cbn; by rewrite lookup_insert_eq).
  rewrite <- sm_coroutines in Hy.
  eexists. split; [exact (onSche_worker _ s2 w x1 _ Hx1 (park_run c k x1 y Hy Hr))|]. split.
  - eexists. cbn. rewrite lookup_insert_eq. split; [done|]. cbn. split_and!; try done. by rewrite sm_coroutines.
  - intros v Hv. cbn. by rewrite !lookup_insert_ne.
Qed.

(** C28: A waiter that has stored itself is not lost.  Whether the
    notification runs before or after the coroutine suspends, the coroutine
    ends up suspended at the end of its [wait], behind the tasks its worker
    had, and no other worker changes; and the turn of that worker which takes
    it goes on with what follows [wait]. *)
Theorem condition_wakes w c k s x y :
  workers (sche s) !! w = Some x -> coroutines x !! c = Some y -> state_ y = RUNNING ->
  (exists s', (wait w c k ;;; notify) s = (Ok tt, s') /\ Woken w c k s s' x y)
  /\ (exists s', (storeWorker w ;;; storeCo c ;;; notify ;;; suspend w c k) s = (Ok tt, s') /\ Woken w c k s s' x y)
  /\ forall (v : Worker) rest r, early r = [] -> tasks_ v = TaskCo c :: rest -> coroutines v !! c = Some (parked k y) ->
       iterate r v = (exec c k ;;; ret true) (resumed c (parked k y) rest v).
Proof.
  intros Hx Hy Hr. split; [by eapply waited_first|]. split; [by eapply notified_first|].
  intros v rest r He Ht Hv. by apply (iterate_resumes r v c (parked k y) rest).
Qed.

(** A notification that comes too early is undefined or lost.  Before the
    first [wait] it is a call on a null worker; between the two stores of the
    first [wait] it queues nothing, and the coroutine then suspends with
    nobody to wake it. *)
Theorem early_notify_lost w c k s x y :
  cond s = newCondition -> workers (sche s) !! w = Some x -> coroutines x !! c = Some y -> state_ y = RUNNING ->
  coroutines x !! 0%nat = None ->
  fst (notify s) = Throw Undefined
  /\ exists s' x', (storeWorker w ;;; notify ;;; storeCo c ;;; suspend w c k) s = (Ok tt, s')
       /\ workers (sche s') !! w = Some x' /\ tasks_ x' = tasks_ x
       /\ coroutines x' !! c = Some (parked k y).
Proof.
  intros Hc Hx Hy Hr H0. split; [unfold notify; rewrite bind_gets, Hc; done|].
  unfold storeWorker, storeCo. rewrite bind_modify, Hc. cbn [newCondition co_].
  set (s1 := setCond {| worker_ := Some w; co_ := None |} s).
  destruct (wake_run 0 x) as (x1 & E & [] & _ & Ht). rewrite H0, bool_decide_false in Ht by (by intros []).
  set (s2 := setSche (setWorkers (<[w := x1]> (workers (sche s))) (sche s)) s1).
  assert (En : notify s1 = (Ok tt, s2)).
  { unfold notify. rewrite bind_gets. cbn [cond s1 setCond worker_ co_ default]. exact (onSche_worker _ s1 w x x1 Hx E). }
  rewrite (bind_ok _ _ _ _ _ En), bind_modify. set (s3 := setCond _ s2).
  assert (Hx1 : workers (sche s3) !! w = Some x1) by (cbn; by rewrite lookup_insert_eq).
  rewrite <- sm_coroutines in Hy.
  do 2 eexists. split; [exact (onSche_worker _ s3 w x1 _ Hx1 (park_run c k x1 y Hy Hr))|].
  cbn. rewrite lookup_insert_eq. split; [done|]. cbn. split; [done|]. by rewrite lookup_insert_eq.
Qed.
End Condition.

(** Worker 1 of four, whose coroutine 1 runs. *)
Definition waiting : State (KE := gmap Z Z) :=
  let x := newWorker 1%nat (newEpoller ∅) in
  {| cond := newCondition;
     sche := setWorkers (<[1%nat := setCur (Some 1%nat) (allocate {| func_ := Some Raise; context_ := Raise; state_ := RUNNING |} x)]>
       (workers four)) four |}.

Lemma condition_wakes_witness :
  exists s', (wait 1 1 Return ;;; notify) waiting = (Ok tt, s') /\ tasksOf (sche s') 1 = [TaskCo 1%nat].
Proof.
  destruct (condition_wakes 1 1 Return waiting
    (setCur (Some 1%nat) (allocate {| func_ := Some Raise; context_ := Raise; state_ := RUNNING |} (newWorker 1%nat (newEpoller ∅))))
    {| func_ := Some Raise; context_ := Raise; state_ := RUNNING |}) as ((s' & E & [(x & Hx & _ & _ & Ht) _]) & _).
  - vm_compute. reflexivity.
  - vm_compute. reflexivity.
  - reflexivity.
  - exists s'. split; [exact E|]. unfold tasksOf. rewrite Hx. exact Ht.
Defined.

Lemma early_notify_lost_witness :
  fst (notify waiting) = Throw Undefined.
Proof.
  destruct (early_notify_lost 1 1 Return waiting
    (setCur (Some 1%nat) (allocate {| func_ := Some Raise; context_ := Raise; state_ := RUNNING |} (newWorker 1%nat (newEpoller ∅))))
    {| func_ := Some Raise; context_ := Raise; state_ := RUNNING |}) as (E & _).
  - reflexivity.
  - vm_compute. reflexivity.
  - vm_compute. reflexivity.
  - reflexivity.
  - vm_compute. reflexivity.
  - exact E.
Defined.
