(* ===== verification/AsyncLog.v ===== *)
(** * The asynchronous log (src/reyao/fixedbuffer.h, asynclog.h, asynclog.cc)

    Buffers of fixed size, the log file that rolls over, and the front end
    and the back-end thread that hand buffers to each other.  The front end's
    [append] and the thread's critical section hold the mutex; the model
    interleaves them with the other steps of the thread in every order. *)

From S2P Require Import Prelude.

(** ** FixedBuffer *)

(** [data_] has [SIZE] bytes of which the first [pos_] are used. *)
Record FixedBuffer := { data_ : bytes; pos_ : Z }.

Section Fixed.
Variable SIZE : Z.

Definition newBuffer : FixedBuffer := {| data_ := replicate (Z.to_nat SIZE) zeroc; pos_ := 0 |}.

Definition bufferAppend (data : bytes) (b : FixedBuffer) : FixedBuffer :=
  if zlen data <=? u64 (SIZE - pos_ b)
  then {| data_ := memput (pos_ b) data (data_ b); pos_ := pos_ b + zlen data |} else b.

Definition avail (b : FixedBuffer) : Z := u64 (SIZE - pos_ b).
Definition size (b : FixedBuffer) : Z := pos_ b.
Definition resetBuffer (b : FixedBuffer) : FixedBuffer := {| data_ := data_ b; pos_ := 0 |}.

(** The bytes [data()] .. [data() + size()]. *)
Definition content (b : FixedBuffer) : bytes := slice 0 (pos_ b) (data_ b).

Record BufferOk (b : FixedBuffer) : Prop := {
  b_size : zlen (data_ b) = SIZE;
  b_pos : 0 <= pos_ b <= SIZE
}.

Hypothesis SIZE_range : 0 <= SIZE < 2 ^ 64.

Lemma newBuffer_ok : BufferOk newBuffer.
Proof. pose proof SIZE_range. split; cbn; [|lia]. unfold zlen. rewrite length_replicate. lia. Qed.

Lemma resetBuffer_ok b : BufferOk b -> BufferOk (resetBuffer b) /\ content (resetBuffer b) = [].
Proof. pose proof SIZE_range. intros [Hs Hp]. split; [split; cbn; [done|lia]|apply slice_empty]. Qed.

Lemma avail_ok b : BufferOk b -> avail b = SIZE - pos_ b.
Proof. pose proof SIZE_range. intros [Hs Hp]. unfold avail. apply wrap_small. lia. Qed.

(** What fits is appended, what does not fit is ignored. *)
Lemma bufferAppend_spec b d :
  BufferOk b ->
  BufferOk (bufferAppend d b)
  /\ content (bufferAppend d b) = content b ++ if zlen d <=? SIZE - pos_ b then d else [].
Proof.
  pose proof SIZE_range. intros Hb. unfold bufferAppend. fold (avail b). rewrite (avail_ok b Hb). destruct Hb as [Hs Hp].
  destruct (Z.leb_spec (zlen d) (SIZE - pos_ b)) as [Hle|]; [|by rewrite app_nil_r].
  pose proof (zlen_nonneg d) as Hd. split.
  - split; cbn; [|lia]. by rewrite zlen_memput by lia.
  - unfold content. cbn [data_ pos_]. rewrite (slice_app 0 (pos_ b)) by lia. f_equal.
    + apply slice_memput_before; lia.
    + apply slice_memput_at. lia.
Qed.
End Fixed.

(** ** LogFile *)

Definition kBufferSize : Z := 4096.
Definition kRollPerSeconds : Z := 24 * 60 * 60.
Definition kFlushInterval : Z := 3.
Definition kCheckRollPerN : Z := 1024.
Definition kMaxFileSize : Z := 64 * 1024 * 1024.

Section LogFile.
(** [strftime] of the local time: the name of a file opened at a time. *)
Variable getFileName : Z -> string.

(** [written] lists what went to which file, oldest first: the last entry is
    the open file.  Opening a name again appends to the same file. *)
Record LogFile := {
  count_ : Z;
  writed_ : Z;
  lastFlush_ : Z;
  lastRoll_ : Z;
  written : list (string * bytes)
}.

(** The value of [time(NULL)] is an argument wherever it is asked for. *)
Definition rollFile (now : Z) (f : LogFile) : LogFile :=
  {| count_ := 0; writed_ := 0; lastFlush_ := now; lastRoll_ := now;
     written := written f ++ [(getFileName now, [])] |}.

Definition newLogFile (now : Z) : LogFile :=
  rollFile now {| count_ := 0; writed_ := 0; lastFlush_ := 0; lastRoll_ := 0; written := [] |}.

Fixpoint appendLast (d : bytes) (l : list (string * bytes)) : list (string * bytes) :=
  match l with
  | [] => []
  | [(n, b)] => [(n, b ++ d)]
  | x :: l => x :: appendLast d l
  end.

(** What the C library answers during one [append]: [at_roll] is the time
    when the size makes it roll, [at_check] the time of the check after
    [kCheckRollPerN] appends, [at_day] that of the roll there, [taken] how
    many bytes each [fwrite_unlocked] takes (0 is an error, and past the end
    of the list everything that is left is taken). *)
Record Answers := { at_roll : Z; at_check : Z; at_day : Z; taken : list nat }.

(** The loop of [write]: what reaches the stream. *)
Fixpoint writeLoop (ns : list nat) (left : bytes) : bytes :=
  match left, ns with
  | [], _ => []
  | _, [] => left
  | _, n :: ns => if (n =? 0)%nat then [] else take n left ++ writeLoop ns (drop n left)
  end.

Definition writeFile (ns : list nat) (d : bytes) (f : LogFile) : LogFile :=
  {| count_ := count_ f; writed_ := writed_ f; lastFlush_ := lastFlush_ f; lastRoll_ := lastRoll_ f;
     written := appendLast (writeLoop ns d) (written f) |}.

Definition appendFile (e : Answers) (d : bytes) (f : LogFile) : LogFile :=
  let f := if kMaxFileSize <? u64 (writed_ f + zlen d) then rollFile (at_roll e) f else f in
  let f := writeFile (taken e) d f in
  let f := {| count_ := u64 (count_ f + 1); writed_ := u64 (writed_ f + zlen d); lastFlush_ := lastFlush_ f;
              lastRoll_ := lastRoll_ f; written := written f |} in
  if kCheckRollPerN <=? count_ f then
    let now := at_check e in
    let day := now `quot` kRollPerSeconds * kRollPerSeconds in
    let f := if lastRoll_ f <? day then rollFile (at_day e) f
             else if kFlushInterval <? now - lastFlush_ f
             then {| count_ := count_ f; writed_ := writed_ f; lastFlush_ := now; lastRoll_ := lastRoll_ f;
                     written := written f |}
             else f in
    {| count_ := 0; writed_ := writed_ f; lastFlush_ := lastFlush_ f; lastRoll_ := lastRoll_ f;
       written := written f |}
  else f.

Definition allBytes (f : LogFile) : bytes := List.concat (map snd (written f)).
Definition openBytes (f : LogFile) : bytes := match last (written f) with Some (_, b) => b | None => [] end.

(** What is in the file of a name: all that was written to it, whenever it was
    open. *)
Definition fileOf (name : string) (l : list (string * bytes)) : bytes :=
  List.concat (map snd (filter (fun x => x.1 = name) l)).

(** Some file is open, nothing longer than [writed_] says was written to it
    since it was opened, and no more than the limit between any two openings. *)
Record FileOk (f : LogFile) : Prop := {
  f_open : written f <> [];
  f_size : zlen (openBytes f) <= writed_ f;
  f_limit : writed_ f <= kMaxFileSize;
  f_count : 0 <= count_ f < kCheckRollPerN;
  f_files : Forall (fun x => zlen (snd x) <= kMaxFileSize) (written f)
}.

(** The stream takes at least one byte each time it is asked. *)
Definition healthy (e : Answers) : Prop := Forall (fun n => n <> 0%nat) (taken e).

Lemma writeLoop_prefix ns d : writeLoop ns d `prefix_of` d.
Proof.
  revert d. induction ns as [|n ns IH]; intros [|x d]; try done; cbn [writeLoop].
  destruct (Nat.eqb_spec n 0); [apply prefix_nil|].
  rewrite <- (take_drop n (x :: d)) at 3. by apply prefix_app.
Qed.

Lemma writeLoop_all ns d : Forall (fun n => n <> 0%nat) ns -> writeLoop ns d = d.
Proof.
  intros H. revert d. induction H as [|n ns Hn _ IH]; intros [|x d]; try done; cbn [writeLoop].
  destruct (Nat.eqb_spec n 0); [done|]. by rewrite IH, take_drop.
Qed.

Lemma appendLast_bytes d l : l <> [] -> List.concat (map snd (appendLast d l)) = List.concat (map snd l) ++ d.
Proof.
  induction l as [|[n b] l IH]; intros Hl; [done|]. destruct l as [|y l].
  - cbn. by rewrite !app_nil_r.
  - change (appendLast d ((n, b) :: y :: l)) with ((n, b) :: appendLast d (y :: l)).
    cbn [map List.concat snd]. rewrite IH by done. cbn [map List.concat snd]. by rewrite !app_assoc.
Qed.

Lemma appendLast_last d l : 
  last (appendLast d l) = match last l with Some (n, b) => Some (n, b ++ d) | None => None end.
Proof.
  induction l as [|[n b] l IH]; [done|]. destruct l as [|y l]; [done|].
  change (appendLast d ((n, b) :: y :: l)) with ((n, b) :: appendLast d (y :: l)).
  assert (Hne : exists z k, appendLast d (y :: l) = z :: k) by (destruct y, l; cbn; eauto).
  destruct Hne as (z & k & E). rewrite E in *. rewrite !last_cons_cons. exact IH.
Qed.

Lemma appendLast_nonempty d l : l <> [] -> appendLast d l <> [].
Proof. destruct l as [|[n b] [|y l]]; done. Qed.

Lemma appendLast_files d l x :
  last l = Some x -> Forall (fun y => zlen (snd y) <= kMaxFileSize) l -> zlen (snd x) + zlen d <= kMaxFileSize ->
  Forall (fun y => zlen (snd y) <= kMaxFileSize) (appendLast d l).
Proof.
  induction l as [|[n b] l IH]; intros Hl Hf Hd; [done|]. apply Forall_cons in Hf as [Hb Hf].
  destruct l as [|y l].
  - injection Hl as <-. apply Forall_cons. split; [by cbn; rewrite zlen_app|done].
  - change (appendLast d ((n, b) :: y :: l)) with ((n, b) :: appendLast d (y :: l)).
    rewrite last_cons_cons in Hl. apply Forall_cons. split; [done|by apply IH].
Qed.

Lemma rollFile_ok now f :
  Forall (fun x => zlen (snd x) <= kMaxFileSize) (written f) ->
  FileOk (rollFile now f) /\ allBytes (rollFile now f) = allBytes f.
Proof.
  intros Hf. split.
  - split; cbn; [by destruct (written f)|by unfold openBytes; cbn; rewrite last_snoc|done|done|].
    apply Forall_app. split; [done|]. by apply Forall_singleton.
  - unfold allBytes. cbn. rewrite map_app, concat_app. cbn. by rewrite app_nil_r.
Qed.

(** Writing what there is room for. *)
Lemma writeFile_ok ns d f :
  FileOk f -> writed_ f + zlen d <= kMaxFileSize ->
  let f' := writeFile ns d f in
  allBytes f' = allBytes f ++ writeLoop ns d
  /\ written f' <> [] /\ zlen (openBytes f') <= writed_ f + zlen d
  /\ Forall (fun x => zlen (snd x) <= kMaxFileSize) (written f').
Proof.
  intros [Ho Hs Hl Hc Hf] Hd f'.
  assert (Hw : zlen (writeLoop ns d) <= zlen d).
  { unfold zlen. apply inj_le, prefix_length, writeLoop_prefix. }
  destruct (last (written f)) as [[n b]|] eqn:El; [|by apply last_None in El].
  unfold openBytes in Hs. rewrite El in Hs. unfold f', writeFile, allBytes, openBytes. cbn.
  split_and!; [by apply appendLast_bytes|by apply appendLast_nonempty| |].
  - rewrite appendLast_last, El, zlen_app. lia.
  - eapply appendLast_files; [done..|cbn; lia].
Qed.

Lemma appendFile_spec e d f :
  FileOk f -> zlen d <= kMaxFileSize ->
  FileOk (appendFile e d f) /\ allBytes (appendFile e d f) = allBytes f ++ writeLoop (taken e) d.
Proof.
  intros Hf Hd. pose proof (zlen_nonneg d) as Hd0. pose proof (zlen_nonneg (openBytes f)) as Hb0.
  assert (Hw0 : 0 <= writed_ f <= kMaxFileSize) by (destruct Hf; lia).
  assert (Hk : kMaxFileSize = 67108864) by done.
  unfold appendFile. rewrite (wrap_small 64 (writed_ f + zlen d)) by lia.
  set (f1 := if kMaxFileSize <? writed_ f + zlen d then rollFile (at_roll e) f else f).
  assert (H1 : FileOk f1 /\ allBytes f1 = allBytes f /\ 0 <= writed_ f1 /\ writed_ f1 + zlen d <= kMaxFileSize).
  { unfold f1. destruct (Z.ltb_spec kMaxFileSize (writed_ f + zlen d)); [|split_and!; [done|done|lia|lia]].
    destruct (rollFile_ok (at_roll e) f) as [? ?]; [apply Hf|]. split_and!; [done|done|cbn; lia|cbn; lia]. }
  clearbody f1. destruct H1 as (H1 & Ha & Hp & Hlim).
  destruct (writeFile_ok (taken e) d f1 H1 Hlim) as (Ha2 & Ho2 & Hs2 & Hf2). rewrite Ha in Ha2.
  destruct H1 as [_ _ _ Hc _]. set (f2 := writeFile (taken e) d f1) in *.
  change (count_ f2) with (count_ f1). change (writed_ f2) with (writed_ f1).
  unfold kCheckRollPerN in Hc.
  rewrite (wrap_small 64 (writed_ f1 + zlen d)), (wrap_small 64 (count_ f1 + 1)) by lia. cbn [count_ writed_ lastRoll_ lastFlush_ written].
  destruct (Z.leb_spec kCheckRollPerN (count_ f1 + 1)) as [Hck|Hck]; [|by split; [split; cbn; lia || done|]].
  destruct (_ <? _).
  - destruct (rollFile_ok (at_day e) {| count_ := count_ f1 + 1; writed_ := writed_ f1 + zlen d;
      lastFlush_ := lastFlush_ f2; lastRoll_ := lastRoll_ f2; written := written f2 |} Hf2) as [[] E].
    split; [by split|]. by rewrite <- Ha2.
  - by destruct (_ <? _); (split; [split|]).
Qed.

(** Files that are opened once. *)
Lemma fileOf_once name l :
  NoDup (map fst l) -> Forall (fun x => zlen (snd x) <= kMaxFileSize) l -> zlen (fileOf name l) <= kMaxFileSize.
Proof.
  intros Hd Hf. unfold fileOf. induction Hf as [|[x b] l Hb Hf IH]; [done|].
  cbn in Hd. apply NoDup_cons in Hd as [Hx Hd]. rewrite filter_cons. cbn [fst]. case_decide as E; [|by apply IH].
  subst x. cbn [map List.concat snd]. assert (En : filter (fun y => y.1 = name) l = []).
  { clear -Hx. induction l as [|[y c] l IH]; [done|]. cbn in Hx. apply not_elem_of_cons in Hx as [Hne Hx].
    rewrite filter_cons_False by (cbn; congruence). by apply IH. }
  rewrite En. cbn. by rewrite app_nil_r.
Qed.

(** A roll in the second of the last opening opens the same file again, and
    [writed_] starts from zero: the file grows beyond [kMaxFileSize]. *)
Theorem rolled_file_grows e d f b :
  written f = [(getFileName (at_roll e), b)] -> zlen b = writed_ f -> 0 <= count_ f < kCheckRollPerN ->
  writed_ f <= kMaxFileSize -> zlen d <= kMaxFileSize -> kMaxFileSize < writed_ f + zlen d -> healthy e ->
  let f' := appendFile e d f in
  fileOf (getFileName (at_roll e)) (written f') = b ++ d
  /\ kMaxFileSize < zlen (fileOf (getFileName (at_roll e)) (written f')).
Proof.
  intros Hw Hb Hc Hl Hd Hsum He f'. pose proof (zlen_nonneg d). pose proof (zlen_nonneg b).
  assert (Ef : fileOf (getFileName (at_roll e)) (written f') = b ++ d); [|by rewrite Ef, zlen_app, Hb].
  assert (Hk : kMaxFileSize = 67108864) by done.
  unfold f', appendFile. rewrite (wrap_small 64 (writed_ f + zlen d)) by lia. rewrite (proj2 (Z.ltb_lt _ _)) by done.
  cbn [rollFile writeFile count_ writed_ lastFlush_ lastRoll_ written]. rewrite Hw, writeLoop_all by done.
  cbn [app appendLast]. change (u64 (0 + 1)) with 1. change (kCheckRollPerN <=? 1) with false. cbv iota. cbn [written].
  unfold fileOf. rewrite !filter_cons_True by done. cbn. by rewrite app_nil_r.
Qed.
End LogFile.

(** ** AsyncLog *)

(** Where the log thread is: not created; constructing its locals; at the
    loop's test; at the test of [exit_]; about to lock; waiting with the
    mutex released; between the critical section and the end of the round;
    returned. *)
Inductive Pc := PcNone | PcNew | PcWhile | PcExit | PcLock | PcWait | PcWrite | PcDone.

#[export] Instance Pc_eq_dec : EqDecision Pc.
Proof. solve_decision. Defined.

Section Async.
Variable getFileName : Z -> string.

(** A [unique_ptr] is an option; moving from it leaves [None]. *)
Record AsyncLog := {
  running_ : bool;
  exit_ : bool;
  currBuffer_ : option FixedBuffer;
  backupBuffer_ : option FixedBuffer;
  buffers_ : list (option FixedBuffer);
  (* the thread *)
  pc : Pc;
  firstBuffer : option FixedBuffer;
  secondBuffer : option FixedBuffer;
  buffers : list (option FixedBuffer);
  logfile : LogFile;
  (* [thread_.detach()] was called *)
  detached : bool
}.

Definition noFile : LogFile := {| count_ := 0; writed_ := 0; lastFlush_ := 0; lastRoll_ := 0; written := [] |}.

Definition newAsyncLog : AsyncLog :=
  {| running_ := false; exit_ := false; currBuffer_ := Some (newBuffer kBufferSize);
     backupBuffer_ := Some (newBuffer kBufferSize); buffers_ := []; pc := PcNone; firstBuffer := None;
     secondBuffer := None; buffers := []; logfile := noFile; detached := false |}.

(** A step ends normally, cannot be taken now, follows a null pointer, or
    detaches a thread that does not exist or is detached already. *)
Inductive Outcome := Next (s : AsyncLog) | Blocked | NullDeref | BadDetach.

Definition withPc (p : Pc) (s : AsyncLog) : AsyncLog :=
  {| running_ := running_ s; exit_ := exit_ s; currBuffer_ := currBuffer_ s; backupBuffer_ := backupBuffer_ s;
     buffers_ := buffers_ s; pc := p; firstBuffer := firstBuffer s; secondBuffer := secondBuffer s;
     buffers := buffers s; logfile := logfile s; detached := detached s |}.

(** The buffers of the front end: current, backup and full ones. *)
Definition withFront (c b : option FixedBuffer) (full : list (option FixedBuffer)) (s : AsyncLog) : AsyncLog :=
  {| running_ := running_ s; exit_ := exit_ s; currBuffer_ := c; backupBuffer_ := b; buffers_ := full;
     pc := pc s; firstBuffer := firstBuffer s; secondBuffer := secondBuffer s; buffers := buffers s;
     logfile := logfile s; detached := detached s |}.

(** [append], all of it under the mutex. *)
Definition append (line : bytes) (s : AsyncLog) : Outcome :=
  match currBuffer_ s with
  | None => NullDeref
  | Some b =>
      if zlen line <? avail kBufferSize b
      then Next (withFront (Some (bufferAppend kBufferSize line b)) (backupBuffer_ s) (buffers_ s) s)
      else
        let fresh := match backupBuffer_ s with Some b' => b' | None => newBuffer kBufferSize end in
        Next (withFront (Some (bufferAppend kBufferSize line fresh)) None (buffers_ s ++ [Some b]) s)
  end.

(** [Thread::start] creates the thread the first time only: its own
    [running_] is reset by [join], which is never called here. *)
Definition start (s : AsyncLog) : Outcome :=
  Next (if running_ s then s else
    {| running_ := true; exit_ := exit_ s; currBuffer_ := currBuffer_ s; backupBuffer_ := backupBuffer_ s;
       buffers_ := buffers_ s; pc := if decide (pc s = PcNone) then PcNew else pc s;
       firstBuffer := firstBuffer s; secondBuffer := secondBuffer s; buffers := buffers s;
       logfile := logfile s; detached := detached s |}).

(** [pthread_detach] is undefined on no thread, and the second time. *)
Definition stop (s : AsyncLog) : Outcome :=
  if bool_decide (pc s = PcNone) || detached s then BadDetach
  else
    Next {| running_ := running_ s; exit_ := true; currBuffer_ := currBuffer_ s; backupBuffer_ := backupBuffer_ s;
            buffers_ := buffers_ s; pc := pc s; firstBuffer := firstBuffer s; secondBuffer := secondBuffer s;
            buffers := buffers s; logfile := logfile s; detached := true |}.

(** The locals of [threadFunc]. *)
Definition enter (env : nat -> Answers) (s : AsyncLog) : AsyncLog :=
  {| running_ := running_ s; exit_ := exit_ s; currBuffer_ := currBuffer_ s; backupBuffer_ := backupBuffer_ s;
     buffers_ := buffers_ s; pc := PcWhile; firstBuffer := Some (newBuffer kBufferSize);
     secondBuffer := Some (newBuffer kBufferSize); buffers := [];
     logfile := newLogFile getFileName (at_roll (env 0%nat)); detached := detached s |}.

Definition leave (s : AsyncLog) : AsyncLog :=
  {| running_ := false; exit_ := exit_ s; currBuffer_ := currBuffer_ s; backupBuffer_ := backupBuffer_ s;
     buffers_ := buffers_ s; pc := pc s; firstBuffer := firstBuffer s; secondBuffer := secondBuffer s;
     buffers := buffers s; logfile := logfile s; detached := detached s |}.

(** The rest of the critical section, after the wait. *)
Definition collect (s : AsyncLog) : AsyncLog :=
  let pushed := buffers_ s ++ [currBuffer_ s] in
  {| running_ := running_ s; exit_ := exit_ s; currBuffer_ := firstBuffer s;
     backupBuffer_ := match backupBuffer_ s with Some b => Some b | None => secondBuffer s end;
     buffers_ := buffers s; pc := PcWrite; firstBuffer := None;
     secondBuffer := match backupBuffer_ s with Some _ => secondBuffer s | None => None end;
     buffers := pushed; logfile := logfile s; detached := detached s |}.

Fixpoint writeAll (env : nat -> Answers) (n : nat) (bufs : list (option FixedBuffer)) (f : LogFile) : option LogFile :=
  match bufs with
  | [] => Some f
  | None :: _ => None
  | Some b :: bufs => writeAll env (S n) bufs (appendFile getFileName (env n) (content b) f)
  end.

(** The part of a round after the critical section. *)
Definition writeAndRecycle (env : nat -> Answers) (s : AsyncLog) : Outcome :=
  match writeAll env 0 (buffers s) (logfile s) with
  | None => NullDeref
  | Some f =>
      match buffers s with
      | Some b0 :: rest =>
          let second :=
            match secondBuffer s with
            | Some b => Some b
            | None => match rest with
                      | Some b1 :: _ => Some (resetBuffer b1)
                      | None :: _ => None
                      | [] => Some (newBuffer kBufferSize)
                      end
            end in
          Next {| running_ := running_ s; exit_ := exit_ s; currBuffer_ := currBuffer_ s;
                  backupBuffer_ := backupBuffer_ s; buffers_ := buffers_ s; pc := PcWhile;
                  firstBuffer := Some (resetBuffer b0); secondBuffer := second; buffers := []; logfile := f;
                  detached := detached s |}
      | _ => NullDeref
      end
  end.

(** One step of the thread.  A wait ends by itself, on the notification or
    after two seconds. *)
Definition tick (env : nat -> Answers) (s : AsyncLog) : Outcome :=
  match pc s with
  | PcNone | PcDone => Blocked
  | PcNew => Next (enter env s)
  | PcWhile => Next (withPc (if running_ s then PcExit else PcDone) s)
  | PcExit => Next (withPc PcLock (if exit_ s then leave s else s))
  | PcLock => Next (match buffers_ s with [] => withPc PcWait s | _ => collect s end)
  | PcWait => Next (collect s)
  | PcWrite => writeAndRecycle env s
  end.

Inductive Label :=
| LAppend (line : bytes)
| LStart
| LStop
| LTick (env : nat -> Answers).

Definition step (l : Label) (s : AsyncLog) : Outcome :=
  match l with
  | LAppend line => append line s
  | LStart => start s
  | LStop => stop s
  | LTick env => tick env s
  end.

Fixpoint run (ls : list Label) (s : AsyncLog) : Outcome :=
  match ls with
  | [] => Next s
  | l :: ls => match step l s with Next s' => run ls s' | o => o end
  end.

(** *** The invariant *)

Definition contentOf (o : option FixedBuffer) : bytes := match o with Some b => content b | None => [] end.
Definition contents (l : list (option FixedBuffer)) : bytes := List.concat (map contentOf l).

(** Everything appended, on its way to the file. *)
Definition inFlight (s : AsyncLog) : bytes :=
  allBytes (logfile s) ++ contents (buffers s) ++ contents (buffers_ s) ++ contentOf (currBuffer_ s).

Definition Full (o : option FixedBuffer) : Prop := exists b, o = Some b /\ BufferOk kBufferSize b.
Definition Clean (o : option FixedBuffer) : Prop := exists b, o = Some b /\ BufferOk kBufferSize b /\ pos_ b = 0.

(** What the thread holds, by where it is. *)
Definition ThreadOk (s : AsyncLog) : Prop :=
  match pc s with
  | PcNone | PcNew => logfile s = noFile /\ buffers s = []
  | PcDone => FileOk (logfile s) /\ buffers s = []
  | PcWrite => FileOk (logfile s) /\ buffers s <> [] /\ Forall Full (buffers s)
               /\ (secondBuffer s = None \/ Clean (secondBuffer s))
  | _ => FileOk (logfile s) /\ buffers s = [] /\ Clean (firstBuffer s) /\ Clean (secondBuffer s)
  end.

Record AsyncOk (s : AsyncLog) : Prop := {
  a_curr : Full (currBuffer_ s);
  a_backup : backupBuffer_ s = None \/ Clean (backupBuffer_ s);
  a_full : Forall Full (buffers_ s);
  a_thread : ThreadOk s
}.

(** A line longer than a buffer is dropped. *)
Definition accepted (l : Label) : bytes :=
  match l with LAppend line => if zlen line <=? kBufferSize then line else [] | _ => [] end.

Definition healthyLabel (l : Label) : Prop :=
  match l with LTick env => forall n, healthy (env n) | _ => True end.

Lemma kBufferSize_range : 0 <= kBufferSize < 2 ^ 64.
Proof. done. Qed.
#[local] Hint Resolve kBufferSize_range : core.

Lemma Clean_Full o : Clean o -> Full o.
Proof. intros (b & -> & Hb & _). by exists b. Qed.

Lemma Clean_content o : Clean o -> contentOf o = [].
Proof. intros (b & -> & Hb & E). cbn. unfold content. rewrite E. apply slice_empty. Qed.

Lemma newBuffer_clean : Clean (Some (newBuffer kBufferSize)).
Proof. exists (newBuffer kBufferSize). split_and!; [done|by apply newBuffer_ok|done]. Qed.

Lemma resetBuffer_clean b : BufferOk kBufferSize b -> Clean (Some (resetBuffer b)).
Proof. intros Hb. exists (resetBuffer b). split_and!; [done|by apply resetBuffer_ok|done]. Qed.

Lemma contents_app l k : contents (l ++ k) = contents l ++ contents k.
Proof. unfold contents. by rewrite map_app, concat_app. Qed.

Lemma append_ok line s :
  AsyncOk s -> exists s', append line s = Next s' /\ AsyncOk s' /\ inFlight s' = inFlight s ++ accepted (LAppend line).
Proof.
  intros [(b & Ec & Hb) Hbk Hf Ht]. unfold append. rewrite Ec.
  rewrite avail_ok by done. pose proof (bufferAppend_spec kBufferSize ltac:(done) b line Hb) as [Hok Hc].
  assert (Hp : pos_ b <= kBufferSize /\ 0 <= pos_ b) by (destruct Hb; lia).
  destruct (Z.ltb_spec (zlen line) (kBufferSize - pos_ b)) as [Hlt|Hge].
  - eexists. split; [done|]. split.
    + split; [eexists; by split|done|done|exact Ht].
    + unfold inFlight. cbn [withFront logfile buffers buffers_ currBuffer_ contentOf accepted]. rewrite Hc, Ec.
      rewrite (Zle_imp_le_bool (zlen line) (kBufferSize - pos_ b)), (Zle_imp_le_bool (zlen line) kBufferSize) by lia.
      by rewrite <- !app_assoc.
  - set (fresh := match backupBuffer_ s with Some b' => b' | None => newBuffer kBufferSize end).
    assert (Hfr : Clean (Some fresh)).
    { unfold fresh. destruct Hbk as [->|(b' & -> & Hb')]; [apply newBuffer_clean|by exists b']. }
    pose proof (Clean_content _ Hfr) as Hfc. destruct Hfr as (? & [= <-] & Hfo & Hfp).
    pose proof (bufferAppend_spec kBufferSize ltac:(done) fresh line Hfo) as [Hok' Hc'].
    eexists. split; [done|]. split.
    + split; [eexists; by split|by left| |exact Ht].
      apply Forall_app. split; [done|]. apply Forall_singleton. by exists b.
    + unfold inFlight. cbn [withFront logfile buffers buffers_ currBuffer_ contentOf accepted].
      rewrite Hc', Ec, contents_app, Hfp, Z.sub_0_r. cbn [contentOf] in Hfc. rewrite Hfc.
      unfold contents at 3. cbn [map List.concat contentOf]. by rewrite app_nil_r, <- !app_assoc.
Qed.

Lemma writeAll_ok env n bufs f :
  FileOk f -> Forall Full bufs ->
  exists f', writeAll env n bufs f = Some f' /\ FileOk f'
    /\ ((forall n, healthy (env n)) -> allBytes f' = allBytes f ++ contents bufs).
Proof.
  intros Hf H. revert n f Hf. induction H as [|o bufs (b & -> & Hb) _ IH]; intros n f Hf; cbn [writeAll].
  - exists f. split_and!; [done|done|]. intros _. by rewrite app_nil_r.
  - assert (Hlen : zlen (content b) <= kMaxFileSize).
    { destruct Hb as [Hs Hp]. unfold content. rewrite zlen_slice by lia. unfold kMaxFileSize, kBufferSize in *. lia. }
    destruct (appendFile_spec getFileName (env n) (content b) f Hf Hlen) as [Hf' Ha].
    destruct (IH (S n) _ Hf') as (f' & E & Hok & Hall). exists f'. split_and!; [done..|].
    intros He. rewrite Hall, Ha, writeLoop_all by (done || apply He). by rewrite <- app_assoc.
Qed.

Lemma collect_ok s :
  AsyncOk s -> (pc s = PcLock \/ pc s = PcWait) -> AsyncOk (collect s) /\ inFlight (collect s) = inFlight s.
Proof.
  intros [Hc Hb Hf Ht] Hpc.
  assert (H : FileOk (logfile s) /\ buffers s = [] /\ Clean (firstBuffer s) /\ Clean (secondBuffer s)).
  { unfold ThreadOk in Ht. by destruct Hpc as [E|E]; rewrite E in Ht. }
  destruct H as (Hl & Hbs & H1 & H2). split.
  - split.
    + by apply Clean_Full.
    + cbn. right. destruct Hb as [->|(b & -> & ?)]; [done|by exists b].
    + cbn. by rewrite Hbs.
    + unfold ThreadOk. cbn. split_and!; [done|by destruct (buffers_ s)| |].
      * apply Forall_app. split; [done|by apply Forall_singleton].
      * destruct Hb as [->|(b & -> & ?)]; [by left|by right].
  - unfold inFlight. cbn [collect logfile buffers buffers_ currBuffer_].
    rewrite Hbs, contents_app, (Clean_content _ H1). unfold contents. cbn. by rewrite !app_nil_r.
Qed.

Lemma writeAndRecycle_ok env s :
  AsyncOk s -> pc s = PcWrite ->
  exists s', writeAndRecycle env s = Next s' /\ AsyncOk s' /\ pc s' = PcWhile /\ running_ s' = running_ s
    /\ exit_ s' = exit_ s
    /\ ((forall n, healthy (env n)) ->
        allBytes (logfile s') = allBytes (logfile s) ++ contents (buffers s) /\ inFlight s' = inFlight s).
Proof.
  intros [Hc Hb Hf Ht] Hpc. unfold ThreadOk in Ht. rewrite Hpc in Ht. destruct Ht as (Hl & Hne & Hfull & H2).
  unfold writeAndRecycle. destruct (writeAll_ok env 0 (buffers s) (logfile s) Hl Hfull) as (f & -> & Hok & Hall).
  destruct (buffers s) as [|o rest] eqn:Ebs; [done|]. apply Forall_cons in Hfull as [(b0 & -> & Hb0) Hrest].
  eexists. split; [done|]. split_and!; try done.
  - split; [done|done|done|]. unfold ThreadOk. cbn. split_and!; [done|done|by apply resetBuffer_clean|].
    destruct H2 as [->|(b & -> & ?)]; [|by exists b].
    destruct rest as [|o rest]; [apply newBuffer_clean|]. apply Forall_cons in Hrest as [(b1 & -> & Hb1) _].
    by apply resetBuffer_clean.
  - intros He. specialize (Hall He). split; [done|]. unfold inFlight. cbn [logfile buffers buffers_ currBuffer_].
    rewrite Hall, Ebs. by rewrite <- !app_assoc.
Qed.

(** The run ends here. *)
Definition stuck (o : Outcome) : Prop := match o with Blocked | BadDetach => True | _ => False end.

(** Every step follows no null pointer, keeps the invariant and loses nothing. *)
Lemma async_step_ok l s :
  AsyncOk s ->
  stuck (step l s) \/
  exists s', step l s = Next s' /\ AsyncOk s' /\ (healthyLabel l -> inFlight s' = inFlight s ++ accepted l).
Proof.
  intros Hs. destruct l as [line| | |env]; cbn [step accepted healthyLabel].
  - right. destruct (append_ok line s Hs) as (s' & ? & ? & ?). by exists s'.
  - right. eexists. split; [done|]. destruct Hs as [Hc Hb Hf Ht]. destruct (running_ s).
    + split; [done|]. intros _. by rewrite app_nil_r.
    + split; [|intros _; by rewrite app_nil_r]. split; try done. unfold ThreadOk in *. cbn.
      destruct (decide (pc s = PcNone)) as [E|E]; [by rewrite E in Ht|done].
  - unfold stop. destruct (_ || _); [by left|].
    right. eexists. split; [done|]. destruct Hs as [Hc Hb Hf Ht]. split; [by split|]. intros _. by rewrite app_nil_r.
  - rewrite app_nil_r. unfold tick. destruct (pc s) eqn:Hpc; [by left| | | | | | |by left]; right.
    + destruct Hs as [Hc Hb Hf Ht]. unfold ThreadOk in Ht. rewrite Hpc in Ht. destruct Ht as [E Ebs].
      eexists. split; [done|].
      destruct (rollFile_ok getFileName (at_roll (env 0%nat)) noFile (Forall_nil_2 _)) as [Hok Ha].
      split; [|intros _; unfold inFlight; cbn; by rewrite E, Ebs]. split; try done.
      unfold ThreadOk. cbn [enter pc logfile buffers firstBuffer secondBuffer].
      split_and!; [exact Hok|done|apply newBuffer_clean..].
    + eexists. split; [done|]. split; [|done]. destruct Hs as [Hc Hb Hf Ht]. unfold ThreadOk in Ht. rewrite Hpc in Ht.
      destruct Ht as (? & ? & ?). destruct (running_ s); split; done.
    + eexists. split; [done|]. split; [|by destruct (exit_ s)]. destruct Hs as [Hc Hb Hf Ht].
      unfold ThreadOk in Ht. rewrite Hpc in Ht. destruct (exit_ s); split; done.
    + eexists. split; [done|]. destruct (buffers_ s) eqn:Ebs.
      * split; [|done]. destruct Hs as [Hc Hb Hf Ht]. unfold ThreadOk in Ht. rewrite Hpc in Ht.
        split; cbn; by rewrite ?Ebs.
      * destruct (collect_ok s Hs ltac:(by left)). by split.
    + eexists. split; [done|]. destruct (collect_ok s Hs ltac:(by right)). by split.
    + destruct (writeAndRecycle_ok env s Hs Hpc) as (s' & E & Hok & _ & _ & _ & Hh). exists s'.
      split_and!; [done..|]. intros He. by apply Hh.
Qed.

Lemma newAsyncLog_ok : AsyncOk newAsyncLog.
Proof. split; [apply Clean_Full, newBuffer_clean|right; apply newBuffer_clean|done|done]. Qed.

Lemma run_ok ls s :
  AsyncOk s ->
  stuck (run ls s) \/
  exists s', run ls s = Next s' /\ AsyncOk s'
    /\ (Forall healthyLabel ls -> inFlight s' = inFlight s ++ List.concat (map accepted ls)).
Proof.
  revert s. induction ls as [|l ls IH]; intros s Hs; cbn [run].
  - right. exists s. split_and!; [done..|]. intros _. by rewrite app_nil_r.
  - destruct (async_step_ok l s Hs) as [Eb|(s1 & -> & Hs1 & Hl)]; [left; by destruct (step l s)|].
    destruct (IH s1 Hs1) as [?|(s2 & -> & Hs2 & Hr)]; [by left|]. right. exists s2. split_and!; [done..|].
    intros Hh. apply Forall_cons in Hh as [Hh Hhs]. rewrite Hr, Hl by done. cbn. by rewrite <- app_assoc.
Qed.

Lemma run_app ls1 ls2 s :
  run (ls1 ++ ls2) s = match run ls1 s with Next s' => run ls2 s' | o => o end.
Proof. revert s. induction ls1 as [|l ls1 IH]; intros s; cbn; [done|]. by destruct (step l s). Qed.

(** *** Stopping *)

(** No more than this many steps of the thread are left once [exit_] is set. *)
Definition ticksLeft (s : AsyncLog) : nat :=
  match pc s, running_ s with
  | PcNone, _ | PcDone, _ => 0
  | PcWhile, false => 1
  | PcWrite, false => 2
  | PcWait, false => 3
  | PcLock, false => 4
  | PcExit, _ => 5
  | PcWhile, true => 6
  | PcWrite, true => 7
  | PcWait, true => 8
  | PcLock, true => 9
  | PcNew, _ => 7
  end.

Definition isTick (l : Label) : bool := match l with LTick _ => true | _ => false end.
Definition ticks (ls : list Label) : nat := foldr (fun l n => (if isTick l then 1 else 0) + n)%nat 0%nat ls.

(** Before the first [stop] the thread runs if it was started. *)
Record Going (s : AsyncLog) : Prop := {
  g_exit : exit_ s = false;
  g_run : if decide (pc s = PcNone) then running_ s = false else running_ s = true;
  g_live : pc s <> PcDone
}.

(** After it [P] is on its way, and past the last collection it is with the thread. *)
Record Stopping (P : bytes) (s : AsyncLog) : Prop := {
  s_exit : exit_ s = true;
  s_kept : P `prefix_of` inFlight s;
  s_last : running_ s = false ->
    match pc s with
    | PcNone | PcNew => False
    | PcWhile | PcDone => P `prefix_of` allBytes (logfile s)
    | PcWrite => P `prefix_of` allBytes (logfile s) ++ contents (buffers s)
    | _ => True
    end;
  s_done : pc s = PcDone -> running_ s = false;
  s_started : pc s <> PcNone
}.

Lemma step_going l s s' :
  AsyncOk s -> Going s -> l <> LStop -> step l s = Next s' ->
  Going s' /\ (l = LStart -> pc s' <> PcNone) /\ (pc s <> PcNone -> pc s' <> PcNone).
Proof.
  intros Hs [Hx Hr Hd] Hl E. destruct l as [line| | |env]; cbn [step] in E; [..|done|].
  - unfold append in E. destruct (currBuffer_ s); [|done]. by destruct (_ <? _); injection E as <-.
  - injection E as <-. destruct (decide (pc s = PcNone)) as [En|En].
    + rewrite Hr. split_and!; [split; cbn|..]; by try rewrite decide_True by done.
    + rewrite Hr. split_and!; [split; [done|by rewrite decide_False|done]|done..].
  - assert (Hn : pc s <> PcNone) by (intros Hn; unfold tick in E; by rewrite Hn in E).
    rewrite decide_False in Hr by done.
    assert (H : exit_ s' = exit_ s /\ running_ s' = running_ s /\ pc s' <> PcNone /\ pc s' <> PcDone).
    { unfold tick in E. destruct (pc s) eqn:Hpc; try done; [..|].
      - by injection E as <-.
      - rewrite Hr in E. by injection E as <-.
      - rewrite Hx in E. by injection E as <-.
      - by destruct (buffers_ s); injection E as <-.
      - by injection E as <-.
      - destruct (writeAndRecycle_ok env s Hs Hpc) as (s2 & E2 & _ & Ep & ? & ? & _).
        rewrite E2 in E. injection E as <-. by rewrite Ep. }
    destruct H as (Hx' & Hr' & Hn' & Hd'). split_and!; [|done..]. split; [congruence| |done].
    rewrite decide_False by done. congruence.
Qed.

Lemma run_going ls s s' :
  AsyncOk s -> Going s -> LStop ∉ ls -> run ls s = Next s' ->
  Going s' /\ (pc s <> PcNone \/ LStart ∈ ls -> pc s' <> PcNone).
Proof.
  revert s. induction ls as [|l ls IH]; intros s Hs Hg Hn E; cbn [run] in E.
  - injection E as <-. split; [done|]. by intros [?|?%not_elem_of_nil].
  - apply not_elem_of_cons in Hn as [Hl Hn]. destruct (async_step_ok l s Hs) as [Eb|(s1 & E1 & Hs1 & _)].
    + by destruct (step l s).
    + rewrite E1 in E. destruct (step_going l s s1 Hs Hg ltac:(done) E1) as (Hg1 & Ha & Hb).
      destruct (IH s1 Hs1 Hg1 Hn E) as [? Hp]. split; [done|].
      intros [?|[<-|?]%elem_of_cons]; apply Hp; auto.
Qed.

Lemma collect_stopping P s :
  AsyncOk s -> (pc s = PcLock \/ pc s = PcWait) -> Stopping P s -> Stopping P (collect s).
Proof.
  intros Hs Hpc [Hx Hk _ _ _]. destruct (collect_ok s Hs Hpc) as [[Hc _ _ Ht] E]. rewrite <- E in Hk.
  assert (Hf : buffers s = []).
  { destruct Hs as [_ _ _ Hts]. unfold ThreadOk in Hts. destruct Hpc as [Ep|Ep]; rewrite Ep in Hts; by destruct Hts as (_ & ? & _). }
  split; [done|done| |done|done]. intros _. cbn [collect pc logfile buffers].
  rewrite E in Hk. unfold inFlight in Hk. rewrite Hf in Hk.
  rewrite contents_app. unfold contents at 2. cbn. rewrite app_nil_r. exact Hk.
Qed.

Lemma tick_stopping P env s s' :
  AsyncOk s -> Stopping P s -> (forall n, healthy (env n)) -> inFlight s' = inFlight s -> tick env s = Next s' ->
  Stopping P s' /\ (ticksLeft s' < ticksLeft s)%nat.
Proof.
  intros Hs Hst He Hf E. pose proof Hst as [Hx Hk Hl Hd Hn]. rewrite <- Hf in Hk. unfold tick in E.
  destruct (pc s) eqn:Hpc; try done; unfold ticksLeft; rewrite Hpc.
  - injection E as <-. destruct (running_ s) eqn:Er; [|by destruct Hl]. cbn. rewrite Er.
    split; [split; cbn; try done; by rewrite Er|lia].
  - injection E as <-. cbn. destruct (running_ s) eqn:Er; (split; [|lia]); split; cbn; try done; intros _; by apply Hl.
  - injection E as <-. rewrite Hx in *. cbn. split; [by split|lia].
  - assert (Hcs : Stopping P (collect s)) by (apply collect_stopping; auto).
    destruct (buffers_ s) eqn:Eb; injection E as <-; cbn; (split; [|destruct (running_ s); lia]); [by split|done].
  - injection E as <-. cbn. split; [apply collect_stopping; auto|destruct (running_ s); lia].
  - destruct (writeAndRecycle_ok env s Hs Hpc) as (s2 & E2 & _ & Ep & Er & Ee & Hh). rewrite E2 in E.
    injection E as <-. destruct (Hh He) as [Ha _]. rewrite Ep, Er.
    split; [|destruct (running_ s); lia]. split; rewrite ?Ep; try done; [by rewrite Ee|].
    rewrite Er, Ha. exact Hl.
Qed.

Lemma step_stopping P l s s' :
  AsyncOk s -> Stopping P s -> l <> LStart -> healthyLabel l -> step l s = Next s' ->
  Stopping P s' /\ (ticksLeft s' + (if isTick l then 1 else 0) <= ticksLeft s)%nat.
Proof.
  intros Hs Hst Hl Hh E. destruct (async_step_ok l s Hs) as [Eb|(s1 & E1 & _ & Hi)]; [by rewrite E in Eb|].
  rewrite E in E1. injection E1 as <-. specialize (Hi Hh). pose proof Hst as [Hx Hk Hla Hd Hn].
  destruct l as [line| | |env]; cbn [step isTick accepted] in *; [|done| |].
  - assert (Hk' : P `prefix_of` inFlight s') by (rewrite Hi; by apply prefix_app_r).
    unfold append in E. destruct (currBuffer_ s); [|done].
    destruct (_ <? _); injection E as <-; (split; [by split|unfold ticksLeft; cbn; lia]).
  - unfold stop in E. destruct (_ || _); [done|]. injection E as <-. split; [|unfold ticksLeft; cbn; lia]. by split.
  - rewrite app_nil_r in Hi. destruct (tick_stopping P env s s' Hs Hst Hh Hi E). split; [done|lia].
Qed.

Lemma run_stopping P ls s s' :
  AsyncOk s -> Stopping P s -> LStart ∉ ls -> Forall healthyLabel ls -> run ls s = Next s' ->
  Stopping P s' /\ (ticksLeft s' + ticks ls <= ticksLeft s)%nat.
Proof.
  revert s. induction ls as [|l ls IH]; intros s Hs Hst Hn Hh E; cbn [run] in E.
  - injection E as <-. split; [done|cbn; lia].
  - apply not_elem_of_cons in Hn as [Hl Hn]. apply Forall_cons in Hh as [Hh Hhs].
    destruct (async_step_ok l s Hs) as [Eb|(s1 & E1 & Hs1 & _)]; [by destruct (step l s)|]. rewrite E1 in E.
    destruct (step_stopping P l s s1 Hs Hst ltac:(done) Hh E1) as [Hst1 Ht1].
    destruct (IH s1 Hs1 Hst1 Hn Hhs E) as [Hst' Ht']. split; [done|].
    change (ticks (l :: ls)) with ((if isTick l then 1 else 0) + ticks ls)%nat. lia.
Qed.

(** *** What the log promises *)

(** What the calls so far tell of the thread. *)
Lemma step_thread l s s' :
  step l s = Next s' ->
  (pc s' = PcNone -> pc s = PcNone /\ (l = LStart -> running_ s = true)) /\ (detached s' = true -> detached s = true \/ l = LStop)
  /\ (pc s' = PcNone -> running_ s' = running_ s).
Proof.
  intros E. destruct l as [line| | |env]; cbn [step] in E.
  - unfold append in E. destruct (currBuffer_ s); [|done]. destruct (_ <? _); injection E as <-; cbn; naive_solver.
  - injection E as <-. destruct (running_ s) eqn:Er; [naive_solver|]. cbn. destruct (decide (pc s = PcNone)); naive_solver.
  - unfold stop in E. destruct (_ || _); [done|]. injection E as <-. cbn. naive_solver.
  - assert (H : pc s <> PcNone /\ pc s' <> PcNone /\ detached s' = detached s); [|naive_solver].
    unfold tick in E. destruct (pc s) eqn:Ep; try done.
    + by injection E as <-.
    + injection E as <-. by destruct (running_ s).
    + injection E as <-. by destruct (exit_ s).
    + by destruct (buffers_ s); injection E as <-.
    + by injection E as <-.
    + unfold writeAndRecycle in E. destruct (writeAll _ _ _ _); [|done]. destruct (buffers s) as [|[] ?]; try done.
      by injection E as <-.
Qed.

Lemma run_bad_detach ls s :
  AsyncOk s -> (pc s = PcNone -> running_ s = false) -> run ls s = BadDetach ->
  exists l1 l2, ls = l1 ++ LStop :: l2 /\ (pc s = PcNone /\ LStart ∉ l1 \/ detached s = true \/ LStop ∈ l1).
Proof.
  revert s. induction ls as [|l ls IH]; intros s Hs Hr E; [done|]. cbn [run] in E.
  destruct (step l s) as [s1| | |] eqn:E1; try done.
  - destruct (async_step_ok l s Hs) as [Eb|(s2 & E2 & Hs1 & _)]; [by rewrite E1 in Eb|].
    rewrite E1 in E2. injection E2 as <-. destruct (step_thread l s s1 E1) as (Hp & Hd & Hrr).
    destruct (IH s1 Hs1) as (l1 & l2 & -> & Hc); [|done|].
    { intros Hp1. rewrite (Hrr Hp1). by apply Hr, Hp. }
    exists (l :: l1), l2. split; [done|]. rewrite !elem_of_cons. destruct Hc as [[Hp1 Hn]|[Hd1|Hin]]; [|naive_solver..].
    left. destruct (Hp Hp1) as [Hp0 Hl]. split; [done|]. intros [El|?]; [|done].
    specialize (Hl (eq_sym El)). rewrite (Hr Hp0) in Hl. done.
  - assert (El : l = LStop /\ (pc s = PcNone \/ detached s = true)).
    { destruct l as [line| | |env]; cbn [step] in E1.
      - unfold append in E1. destruct (currBuffer_ s); [|done]. by destruct (_ <? _).
      - done.
      - split; [done|]. unfold stop in E1. destruct (decide (pc s = PcNone)); [by left|].
        rewrite bool_decide_false in E1 by done. destruct (detached s); [by right|done].
      - unfold tick in E1. destruct (pc s); try done. unfold writeAndRecycle in E1.
        destruct (writeAll _ _ _ _); [|done]. by destruct (buffers s) as [|[] ?]. }
    destruct El as [-> Hc]. exists [], ls. split; [done|]. destruct Hc; [|by auto].
    left. split; [done|]. apply not_elem_of_nil.
Qed.


(** C25: after the first [stop] of a started log the thread returns within nine
    of its own steps, it is never stuck before, and when it has returned the
    files hold everything appended before the [stop], whatever is appended
    meanwhile. *)
Theorem stop_flushes ls1 ls2 s :
  LStart ∈ ls1 -> LStop ∉ ls1 -> LStart ∉ ls2 -> Forall healthyLabel (ls1 ++ ls2) ->
  run (ls1 ++ LStop :: ls2) newAsyncLog = Next s ->
  (ticks ls2 <= 9)%nat
  /\ (pc s = PcDone -> List.concat (map accepted ls1) `prefix_of` allBytes (logfile s))
  /\ (pc s <> PcDone -> forall env, exists s', tick env s = Next s').
Proof.
  intros H1 Hn1 Hn2 Hh E. apply Forall_app in Hh as [Hh1 Hh2]. rewrite run_app in E.
  destruct (run_ok ls1 newAsyncLog newAsyncLog_ok) as [Eb|(s1 & E1 & Hs1 & Hi)]; [by destruct (run ls1 newAsyncLog)|].
  rewrite E1 in E. destruct (run_going ls1 newAsyncLog s1 newAsyncLog_ok ltac:(by split) Hn1 E1) as [[Hx Hr Hld] Hp].
  specialize (Hp (or_intror H1)). rewrite decide_False in Hr by done. specialize (Hi Hh1). cbn in Hi.
  set (P := List.concat (map accepted ls1)) in *.
  cbn [run step] in E. unfold stop in E. destruct (_ || _); [done|].
  set (s0 := Build_AsyncLog _ _ _ _ _ _ _ _ _ _ _) in E.
  assert (Hs0 : AsyncOk s0) by (destruct Hs1; by split).
  assert (Hst : Stopping P s0).
  { split; cbn; [done| |by rewrite Hr|done|done].
    change (P `prefix_of` inFlight s1). by rewrite Hi. }
  destruct (run_stopping P ls2 s0 s Hs0 Hst Hn2 Hh2 E) as [[Hx' Hk' Hl' Hd' Hp'] Ht].
  split_and!.
  - assert (ticksLeft s0 <= 9)%nat by (unfold ticksLeft; destruct (pc s0), (running_ s0); lia). lia.
  - intros Ed. specialize (Hl' (Hd' Ed)). by rewrite Ed in Hl'.
  - intros Hnd env. destruct (run_ok ls2 s0 Hs0) as [Eb|(s2 & E2 & Hs2 & _)]; [by rewrite E in Eb|].
    rewrite E in E2. injection E2 as <-. destruct (async_step_ok (LTick env) s Hs2) as [Eb|(s3 & E3 & _)]; [|by exists s3].
    cbn in Eb. unfold tick in *. destruct (pc s) eqn:Ep; try done.
    destruct (writeAndRecycle_ok env s Hs2 Ep) as (s3 & E3 & _). by rewrite E3 in Eb.
Qed.
End Async.

(** *** Witnesses *)

Definition allTaken : Answers := {| at_roll := 0; at_check := 0; at_day := 0; taken := [] |}.
Definition tickOk : Label := LTick (fun _ => allTaken).
Definition demoName : Z -> string := fun _ => "log"%string.

(** A log started, filled, stopped, and appended to after the stop. *)
Definition demoBefore : list Label := [LAppend (bs "one "); LStart; tickOk; LAppend (bs "two "); tickOk].
Definition demoAfter : list Label := LAppend (bs "three") :: repeat tickOk 5.

Definition finalState (o : Outcome) : AsyncLog := match o with Next s => s | _ => newAsyncLog end.

Lemma stop_flushes_witness :
  let s := finalState (run demoName (demoBefore ++ LStop :: demoAfter) newAsyncLog) in
  pc s = PcDone /\ bs "one two " `prefix_of` allBytes (logfile s).
Proof.
  intros s. assert (Ed : pc s = PcDone) by (vm_compute; reflexivity). split; [exact Ed|].
  destruct (stop_flushes demoName demoBefore demoAfter s) as (_ & H & _).
  - right. left.
  - unfold demoBefore, tickOk. rewrite !not_elem_of_cons. split_and!; try discriminate. apply not_elem_of_nil.
  - unfold demoAfter, tickOk. cbn. rewrite !not_elem_of_cons. split_and!; try discriminate. apply not_elem_of_nil.
  - assert (Hh : forall n : nat, healthy ((fun _ => allTaken) n)) by (intros n; constructor).
    cbn. repeat (apply Forall_cons; split; [done|]). constructor.
  - vm_compute. reflexivity.
  - exact (H Ed).
Defined.
