(* ===== verification/Log.v ===== *)
(** * Log lines (src/reyao/log.h, log.cc)

    The formatter compiles a pattern to items, the items print a record, the
    logger filters by level and hands the line to an appender.  With the file
    appender this is the client of AsyncLog.v. *)

From S2P Require Import Prelude Util AsyncLog.

Inductive Level := DEBUG | INFO | WARN | ERROR | FATAL.

#[export] Instance Level_eq_dec : EqDecision Level.
Proof. solve_decision. Defined.

Definition levelNum (l : Level) : Z :=
  match l with DEBUG => 1 | INFO => 2 | WARN => 3 | ERROR => 4 | FATAL => 5 end.

Definition ToString (l : Level) : bytes :=
  match l with
  | DEBUG => bs "DEBUG" | INFO => bs "INFO" | WARN => bs "WARN" | ERROR => bs "ERROR" | FATAL => bs "FATAL"
  end.

Record LogData := {
  level_ : Level;
  content_ : bytes;
  time_ : Z;
  threadId_ : Z;
  coroutineId_ : Z;
  threadName_ : bytes;
  fileName_ : bytes;
  line_ : Z
}.

(** ** The pattern *)

Inductive FmtItem :=
| MessageFmtItem | LevelFmtItem | DateTimeFmtItem | ThreadIdFmtItem | CoroutineIdFmtItem | ThreadNameFmtItem
| FileNameFmtItem | LineFmtItem | NextLineFmtItem | TableFmtItem
| StringFmtItem (str_ : bytes).

Definition percent : ascii := "%"%char.

(** [isalpha] in the C locale. *)
Definition isalpha (c : ascii) : bool :=
  ((65 <=? code c) && (code c <=? 90)) || ((97 <=? code c) && (code c <=? 122)).

Definition substr {A} (l : list A) (pos n : nat) : list A := take n (drop pos l).

(** The inner loop of [init]: [n] and [str] when it ends. *)
Fixpoint scan (fuel : nat) (pattern_ : bytes) (i n : nat) (str : bytes) : option (nat * bytes) :=
  match fuel with
  | O => None
  | S fuel =>
      match pattern_ !! n with
      | None => Some (n, str)
      | Some c =>
          if negb (isalpha c) then Some (n, substr pattern_ (i + 1) (n - i - 1))
          else
            let n := S n in
            let str := if (n =? length pattern_)%nat && (zlen str =? 0)
                       then substr pattern_ (i + 1) (length pattern_ - (i + 1)) else str in
            scan fuel pattern_ i n str
      end
  end.

(** A piece of the pattern: text, or what follows a percent sign. *)
Inductive Piece := Text (s : bytes) | Directive (str : bytes).

#[export] Instance Piece_eq_dec : EqDecision Piece.
Proof. solve_decision. Defined.

Definition flush (s : bytes) (vec : list Piece) : list Piece := match s with [] => vec | _ => vec ++ [Text s] end.

(** The outer loop, [vec] at its end. *)
Fixpoint pieces (fuel : nat) (pattern_ : bytes) (i : nat) (s : bytes) (vec : list Piece) : option (list Piece) :=
  match fuel with
  | O => None
  | S fuel =>
      match pattern_ !! i with
      | None => Some (flush s vec)
      | Some c =>
          if negb (bool_decide (c = percent)) then pieces fuel pattern_ (S i) (s ++ [c]) vec
          else if bool_decide (pattern_ !! S i = Some percent)
          then pieces fuel pattern_ (S i) (s ++ [percent]) vec
          else match scan (S (length pattern_)) pattern_ i (S i) [] with
               | None => None
               | Some (n, str) => pieces fuel pattern_ n [] (flush s vec ++ [Directive str])
               end
      end
  end.

Definition parsePattern (pattern_ : bytes) : option (list Piece) :=
  pieces (S (length pattern_)) pattern_ 0 [] [].

Definition format2Item (str : bytes) : option FmtItem :=
  match str with
  | [c] =>
      match c with
      | "m" => Some MessageFmtItem
      | "p" => Some LevelFmtItem
      | "d" => Some DateTimeFmtItem
      | "t" => Some ThreadIdFmtItem
      | "c" => Some CoroutineIdFmtItem
      | "N" => Some ThreadNameFmtItem
      | "f" => Some FileNameFmtItem
      | "l" => Some LineFmtItem
      | "n" => Some NextLineFmtItem
      | "T" => Some TableFmtItem
      | _ => None
      end%char
  | _ => None
  end.

Definition toItem (p : Piece) : FmtItem :=
  match p with
  | Text s => StringFmtItem s
  | Directive str =>
      match format2Item str with
      | Some it => it
      | None => StringFmtItem (bs "<<error format %" ++ str ++ bs ">>")
      end
  end.

Definition init (pattern_ : bytes) : option (list FmtItem) :=
  match parsePattern pattern_ with Some vec => Some (map toItem vec) | None => None end.

(** A pattern is the concatenation of its pieces. *)
Definition render1 (p : Piece) : bytes := match p with Text s => s | Directive str => percent :: str end.
Definition render (ps : list Piece) : bytes := List.concat (map render1 ps).

(** Text is not empty, a directive is letters, and no letter follows it. *)
Fixpoint wellFormed (ps : list Piece) : Prop :=
  match ps with
  | [] => True
  | Text s :: ps => s <> [] /\ wellFormed ps
  | Directive str :: ps =>
      Forall (fun c => isalpha c = true) str
      /\ (match head (render ps) with Some c => isalpha c = false | None => True end)
      /\ wellFormed ps
  end.

Lemma substr_mid {A} (l pre mid rest : list A) a n :
  l = pre ++ mid ++ rest -> a = length pre -> n = length mid -> substr l a n = mid.
Proof. intros -> -> ->. unfold substr. by rewrite drop_app_length, take_app_length. Qed.

Lemma lookup_mid {A} (pre : list A) x rest : (pre ++ x :: rest) !! length pre = Some x.
Proof. by apply list_lookup_middle. Qed.

(** The scan finds the letters and where they end. *)
Lemma scan_spec fuel pre seen letters rest str :
  Forall (fun c => isalpha c = true) letters ->
  match head rest with Some c => isalpha c = false | None => True end ->
  (if decide (letters ++ rest = []) then str = seen else str = []) ->
  (length letters < fuel)%nat ->
  scan fuel (pre ++ percent :: seen ++ letters ++ rest) (length pre) (length pre + 1 + length seen) str
  = Some ((length pre + 1 + length seen + length letters)%nat, seen ++ letters).
Proof.
  intros Hl Hr. revert fuel seen str. induction Hl as [|c letters Hc Hl IH]; intros fuel seen str Hs Hf;
    (destruct fuel as [|fuel]; [cbn in Hf; lia|]); cbn [scan].
  - cbn [app] in *. set (pat := pre ++ percent :: seen ++ rest).
    assert (E : pat = (pre ++ [percent] ++ seen) ++ rest) by (unfold pat; by rewrite <- !app_assoc).
    assert (Hn : (length pre + 1 + length seen)%nat = length (pre ++ [percent] ++ seen))
      by (rewrite !length_app; cbn; lia).
    rewrite app_nil_r. cbn [length]. rewrite Nat.add_0_r. destruct rest as [|c rest].
    + rewrite lookup_ge_None_2 by (rewrite E, app_nil_r; lia). by rewrite decide_True in Hs by done; subst.
    + rewrite E, Hn at 1. rewrite lookup_mid, Hr. cbn [negb]. do 2 f_equal.
      apply (substr_mid _ (pre ++ [percent]) _ (c :: rest));
        [unfold pat; by rewrite <- app_assoc|rewrite length_app; cbn; lia|lia].
  - rewrite decide_False in Hs by done. subst str.
    set (pat := pre ++ percent :: seen ++ (c :: letters) ++ rest).
    assert (E : pat = (pre ++ [percent] ++ seen) ++ c :: letters ++ rest) by (unfold pat; by rewrite <- !app_assoc).
    assert (Hn : (length pre + 1 + length seen)%nat = length (pre ++ [percent] ++ seen))
      by (rewrite !length_app; cbn; lia).
    assert (Hlook : pat !! (length pre + 1 + length seen)%nat = Some c) by (rewrite E, Hn; apply lookup_mid).
    rewrite Hlook, Hc. cbn [negb].
    specialize (IH fuel (seen ++ [c])).
    rewrite length_app in IH. cbn [length] in IH.
    replace (pre ++ percent :: (seen ++ [c]) ++ letters ++ rest) with pat in IH
      by (unfold pat; by rewrite <- !app_assoc).
    rewrite <- !app_assoc in IH. cbn [app] in IH.
    replace (length pre + 1 + (length seen + 1))%nat with (S (length pre + 1 + length seen)) in IH by lia.
    rewrite IH.
    + do 2 f_equal. cbn [length]. lia.
    + rewrite andb_true_r. assert (Hlen : length pat = (S (length pre + 1 + length seen) + length (letters ++ rest))%nat)
        by (rewrite E, length_app; cbn [length]; rewrite Hn; lia).
      rewrite Hlen. destruct (letters ++ rest) as [|y l] eqn:Elr; cbn [length].
      * rewrite Nat.add_0_r, Nat.eqb_refl, decide_True by done.
        apply (substr_mid _ (pre ++ [percent]) _ []); [|rewrite !length_app; cbn; lia..].
        rewrite E. by rewrite <- !app_assoc.
      * rewrite decide_False by done. destruct (Nat.eqb_spec (S (length pre + 1 + length seen))
          (S (length pre + 1 + length seen) + S (length l))); [lia|done].
    + cbn in Hf. lia.
Qed.

(** Letters up to the first character that is none. *)
Fixpoint span (l : bytes) : bytes * bytes :=
  match l with
  | [] => ([], [])
  | c :: l' => if isalpha c then let '(a, b) := span l' in (c :: a, b) else ([], l)
  end.

Lemma span_spec l :
  let '(a, b) := span l in
  l = a ++ b /\ Forall (fun c => isalpha c = true) a /\ match head b with Some c => isalpha c = false | None => True end.
Proof.
  induction l as [|c l IH]; cbn [span]; [done|]. destruct (isalpha c) eqn:E; [|by split_and!].
  destruct (span l) as [a b]. destruct IH as (-> & Ha & Hb). split_and!; [done|by constructor|done].
Qed.

Lemma flush_app s vec : flush s vec = vec ++ flush s [].
Proof. destruct s; cbn; [by rewrite app_nil_r|done]. Qed.

Lemma render_app ps qs : render (ps ++ qs) = render ps ++ render qs.
Proof. unfold render. by rewrite map_app, concat_app. Qed.

Lemma render_flush s : render (flush s []) = s.
Proof. destruct s; cbn; [done|]. unfold render. cbn. by rewrite app_nil_r. Qed.

Lemma wellFormed_flush s ps : wellFormed ps -> wellFormed (flush s [] ++ ps).
Proof. by destruct s. Qed.

(** One directive, read from its percent sign. *)
Lemma pieces_directive fuel pre str rest s vec :
  Forall (fun c => isalpha c = true) str ->
  match head rest with Some c => isalpha c = false | None => True end ->
  head (str ++ rest) <> Some percent ->
  pieces (S fuel) (pre ++ percent :: str ++ rest) (length pre) s vec
  = pieces fuel (pre ++ percent :: str ++ rest) (length pre + 1 + length str) [] (flush s vec ++ [Directive str]).
Proof.
  intros Ha Hr Hn. cbn [pieces]. rewrite lookup_mid, bool_decide_true by done. cbn [negb].
  rewrite bool_decide_false.
  2: { replace (S (length pre)) with (length (pre ++ [percent])) by (rewrite length_app; cbn; lia).
       replace (pre ++ percent :: str ++ rest) with ((pre ++ [percent]) ++ str ++ rest) by (by rewrite <- app_assoc).
       rewrite lookup_app_r, Nat.sub_diag by lia. by destruct (str ++ rest). }
  pose proof (scan_spec (S (length (pre ++ percent :: str ++ rest))) pre [] str rest [] Ha Hr) as E.
  cbn [app length] in E. rewrite Nat.add_0_r in E. replace (S (length pre)) with (length pre + 1)%nat by lia.
  rewrite E; [done|by destruct (decide _)|rewrite !length_app; cbn; rewrite length_app; lia].
Qed.

(** The loop returns for every pattern; its pieces are the pattern itself. *)
Lemma pieces_total suf : forall fuel pre s vec,
  (length suf < fuel)%nat ->
  exists ps, pieces fuel (pre ++ suf) (length pre) s vec = Some (vec ++ ps) /\ render ps = s ++ suf /\ wellFormed ps.
Proof.
  induction suf as [suf IH] using (induction_ltof1 _ (@length ascii)). unfold ltof in IH. intros fuel pre s vec Hf.
  destruct fuel as [|fuel]; [lia|]. destruct suf as [|c suf].
  - exists (flush s []). cbn [pieces]. rewrite lookup_ge_None_2 by (rewrite app_nil_r; lia).
    split_and!; [by rewrite flush_app|by rewrite render_flush, app_nil_r|by destruct s].
  - assert (Hstep : forall s', exists ps, pieces fuel (pre ++ c :: suf) (S (length pre)) s' vec = Some (vec ++ ps)
      /\ render ps = s' ++ suf /\ wellFormed ps).
    { intros s'. specialize (IH suf ltac:(cbn; lia) fuel (pre ++ [c]) s' vec ltac:(cbn in Hf; lia)).
      rewrite length_app, <- app_assoc in IH. cbn in IH. by rewrite Nat.add_1_r in IH. }
    destruct (decide (c = percent)) as [->|Hc].
    + destruct (decide (head suf = Some percent)) as [Hp|Hp].
      * cbn [pieces]. rewrite lookup_mid, bool_decide_true by done. cbn [negb]. rewrite bool_decide_true.
        -- destruct (Hstep (s ++ [percent])) as (ps & E & Er & Hw). exists ps.
           split_and!; [done| |done]. by rewrite Er, <- app_assoc.
        -- destruct suf as [|d suf]; [done|]. injection Hp as ->.
           replace (S (length pre)) with (length (pre ++ [percent])) by (rewrite length_app; cbn; lia).
           change (percent :: percent :: suf) with ([percent] ++ percent :: suf). rewrite app_assoc. apply lookup_mid.
      * pose proof (span_spec suf) as Hsp. destruct (span suf) as [str rest]. destruct Hsp as (-> & Ha & Hr).
        rewrite pieces_directive by done.
        destruct (IH rest ltac:(cbn; rewrite length_app; lia) fuel (pre ++ percent :: str) []
          (flush s vec ++ [Directive str])) as (ps & E & Er & Hw); [cbn in Hf; rewrite length_app in Hf; lia|].
        rewrite <- app_assoc in E. cbn [app] in E.
        replace (length (pre ++ percent :: str)) with (length pre + 1 + length str)%nat in E
          by (rewrite length_app; cbn; lia).
        rewrite E, flush_app. exists (flush s [] ++ Directive str :: ps). split_and!.
        -- by rewrite <- !app_assoc.
        -- rewrite render_app, render_flush. unfold render at 1. cbn [map render1 List.concat].
           fold (render ps). by rewrite Er.
        -- apply wellFormed_flush. cbn [wellFormed]. rewrite Er. done.
    + cbn [pieces]. rewrite lookup_mid, bool_decide_false by done. cbn [negb].
      destruct (Hstep (s ++ [c])) as (ps & E & Er & Hw). exists ps. split_and!; [done| |done].
      by rewrite Er, <- app_assoc.
Qed.

(** Text without percent signs that no other text follows; a lone percent
    sign is not followed by another one. *)
Fixpoint canonical (ps : list Piece) : Prop :=
  match ps with
  | [] => True
  | Text s :: ps => ~ (percent ∈ s) /\ (match ps with Text _ :: _ => False | _ => True end) /\ canonical ps
  | Directive str :: ps => (match str, ps with [], Directive _ :: _ => False | _, _ => True end) /\ canonical ps
  end.

Lemma pieces_text t : forall fuel pre rest s vec,
  percent ∉ t ->
  pieces (length t + fuel) (pre ++ t ++ rest) (length pre) s vec
  = pieces fuel (pre ++ t ++ rest) (length pre + length t) (s ++ t) vec.
Proof.
  induction t as [|c t IH]; intros fuel pre rest s vec Hp.
  - cbn. by rewrite Nat.add_0_r, app_nil_r.
  - apply not_elem_of_cons in Hp as [Hc Hp]. cbn [length Nat.add pieces app].
    rewrite lookup_mid, bool_decide_false by congruence. cbn [negb].
    specialize (IH fuel (pre ++ [c]) rest (s ++ [c]) vec Hp). rewrite <- !app_assoc in IH. cbn [app] in IH.
    rewrite length_app in IH. cbn [length] in IH. rewrite Nat.add_1_r in IH. rewrite IH.
    f_equal. lia.
Qed.

Lemma head_render_directive str ps :
  wellFormed (Directive str :: ps) -> canonical (Directive str :: ps) -> head (str ++ render ps) <> Some percent.
Proof.
  intros (Ha & Hr & Hw) [Hn Hc]. destruct str as [|c str].
  - destruct ps as [|[t|d] ps]; [done| |done]. destruct Hw as [Ht _], Hc as [Hp _].
    destruct t as [|x t]; [done|]. cbn. intros [= ->]. by apply Hp; left.
  - apply Forall_cons in Ha as [Hx _]. intros [= ->]. by vm_compute in Hx.
Qed.

Lemma pieces_canonical ps : forall fuel pre s vec,
  wellFormed ps -> canonical ps -> (s <> [] -> match ps with Text _ :: _ => False | _ => True end) ->
  (length (render ps) < fuel)%nat ->
  pieces fuel (pre ++ render ps) (length pre) s vec = Some (flush s vec ++ ps).
Proof.
  induction ps as [|[t|str] ps IH]; intros fuel pre s vec Hw Hc Hs Hf.
  - destruct fuel as [|fuel]; [cbn in Hf; lia|]. cbn [pieces]. change (render []) with (@nil ascii).
    rewrite app_nil_r, lookup_ge_None_2 by lia. by rewrite app_nil_r.
  - destruct Hw as [Ht Hw], Hc as (Hp & Hnt & Hc). destruct s as [|x s]; [|by destruct Hs].
    change (render (Text t :: ps)) with (t ++ render ps) in *. rewrite length_app in Hf.
    replace fuel with (length t + (fuel - length t))%nat by lia. rewrite pieces_text by done.
    specialize (IH (fuel - length t)%nat (pre ++ t) t vec Hw Hc (fun _ => Hnt) ltac:(lia)).
    rewrite <- app_assoc, length_app in IH. cbn [app]. rewrite IH. destruct t; [done|]. cbn [flush].
    by rewrite <- app_assoc.
  - pose proof (head_render_directive str ps Hw Hc) as Hh. destruct Hw as (Ha & Hr & Hw), Hc as [_ Hc].
    change (render (Directive str :: ps)) with (percent :: str ++ render ps) in *.
    destruct fuel as [|fuel]; [lia|]. rewrite pieces_directive by done.
    cbn [length] in Hf. rewrite length_app in Hf.
    specialize (IH fuel (pre ++ percent :: str) [] (flush s vec ++ [Directive str]) Hw Hc ltac:(done) ltac:(lia)).
    rewrite <- app_assoc in IH. cbn [app] in IH.
    replace (length (pre ++ percent :: str)) with (length pre + 1 + length str)%nat in IH
      by (rewrite length_app; cbn; lia).
    rewrite IH. cbn [flush]. by rewrite <- app_assoc.
Qed.

(** C29: the formatter's constructor returns for every pattern; the pieces it
    makes, printed one after the other, are the pattern itself, so that
    nothing is dropped (in particular a doubled percent sign stays doubled);
    a directive is the longest run of letters after its sign; and every
    sequence of pieces in canonical form is read back from its pattern. *)
Theorem pattern_pieces :
  (forall pattern_, exists ps, parsePattern pattern_ = Some ps /\ render ps = pattern_ /\ wellFormed ps)
  /\ (forall ps, wellFormed ps -> canonical ps -> parsePattern (render ps) = Some ps).
Proof.
  split.
  - intros p. destruct (pieces_total p (S (length p)) [] [] [] ltac:(lia)) as (ps & E & Er & Hw). by exists ps.
  - intros ps Hw Hc. exact (pieces_canonical ps (S (length (render ps))) [] [] [] Hw Hc ltac:(done) ltac:(lia)).
Qed.

(** ** The items *)

Section Format.
(** [strftime] of the local time, up to the terminating zero. *)
Variable strftime : Z -> bytes.

(** The thread-local cache of the formatted second. *)
Record TimeCache := { t_time : bytes; t_last_second : Z }.
Definition emptyCache : TimeCache := {| t_time := []; t_last_second := 0 |}.

(** What one item writes; only the time item touches the cache. *)
Definition formatItem (it : FmtItem) (data : LogData) (c : TimeCache) : bytes * TimeCache :=
  match it with
  | MessageFmtItem => (content_ data, c)
  | LevelFmtItem => (ToString (level_ data), c)
  | DateTimeFmtItem =>
      let second := time_ data in
      let c := if bool_decide (second <> t_last_second c)
               then {| t_time := strftime second; t_last_second := second |} else c in
      (t_time c, c)
  | ThreadIdFmtItem => (dec (threadId_ data), c)
  | CoroutineIdFmtItem => (dec (coroutineId_ data), c)
  | ThreadNameFmtItem => (threadName_ data, c)
  | FileNameFmtItem => (fileName_ data, c)
  | LineFmtItem => (dec (line_ data), c)
  | NextLineFmtItem => ([ascii_of_nat 10], c)
  | TableFmtItem => ([ascii_of_nat 9], c)
  | StringFmtItem s => (s, c)
  end.

Fixpoint format (items_ : list FmtItem) (data : LogData) (c : TimeCache) : bytes * TimeCache :=
  match items_ with
  | [] => ([], c)
  | it :: items_ =>
      let '(s, c) := formatItem it data c in
      let '(ss, c) := format items_ data c in (s ++ ss, c)
  end.

(** Formatting without a cache. *)
Definition plainItem (it : FmtItem) (data : LogData) : bytes :=
  match it with DateTimeFmtItem => strftime (time_ data) | _ => fst (formatItem it data emptyCache) end.
Definition plainFormat (items_ : list FmtItem) (data : LogData) : bytes :=
  List.concat (map (fun it => plainItem it data) items_).

(** The cache holds what [strftime] gives for its second, if it was ever set. *)
Definition CacheOk (c : TimeCache) : Prop := t_last_second c <> 0 -> t_time c = strftime (t_last_second c).

Lemma formatItem_plain it data c :
  CacheOk c -> time_ data <> 0 ->
  exists c', formatItem it data c = (plainItem it data, c') /\ CacheOk c'.
Proof.
  intros Hc Ht. destruct it; try by eexists. cbn.
  destruct (decide (time_ data = t_last_second c)) as [E|E].
  - rewrite bool_decide_false by (intros H; by apply H). exists c. split; [|done]. by rewrite Hc, E by congruence.
  - rewrite bool_decide_true by done. by eexists.
Qed.

Lemma format_plain items data c :
  CacheOk c -> time_ data <> 0 -> exists c', format items data c = (plainFormat items data, c') /\ CacheOk c'.
Proof.
  intros Hc Ht. revert c Hc. induction items as [|it items IH]; intros c Hc; cbn [format]; [by exists c|].
  destruct (formatItem_plain it data c Hc Ht) as (c1 & -> & H1). destruct (IH c1 H1) as (c2 & -> & H2).
  by exists c2.
Qed.

(** ** The logger *)

(** What an appender has: the console's output, or a log of its own. *)
Inductive Appender := ConsoleAppender (out : bytes) | FileAppender (log_ : AsyncLog).

Record Logger := {
  minLevel : Level;
  formatter_ : list FmtItem;
  appender_ : Appender;
  caches : gmap Z TimeCache  (* by thread *)
}.

(** [printf] of a format string and one [size_t]. *)
Variable printf : bytes -> Z -> bytes.

(** A C string ends before its first zero. *)
Fixpoint c_str (s : bytes) : bytes :=
  match s with
  | [] => []
  | c :: s => if bool_decide (c = zeroc) then [] else c :: c_str s
  end.

Definition consoleAppend (logline out : bytes) : bytes := out ++ printf (c_str logline) (zlen logline).

Definition newFileAppender : Appender :=
  match AsyncLog.start newAsyncLog with Next a => FileAppender a | _ => FileAppender newAsyncLog end.

Definition s_defaultLogFormat : bytes := bs "[%p %d]%T[%t %N %c]%T%f:%l %T%m%n".

Definition newLogger : option Logger :=
  match init s_defaultLogFormat with
  | Some items => Some {| minLevel := DEBUG; formatter_ := items; appender_ := newFileAppender; caches := ∅ |}
  | None => None
  end.

(** [None]: a null pointer in the asynchronous log. *)
Definition appendLine (logline : bytes) (a : Appender) : option Appender :=
  match a with
  | ConsoleAppender out => Some (ConsoleAppender (consoleAppend logline out))
  | FileAppender l => match AsyncLog.append logline l with Next l => Some (FileAppender l) | _ => None end
  end.

(** [Logger::append] on the thread of the record. *)
Definition append (data : LogData) (g : Logger) : option Logger :=
  let c := default emptyCache (caches g !! threadId_ data) in
  let '(logline, c) := format (formatter_ g) data c in
  match appendLine logline (appender_ g) with
  | Some a => Some {| minLevel := minLevel g; formatter_ := formatter_ g; appender_ := a;
                      caches := <[threadId_ data := c]> (caches g) |}
  | None => None
  end.

(** The record of one statement, which [LogDataWrap] holds. *)
Definition newLogData (level : Level) (time threadId coroutineId : Z) (threadName fileName : bytes) (line : Z)
    : LogData :=
  {| level_ := level; content_ := []; time_ := time; threadId_ := threadId; coroutineId_ := coroutineId;
     threadName_ := threadName; fileName_ := fileName; line_ := line |}.

(** What a statement streams into it, or what [vasprintf] made of the arguments
    of [LogData::format] ([None]: it failed). *)
Inductive Put := Stream (s : bytes) | Format (buf : option bytes).

Definition put (d : LogData) (p : Put) : LogData :=
  let s := match p with Stream s => s | Format buf => default [] buf end in
  {| level_ := level_ d; content_ := content_ d ++ s; time_ := time_ d; threadId_ := threadId_ d;
     coroutineId_ := coroutineId_ d; threadName_ := threadName_ d; fileName_ := fileName_ d; line_ := line_ d |}.

Definition puts (d : LogData) (ps : list Put) : LogData := foldl put d ps.

(** [LOG_LEVEL] and [LOG_FMT]: the record is made and filled only when the
    level allows it; the destructor of [LogDataWrap] appends it. *)
Definition logAt (data : LogData) (ps : list Put) (g : Logger) : option Logger :=
  if levelNum (minLevel g) <=? levelNum (level_ data) then append (puts data ps) g else Some g.

Lemma puts_fields d ps :
  level_ (puts d ps) = level_ d /\ time_ (puts d ps) = time_ d.
Proof. unfold puts. revert d. induction ps as [|p ps IH]; intros d; cbn; [done|]. by destruct (IH (put d p)) as [-> ->]. Qed.

Definition setLevel (l : Level) (g : Logger) : Logger :=
  {| minLevel := l; formatter_ := formatter_ g; appender_ := appender_ g; caches := caches g |}.

Definition setFormatter (pattern_ : bytes) (g : Logger) : option Logger :=
  match init pattern_ with
  | Some items => Some {| minLevel := minLevel g; formatter_ := items; appender_ := appender_ g; caches := caches g |}
  | None => None
  end.

(** The appender that is replaced is destroyed, a log of it stopped; no later
    call sees it. *)
Definition setConsoleAppender (out : bytes) (g : Logger) : Logger :=
  {| minLevel := minLevel g; formatter_ := formatter_ g; appender_ := ConsoleAppender out; caches := caches g |}.

Definition setFileAppender (g : Logger) : Logger :=
  {| minLevel := minLevel g; formatter_ := formatter_ g; appender_ := newFileAppender; caches := caches g |}.

(** What happens to a logger with a file appender: calls of its clients and
    steps of its log thread. *)
Inductive Event :=
| ELog (data : LogData) (ps : list Put)
| ESetLevel (l : Level)
| ESetFormatter (pattern_ : bytes)
| EThread (env : nat -> Answers).

Variable getFileName : Z -> string.

Definition happen (e : Event) (g : Logger) : option Logger :=
  match e with
  | ELog data ps => logAt data ps g
  | ESetLevel l => Some (setLevel l g)
  | ESetFormatter p => setFormatter p g
  | EThread env =>
      match appender_ g with
      | ConsoleAppender _ => Some g
      | FileAppender l =>
          match tick getFileName env l with
          | Next l => Some {| minLevel := minLevel g; formatter_ := formatter_ g; appender_ := FileAppender l;
                              caches := caches g |}
          | Blocked => Some g
          | NullDeref | BadDetach => None
          end
      end
  end.

Fixpoint happenAll (es : list Event) (g : Logger) : option Logger :=
  match es with
  | [] => Some g
  | e :: es => match happen e g with Some g => happenAll es g | None => None end
  end.

(** The lines that should be written: the records at or above the level of
    the moment, in the format of the moment. *)
Fixpoint linesOf (es : list Event) (l : Level) (items : list FmtItem) : list bytes :=
  match es with
  | [] => []
  | ELog data ps :: es =>
      if levelNum l <=? levelNum (level_ data) then plainFormat items (puts data ps) :: linesOf es l items
      else linesOf es l items
  | ESetLevel l :: es => linesOf es l items
  | ESetFormatter p :: es => linesOf es l (default items (init p))
  | EThread _ :: es => linesOf es l items
  end.

Definition eventOk (e : Event) : Prop :=
  match e with ELog data _ => time_ data <> 0 | EThread env => forall n, healthy (env n) | _ => True end.

Definition kept (line : bytes) : bytes := if zlen line <=? kBufferSize then line else [].

Lemma init_total p : exists items, init p = Some items.
Proof.
  destruct (pieces_total p (S (length p)) [] [] [] ltac:(lia)) as (ps & E & _).
  exists (map toItem ps). unfold init, parsePattern. cbn [app length] in E. by rewrite E.
Qed.

(** A logger whose log is in order. *)
Definition LoggerOk (g : Logger) (out : bytes) : Prop :=
  (exists l, appender_ g = FileAppender l /\ AsyncOk l /\ inFlight l = out)
  /\ forall t c, caches g !! t = Some c -> CacheOk c.

Lemma append_logged data g out :
  LoggerOk g out -> time_ data <> 0 ->
  exists g', append data g = Some g' /\ minLevel g' = minLevel g /\ formatter_ g' = formatter_ g
    /\ LoggerOk g' (out ++ kept (plainFormat (formatter_ g) data)).
Proof.
  intros [(l & Ea & Hl & Ho) Hc] Ht. unfold append.
  set (c := default emptyCache (caches g !! threadId_ data)).
  assert (Hc0 : CacheOk c).
  { unfold c. destruct (caches g !! threadId_ data) eqn:E; [by apply (Hc _ _ E)|by intros []]. }
  destruct (format_plain (formatter_ g) data c Hc0 Ht) as (c' & -> & Hc').
  rewrite Ea. unfold appendLine.
  destruct (append_ok (plainFormat (formatter_ g) data) l Hl) as (l' & -> & Hl' & Hi).
  eexists. split; [done|]. split_and!; [done..|]. split.
  - exists l'. split_and!; [done..|]. by rewrite Hi, Ho.
  - intros t x. cbn. intros [[_ <-]|[_ Hx]]%lookup_insert_Some; [done|by apply (Hc t)].
Qed.

Lemma happen_ok e g out :
  LoggerOk g out -> eventOk e ->
  exists g', happen e g = Some g'
    /\ LoggerOk g' (out ++ List.concat (map kept (linesOf [e] (minLevel g) (formatter_ g))))
    /\ forall es, linesOf (e :: es) (minLevel g) (formatter_ g)
        = linesOf [e] (minLevel g) (formatter_ g) ++ linesOf es (minLevel g') (formatter_ g').
Proof.
  intros Hg He. destruct e as [data ps|l|p|env]; cbn [happen linesOf].
  - unfold logAt. destruct (levelNum (minLevel g) <=? levelNum (level_ data)).
    + destruct (append_logged (puts data ps) g out Hg ltac:(by rewrite (proj2 (puts_fields data ps)))) as (g' & E & Hm & Hf & Hok). exists g'. rewrite Hm, Hf. cbn.
      by rewrite app_nil_r.
    + exists g. cbn. by rewrite app_nil_r.
  - exists (setLevel l g). cbn. by rewrite app_nil_r.
  - destruct (init_total p) as [items E]. unfold setFormatter. rewrite E. eexists. cbn. by rewrite app_nil_r.
  - cbn [map List.concat]. rewrite app_nil_r. destruct Hg as [(l & Ea & Hl & Ho) Hc]. rewrite Ea.
    destruct (async_step_ok getFileName (LTick env) l Hl) as [E|(l' & E & Hl' & Hi)]; cbn [step] in E.
    + assert (Et : tick getFileName env l = Blocked).
      { unfold tick in *. destruct (pc l); try done. unfold writeAndRecycle in *.
        destruct (writeAll _ _ _ _ _); [|done]. by destruct (buffers l) as [|[] ?]. }
      rewrite Et. exists g. split; [done|]. split; [|done]. split; [by exists l|done].
    + rewrite E. eexists. split; [done|]. split; [|done]. split; [|done]. exists l'. split_and!; [done..|].
      rewrite Hi, Ho by done. by rewrite app_nil_r.
Qed.

Lemma happenAll_ok es g out :
  LoggerOk g out -> Forall eventOk es ->
  exists g', happenAll es g = Some g'
    /\ LoggerOk g' (out ++ List.concat (map kept (linesOf es (minLevel g) (formatter_ g)))).
Proof.
  revert g out. induction es as [|e es IH]; intros g out Hg He; cbn [happenAll].
  - exists g. cbn. by rewrite app_nil_r.
  - apply Forall_cons in He as [He Hes]. destruct (happen_ok e g out Hg He) as (g1 & -> & H1 & Hl).
    destruct (IH g1 _ H1 Hes) as (g2 & -> & H2). exists g2. split; [done|].
    by rewrite Hl, map_app, concat_app, app_assoc.
Qed.

(** C14: whatever a program does with a logger that writes to a file -- records
    of any threads, changes of the level and of the pattern -- and however
    these calls interleave with the log thread, the bytes on their way to the
    file are the records at or above the level of the moment, formatted with
    the pattern of the moment and the time of the record, in their order; no
    call follows a null pointer. *)
Theorem logger_lines es :
  Forall eventOk es ->
  exists items g g' l, init s_defaultLogFormat = Some items /\ newLogger = Some g /\ happenAll es g = Some g'
    /\ appender_ g' = FileAppender l /\ inFlight l = List.concat (map kept (linesOf es DEBUG items)).
Proof.
  intros He. destruct (init_total s_defaultLogFormat) as [items Ei]. exists items. unfold newLogger. rewrite Ei.
  set (g := Build_Logger _ _ _ _). assert (Hg : LoggerOk g []).
  { split; [|intros t c Hx; cbn in Hx; by rewrite lookup_empty in Hx]. eexists. split; [done|]. split; [|done].
    destruct (async_step_ok getFileName LStart newAsyncLog newAsyncLog_ok) as [|(l & E & Hl & _)]; [done|].
    injection E as <-. exact Hl. }
  destruct (happenAll_ok es g [] Hg He) as (g' & E & (l & El & _ & Hi) & _). by exists g, g', l.
Qed.
End Format.

(** The default pattern, compiled. *)
Lemma default_items :
  init s_defaultLogFormat
  = Some [StringFmtItem (bs "["); LevelFmtItem; StringFmtItem (bs " "); DateTimeFmtItem; StringFmtItem (bs "]");
          TableFmtItem; StringFmtItem (bs "["); ThreadIdFmtItem; StringFmtItem (bs " "); ThreadNameFmtItem;
          StringFmtItem (bs " "); CoroutineIdFmtItem; StringFmtItem (bs "]"); TableFmtItem; FileNameFmtItem;
          StringFmtItem (bs ":"); LineFmtItem; StringFmtItem (bs " "); TableFmtItem; MessageFmtItem;
          NextLineFmtItem].
Proof. vm_compute. reflexivity. Qed.

(** A doubled percent sign is no escape. *)
Example double_percent : parsePattern (bs "50%%m") = Some [Text (bs "50%"); Directive (bs "m")].
Proof. vm_compute. reflexivity. Qed.

(** *** Witnesses *)

Lemma pattern_pieces_witness :
  let ps := [Text (bs "at "); Directive (bs "d"); Directive (bs "qq"); Text (bs ": ")] in
  parsePattern (bs "at %d%qq: ") = Some ps /\ wellFormed ps.
Proof.
  intros ps. assert (Hw : wellFormed ps).
  { unfold ps. cbn. split_and!; try done; repeat constructor. }
  split; [|exact Hw]. change (bs "at %d%qq: ") with (render ps). apply (proj2 pattern_pieces); [exact Hw|].
  unfold ps. cbn. split_and!; try done; rewrite !not_elem_of_cons; split_and!; try discriminate; apply not_elem_of_nil.
Defined.

Definition demoData (l : Level) : LogData := newLogData l 100 7 3 (bs "w") (bs "a.cc") 12.

Definition demoEvents : list Event :=
  [EThread (fun _ => allTaken); ELog (demoData WARN) [Stream (bs "o"); Stream (bs "ne")]; ESetLevel WARN; ELog (demoData INFO) [Stream (bs "two")];
   ESetFormatter (bs "%p:%m%n"); EThread (fun _ => allTaken); ELog (demoData FATAL) [Format (Some (bs "three"))]].

Lemma logger_lines_witness :
  exists items g g' l, init s_defaultLogFormat = Some items /\ newLogger = Some g
    /\ happenAll (fun _ => bs "now") (fun f _ => f) demoName demoEvents g = Some g' /\ appender_ g' = FileAppender l
    /\ inFlight l = List.concat (map kept (linesOf (fun _ => bs "now") demoEvents DEBUG items)).
Proof.
  apply (logger_lines (fun _ => bs "now") (fun f _ => f) demoName demoEvents). unfold demoEvents.
  repeat (apply Forall_cons; split; [first [done|by intros n; constructor]|]). constructor.
Defined.

(** The same lines, written out. *)
Example demo_lines items : init s_defaultLogFormat = Some items ->
  linesOf (fun _ => bs "now") demoEvents DEBUG items
  = [bs "[WARN now]" ++ [ascii_of_nat 9] ++ bs "[7 w 3]" ++ [ascii_of_nat 9] ++ bs "a.cc:12 " ++ [ascii_of_nat 9]
     ++ bs "one" ++ [ascii_of_nat 10]; bs "FATAL:three" ++ [ascii_of_nat 10]].
Proof. rewrite default_items. intros [= <-]. vm_compute. reflexivity. Qed.
