(* ===== verification/Hook.v ===== *)
(** * Descriptors and hooked system calls (src/reyao/fdmanager.*, hook.cc)

    The table of socket contexts and the functions that replace the C
    library's: blocking calls suspend the coroutine instead of the thread.
    The kernel is a parameter for the flags of descriptors; the results of
    the original functions and what wakes a suspended coroutine are scripts
    in the state, so that every theorem holds for every course of events. *)

From S2P Require Import Prelude Epoller.

Definition O_NONBLOCK : Z := 2 ^ 11.
Definition EINTR : Z := 4.
Definition EBADF : Z := 9.
Definition EAGAIN : Z := 11.
Definition ETIMEDOUT : Z := 110.
Definition EINPROGRESS : Z := 115.

Inductive TimeoutOpt := SO_RCVTIMEO | SO_SNDTIMEO.

(** The kernel's side of [fstat], [fcntl(F_GETFL/F_SETFL)] and
    [ioctl(FIONBIO)] (fcntl(2), ioctl_fionbio).  The status flags belong to the
    open file description, which the descriptors made by dup(2) or [F_DUPFD]
    share ([shares k fd]): setting them sets O_NONBLOCK as given for all of
    these and for no other. *)
Class Sys (K : Type) := {
  is_socket : K -> Z -> bool;
  shares : K -> Z -> Z -> bool;
  getfl : K -> Z -> Z;
  setfl : Z -> Z -> K -> Z * K;
  fionbio : Z -> bool -> K -> Z * K;
  shares_refl k fd : shares k fd fd = true;
  setfl_ok fd arg k k' : setfl fd arg k = (0, k') ->
    (forall g, shares k fd g = true -> Z.testbit (getfl k' g) 11 = Z.testbit arg 11)
    /\ (forall g, shares k fd g = false -> getfl k' g = getfl k g) /\ (forall g, is_socket k' g = is_socket k g);
  setfl_fail fd arg r k k' : setfl fd arg k = (r, k') -> r <> 0 ->
    forall g, getfl k' g = getfl k g /\ is_socket k' g = is_socket k g;
  fionbio_ok fd b k k' : fionbio fd b k = (0, k') ->
    (forall g, shares k fd g = true -> Z.testbit (getfl k' g) 11 = b)
    /\ (forall g, shares k fd g = false -> getfl k' g = getfl k g) /\ (forall g, is_socket k' g = is_socket k g);
  fionbio_fail fd b r k k' : fionbio fd b k = (r, k') -> r <> 0 ->
    forall g, getfl k' g = getfl k g /\ is_socket k' g = is_socket k g
}.

(** ** FdContext *)

Record FdContext := {
  isSock_ : bool;
  isSysNonblock_ : bool;
  isUserNonblock_ : bool;
  close_ : bool;
  fd_ : Z;
  recvTimeout_ : Z;
  sendTimeout_ : Z
}.

Definition setUserNonBlock (b : bool) (c : FdContext) : FdContext :=
  {| isSock_ := isSock_ c; isSysNonblock_ := isSysNonblock_ c; isUserNonblock_ := b;
     close_ := close_ c; fd_ := fd_ c; recvTimeout_ := recvTimeout_ c; sendTimeout_ := sendTimeout_ c |}.

Definition setTimeout (type : TimeoutOpt) (timeout : Z) (c : FdContext) : FdContext :=
  {| isSock_ := isSock_ c; isSysNonblock_ := isSysNonblock_ c; isUserNonblock_ := isUserNonblock_ c;
     close_ := close_ c; fd_ := fd_ c;
     recvTimeout_ := match type with SO_RCVTIMEO => timeout | SO_SNDTIMEO => recvTimeout_ c end;
     sendTimeout_ := match type with SO_SNDTIMEO => timeout | SO_RCVTIMEO => sendTimeout_ c end |}.

Definition getTimeout (type : TimeoutOpt) (c : FdContext) : Z :=
  match type with SO_RCVTIMEO => recvTimeout_ c | SO_SNDTIMEO => sendTimeout_ c end.

Section Hook.
Context {W C F KE K : Type} `{Epoll KE} `{Sys K}.

(** What the hooked calls ask of the scheduler's timers and of the kernel. *)
Inductive act :=
| SetTimer (ms : Z)
| CancelTimer
| Yield
| CloseOrigin (fd : Z).

(** The thread: its worker, the coroutine that runs, its poller; the table
    of contexts; the kernel; and the scripts: the results of the original
    calls, and for every suspension what [tinfo->cancelled] is and what the
    poller looks like when the coroutine runs again. *)
Record St := {
  t_hookEnable : bool;
  self : W;
  cur : C;
  poller : Epoller (W := W) (C := C) (F := F) (K := KE);
  fdcontexts_ : list (option FdContext);
  sys : K;
  errno : Z;
  calls : list (Z * Z);
  wakes : list (Z * Epoller (W := W) (C := C) (F := F) (K := KE));
  acts : list act
}.

Definition setHook b (s : St) : St :=
  {| t_hookEnable := b; self := self s; cur := cur s; poller := poller s;
     fdcontexts_ := fdcontexts_ s; sys := sys s; errno := errno s; calls := calls s; wakes := wakes s;
     acts := acts s |}.
Definition setContexts l (s : St) : St :=
  {| t_hookEnable := t_hookEnable s; self := self s; cur := cur s; poller := poller s;
     fdcontexts_ := l; sys := sys s; errno := errno s; calls := calls s; wakes := wakes s;
     acts := acts s |}.
Definition setSys k (s : St) : St :=
  {| t_hookEnable := t_hookEnable s; self := self s; cur := cur s; poller := poller s;
     fdcontexts_ := fdcontexts_ s; sys := k; errno := errno s; calls := calls s; wakes := wakes s;
     acts := acts s |}.
Definition setErrno e (s : St) : St :=
  {| t_hookEnable := t_hookEnable s; self := self s; cur := cur s; poller := poller s;
     fdcontexts_ := fdcontexts_ s; sys := sys s; errno := e; calls := calls s; wakes := wakes s;
     acts := acts s |}.
Definition setPoller p (s : St) : St :=
  {| t_hookEnable := t_hookEnable s; self := self s; cur := cur s; poller := p;
     fdcontexts_ := fdcontexts_ s; sys := sys s; errno := errno s; calls := calls s; wakes := wakes s;
     acts := acts s |}.
Definition setCalls l (s : St) : St :=
  {| t_hookEnable := t_hookEnable s; self := self s; cur := cur s; poller := poller s;
     fdcontexts_ := fdcontexts_ s; sys := sys s; errno := errno s; calls := l; wakes := wakes s;
     acts := acts s |}.
Definition setWakes l (s : St) : St :=
  {| t_hookEnable := t_hookEnable s; self := self s; cur := cur s; poller := poller s;
     fdcontexts_ := fdcontexts_ s; sys := sys s; errno := errno s; calls := calls s; wakes := l;
     acts := acts s |}.
Definition act_ (a : act) (s : St) : St :=
  {| t_hookEnable := t_hookEnable s; self := self s; cur := cur s; poller := poller s;
     fdcontexts_ := fdcontexts_ s; sys := sys s; errno := errno s; calls := calls s;
     wakes := wakes s; acts := acts s ++ [a] |}.

(** The original function: the next result of the script. *)
Definition origin : M St Z := fun s =>
  match calls s with
  | [] => (Throw NoFuel, s)
  | (n, e) :: l => (Ok n, (if n =? -1 then setErrno e else id) (setCalls l s))
  end.

(** [Coroutine::YieldToSuspend]: the coroutine runs again, by the script. *)
Definition YieldToSuspend : M St Z := fun s =>
  match wakes s with
  | [] => (Throw NoFuel, s)
  | (cancelled, p) :: l => (Ok cancelled, act_ Yield (setPoller p (setWakes l s)))
  end.

Definition onPoller {A} (m : M (Epoller (W := W) (C := C) (F := F) (K := KE)) A) : M St A :=
  zoom poller setPoller m.

(** [Worker::AddEvent(fd, type)] in a coroutine. *)
Definition AddEvent (fd type : Z) : M St bool :=
  s <-- gets id ;; onPoller (addEvent (self s) (cur s) fd type None).

(** ** FdContext::init and FdManager *)

Definition initContext (fd : Z) : M St FdContext :=
  k <-- gets sys ;;
  if is_socket k fd then
    (if Z.land (getfl k fd) O_NONBLOCK =? 0
     then modify (fun s => setSys (snd (setfl fd (Z.lor (getfl k fd) O_NONBLOCK) k)) s)
     else ret tt) ;;;
    ret {| isSock_ := true; isSysNonblock_ := true; isUserNonblock_ := false; close_ := false;
           fd_ := fd; recvTimeout_ := -1; sendTimeout_ := -1 |}
  else
    ret {| isSock_ := false; isSysNonblock_ := false; isUserNonblock_ := false; close_ := false;
           fd_ := fd; recvTimeout_ := -1; sendTimeout_ := -1 |}.

Definition getFdContext (fd : Z) : M St (option FdContext) :=
  s <-- gets id ;;
  assert_ (0 <=? fd) ;;;
  ret (if zlen (fdcontexts_ s) <=? fd then None else default None (fdcontexts_ s !! Z.to_nat fd)).

(** [fd * 1.5] slots, of which [fd] must be one. *)
Definition addFd (fd : Z) : M St unit :=
  s <-- gets id ;;
  (if zlen (fdcontexts_ s) <=? fd
   then modify (setContexts (resize (Z.to_nat (fd * 3 / 2)) None (fdcontexts_ s)))
   else ret tt) ;;;
  c <-- initContext fd ;;
  s <-- gets id ;;
  check ((0 <=? fd) && (fd <? zlen (fdcontexts_ s))) Undefined ;;;
  modify (setContexts (<[Z.to_nat fd := Some c]> (fdcontexts_ s))).

Definition delFd (fd : Z) : M St unit :=
  s <-- gets id ;;
  if fd <? zlen (fdcontexts_ s) then modify (setContexts (<[Z.to_nat fd := None]> (fdcontexts_ s)))
  else ret tt.

(** A change of the shared context object. *)
Definition updContext (fd : Z) (f : FdContext -> FdContext) : M St unit :=
  modify (fun s => setContexts (alter (fmap f) (Z.to_nat fd) (fdcontexts_ s)) s).

(** ** do_io *)

(** [while (n == -1 && errno == EINTR)], on the script. *)
Fixpoint again_on_EINTR (fuel : nat) : M St Z :=
  match fuel with
  | O => throw NoFuel
  | S fuel =>
      n <-- origin ;;
      e <-- gets errno ;;
      if (n =? -1) && (e =? EINTR) then again_on_EINTR fuel else ret n
  end.

(** From [retry:] on. *)
Fixpoint retry (fuel : nat) (fd type timeout : Z) : M St Z :=
  match fuel with
  | O => throw NoFuel
  | S fuel =>
      k <-- gets (fun s => length (calls s)) ;;
      n <-- again_on_EINTR (S k) ;;
      e <-- gets errno ;;
      if (n =? -1) && (e =? EAGAIN) then
        (if timeout =? -1 then ret tt else modify (act_ (SetTimer timeout))) ;;;
        ok <-- AddEvent fd type ;;
        if negb ok then
          (if timeout =? -1 then ret tt else modify (act_ CancelTimer)) ;;;
          ret (-1)
        else
          cancelled <-- YieldToSuspend ;;
          (if timeout =? -1 then ret tt else modify (act_ CancelTimer)) ;;;
          if cancelled =? 0 then retry fuel fd type timeout
          else modify (setErrno cancelled) ;;; ret (-1)
      else ret n
  end.

Definition do_io (fd type : Z) (timeoutSo : TimeoutOpt) : M St Z :=
  s <-- gets id ;;
  if negb (t_hookEnable s) then origin
  else
    fdctx <-- getFdContext fd ;;
    match fdctx with
    | None => origin
    | Some c =>
        if close_ c then modify (setErrno EBADF) ;;; ret (-1)
        else if negb (isSock_ c) || isUserNonblock_ c then origin
        else
          n <-- gets (fun s => length (wakes s)) ;;
          retry (S n) fd type (getTimeout timeoutSo c)
    end.

(** The hooked reads and writes. *)
Definition read (fd : Z) := do_io fd EPOLLIN SO_RCVTIMEO.
Definition readv (fd : Z) := do_io fd EPOLLIN SO_RCVTIMEO.
Definition recv (fd : Z) := do_io fd EPOLLIN SO_RCVTIMEO.
Definition recvfrom (fd : Z) := do_io fd EPOLLIN SO_RCVTIMEO.
Definition recvmsg (fd : Z) := do_io fd EPOLLIN SO_RCVTIMEO.
Definition recvmmsg (fd : Z) := do_io fd EPOLLIN SO_RCVTIMEO.
Definition write (fd : Z) := do_io fd EPOLLOUT SO_SNDTIMEO.
Definition writev (fd : Z) := do_io fd EPOLLOUT SO_SNDTIMEO.
Definition send (fd : Z) := do_io fd EPOLLOUT SO_SNDTIMEO.
Definition sendto (fd : Z) := do_io fd EPOLLOUT SO_SNDTIMEO.
Definition sendmsg (fd : Z) := do_io fd EPOLLOUT SO_SNDTIMEO.
Definition sendmmsg (fd : Z) := do_io fd EPOLLOUT SO_SNDTIMEO.

Definition accept (fd : Z) : M St Z :=
  new <-- do_io fd EPOLLIN SO_RCVTIMEO ;;
  (if 0 <=? new then addFd new else ret tt) ;;;
  ret new.

(** ** socket, connect, close *)

Definition socket : M St Z :=
  s <-- gets id ;;
  fd <-- origin ;;
  if negb (t_hookEnable s) then ret fd
  else if fd =? -1 then ret fd
  else addFd fd ;;; ret fd.

(** [soerror]: what [getsockopt(SO_ERROR)] returns and stores. *)
Definition connect_with_timeout (fd timeout : Z) (soerror : Z * Z) : M St Z :=
  s <-- gets id ;;
  if negb (t_hookEnable s) then origin
  else
    fdctx <-- getFdContext fd ;;
    match fdctx with
    | None => modify (setErrno EBADF) ;;; ret (-1)
    | Some c =>
        if close_ c then modify (setErrno EBADF) ;;; ret (-1)
        else if negb (isSock_ c) then origin
        else if isUserNonblock_ c then origin
        else
          n <-- origin ;;
          e <-- gets errno ;;
          if n =? 0 then ret n
          else if negb (n =? -1) || negb (e =? EINPROGRESS) then ret n
          else
            (if timeout =? -1 then ret tt else modify (act_ (SetTimer timeout))) ;;;
            rt <-- AddEvent fd EPOLLOUT ;;
            cancelled <-- (if rt : bool then YieldToSuspend else ret 0) ;;
            (if timeout =? -1 then ret tt else modify (act_ CancelTimer)) ;;;
            if negb (cancelled =? 0) then modify (setErrno cancelled) ;;; ret (-1)
            else if negb (fst soerror =? 0) then ret (-1)
            else if snd soerror =? 0 then ret 0
            else modify (setErrno (snd soerror)) ;;; ret (-1)
    end.

Definition s_connectTimeout : Z := 5000.

Definition connect (fd : Z) : (Z * Z) -> M St Z := connect_with_timeout fd s_connectTimeout.

(** [close_origin] is recorded; its result is the script's. *)
Definition close (fd : Z) : M St Z :=
  s <-- gets id ;;
  (if t_hookEnable s then
     fdctx <-- getFdContext fd ;;
     match fdctx with
     | None => ret tt
     | Some _ => onPoller (handleAllEvent fd) ;;; delFd fd
     end
   else ret tt) ;;;
  modify (act_ (CloseOrigin fd)) ;;;
  origin.

(** ** Flags and options *)

Definition managed (o : option FdContext) : option FdContext :=
  match o with
  | Some c => if close_ c || negb (isSock_ c) then None else Some c
  | None => None
  end.

Definition fcntl_origin_setfl (fd arg : Z) : M St Z := fun s =>
  let '(r, k) := setfl fd arg (sys s) in (Ok r, setSys k s).

Definition fcntl_SETFL (fd arg : Z) : M St Z :=
  fdctx <-- getFdContext fd ;;
  match managed fdctx with
  | None => fcntl_origin_setfl fd arg
  | Some c =>
      updContext fd (setUserNonBlock (negb (Z.land arg O_NONBLOCK =? 0))) ;;;
      fcntl_origin_setfl fd (if isSysNonblock_ c then Z.lor arg O_NONBLOCK
                             else Z.land arg (Z.lnot O_NONBLOCK))
  end.

Definition fcntl_GETFL (fd : Z) : M St Z :=
  k <-- gets sys ;;
  let arg := getfl k fd in
  fdctx <-- getFdContext fd ;;
  match managed fdctx with
  | None => ret arg
  | Some c => ret (if isUserNonblock_ c then Z.lor arg O_NONBLOCK else Z.land arg (Z.lnot O_NONBLOCK))
  end.

Definition F_DUPFD : Z := 0.
Definition F_GETFL : Z := 3.
Definition F_SETFL : Z := 4.

(** Every other command is handed on, with its argument where the command has
    one, and its result is the script's. *)
Definition fcntl (fd cmd arg : Z) : M St Z :=
  if cmd =? F_SETFL then fcntl_SETFL fd arg
  else if cmd =? F_GETFL then fcntl_GETFL fd
  else origin.

Definition getsockopt : M St Z := origin.

Definition IsHookEnable : M St bool := gets t_hookEnable.
Definition SetHookEnable (flag : bool) : M St unit := modify (setHook flag).

Definition ioctl_FIONBIO (fd : Z) (arg : Z) : M St Z :=
  fdctx <-- getFdContext fd ;;
  match managed fdctx with
  | None => ret tt
  | Some _ => updContext fd (setUserNonBlock (negb (arg =? 0)))
  end ;;;
  fun s => let '(r, k) := fionbio fd (negb (arg =? 0)) (sys s) in (Ok r, setSys k s).

(** [setsockopt] of a timeout; the original's result is the script's. *)
Definition setsockopt_timeout (fd : Z) (opt : TimeoutOpt) (tv_sec tv_usec : Z) : M St Z :=
  s <-- gets id ;;
  if negb (t_hookEnable s) then origin
  else
    fdctx <-- getFdContext fd ;;
    match fdctx with
    | None => ret tt
    | Some _ => updContext fd (setTimeout opt (i64 (tv_sec * 1000 + Z.quot tv_usec 1000)))
    end ;;;
    origin.

(** [Socket::setRecvTimeout]/[setSendTimeout] and their getters. *)
Definition setSocketTimeout (fd : Z) (opt : TimeoutOpt) (timeout : Z) : M St Z :=
  setsockopt_timeout fd opt (Z.quot timeout 1000) (Z.rem timeout 1000 * 1000).

Definition getSocketTimeout (fd : Z) (opt : TimeoutOpt) : M St Z :=
  fdctx <-- getFdContext fd ;;
  ret (match fdctx with Some c => getTimeout opt c | None => -1 end).

(** ** Sleeping *)

(** The timer that puts the coroutine back, then the suspension. *)
Definition sleep_ms (ms : Z) : M St Z :=
  modify (act_ (SetTimer ms)) ;;; YieldToSuspend ;;; ret 0.

(** [seconds * 1000] in [unsigned int]. *)
Definition sleep (seconds : Z) : M St Z :=
  s <-- gets id ;;
  if negb (t_hookEnable s) then origin else sleep_ms (u32 (seconds * 1000)).

Definition usleep (usec : Z) : M St Z :=
  s <-- gets id ;;
  if negb (t_hookEnable s) then origin else sleep_ms (Z.quot usec 1000).

Definition nanosleep (tv_sec tv_nsec : Z) : M St Z :=
  s <-- gets id ;;
  if negb (t_hookEnable s) then origin
  else sleep_ms (i64 (tv_sec * 1000 + Z.quot tv_nsec 1000000)).

(** ** do_io *)

(** The accessors of the next state, for [cbn]. *)
Ltac st := cbn [t_hookEnable self cur poller fdcontexts_ sys errno calls wakes acts
                setContexts setSys setErrno setPoller setCalls setWakes act_ fst snd app].

(** The context of a socket that blocks for its user. *)
Record Blocking (s : St) (fd : Z) (c : FdContext) : Prop := {
  bl_hook : t_hookEnable s = true;
  bl_fd : 0 <= fd;
  bl_ctx : fdcontexts_ s !! Z.to_nat fd = Some (Some c);
  bl_open : close_ c = false;
  bl_sock : isSock_ c = true;
  bl_user : isUserNonblock_ c = false
}.

Lemma getFdContext_spec s fd o :
  0 <= fd -> fdcontexts_ s !! Z.to_nat fd = Some o -> getFdContext fd s = (Ok o, s).
Proof.
  intros Hfd Hl. unfold getFdContext. rewrite bind_gets. unfold id.
  rewrite (proj2 (Z.leb_le 0 fd) Hfd). unfold assert_, check. rewrite bind_ret, Hl.
  apply lookup_lt_Some in Hl. unfold zlen. rewrite (proj2 (Z.leb_gt _ _)) by lia. done.
Qed.

Lemma do_io_blocking s fd c type opt :
  Blocking s fd c -> do_io fd type opt s = retry (S (length (wakes s))) fd type (getTimeout opt c) s.
Proof.
  intros [Hh Hfd Hc Ho Hs Hu]. unfold do_io. rewrite bind_gets. unfold id. rewrite Hh. cbn [negb].
  rewrite (bind_ok _ _ _ _ _ (getFdContext_spec _ _ _ Hfd Hc)). rewrite Ho, Hs, Hu. cbn [negb orb].
  by rewrite bind_gets.
Qed.

(** What happens around one suspension. *)
Definition waiting (timeout : Z) : list act :=
  if timeout =? -1 then [Yield] else [SetTimer timeout; Yield; CancelTimer].

Abbreviation P := (Epoller (W := W) (C := C) (F := F) (K := KE)).

(** A suspended attempt: how often the call was interrupted before it would
    have blocked, and the poller when the coroutine is woken by the event. *)
Definition interrupted (i : nat) : list (Z * Z) := replicate i (-1, EINTR).
Definition roundCalls (rs : list (nat * P)) : list (Z * Z) :=
  List.concat (map (fun r => interrupted (fst r) ++ [(-1, EAGAIN)]) rs).
Definition roundWakes (rs : list (nat * P)) : list (Z * P) := map (fun r => (0, snd r)) rs.

(** The poller takes the registration of this coroutine. *)
Definition registers (s : St) (fd type : Z) (p : P) : Prop :=
  exists p', addEvent (self s) (cur s) fd type None p = (Ok true, p').
Fixpoint registersAll (s : St) (fd type : Z) (p : P) (rs : list (nat * P)) : Prop :=
  match rs with
  | [] => True
  | r :: rs => registers s fd type p /\ registersAll s fd type (snd r) rs
  end.

Fixpoint lastPoller (p : P) (rs : list (nat * P)) : P :=
  match rs with [] => p | r :: rs => lastPoller (snd r) rs end.

(** [s'] is [s] after calls, suspensions and the actions [l]. *)
Record After (s s' : St) (l : list act) : Prop := {
  af_hook : t_hookEnable s' = t_hookEnable s;
  af_self : self s' = self s;
  af_cur : cur s' = cur s;
  af_ctx : fdcontexts_ s' = fdcontexts_ s;
  af_sys : sys s' = sys s;
  af_acts : acts s' = acts s ++ l
}.

Lemma After_refl s : After s s [].
Proof. split; [done..|by rewrite app_nil_r]. Qed.

Lemma After_trans s1 s2 s3 l k : After s1 s2 l -> After s2 s3 k -> After s1 s3 (l ++ k).
Proof. intros [] []. split; [congruence..|]. rewrite app_assoc. congruence. Qed.

Lemma origin_spec s n e l :
  calls s = (n, e) :: l ->
  exists s', origin s = (Ok n, s') /\ After s s' [] /\ calls s' = l /\ wakes s' = wakes s
    /\ poller s' = poller s /\ errno s' = if n =? -1 then e else errno s.
Proof.
  intros Hc. unfold origin. rewrite Hc. eexists. split; [done|].
  split_and!; [split; destruct (n =? -1); st; by rewrite ?app_nil_r | by destruct (n =? -1)..].
Qed.

(** The calls that are interrupted are made again. *)
Lemma again_spec i s n e l fuel :
  calls s = interrupted i ++ (n, e) :: l -> ~ (n = -1 /\ e = EINTR) -> (i < fuel)%nat ->
  exists s', again_on_EINTR fuel s = (Ok n, s') /\ After s s' [] /\ calls s' = l /\ wakes s' = wakes s
    /\ poller s' = poller s /\ (n = -1 -> errno s' = e).
Proof.
  intros Hc Hn Hf. revert s fuel Hc Hf. induction i as [|i IH]; intros s [|fuel] Hc Hf; try lia.
  - destruct (origin_spec s n e l Hc) as (s' & E & Ha & Hl & Hw & Hp & He).
    cbn [again_on_EINTR]. rewrite (bind_ok _ _ _ _ _ E), bind_gets, He.
    replace ((n =? -1) && _) with false; cycle 1.
    { symmetry. destruct (Z.eqb_spec n (-1)); [|done]. cbn [andb]. apply Z.eqb_neq. naive_solver. }
    exists s'. split_and!; try done. by intros ->.
  - cbn [interrupted replicate app] in Hc.
    destruct (origin_spec s (-1) EINTR _ Hc) as (s' & E & Ha & Hl & Hw & Hp & He).
    cbn [again_on_EINTR]. rewrite (bind_ok _ _ _ _ _ E), bind_gets, He. cbn [Z.eqb andb Pos.eqb].
    destruct (IH s' fuel Hl ltac:(lia)) as (s2 & E2 & Ha2 & Hl2 & Hw2 & Hp2 & He2).
    exists s2. split_and!; try done; try congruence. exact (After_trans _ _ _ _ _ Ha Ha2).
Qed.

(** One suspension: the coroutine registers, yields with its timer armed
    and disarms it; it tries again or gives up with the code that woke it. *)
Lemma retry_suspends fuel s fd type timeout i l cancelled q ws :
  calls s = interrupted i ++ (-1, EAGAIN) :: l -> wakes s = (cancelled, q) :: ws ->
  registers s fd type (poller s) ->
  exists s', After s s' (waiting timeout) /\ calls s' = l /\ wakes s' = ws /\ poller s' = q
    /\ retry (S fuel) fd type timeout s =
         if cancelled =? 0 then retry fuel fd type timeout s' else (Ok (-1), setErrno cancelled s').
Proof.
  intros Hc Hw [p' Hr].
  destruct (again_spec i s (-1) EAGAIN l (S (length (calls s))) Hc) as (s1 & E & Ha & Hl & Hw1 & Hp & He).
  { by intros [_ ?]. } { rewrite Hc. unfold interrupted. rewrite length_app, length_replicate. lia. }
  cbn [retry]. rewrite bind_gets, (bind_ok _ _ _ _ _ E), bind_gets, He by done. rewrite !Z.eqb_refl. cbn [andb].
  pose (s2 := if timeout =? -1 then s1 else act_ (SetTimer timeout) s1).
  assert (E2 : (if timeout =? -1 then ret tt else modify (act_ (SetTimer timeout))) s1 = (Ok tt, s2))
    by (unfold s2; by destruct (timeout =? -1)).
  assert (H2 : poller s2 = poller s /\ self s2 = self s /\ cur s2 = cur s /\ wakes s2 = wakes s
    /\ calls s2 = l /\ After s s2 (if timeout =? -1 then [] else [SetTimer timeout])).
  { destruct Ha. unfold s2. destruct (timeout =? -1); split_and!; st; try congruence.
    - by split; rewrite ?app_nil_r in *.
    - split; st; rewrite ?app_nil_r in *; congruence. }
  destruct H2 as (Hp2 & Hs2 & Hc2 & Hw2 & Hl2 & Ha2).
  rewrite (bind_ok _ _ _ _ _ E2).
  assert (E3 : AddEvent fd type s2 = (Ok true, setPoller p' s2)).
  { unfold AddEvent. rewrite bind_gets. unfold id, onPoller, zoom. by rewrite Hp2, Hs2, Hc2, Hr. }
  rewrite (bind_ok _ _ _ _ _ E3). cbn [negb].
  pose (s3 := act_ Yield (setPoller q (setWakes ws (setPoller p' s2)))).
  assert (E4 : YieldToSuspend (setPoller p' s2) = (Ok cancelled, s3))
    by (unfold YieldToSuspend; st; by rewrite Hw2, Hw).
  rewrite (bind_ok _ _ _ _ _ E4).
  exists (if timeout =? -1 then s3 else act_ CancelTimer s3). destruct Ha2.
  split_and!.
  - unfold s3, waiting. destruct (timeout =? -1); split; st; try congruence;
      rewrite af_acts0; by rewrite <- ?app_assoc.
  - by destruct (timeout =? -1).
  - by destruct (timeout =? -1).
  - by destruct (timeout =? -1).
  - by destruct (timeout =? -1); cbn [bind ret modify]; destruct (cancelled =? 0).
Qed.

(** Every suspension that the event ended leads to another attempt. *)
Lemma retry_rounds rs fuel s fd type timeout l ws :
  calls s = roundCalls rs ++ l -> wakes s = roundWakes rs ++ ws -> registersAll s fd type (poller s) rs ->
  exists s', After s s' (List.concat (map (fun _ => waiting timeout) rs)) /\ calls s' = l /\ wakes s' = ws
    /\ poller s' = lastPoller (poller s) rs
    /\ retry (length rs + fuel) fd type timeout s = retry fuel fd type timeout s'.
Proof.
  revert s. induction rs as [|[i q] rs IH]; intros s Hc Hw Hr.
  - exists s. split_and!; try done. apply After_refl.
  - destruct Hr as [Hr Hrs]. unfold roundCalls in Hc. cbn [map List.concat fst] in Hc.
    rewrite <- !app_assoc in Hc. cbn in Hc.
    destruct (retry_suspends (length rs + fuel) s fd type timeout i _ _ _ _ Hc Hw Hr)
      as (s1 & Ha & Hl & Hw1 & Hp & E).
    destruct (IH s1) as (s2 & Ha2 & Hl2 & Hw2 & Hp2 & E2); try done.
    { rewrite Hp. destruct Ha. clear -Hrs af_self0 af_cur0. cbn [snd] in Hrs. revert q Hrs.
      induction rs as [|r rs IHr]; intros q Hrs; [done|]. cbn [registersAll] in *. destruct Hrs.
      split; [|by apply IHr]. unfold registers in *. by rewrite af_self0, af_cur0. }
    exists s2. split_and!; try done.
    + cbn [map List.concat]. exact (After_trans _ _ _ _ _ Ha Ha2).
    + by rewrite Hp2, Hp.
    + cbn [length Nat.add]. rewrite E. exact E2.
Qed.

Lemma registers_after s s' l fd type p : After s s' l -> registers s' fd type p <-> registers s fd type p.
Proof. intros []. unfold registers. by rewrite af_self0, af_cur0. Qed.

(** A final answer of the original function ends the loop. *)
Lemma retry_answer fuel s fd type timeout i n e l :
  calls s = interrupted i ++ (n, e) :: l -> ~ (n = -1 /\ (e = EINTR \/ e = EAGAIN)) ->
  exists s', retry (S fuel) fd type timeout s = (Ok n, s') /\ After s s' [] /\ calls s' = l
    /\ wakes s' = wakes s /\ (n = -1 -> errno s' = e) /\ poller s' = poller s.
Proof.
  intros Hc Hn.
  destruct (again_spec i s n e l (S (length (calls s))) Hc) as (s1 & E & Ha & Hl & Hw1 & Hp & He).
  { naive_solver. } { rewrite Hc. unfold interrupted. rewrite length_app, length_replicate. lia. }
  exists s1. split_and!; try done. cbn [retry]. rewrite bind_gets, (bind_ok _ _ _ _ _ E), bind_gets.
  replace ((n =? -1) && _) with false; [done|]. symmetry. destruct (Z.eqb_spec n (-1)); [|done].
  rewrite He by done. apply Z.eqb_neq. naive_solver.
Qed.

(** A hooked read or write, up to its first final answer. *)
Lemma answers_run s fd c type opt rs i n e l ws :
  Blocking s fd c ->
  calls s = roundCalls rs ++ interrupted i ++ (n, e) :: l -> wakes s = roundWakes rs ++ ws ->
  registersAll s fd type (poller s) rs -> ~ (n = -1 /\ (e = EINTR \/ e = EAGAIN)) ->
  exists s', do_io fd type opt s = (Ok n, s')
    /\ After s s' (List.concat (map (fun _ => waiting (getTimeout opt c)) rs))
    /\ calls s' = l /\ wakes s' = ws /\ (n = -1 -> errno s' = e) /\ poller s' = lastPoller (poller s) rs.
Proof.
  intros Hb Hc Hw Hr Hn. rewrite (do_io_blocking _ _ _ _ _ Hb).
  replace (S (length (wakes s))) with (length rs + S (length ws))%nat; cycle 1.
  { rewrite Hw. unfold roundWakes. rewrite length_app, length_map. lia. }
  destruct (retry_rounds rs (S (length ws)) s fd type (getTimeout opt c) _ _ Hc Hw Hr)
    as (s1 & Ha & Hl & Hw1 & Hp & ->).
  destruct (retry_answer (length ws) s1 fd type (getTimeout opt c) i n e l Hl Hn)
    as (s2 & -> & Ha2 & Hl2 & Hw2 & He2 & Hp2).
  exists s2. split_and!; try done; try congruence.
  pose proof (After_trans _ _ _ _ _ Ha Ha2) as Ha3. by rewrite app_nil_r in Ha3.
Qed.

(** C9: The user of a hooked read or write on a managed socket sees a
    blocking call.  Whatever number of times the system call is interrupted
    or would block, the call returns the first final answer (with its
    [errno]); before it the coroutine has suspended once per would-block
    answer, each time with its timer armed and disarmed again when the socket
    has a timeout, and the table of contexts and the kernel's flags are
    untouched. *)
Theorem do_io_answers s fd c type opt rs i n e l ws :
  Blocking s fd c ->
  calls s = roundCalls rs ++ interrupted i ++ (n, e) :: l -> wakes s = roundWakes rs ++ ws ->
  registersAll s fd type (poller s) rs -> ~ (n = -1 /\ (e = EINTR \/ e = EAGAIN)) ->
  exists s', do_io fd type opt s = (Ok n, s')
    /\ After s s' (List.concat (map (fun _ => waiting (getTimeout opt c)) rs))
    /\ calls s' = l /\ wakes s' = ws /\ (n = -1 -> errno s' = e).
Proof.
  intros Hb Hc Hw Hr Hn. destruct (answers_run s fd c type opt rs i n e l ws Hb Hc Hw Hr Hn) as (s' & H').
  exists s'. split_and!; apply H'.
Qed.

(** C38: When the timer wakes a coroutine suspended in a hooked call, the call
    returns -1 with the code the timer left in [cancelled] (ETIMEDOUT), at
    whatever attempt this happens, and its timer is disarmed. *)
Theorem do_io_times_out s fd c type opt rs i cancelled q l ws :
  Blocking s fd c ->
  calls s = roundCalls rs ++ interrupted i ++ (-1, EAGAIN) :: l ->
  wakes s = roundWakes rs ++ (cancelled, q) :: ws -> cancelled <> 0 ->
  registersAll s fd type (poller s) rs -> registers s fd type (lastPoller (poller s) rs) ->
  exists s', do_io fd type opt s = (Ok (-1), s') /\ errno s' = cancelled
    /\ After s s' (List.concat (map (fun _ => waiting (getTimeout opt c)) (rs ++ [(i, q)])))
    /\ calls s' = l /\ wakes s' = ws.
Proof.
  intros Hb Hc Hw Hn Hr Hrl. rewrite (do_io_blocking _ _ _ _ _ Hb).
  replace (S (length (wakes s))) with (length rs + S (S (length ws)))%nat; cycle 1.
  { rewrite Hw. unfold roundWakes. rewrite length_app, length_map. cbn [length]. lia. }
  destruct (retry_rounds rs (S (S (length ws))) s fd type (getTimeout opt c) _ _ Hc Hw Hr)
    as (s1 & Ha & Hl & Hw1 & Hp & ->).
  destruct (retry_suspends (S (length ws)) s1 fd type (getTimeout opt c) i l cancelled q ws Hl Hw1)
    as (s2 & Ha2 & Hl2 & Hw2 & Hp2 & ->).
  { rewrite Hp. by apply (registers_after _ _ _ _ _ _ Ha). }
  rewrite (proj2 (Z.eqb_neq _ _) Hn). eexists. split; [done|].
  pose proof (After_trans _ _ _ _ _ Ha Ha2) as Ha3. destruct Ha3.
  split_and!; try done. split; st; try done.
  rewrite map_app, concat_app. cbn [map List.concat]. by rewrite app_nil_r.
Qed.

(** The two codes that a blocking call must not show its user. *)
Definition wouldBlock (n : Z) (s : St) : Prop := n = -1 /\ (errno s = EINTR \/ errno s = EAGAIN).

Lemma again_result fuel s n s' :
  again_on_EINTR fuel s = (Ok n, s') -> ~ (n = -1 /\ errno s' = EINTR) /\ After s s' [] /\ wakes s' = wakes s
    /\ poller s' = poller s.
Proof.
  revert s. induction fuel as [|fuel IH]; intros s Hr; [done|]. cbn [again_on_EINTR] in Hr.
  apply bind_inv in Hr as (m & s1 & E & Hr). rewrite bind_gets in Hr.
  destruct (calls s) as [|[m' e] l] eqn:Hc; [unfold origin in E; by rewrite Hc in E|].
  destruct (origin_spec s m' e l Hc) as (s2 & E2 & Ha & Hl & Hw & Hp & He).
  rewrite E2 in E. injection E as -> ->.
  destruct ((m =? -1) && (errno s1 =? EINTR)) eqn:Hb.
  - destruct (IH _ Hr) as (? & Ha1 & Hw1 & Hp1). split_and!; [done| |congruence..].
    exact (After_trans _ _ _ _ _ Ha Ha1).
  - injection Hr as -> ->. split_and!; try done. intros [-> Hx]. rewrite Hx in Hb. done.
Qed.

(** Some poller the coroutine met refused its registration. *)
Definition refused (s : St) (fd type : Z) : Prop :=
  exists p, (p = poller s \/ p ∈ map snd (wakes s)) /\ fst (addEvent (self s) (cur s) fd type None p) = Ok false.

Lemma refused_wake s s' fd type c p :
  wakes s = (c, p) :: wakes s' -> self s' = self s -> cur s' = cur s -> poller s' = p ->
  refused s' fd type -> refused s fd type.
Proof.
  intros Hw Hs Hc Hp (q & Hq & Hr). exists q. rewrite Hs, Hc in Hr. split; [right|done].
  rewrite Hw. cbn [map snd]. apply elem_of_cons. destruct Hq as [-> | ?]; [by left|by right].
Qed.

Lemma retry_result fuel s fd type timeout n s' :
  (forall c p, (c, p) ∈ wakes s -> c <> EINTR /\ c <> EAGAIN) ->
  retry fuel fd type timeout s = (Ok n, s') -> wouldBlock n s' -> refused s fd type.
Proof.
  revert s. induction fuel as [|fuel IH]; intros s Hcs Hr Hn; [done|]. cbn [retry] in Hr.
  rewrite bind_gets in Hr. apply bind_inv in Hr as (m & s1 & E & Hr). rewrite bind_gets in Hr.
  destruct (again_result _ _ _ _ E) as (Hm & Ha & Hw & Hp).
  destruct ((m =? -1) && (errno s1 =? EAGAIN)) eqn:Hb; cycle 1.
  { injection Hr as -> ->. destruct Hn as [-> [Hx|Hx]]; [naive_solver|]. by rewrite Hx in Hb. }
  apply bind_inv in Hr as (u & s2 & E2 & Hr).
  assert (H2 : poller s2 = poller s /\ self s2 = self s /\ cur s2 = cur s /\ wakes s2 = wakes s).
  { destruct Ha. destruct (timeout =? -1); injection E2 as <- <-; st; split_and!; congruence. }
  destruct H2 as (Hp2 & Hs2 & Hc2 & Hw2). apply bind_inv in Hr as (ok & s3 & E3 & Hr).
  unfold AddEvent in E3. rewrite bind_gets in E3. unfold id, onPoller, zoom in E3.
  rewrite Hp2, Hs2, Hc2 in E3.
  destruct (addEvent (self s) (cur s) fd type None (poller s)) as [[b|e] p'] eqn:Eadd; [|done].
  injection E3 as -> <-. destruct ok; cbn [negb] in Hr; cycle 1.
  { exists (poller s). split; [by left|]. by rewrite Eadd. }
  apply bind_inv in Hr as (c & s4 & E4 & Hr). unfold YieldToSuspend in E4. revert E4. st. rewrite Hw2.
  intros E4. destruct (wakes s) as [|[c' q] ws] eqn:Hws; [done|]. injection E4 as -> <-.
  apply bind_inv in Hr as (u' & s5 & E5 & Hr).
  assert (H5 : poller s5 = q /\ self s5 = self s /\ cur s5 = cur s /\ wakes s5 = ws).
  { destruct (timeout =? -1); injection E5 as <- <-; st; split_and!; congruence. }
  destruct H5 as (Hp5 & Hs5 & Hc5 & Hw5). destruct (Z.eqb_spec c 0).
  - eapply (refused_wake s s5); [by rewrite Hws, Hw5|done..|]. apply IH; try done.
    intros c1 p1 Hin. rewrite Hw5 in Hin. apply (Hcs c1 p1). by right.
  - injection Hr as <- <-. destruct Hn as [_ Hn]. revert Hn. st. intros Hn.
    destruct (Hcs c q ltac:(by left)). naive_solver.
Qed.

(** A hooked call on a socket that blocks for its user never answers
    "interrupted" or "would block", for any course of system-call results,
    wake-ups and timeouts: the one exception is a poller that refuses to
    register the coroutine (another one already waits for the same event on
    the descriptor, or epoll_ctl failed), when EAGAIN gets through. *)
Theorem do_io_never_would_block s fd c type opt n s' :
  Blocking s fd c -> (forall e p, (e, p) ∈ wakes s -> e <> EINTR /\ e <> EAGAIN) ->
  do_io fd type opt s = (Ok n, s') -> wouldBlock n s' -> refused s fd type.
Proof. intros Hb Hcs. rewrite (do_io_blocking _ _ _ _ _ Hb). by apply retry_result. Qed.

(** The hooks are transparent where they have nothing to do: with hooks
    disabled, on a descriptor without a context, on a descriptor that is not
    a socket, or on a socket its user made non-blocking, a hooked call is one
    original call, with its result and its [errno]. *)
Theorem do_io_transparent s fd type opt n e l :
  calls s = (n, e) :: l ->
  t_hookEnable s = false
  \/ (0 <= fd /\ (zlen (fdcontexts_ s) <= fd \/ fdcontexts_ s !! Z.to_nat fd = Some None))
  \/ (exists c, 0 <= fd /\ fdcontexts_ s !! Z.to_nat fd = Some (Some c) /\ close_ c = false
       /\ (isSock_ c = false \/ isUserNonblock_ c = true)) ->
  exists s', do_io fd type opt s = (Ok n, s') /\ After s s' [] /\ calls s' = l
    /\ wakes s' = wakes s /\ poller s' = poller s /\ errno s' = if n =? -1 then e else errno s.
Proof.
  intros Hc Hcase. destruct (origin_spec s n e l Hc) as (s' & E & Hs').
  exists s'. split; [|done]. rewrite <- E. unfold do_io. rewrite bind_gets. unfold id.
  destruct Hcase as [->|Hcase]; [done|]. destruct (t_hookEnable s); [|done]. cbn [negb].
  assert (Hctx : exists o, getFdContext fd s = (Ok o, s)
    /\ (o = None \/ exists c, o = Some c /\ close_ c = false /\ (isSock_ c = false \/ isUserNonblock_ c = true))).
  { destruct Hcase as [(Hfd & [Hz|Hz])|(c & Hfd & Hz & Hrest)].
    - exists None. split; [|by left]. unfold getFdContext. rewrite bind_gets. unfold id.
      rewrite (proj2 (Z.leb_le 0 fd) Hfd). unfold assert_, check. by rewrite bind_ret, (proj2 (Z.leb_le _ _) Hz).
    - exists None. split; [by apply getFdContext_spec|by left].
    - exists (Some c). split; [by apply getFdContext_spec|]. right. by exists c. }
  destruct Hctx as (o & Eo & Ho). rewrite (bind_ok _ _ _ _ _ Eo).
  destruct Ho as [-> | (c & -> & -> & Hc')]; [done|]. destruct Hc' as [-> | ->]; [done|]. by rewrite orb_true_r.
Qed.

(** ** The table of contexts and the flags *)

(** A duplicate made with [F_DUPFD] is not entered in the table: where the
    socket blocks its coroutine the duplicate, which shares the O_NONBLOCK of
    the kernel, gives the user EAGAIN. *)
Theorem duplicate_would_block s fd type opt n e arg l :
  calls s = (n, e) :: (-1, EAGAIN) :: l -> 0 <= n ->
  zlen (fdcontexts_ s) <= n \/ fdcontexts_ s !! Z.to_nat n = Some None ->
  exists s', (d <-- fcntl fd F_DUPFD arg ;; do_io d type opt) s = (Ok (-1), s')
    /\ errno s' = EAGAIN /\ acts s' = acts s /\ fdcontexts_ s' = fdcontexts_ s.
Proof.
  intros Hc Hn Ht. destruct (origin_spec s n e _ Hc) as (s1 & E1 & H1 & Hc1 & _).
  destruct (do_io_transparent s1 n type opt (-1) EAGAIN l Hc1) as (s2 & E2 & H2 & _ & _ & _ & He).
  { right; left. split; [done|]. by rewrite (af_ctx _ _ _ H1). }
  exists s2. rewrite (bind_ok _ _ _ n s1) by exact E1. split; [done|]. split; [done|].
  rewrite (af_acts _ _ _ H2), (af_acts _ _ _ H1), !app_nil_r, (af_ctx _ _ _ H2). split; [done|]. by destruct H1.
Qed.


Lemma land_nonblock arg : (Z.land arg O_NONBLOCK =? 0) = negb (Z.testbit arg 11).
Proof. unfold O_NONBLOCK. rewrite land_bit by done. by destruct (Z.testbit arg 11). Qed.

Lemma set_nonblock arg : Z.testbit (Z.lor arg O_NONBLOCK) 11 = true.
Proof. rewrite Z.lor_spec. unfold O_NONBLOCK. rewrite Z.pow2_bits_true by done. apply orb_true_r. Qed.

Lemma clear_nonblock arg : Z.testbit (Z.land arg (Z.lnot O_NONBLOCK)) 11 = false.
Proof.
  rewrite Z.land_spec, Z.lnot_spec by done. unfold O_NONBLOCK. rewrite Z.pow2_bits_true by done.
  apply andb_false_r.
Qed.

(** Every context describes its descriptor, and a socket the hooks manage is
    non-blocking for the kernel whatever its user asked for. *)
Definition ctxOk (k : K) (i : nat) (c : FdContext) : Prop :=
  fd_ c = Z.of_nat i /\ close_ c = false /\ isSock_ c = is_socket k (Z.of_nat i)
  /\ (isSock_ c = true -> isSysNonblock_ c = true /\ Z.testbit (getfl k (Z.of_nat i)) 11 = true).
Definition FdInv (s : St) : Prop :=
  forall i c, fdcontexts_ s !! i = Some (Some c) -> ctxOk (sys s) i c.

(** The calls that change the table or the flags. *)
Inductive fdop :=
| FAdd (fd : Z)
| FDel (fd : Z)
| FSetfl (fd arg : Z)
| FIoctl (fd arg : Z)
| FTimeout (fd : Z) (opt : TimeoutOpt) (tv_sec tv_usec : Z).
Definition run_fdop (o : fdop) : M St unit :=
  match o with
  | FAdd fd => addFd fd
  | FDel fd => delFd fd
  | FSetfl fd arg => fcntl_SETFL fd arg ;;; ret tt
  | FIoctl fd arg => ioctl_FIONBIO fd arg ;;; ret tt
  | FTimeout fd opt tv_sec tv_usec => setsockopt_timeout fd opt tv_sec tv_usec ;;; ret tt
  end.

(** A socket of the table has the open file description of [fd]. *)
Definition sharedWithTable (s : St) (fd : Z) : Prop :=
  exists i c, fdcontexts_ s !! i = Some (Some c) /\ isSock_ c = true /\ shares (sys s) fd (Z.of_nat i) = true.

(** The kernel makes a new socket non-blocking when it is asked to.  A call
    that clears O_NONBLOCK does not do it on the description of a socket of
    the table: [fcntl(F_SETFL)] does so only by a descriptor that is not in the
    table, a duplicate; [ioctl(FIONBIO)] by any. *)
Definition fdop_ok (s : St) (o : fdop) : Prop :=
  match o with
  | FAdd fd => 0 <= fd /\ (is_socket (sys s) fd = true ->
      fst (setfl fd (Z.lor (getfl (sys s) fd) O_NONBLOCK) (sys s)) = 0)
  | FDel fd => 0 <= fd
  | FSetfl fd arg =>
      Z.testbit arg 11 = true \/ (exists c, fdcontexts_ s !! Z.to_nat fd = Some (Some c) /\ isSock_ c = true)
      \/ ~ sharedWithTable s fd
  | FIoctl fd arg => arg <> 0 \/ ~ sharedWithTable s fd
  | FTimeout _ _ _ _ => True
  end.

(** What leaves the O_NONBLOCK of a descriptor set, and tells sockets from
    others as before. *)
Lemma keeps_ctxOk k k' i c :
  (isSock_ c = true -> Z.testbit (getfl k (Z.of_nat i)) 11 = true -> Z.testbit (getfl k' (Z.of_nat i)) 11 = true) ->
  is_socket k' (Z.of_nat i) = is_socket k (Z.of_nat i) -> ctxOk k i c -> ctxOk k' i c.
Proof.
  intros Hb Hk (Hf & Hc & Hs & Hn). split_and!; try done; [by rewrite Hk|]. intros Hsock.
  destruct (Hn Hsock) as [? Hbit]. split; [done|]. by apply Hb.
Qed.

(** Setting flags that include O_NONBLOCK, or those of a description that no
    socket of the table has, keeps the invariant, whether the kernel does it or
    not. *)
Lemma FdInv_setfl s fd arg r k :
  setfl fd arg (sys s) = (r, k) -> FdInv s -> Z.testbit arg 11 = true \/ ~ sharedWithTable s fd -> FdInv (setSys k s).
Proof.
  intros Hs Hinv Ha i c Hl. revert Hl. st. intros Hl. apply (keeps_ctxOk (sys s)); [..|by apply Hinv].
  - intros Hsock Hbit. destruct (decide (r = 0)) as [->|Hr]; [|by rewrite (proj1 (setfl_fail _ _ _ _ _ Hs Hr _))].
    destruct (setfl_ok _ _ _ _ Hs) as (Hb & Hg & _).
    destruct (shares (sys s) fd (Z.of_nat i)) eqn:Hsh; [|by rewrite Hg]. rewrite Hb by done.
    destruct Ha as [|Hn]; [done|]. destruct Hn. by exists i, c.
  - destruct (decide (r = 0)) as [->|Hr]; [by apply (setfl_ok _ _ _ _ Hs)|by apply (setfl_fail _ _ _ _ _ Hs Hr)].
Qed.

Lemma FdInv_fionbio s fd b r k :
  fionbio fd b (sys s) = (r, k) -> FdInv s -> b = true \/ ~ sharedWithTable s fd -> FdInv (setSys k s).
Proof.
  intros Hs Hinv Ha i c Hl. revert Hl. st. intros Hl. apply (keeps_ctxOk (sys s)); [..|by apply Hinv].
  - intros Hsock Hbit. destruct (decide (r = 0)) as [->|Hr]; [|by rewrite (proj1 (fionbio_fail _ _ _ _ _ Hs Hr _))].
    destruct (fionbio_ok _ _ _ _ Hs) as (Hb & Hg & _).
    destruct (shares (sys s) fd (Z.of_nat i)) eqn:Hsh; [|by rewrite Hg]. rewrite Hb by done.
    destruct Ha as [|Hn]; [done|]. destruct Hn. by exists i, c.
  - destruct (decide (r = 0)) as [->|Hr]; [by apply (fionbio_ok _ _ _ _ Hs)|by apply (fionbio_fail _ _ _ _ _ Hs Hr)].
Qed.

Lemma initContext_spec s fd :
  (is_socket (sys s) fd = true -> fst (setfl fd (Z.lor (getfl (sys s) fd) O_NONBLOCK) (sys s)) = 0) ->
  0 <= fd -> FdInv s ->
  exists c s', initContext fd s = (Ok c, s') /\ ctxOk (sys s') (Z.to_nat fd) c /\ FdInv s'
    /\ fdcontexts_ s' = fdcontexts_ s.
Proof.
  intros Hok Hfd Hinv. unfold initContext. rewrite bind_gets.
  destruct (is_socket (sys s) fd) eqn:Hsock; cycle 1.
  { eexists _, s. split_and!; try done. split_and!; cbn [fd_ close_ isSock_]; try done; [lia|].
    by rewrite Z2Nat.id. }
  rewrite land_nonblock. destruct (Z.testbit (getfl (sys s) fd) 11) eqn:Hbit; cbn [negb].
  - eexists _, s. split_and!; try done. split_and!; cbn [fd_ close_ isSock_ isSysNonblock_]; try done; [lia|..];
      by rewrite Z2Nat.id.
  - destruct (setfl fd (Z.lor (getfl (sys s) fd) O_NONBLOCK) (sys s)) as [r k] eqn:Es.
    specialize (Hok eq_refl). cbn [fst] in Hok. subst r.
    destruct (setfl_ok _ _ _ _ Es) as (Hb & Hg & Hsk). specialize (Hb fd (shares_refl _ _)).
    eexists _, (setSys k s). rewrite set_nonblock in Hb. split_and!; try done; st.
    + split_and!; cbn [fd_ close_ isSock_ isSysNonblock_]; try done; [lia|..]; rewrite Z2Nat.id by done; [|done].
      by rewrite Hsk.
    + eapply FdInv_setfl; [done..|]. left. apply set_nonblock.
Qed.

Lemma FdInv_table s l :
  (forall i c, l !! i = Some (Some c) -> fdcontexts_ s !! i = Some (Some c)) -> FdInv s -> FdInv (setContexts l s).
Proof. intros Hl Hinv i c Hi. st. apply Hinv, Hl, Hi. Qed.

Lemma FdInv_put s i o :
  (forall c, o = Some c -> ctxOk (sys s) i c) -> FdInv s ->
  FdInv (setContexts (<[i := o]> (fdcontexts_ s)) s).
Proof.
  intros Ho Hinv j c. st. intros Hj. destruct (decide (i = j)) as [->|Hne].
  - destruct (decide (j < length (fdcontexts_ s))%nat).
    + rewrite list_lookup_insert_eq in Hj by done. injection Hj as ->. by apply Ho.
    + rewrite list_insert_ge in Hj by lia. by apply Hinv.
  - rewrite list_lookup_insert_ne in Hj by done. by apply Hinv.
Qed.

Lemma lookup_resize_None {A} n (l : list (option A)) i c :
  resize n None l !! i = Some (Some c) -> l !! i = Some (Some c).
Proof.
  intros Hi. destruct (decide (i < length l)%nat).
  - destruct (decide (i < n)%nat).
    + by rewrite lookup_resize in Hi by done.
    + rewrite lookup_resize_old in Hi by lia. done.
  - destruct (decide (i < n)%nat).
    + rewrite lookup_resize_new in Hi by lia. done.
    + rewrite lookup_resize_old in Hi by lia. done.
Qed.

(** The state of [addFd] when it looks up the slot. *)
Definition grown (fd : Z) (s : St) : St :=
  if zlen (fdcontexts_ s) <=? fd then setContexts (resize (Z.to_nat (fd * 3 / 2)) None (fdcontexts_ s)) s else s.

Lemma FdInv_grown fd s : FdInv s -> FdInv (grown fd s).
Proof.
  intros Hinv. unfold grown. destruct (_ <=? _); [|done].
  apply FdInv_table; [|done]. intros i c. apply lookup_resize_None.
Qed.

Lemma addFd_grown fd s :
  addFd fd s = (c <-- initContext fd ;;
    s <-- gets id ;;
    check ((0 <=? fd) && (fd <? zlen (fdcontexts_ s))) Undefined ;;;
    modify (setContexts (<[Z.to_nat fd := Some c]> (fdcontexts_ s)))) (grown fd s).
Proof. unfold addFd, grown. rewrite bind_gets. unfold id. by destruct (zlen (fdcontexts_ s) <=? fd). Qed.

Lemma addFd_inv fd s :
  FdInv s -> fdop_ok s (FAdd fd) -> FdInv (snd (addFd fd s)).
Proof.
  intros Hinv [Hfd Hok]. rewrite addFd_grown.
  assert (Hg : sys (grown fd s) = sys s) by (unfold grown; by destruct (_ <=? _)).
  destruct (initContext_spec (grown fd s) fd) as (c & s' & E & Hc & Hinv' & Hl);
    [by rewrite Hg|done|by apply FdInv_grown|].
  rewrite (bind_ok _ _ _ _ _ E), bind_gets. unfold id, check.
  destruct ((0 <=? fd) && (fd <? zlen (fdcontexts_ s'))) eqn:Hb; [|done]. rewrite bind_ret. unfold modify. cbn [snd].
  apply FdInv_put; [|done]. by intros ? [= <-].
Qed.

(** Changing what the user may change keeps the invariant. *)
Lemma updContext_inv fd f s :
  (forall i c, ctxOk (sys s) i c -> ctxOk (sys s) i (f c)) -> FdInv s ->
  FdInv (setContexts (alter (fmap f) (Z.to_nat fd) (fdcontexts_ s)) s).
Proof.
  intros Hf Hinv i c Hi. revert Hi. st. intros Hi. destruct (decide (Z.to_nat fd = i)) as [<-|Hne].
  - rewrite list_lookup_alter_eq in Hi. destruct (fdcontexts_ s !! Z.to_nat fd) as [[c'|]|] eqn:Hl; try done.
    injection Hi as <-. apply Hf. by apply Hinv.
  - rewrite list_lookup_alter_ne in Hi by done. by apply Hinv.
Qed.

Lemma getFdContext_state fd s : snd (getFdContext fd s) = s.
Proof. unfold getFdContext. rewrite bind_gets. unfold id, assert_, check. by destruct (0 <=? fd). Qed.

Lemma getFdContext_lookup fd s o :
  fst (getFdContext fd s) = Ok (Some o) -> 0 <= fd /\ fdcontexts_ s !! Z.to_nat fd = Some (Some o).
Proof.
  unfold getFdContext. rewrite bind_gets. unfold id, assert_, check.
  destruct (Z.leb_spec 0 fd); [|done]. rewrite bind_ret. unfold ret. cbn [fst]. destruct (zlen _ <=? fd); [done|].
  destruct (fdcontexts_ s !! Z.to_nat fd) as [[c|]|]; cbn; try done. by intros [= <-].
Qed.

Lemma managed_some o c : managed o = Some c -> o = Some c /\ close_ c = false /\ isSock_ c = true.
Proof.
  destruct o as [c'|]; cbn; [|done]. destruct (close_ c') eqn:?, (isSock_ c') eqn:?; cbn; try done.
  by intros [= <-].
Qed.

(** A change of the user's flag in the table is no change of the kernel's. *)
Lemma sharedWithTable_upd s fd f g :
  (forall c, isSock_ (f c) = isSock_ c) ->
  sharedWithTable (setContexts (alter (fmap f) (Z.to_nat fd) (fdcontexts_ s)) s) g -> sharedWithTable s g.
Proof.
  intros Hf (i & c & Hi & Hc & Hsh). revert Hi Hsh. st. intros Hi Hsh. destruct (decide (Z.to_nat fd = i)) as [<-|Hne].
  - rewrite list_lookup_alter_eq in Hi. destruct (fdcontexts_ s !! Z.to_nat fd) as [[c'|]|] eqn:E; try done.
    injection Hi as <-. exists (Z.to_nat fd), c'. by rewrite <- (Hf c').
  - rewrite list_lookup_alter_ne in Hi by done. by exists i, c.
Qed.

(** What a call does for the context of its descriptor: nothing for one that
    is no socket of the table. *)
Lemma managed_cases fd s :
  FdInv s ->
  (exists e, getFdContext fd s = (Throw e, s))
  \/ exists o, getFdContext fd s = (Ok o, s)
      /\ (managed o = None /\ (forall c, fdcontexts_ s !! Z.to_nat fd = Some (Some c) -> isSock_ c = false)
          \/ exists c, managed o = Some c /\ fdcontexts_ s !! Z.to_nat fd = Some (Some c) /\ isSock_ c = true
                     /\ isSysNonblock_ c = true).
Proof.
  intros Hinv. pose proof (getFdContext_state fd s) as Hst. pose proof (getFdContext_lookup fd s) as Hl.
  destruct (getFdContext fd s) as [[o|e] s1] eqn:E; cbn [fst snd] in *; subst s1; [right|left; by exists e].
  exists o. split; [done|]. destruct (managed o) as [c|] eqn:Hm.
  - apply managed_some in Hm as (-> & Ho & Hs). destruct (Hl c eq_refl) as [Hfd Hc].
    destruct (Hinv _ _ Hc) as (_ & _ & _ & Hsys). right. exists c. destruct (Hsys Hs). by split_and!.
  - left. split; [done|]. intros c Hc. destruct (Hinv _ _ Hc) as (_ & Hcl & _).
    assert (Hfd : 0 <= fd).
    { unfold getFdContext, assert_, check in E. rewrite bind_gets in E. by destruct (Z.leb_spec 0 fd). }
    rewrite (getFdContext_spec s fd (Some c) Hfd Hc) in E. injection E as <-. cbn in Hm. rewrite Hcl in Hm.
    by destruct (isSock_ c).
Qed.

Lemma fcntl_SETFL_inv fd arg s : FdInv s -> fdop_ok s (FSetfl fd arg) -> FdInv (snd (fcntl_SETFL fd arg s)).
Proof.
  intros Hinv Hok. unfold fcntl_SETFL.
  destruct (managed_cases fd s Hinv) as [(e & E)|(o & E & [[Em Hn]|(c & Em & Hc & Hs & Hsn)])].
  - by rewrite (bind_throw _ _ _ _ _ E).
  - rewrite (bind_ok _ _ _ _ _ E), Em. unfold fcntl_origin_setfl. destruct (setfl fd arg (sys s)) as [r k] eqn:Es. cbn [snd].
    eapply FdInv_setfl; [exact Es|done|]. destruct Hok as [?|[(c & Hc & Hs)|?]]; [by left| |by right].
    by rewrite (Hn c Hc) in Hs.
  - rewrite (bind_ok _ _ _ _ _ E), Em, Hsn. unfold updContext. rewrite bind_modify. unfold fcntl_origin_setfl. st.
    destruct (setfl fd _ (sys s)) as [r k] eqn:Es. cbn [snd].
    eapply FdInv_setfl; [exact Es| |left; apply set_nonblock].
    apply updContext_inv; [|done]. intros i c' (? & ? & ? & ?). by split_and!.
Qed.

Lemma ioctl_FIONBIO_inv fd arg s : FdInv s -> fdop_ok s (FIoctl fd arg) -> FdInv (snd (ioctl_FIONBIO fd arg s)).
Proof.
  intros Hinv Hok. unfold ioctl_FIONBIO.
  assert (Hk : negb (arg =? 0) = true \/ ~ sharedWithTable s fd).
  { destruct Hok as [Ha|?]; [left|by right]. by rewrite (proj2 (Z.eqb_neq _ _) Ha). }
  destruct (managed_cases fd s Hinv) as [(e & E)|(o & E & [[Em Hn]|(c & Em & Hc & Hs & Hsn)])].
  - by rewrite (bind_throw _ _ _ _ _ E).
  - rewrite (bind_ok _ _ _ _ _ E), Em, bind_ret. destruct (fionbio fd _ (sys s)) as [r k] eqn:Es. cbn [snd].
    by eapply FdInv_fionbio.
  - rewrite (bind_ok _ _ _ _ _ E), Em. unfold updContext. rewrite bind_modify. st.
    destruct (fionbio fd _ (sys s)) as [r k] eqn:Es. cbn [snd]. eapply FdInv_fionbio; [exact Es|..].
    + apply updContext_inv; [|done]. intros i c' (? & ? & ? & ?). by split_and!.
    + destruct Hk as [?|Hk]; [by left|right]. intros Hsh. apply Hk.
      eapply (sharedWithTable_upd s fd (setUserNonBlock _)); [|exact Hsh]. by intros [].
Qed.

Lemma setsockopt_timeout_inv fd opt tv_sec tv_usec s :
  FdInv s -> FdInv (snd (setsockopt_timeout fd opt tv_sec tv_usec s)).
Proof.
  assert (Horigin : forall t, FdInv t -> FdInv (snd (origin t))).
  { intros t Ht. unfold origin. destruct (calls t) as [|[n e] l]; [done|]. by destruct (n =? -1). }
  intros Hinv. unfold setsockopt_timeout. rewrite bind_gets. unfold id.
  destruct (t_hookEnable s); cbn [negb]; [|by apply Horigin].
  pose proof (getFdContext_state fd s) as Hst.
  destruct (getFdContext fd s) as [[o|e] s1] eqn:E; cbn [snd] in Hst; subst s1.
  - rewrite (bind_ok _ _ _ _ _ E). destruct o as [c|]; [|by apply Horigin].
    unfold updContext. rewrite bind_modify. apply Horigin, updContext_inv; [|done].
    intros i c' (? & ? & ? & ?). destruct opt; by split_and!.
  - by rewrite (bind_throw _ _ _ _ _ E).
Qed.


(** The O_NONBLOCK flag of a managed socket is virtual.  After
    [fcntl(F_SETFL, arg)] the user reads back from [fcntl(F_GETFL)] the bit
    he set; the kernel's bit stays on; and hooked calls are transparent
    exactly when the user asked for a non-blocking socket. *)
Theorem fcntl_virtual_nonblock s fd arg c s1 :
  FdInv s -> 0 <= fd -> fdcontexts_ s !! Z.to_nat fd = Some (Some c) -> isSock_ c = true ->
  fcntl_SETFL fd arg s = (Ok 0, s1) ->
  Z.testbit (getfl (sys s1) fd) 11 = true
  /\ (exists v, fcntl_GETFL fd s1 = (Ok v, s1) /\ Z.testbit v 11 = Z.testbit arg 11)
  /\ (exists c1, fdcontexts_ s1 !! Z.to_nat fd = Some (Some c1) /\ isUserNonblock_ c1 = Z.testbit arg 11)
  /\ (forall g, shares (sys s) fd g = false -> getfl (sys s1) g = getfl (sys s) g).
Proof.
  intros Hinv Hfd Hc Hs Hset. destruct (Hinv _ _ Hc) as (_ & Ho & _ & Hsys).
  destruct (Hsys Hs) as [Hsn _]. unfold fcntl_SETFL in Hset.
  rewrite (bind_ok _ _ _ _ _ (getFdContext_spec s fd (Some c) Hfd Hc)) in Hset.
  cbn [managed] in Hset. rewrite Ho, Hs in Hset. cbn [orb negb] in Hset. rewrite Hsn in Hset.
  unfold updContext in Hset. rewrite bind_modify, land_nonblock, negb_involutive in Hset.
  unfold fcntl_origin_setfl in Hset. revert Hset. st.
  destruct (setfl fd (Z.lor arg O_NONBLOCK) (sys s)) as [r k] eqn:Es. intros [= -> <-].
  destruct (setfl_ok _ _ _ _ Es) as (Hb & Hg & _). specialize (Hb fd (shares_refl _ _)). rewrite set_nonblock in Hb. st.
  assert (Hc1 : alter (fmap (setUserNonBlock (Z.testbit arg 11))) (Z.to_nat fd) (fdcontexts_ s) !! Z.to_nat fd
    = Some (Some (setUserNonBlock (Z.testbit arg 11) c))) by (by rewrite list_lookup_alter_eq, Hc).
  split_and!; try done; [|by eexists].
  unfold fcntl_GETFL. rewrite bind_gets. erewrite bind_ok by (apply getFdContext_spec; [done|exact Hc1]).
  cbn [managed setUserNonBlock close_ isSock_ isUserNonblock_]. rewrite Ho, Hs. cbn [orb negb].
  cbn [isUserNonblock_]. eexists. split; [done|]. st.
  destruct (Z.testbit arg 11); [apply set_nonblock|apply clear_nonblock].
Qed.

(** [ioctl(FIONBIO, 0)] breaks that: the kernel's O_NONBLOCK of a managed
    socket is cleared while its context still says that the hooks may rely
    on it, and the next hooked read blocks the worker's thread. *)
Theorem ioctl_makes_blocking s fd c s1 :
  0 <= fd -> fdcontexts_ s !! Z.to_nat fd = Some (Some c) -> ctxOk (sys s) (Z.to_nat fd) c ->
  isSock_ c = true -> ioctl_FIONBIO fd 0 s = (Ok 0, s1) ->
  Z.testbit (getfl (sys s1) fd) 11 = false
  /\ exists c1, fdcontexts_ s1 !! Z.to_nat fd = Some (Some c1) /\ isSysNonblock_ c1 = true
       /\ isUserNonblock_ c1 = false.
Proof.
  intros Hfd Hc (_ & Ho & _ & Hsys) Hs Hset. destruct (Hsys Hs) as [Hsn _]. unfold ioctl_FIONBIO in Hset.
  rewrite (bind_ok _ _ _ _ _ (getFdContext_spec s fd (Some c) Hfd Hc)) in Hset.
  cbn [managed] in Hset. rewrite Ho, Hs in Hset. cbn [orb negb] in Hset.
  unfold updContext in Hset. rewrite bind_modify in Hset. revert Hset. st.
  destruct (fionbio fd _ (sys s)) as [r k] eqn:Es. intros [= -> <-].
  destruct (fionbio_ok _ _ _ _ Es) as (Hb & _). specialize (Hb fd (shares_refl _ _)). st. split; [done|].
  eexists. rewrite list_lookup_alter_eq, Hc. by split_and!.
Qed.

(** So does [fcntl(F_SETFL)] on a duplicate of the socket, which is not in the
    table: it goes to the kernel as it is. *)
Theorem duplicate_makes_blocking s fd dup arg c s1 :
  0 <= dup -> fdcontexts_ s !! Z.to_nat fd = Some (Some c) -> isSock_ c = true -> isSysNonblock_ c = true ->
  zlen (fdcontexts_ s) <= dup \/ fdcontexts_ s !! Z.to_nat dup = Some None -> shares (sys s) dup fd = true ->
  Z.testbit arg 11 = false -> fcntl_SETFL dup arg s = (Ok 0, s1) ->
  fdcontexts_ s1 !! Z.to_nat fd = Some (Some c) /\ Z.testbit (getfl (sys s1) fd) 11 = false.
Proof.
  intros Hd Hc Hs Hsn Hn Hsh Ha Hset.
  assert (Eg : getFdContext dup s = (Ok None, s)).
  { destruct Hn as [Hle|Hl]; [|by apply getFdContext_spec]. unfold getFdContext. rewrite bind_gets. unfold id.
    rewrite (proj2 (Z.leb_le 0 dup) Hd). unfold assert_, check. by rewrite bind_ret, (proj2 (Z.leb_le _ _) Hle). }
  unfold fcntl_SETFL in Hset. rewrite (bind_ok _ _ _ _ _ Eg) in Hset. cbn [managed] in Hset.
  unfold fcntl_origin_setfl in Hset. destruct (setfl dup arg (sys s)) as [r k] eqn:Es. injection Hset as -> <-.
  destruct (setfl_ok _ _ _ _ Es) as (Hb & _). st. split; [done|]. by rewrite Hb.
Qed.

(** Setting a socket's timeout in milliseconds through [timeval] and
    reading it back gives the same number, for every 64-bit value. *)
Theorem socket_timeout_round_trip s fd opt t c n e l :
  Blocking s fd c -> calls s = (n, e) :: l -> - 2 ^ 63 <= t < 2 ^ 63 ->
  exists s1, setSocketTimeout fd opt t s = (Ok n, s1)
    /\ getSocketTimeout fd opt s1 = (Ok t, s1)
    /\ (forall opt', opt' <> opt -> getSocketTimeout fd opt' s1 = (Ok (getTimeout opt' c), s1)).
Proof.
  intros [Hh Hfd Hc _ _ _] Hl Ht. unfold setSocketTimeout, setsockopt_timeout.
  rewrite bind_gets. unfold id. rewrite Hh. cbn [negb].
  rewrite (bind_ok _ _ _ _ _ (getFdContext_spec s fd (Some c) Hfd Hc)). unfold updContext. rewrite bind_modify.
  set (v := i64 _). assert (Hv : v = t).
  { unfold v. rewrite Z.quot_mul by lia. pose proof (Z.quot_rem' t 1000).
    rewrite swrap_small; lia. }
  set (s2 := setContexts _ s).
  destruct (origin_spec s2 n e l) as (s1 & E & Ha & _); [done|]. exists s1. split; [done|].
  assert (Hc1 : fdcontexts_ s1 !! Z.to_nat fd = Some (Some (setTimeout opt v c))).
  { rewrite (af_ctx _ _ _ Ha). unfold s2. st. by rewrite list_lookup_alter_eq, Hc. }
  assert (Hget : forall o, getSocketTimeout fd o s1 = (Ok (getTimeout o (setTimeout opt v c)), s1)).
  { intros o. unfold getSocketTimeout. by rewrite (bind_ok _ _ _ _ _ (getFdContext_spec _ _ _ Hfd Hc1)). }
  split.
  - rewrite Hget, Hv. by destruct opt.
  - intros o Ho. rewrite Hget. by destruct o, opt.
Qed.

(** ** connect, close and sleeping *)

(** When the poller refuses to register a coroutine whose connection is
    still in progress, [connect] asks for SO_ERROR at once, finds none, and
    reports success. *)
Theorem connect_unregistered_succeeds s fd c l p' :
  Blocking s fd c -> calls s = (-1, EINPROGRESS) :: l ->
  addEvent (self s) (cur s) fd EPOLLOUT None (poller s) = (Ok false, p') ->
  exists s', connect fd (0, 0) s = (Ok 0, s') /\ acts s' = acts s ++ [SetTimer s_connectTimeout; CancelTimer].
Proof.
  intros [Hh Hfd Hc Ho Hs Hu] Hl Hadd. unfold connect, connect_with_timeout. rewrite bind_gets. unfold id.
  rewrite Hh. cbn [negb]. rewrite (bind_ok _ _ _ _ _ (getFdContext_spec _ _ _ Hfd Hc)), Ho, Hs, Hu. cbn [negb].
  destruct (origin_spec s (-1) EINPROGRESS l Hl) as (s1 & E & Ha & _ & _ & Hp & He). rewrite Z.eqb_refl in He.
  rewrite (bind_ok _ _ _ _ _ E), bind_gets, He. cbn [Z.eqb negb orb Pos.eqb s_connectTimeout EINPROGRESS].
  rewrite bind_modify. set (s2 := act_ _ s1). destruct Ha.
  assert (E2 : AddEvent fd EPOLLOUT s2 = (Ok false, setPoller p' s2)).
  { unfold AddEvent. rewrite bind_gets. unfold id, onPoller, zoom, s2. st.
    by rewrite Hp, af_self0, af_cur0, Hadd. }
  rewrite (bind_ok _ _ _ _ _ E2), bind_ret, bind_modify. cbn [Z.eqb negb fst snd].
  eexists. split; [done|]. unfold s2. st. rewrite af_acts0, app_nil_r. by rewrite <- app_assoc.
Qed.

(** Closing a managed descriptor; see [close_wakes_waiters]. *)
Lemma close_run s fd o n e l :
  t_hookEnable s = true -> 0 <= fd -> fdcontexts_ s !! Z.to_nat fd = Some (Some o) ->
  Inv (poller s) -> accepts (kernel (poller s)) fd -> calls s = (n, e) :: l ->
  exists s', close fd s = (Ok n, s')
    /\ fdcontexts_ s' = <[Z.to_nat fd := None]> (fdcontexts_ s)
    /\ Inv (poller s')
    /\ scheduled (poller s') = scheduled (poller s) ++ option_list (registered (poller s) fd EPOLLIN)
                                 ++ option_list (registered (poller s) fd EPOLLOUT)
    /\ (forall type, is_type type -> registered (poller s') fd type = None)
    /\ acts s' = acts s ++ [CloseOrigin fd].
Proof.
  intros Hh Hfd Hc Hp Hk Hl. unfold close. rewrite bind_gets. unfold id. rewrite Hh.
  destruct (handle_all_spec (poller s) fd Hp Hfd) as (ok & p' & E & Hp' & Hno & Hyes). cbn [run_regop] in E.
  assert (Hset : (fdctx <-- getFdContext fd ;;
      match fdctx with None => ret tt | Some _ => onPoller (handleAllEvent fd) ;;; delFd fd end) s
    = (Ok tt, setContexts (<[Z.to_nat fd := None]> (fdcontexts_ s)) (setPoller p' s))).
  { rewrite (bind_ok _ _ _ _ _ (getFdContext_spec _ _ _ Hfd Hc)).
    assert (Eo : onPoller (handleAllEvent fd) s = (Ok ok, setPoller p' s)) by (unfold onPoller, zoom; by rewrite E).
    rewrite (bind_ok _ _ _ _ _ Eo). unfold delFd. rewrite bind_gets. unfold id. st.
    apply lookup_lt_Some in Hc. rewrite (proj2 (Z.ltb_lt _ _)); [done|]. unfold zlen. lia. }
  rewrite (bind_ok _ _ _ _ _ Hset), bind_modify. set (s2 := act_ _ _).
  destruct (origin_spec s2 n e l Hl) as (s' & Eo & Ha & _ & _ & Hpo & _). exists s'.
  split; [done|]. destruct Ha. rewrite Hpo, af_ctx0, af_acts0. unfold s2. st. rewrite app_nil_r.
  pose proof (handle_all_progress (poller s) fd ok p' Hp Hfd Hk E) as Hok.
  split; [done|]. split; [done|]. destruct ok.
  - destruct (Hyes eq_refl) as [Hs He]. cbn [emitted effect] in *. split; [done|]. split; [|done].
    intros t Ht. by rewrite He, decide_True.
  - destruct (Hno eq_refl) as [Hs He]. symmetry in Hok. apply orb_false_iff in Hok as [H1 H2].
    apply bool_decide_eq_false in H1, H2. rewrite <- eq_None_not_Some in H1, H2.
    rewrite H1, H2. split; [by rewrite app_nil_r|]. split; [|done].
    intros t [-> | ->]; by rewrite He.
Qed.

(** C30: Closing a managed descriptor hands every task that is registered for
    it with the poller of the worker that calls [close] to its worker, leaves
    nothing of it registered there and no context in the table, and closes the
    descriptor exactly once.  It asks that poller only
    ([Worker::HandleAllEvent]); who waits for the descriptor with the poller
    of another worker is not woken. *)
Theorem close_wakes_waiters s fd o n e l :
  t_hookEnable s = true -> 0 <= fd -> fdcontexts_ s !! Z.to_nat fd = Some (Some o) ->
  Inv (poller s) -> accepts (kernel (poller s)) fd -> calls s = (n, e) :: l ->
  exists s', close fd s = (Ok n, s')
    /\ fdcontexts_ s' = <[Z.to_nat fd := None]> (fdcontexts_ s)
    /\ Inv (poller s')
    /\ scheduled (poller s') = scheduled (poller s) ++ option_list (registered (poller s) fd EPOLLIN)
                                 ++ option_list (registered (poller s) fd EPOLLOUT)
    /\ (forall type, is_type type -> registered (poller s') fd type = None)
    /\ acts s' = acts s ++ [CloseOrigin fd].
Proof. apply close_run. Qed.

(** A hooked [sleep] suspends once, for [seconds * 1000] milliseconds
    computed in [unsigned int]: it is the time asked for exactly up to 4294967
    seconds.  [usleep] rounds down to milliseconds. *)
Theorem sleep_duration s seconds usec c p ws :
  t_hookEnable s = true -> wakes s = (c, p) :: ws -> 0 <= seconds < 2 ^ 32 -> 0 <= usec < 2 ^ 32 ->
  (exists ms s1, sleep seconds s = (Ok 0, s1) /\ acts s1 = acts s ++ [SetTimer ms; Yield]
     /\ (ms = seconds * 1000 <-> seconds <= 4294967))
  /\ (exists ms s2, usleep usec s = (Ok 0, s2) /\ acts s2 = acts s ++ [SetTimer ms; Yield]
     /\ ms * 1000 <= usec < (ms + 1) * 1000).
Proof.
  intros Hh Hw Hs Hu.
  assert (Hms : forall ms, exists s1, sleep_ms ms s = (Ok 0, s1) /\ acts s1 = acts s ++ [SetTimer ms; Yield]).
  { intros ms. unfold sleep_ms. rewrite bind_modify. eexists. split.
    - erewrite bind_ok; [|unfold YieldToSuspend; st; by rewrite Hw]. done.
    - st. by rewrite <- app_assoc. }
  split.
  - unfold sleep. rewrite bind_gets. unfold id. rewrite Hh. cbn [negb].
    destruct (Hms (u32 (seconds * 1000))) as (s1 & E & Ha). exists (u32 (seconds * 1000)), s1.
    split; [done|]. split; [done|]. pose proof (wrap_range 32 (seconds * 1000)).
    split; intros ?; [lia|]. apply wrap_small. lia.
  - unfold usleep. rewrite bind_gets. unfold id. rewrite Hh. cbn [negb].
    destruct (Hms (Z.quot usec 1000)) as (s2 & E & Ha). exists (Z.quot usec 1000), s2.
    split; [done|]. split; [done|]. rewrite Z.quot_div_nonneg by lia.
    pose proof (Z.div_mod usec 1000). pose proof (Z.mod_pos_bound usec 1000). lia.
Qed.
End Hook.

(** ** A concrete kernel: the flags of the sockets *)

Definition map_setfl (fd arg : Z) (k : gmap Z Z) : Z * gmap Z Z :=
  match k !! fd with Some _ => (0, <[fd := arg]> k) | None => (-1, k) end.

Lemma map_setfl_ok fd arg k k' :
  map_setfl fd arg k = (0, k') ->
  (forall g, bool_decide (fd = g) = true -> Z.testbit (default 0 (k' !! g)) 11 = Z.testbit arg 11)
  /\ (forall g, bool_decide (fd = g) = false -> default 0 (k' !! g) = default 0 (k !! g))
  /\ forall g, bool_decide (is_Some (k' !! g)) = bool_decide (is_Some (k !! g)).
Proof.
  unfold map_setfl. destruct (k !! fd) eqn:Hk; [|done]. intros [= <-]. split_and!.
  - intros g <-%bool_decide_eq_true. by rewrite lookup_insert_eq.
  - intros g Hg%bool_decide_eq_false. by rewrite lookup_insert_ne.
  - intros g. apply bool_decide_ext. destruct (decide (g = fd)) as [->|].
    + rewrite lookup_insert_eq, Hk. split; by eexists.
    + by rewrite lookup_insert_ne.
Qed.

#[export] Instance mapSys : Sys (gmap Z Z).
Proof.
  refine {| is_socket k fd := bool_decide (is_Some (k !! fd)); shares k fd g := bool_decide (fd = g);
    getfl k fd := default 0 (k !! fd); setfl := map_setfl;
    fionbio fd b k := let fl := default 0 (k !! fd) in
      map_setfl fd (if b then Z.lor fl O_NONBLOCK else Z.land fl (Z.lnot O_NONBLOCK)) k |}.
  - intros k fd. by apply bool_decide_true.
  - apply map_setfl_ok.
  - unfold map_setfl. intros fd arg r k k' E Hr. destruct (k !! fd); injection E as <- <-; done.
  - intros fd b k k' E. destruct (map_setfl_ok _ _ _ _ E) as (Hb & Hg & Hs). split_and!; [|done..].
    intros g Hsh. rewrite Hb by done. destruct b; [apply set_nonblock|apply clear_nonblock].
  - unfold map_setfl. intros fd b r k k' E Hr. destruct (k !! fd); injection E as <- <-; done.
Defined.

(** A kernel with duplicates: the description of each descriptor and the flags
    of each description. *)
Definition dup_setfl (fd arg : Z) (k : gmap Z Z * gmap Z Z) : Z * (gmap Z Z * gmap Z Z) :=
  match k.1 !! fd with Some d => (0, (k.1, <[d := arg]> k.2)) | None => (-1, k) end.

Lemma dup_setfl_ok fd arg k k' :
  dup_setfl fd arg k = (0, k') ->
  (forall g, bool_decide (k.1 !! fd = k.1 !! g) = true ->
     Z.testbit (default 0 (k'.1 !! g ≫= fun d => k'.2 !! d)) 11 = Z.testbit arg 11)
  /\ (forall g, bool_decide (k.1 !! fd = k.1 !! g) = false ->
       default 0 (k'.1 !! g ≫= fun d => k'.2 !! d) = default 0 (k.1 !! g ≫= fun d => k.2 !! d))
  /\ forall g, bool_decide (is_Some (k'.1 !! g)) = bool_decide (is_Some (k.1 !! g)).
Proof.
  unfold dup_setfl. destruct (k.1 !! fd) as [d|] eqn:E; [|done]. intros [= <-]. cbn [fst snd]. split_and!.
  - intros g <-%bool_decide_eq_true. cbn. by rewrite lookup_insert_eq.
  - intros g Hg%bool_decide_eq_false. destruct (k.1 !! g) as [x|]; [|done]. cbn. rewrite lookup_insert_ne; [done|congruence].
  - done.
Qed.

Definition dupSys : Sys (gmap Z Z * gmap Z Z).
Proof.
  refine {| is_socket k fd := bool_decide (is_Some (k.1 !! fd)); shares k fd g := bool_decide (k.1 !! fd = k.1 !! g);
    getfl k fd := default 0 (k.1 !! fd ≫= fun d => k.2 !! d); setfl := dup_setfl;
    fionbio fd b k := let fl := default 0 (k.1 !! fd ≫= fun d => k.2 !! d) in
      dup_setfl fd (if b then Z.lor fl O_NONBLOCK else Z.land fl (Z.lnot O_NONBLOCK)) k |}.
  - intros k fd. by apply bool_decide_true.
  - apply dup_setfl_ok.
  - unfold dup_setfl. intros fd arg r k k' E Hr. destruct (k.1 !! fd); injection E as <- <-; done.
  - intros fd b k k' E. destruct (dup_setfl_ok _ _ _ _ E) as (Hb & Hg & Hs). split_and!; [|done..].
    intros g Hsh. rewrite Hb by done. destruct b; [apply set_nonblock|apply clear_nonblock].
  - unfold dup_setfl. intros fd b r k k' E Hr. destruct (k.1 !! fd); injection E as <- <-; done.
Defined.

(** Socket 3 with a receive timeout of 250 ms; its descriptor is new to the
    poller. *)
Definition demoCtx : FdContext :=
  {| isSock_ := true; isSysNonblock_ := true; isUserNonblock_ := false; close_ := false; fd_ := 3;
     recvTimeout_ := 250; sendTimeout_ := -1 |}.
Definition newPoller : Epoller (W := nat) (C := nat) (F := nat) (K := gmap Z Z) := newEpoller ∅.
Definition demoSt (script : list (Z * Z)) (ws : list (Z * Epoller)) : St (K := gmap Z Z) :=
  {| t_hookEnable := true; self := 0%nat; cur := 7%nat; poller := newPoller;
     fdcontexts_ := [None; None; None; Some demoCtx]; sys := {[ 3 := 2050 ]}; errno := 0;
     calls := script; wakes := ws; acts := [] |}.

Lemma demo_blocking script ws : Blocking (demoSt script ws) 3 demoCtx.
Proof. by split. Qed.

Lemma demo_fdinv script ws : FdInv (demoSt script ws).
Proof. intros [|[|[|[|i]]]] c Hi; try done. injection Hi as <-. by split_and!. Qed.

Lemma registers_new s type :
  self s = 0%nat -> cur s = 7%nat -> is_type type -> registers (K := gmap Z Z) s 3 type newPoller.
Proof. intros Hs Hc [-> | ->]; unfold registers; rewrite Hs, Hc; eexists; by vm_compute. Qed.

Lemma do_io_answers_witness :
  exists s', read 3 (demoSt [(-1, EINTR); (-1, EAGAIN); (-1, EINTR); (5, 0)] [(0, newPoller)]) = (Ok 5, s')
    /\ acts s' = [SetTimer 250; Yield; CancelTimer].
Proof.
  destruct (do_io_answers (demoSt [(-1, EINTR); (-1, EAGAIN); (-1, EINTR); (5, 0)] [(0, newPoller)])
    3 demoCtx EPOLLIN SO_RCVTIMEO [(1%nat, newPoller)] 1 5 0 [] [] (demo_blocking _ _)) as (s' & E & Ha & _).
  - done.
  - done.
  - split; [|done]. apply registers_new; [done..|by left].
  - by intros [? _].
  - exists s'. split; [exact E|]. by rewrite (af_acts _ _ _ Ha).
Defined.

Lemma do_io_times_out_witness :
  exists s', read 3 (demoSt [(-1, EAGAIN)] [(ETIMEDOUT, newPoller)]) = (Ok (-1), s') /\ errno s' = ETIMEDOUT.
Proof.
  destruct (do_io_times_out (demoSt [(-1, EAGAIN)] [(ETIMEDOUT, newPoller)]) 3 demoCtx EPOLLIN SO_RCVTIMEO
    [] 0 ETIMEDOUT newPoller [] [] (demo_blocking _ _)) as (s' & E & He & _).
  - done.
  - done.
  - done.
  - done.
  - apply registers_new; [done..|by left].
  - exists s'. by split.
Defined.

(** The poller of the second registration holds the first. *)
Definition busyPoller : Epoller (W := nat) (C := nat) (F := nat) (K := gmap Z Z) :=
  snd (addEvent 0%nat 8%nat 3 EPOLLIN None newPoller).

Lemma do_io_never_would_block_witness :
  let s := setPoller busyPoller (demoSt [(-1, EAGAIN)] []) in
  fst (read 3 s) = Ok (-1) /\ refused s 3 EPOLLIN.
Proof.
  split; [by vm_compute|].
  destruct (do_io 3 EPOLLIN SO_RCVTIMEO (setPoller busyPoller (demoSt [(-1, EAGAIN)] []))) as [r s'] eqn:E.
  apply (do_io_never_would_block _ 3 demoCtx EPOLLIN SO_RCVTIMEO (-1) s').
  - by split.
  - intros e p Hin. by inversion Hin.
  - rewrite E. f_equal. vm_compute in E. by injection E as <- _.
  - split; [done|]. right. vm_compute in E. by injection E as _ <-.
Defined.

Lemma do_io_transparent_witness :
  exists s', write 4 (demoSt [(2, 0)] []) = (Ok 2, s') /\ calls s' = [].
Proof.
  destruct (do_io_transparent (demoSt [(2, 0)] []) 4 EPOLLOUT SO_SNDTIMEO 2 0 []) as (s' & E & _ & Hc & _).
  - done.
  - right; left. split; [done|]. by left.
  - exists s'. by split.
Defined.


(** Descriptors 3 and 7 are one socket, of which only 3 is in the table. *)
Lemma duplicate_makes_blocking_witness :
  let s := {| t_hookEnable := true; self := 0%nat; cur := 7%nat; poller := newPoller;
     fdcontexts_ := [None; None; None; Some demoCtx]; sys := ({[ 3 := 0; 7 := 0 ]} : gmap Z Z, {[ 0 := 2050 ]} : gmap Z Z);
     errno := 0; calls := []; wakes := []; acts := [] |} in
  Z.testbit (@getfl _ dupSys (sys s) 3) 11 = true
  /\ Z.testbit (@getfl _ dupSys (sys (snd (@fcntl_SETFL _ _ _ _ _ dupSys 7 2 s))) 3) 11 = false.
Proof.
  intros s. split; [reflexivity|].
  destruct (@fcntl_SETFL _ _ _ _ _ dupSys 7 2 s) as [r s1] eqn:E.
  refine (proj2 (@duplicate_makes_blocking _ _ _ _ _ dupSys s 3 7 2 demoCtx s1 _ _ _ _ _ _ _ _)); try done.
  - by left.
  - rewrite E. f_equal. vm_compute in E. by injection E as <- _.
Defined.

Lemma fcntl_virtual_nonblock_witness :
  Z.testbit (getfl (sys (snd (fcntl_SETFL 3 2 (demoSt [] [])))) 3) 11 = true.
Proof.
  destruct (fcntl_SETFL 3 2 (demoSt [] [])) as [r s1] eqn:E.
  refine (proj1 (fcntl_virtual_nonblock (demoSt [] []) 3 2 demoCtx s1 (demo_fdinv _ _) _ _ _ _)); try done.
  rewrite E. f_equal. vm_compute in E. by injection E as <- _.
Defined.

Lemma ioctl_makes_blocking_witness :
  Z.testbit (getfl (sys (snd (ioctl_FIONBIO 3 0 (demoSt [] [])))) 3) 11 = false.
Proof.
  destruct (ioctl_FIONBIO 3 0 (demoSt [] [])) as [r s1] eqn:E.
  refine (proj1 (ioctl_makes_blocking (demoSt [] []) 3 demoCtx s1 _ _ _ _ _)); try done.
  rewrite E. f_equal. vm_compute in E. by injection E as <- _.
Defined.

Lemma socket_timeout_round_trip_witness :
  exists s1, setSocketTimeout 3 SO_SNDTIMEO (-1234567) (demoSt [(0, 0)] []) = (Ok 0, s1)
    /\ getSocketTimeout 3 SO_SNDTIMEO s1 = (Ok (-1234567), s1)
    /\ getSocketTimeout 3 SO_RCVTIMEO s1 = (Ok 250, s1).
Proof.
  destruct (socket_timeout_round_trip (demoSt [(0, 0)] []) 3 SO_SNDTIMEO (-1234567) demoCtx 0 0 []
    (demo_blocking _ _)) as (s1 & E & H1 & H2); [done|lia|].
  exists s1. split; [exact E|]. split; [exact H1|]. by apply (H2 SO_RCVTIMEO).
Defined.

Lemma connect_unregistered_succeeds_witness :
  fst (connect 3 (0, 0) (setPoller (snd (addEvent 0%nat 8%nat 3 EPOLLOUT None newPoller))
                           (demoSt [(-1, EINPROGRESS)] []))) = Ok 0.
Proof.
  set (p := snd (addEvent 0%nat 8%nat 3 EPOLLOUT None newPoller)).
  destruct (connect_unregistered_succeeds (setPoller p (demoSt [(-1, EINPROGRESS)] [])) 3 demoCtx [] p)
    as (s' & E & _); [by split|done|by vm_compute|]. by rewrite E.
Defined.

Lemma close_wakes_waiters_witness :
  exists s', close 3 (setPoller demo (demoSt [(0, 0)] [])) = (Ok 0, s')
    /\ scheduled (poller s') = [(0%nat, TaskCo 7%nat); (0%nat, TaskCo 8%nat)].
Proof.
  destruct (close_wakes_waiters (setPoller demo (demoSt [(0, 0)] [])) 3 demoCtx 0 0 [])
    as (s' & E & _ & _ & Hs & _); try done.
  - exact demo_inv.
  - apply map_accepts.
  - exists s'. split; [exact E|]. rewrite Hs. by vm_compute.
Defined.

Lemma sleep_duration_witness :
  exists ms s1, sleep 4294968 (demoSt [] [(0, newPoller)]) = (Ok 0, s1) /\ acts s1 = [SetTimer ms; Yield]
    /\ ms <> 4294968 * 1000.
Proof.
  destruct (sleep_duration (demoSt [] [(0, newPoller)]) 4294968 0 0 newPoller []) as [(ms & s1 & E & Ha & Hms) _];
    [done|done|lia|lia|].
  exists ms, s1. split; [exact E|]. split; [exact Ha|]. lia.
Defined.
