(* ===== verification/Runtime.v ===== *)
(** * Blocking calls on a worker (src/reyao: hook.cc, worker.cc, epoller.cc together)

    What a coroutine that makes hooked calls goes through: the registration
    with the poller of its worker, the suspension, the turn in which
    [epoll_wait] reports its descriptor, and the turn that resumes it.  The
    parts are those of Epoller.v and Worker.v; here they run together. *)

From S2P Require Import Prelude Timer Hook Epoller Worker.

Section Runtime.
Context {KE : Type} `{Epoll KE}.

Abbreviation Task := (Epoller.Task (C := nat) (F := Prog)).
Abbreviation Poller := (Epoller (W := nat) (C := nat) (F := Prog) (K := KE)).
Abbreviation Worker := (Worker.Worker (KE := KE)).

(** [do_io] on a socket without timeout as a part of the program of a
    coroutine, by the answers the original call will give: from [retry:] on,
    [k] receives the result and [errno]. *)
Fixpoint ioProg (calls : list (Z * Z)) (fd type : Z) (k : Z -> Z -> Prog) : Prog :=
  match calls with
  | [] => YieldToSuspend Return
  | (n, e) :: calls =>
      if (n =? -1) && (e =? EINTR) then ioProg calls fd type k
      else if (n =? -1) && (e =? EAGAIN) then
        AddEvent fd type None (fun ok =>
          if ok then YieldToSuspend (ioProg calls fd type k) else k (-1) e)
      else k n e
  end.

(** Several turns of the loop, none of which ends it. *)
Fixpoint turns (rs : list Round) : M Worker unit :=
  match rs with
  | [] => ret tt
  | r :: rs => b <-- iterate r ;; assert_ b ;;; turns rs
  end.

Lemma turns_app rs rs' w w' : turns rs w = (Ok tt, w') -> turns (rs ++ rs') w = turns rs' w'.
Proof.
  revert w. induction rs as [|r rs IH]; intros w E; cbn [app turns] in *.
  - by injection E as ->.
  - inv_bind E. inv_bind E. erewrite bind_ok by eassumption. erewrite bind_ok by eassumption. by apply IH.
Qed.

Lemma turns_one r w w' : iterate r w = (Ok true, w') -> turns [r] w = (Ok tt, w').
Proof. intros E. cbn [turns]. rewrite (bind_ok _ _ _ _ _ E). done. Qed.

(** ** The calls of the poller on its own worker *)

Definition delivered (w : nat) (p : Poller) : Poller :=
  {| ioEvents_ := ioEvents_ p; pendingEvents_ := pendingEvents_ p; polling_ := polling_ p; kernel := kernel p;
     scheduled := filter (fun x => x.1 <> w) (scheduled p) |}.

Definition mine (w : nat) (l : list (nat * Task)) : list Task := map snd (filter (fun x => x.1 = w) l).

Lemma addTasks_run ts (w : Worker) :
  exists w', addTasks ts w = (Ok tt, w') /\ Same w w' /\ poller_ w' = poller_ w
    /\ Worker.running_ w' = Worker.running_ w
    /\ tasks_ w' = tasks_ w ++ filter (fun t => isTask t w = true) ts.
Proof.
  revert w. induction ts as [|t ts IH]; intros w; cbn [addTasks].
  - exists w. by rewrite filter_nil, app_nil_r.
  - destruct (addTask_run w t) as (w1 & E1 & HS1 & HP1 & HR1 & HT1).
    destruct (IH w1) as (w2 & E2 & HS2 & HP2 & HR2 & HT2). exists w2. rewrite (bind_ok _ _ _ _ _ E1).
    split; [done|]. split; [by eapply Same_trans|]. split; [congruence|]. split; [congruence|].
    assert (Hf : filter (fun t => isTask t w1 = true) ts = filter (fun t => isTask t w = true) ts).
    { apply list_filter_iff. intros u. unfold isTask. by rewrite (sm_coroutines _ _ HS1). }
    rewrite HT2, HT1, Hf, filter_cons. destruct (isTask t w) eqn:Hi.
    + rewrite decide_True by done. by rewrite <- app_assoc.
    + by rewrite decide_False.
Qed.

Lemma onPoller_run {A} (m : M Poller A) a p (w : Worker) :
  m (poller_ w) = (Ok a, p) ->
  exists w', onPoller m w = (Ok a, w') /\ Same w w' /\ poller_ w' = delivered (self w) p
    /\ Worker.running_ w' = Worker.running_ w
    /\ tasks_ w' = tasks_ w ++ filter (fun t => isTask t w = true) (mine (self w) (scheduled p)).
Proof.
  intros Em. unfold Worker.onPoller.
  assert (Ez : zoom poller_ Worker.setPoller m w = (Ok a, Worker.setPoller p w)) by (unfold zoom; by rewrite Em).
  rewrite (bind_ok _ _ _ _ _ Ez). set (w1 := Worker.setPoller (delivered (self w) p) w).
  destruct (addTasks_run (mine (self w) (scheduled p)) w1) as (w' & E & [] & HP & HR & HT).
  assert (Ed : drain (Worker.setPoller p w) = (Ok tt, w')) by exact E.
  rewrite (bind_ok _ _ _ _ _ Ed). exists w'. split; [done|]. split; [by split|]. by split_and!.
Qed.

(** ** A worker at rest *)

(** A worker that runs and has the tasks [ts]; its poller agrees with the
    kernel and owes it no task. *)
Record Rest (w : Worker) (ts : list Task) : Prop := {
  rs_loop : LoopInv w;
  rs_poller : Inv (poller_ w);
  rs_tasks : tasks_ w = ts;
  rs_running : Worker.running_ w = true;
  rs_idle : idle w = INIT \/ idle w = SUSPEND;
  rs_none : Forall (fun x => x.1 <> self w) (scheduled (poller_ w))
}.

Lemma mine_none w l : Forall (fun x : nat * Task => x.1 <> w) l -> mine w l = [].
Proof. intros Hl. unfold mine. induction Hl as [|x l Hx _ IH]; [done|]. by rewrite filter_cons_False. Qed.

Lemma mine_app w l l' : mine w (l ++ l') = mine w l ++ mine w l'.
Proof. unfold mine. by rewrite filter_app, map_app. Qed.

Lemma delivered_none w (p : Poller) : Forall (fun x => x.1 <> w) (scheduled (delivered w p)).
Proof. cbn. apply Forall_forall. intros x Hx. by apply list_elem_of_filter in Hx as [? _]. Qed.

Lemma inv_delivered w (p : Poller) : Inv p -> Inv (delivered w p).
Proof. intros [[Hs Hp Hz] Hw Hr]. split; [by split|done..]. Qed.

Lemma inv_polling b (p : Poller) : Inv p -> Inv (setPolling b p).
Proof. intros [[Hs Hp Hz] Hw Hr]. split; [by split|done..]. Qed.

(** A turn without a task: the idle coroutine, through [epoll_wait]. *)
Lemma idle_turn w r p :
  Rest w [] -> round_ok w r -> early r = [] -> arrivals r = [] -> stops r = false ->
  Epoller.wait (self w) (expired r) (ready r) (setPolling true (poller_ w)) = (Ok tt, p) -> Inv p ->
  exists w1, iterate r w = (Ok true, w1) /\ poller_ w1 = delivered (self w) p /\ coroutines w1 = coroutines w
    /\ self w1 = self w
    /\ Rest w1 (filter (fun t => isTask t w = true) (mine (self w) (scheduled p))).
Proof.
  intros [HL HI Ht Hr Hi Hn] Hok He Ha Hs Ew HIp.
  set (u := Worker.setPoller (setPolling true (poller_ w)) (setIdle RUNNING (setIdleFlag true w))).
  destruct (onPoller_run (Epoller.wait (self w) (expired r) (ready r)) tt p u Ew) as (v & Ev & HS & HP & HR & HT).
  assert (El : idleLoop r (setIdle RUNNING (setIdleFlag true w)) = (Ok tt, setIdle SUSPEND v)).
  { unfold idleLoop. set (w0 := setIdle RUNNING _).
    assert (Ec : canStop (expire r) w0 = (Ok false, w0)).
    { unfold canStop. rewrite bind_gets. unfold id. cbn. by rewrite Hr. }
    rewrite (bind_ok _ _ _ _ _ Ec), bind_modify, Ha, Hs. cbn [addTasks]. rewrite !bind_ret, bind_gets.
    change (self (Worker.setPoller _ w0)) with (self w). by rewrite (bind_ok _ _ _ _ _ Ev). }
  assert (Ei : idling r w = (Ok true, setIdleFlag false (setIdle SUSPEND v))).
  { unfold idling. rewrite bind_gets, bool_decide_false by (by destruct Hi as [-> | ->]). rewrite bind_modify.
    assert (Er : resumeIdle r (setIdleFlag true w) = (Ok tt, setIdle SUSPEND v)).
    { unfold resumeIdle. rewrite bind_gets. unfold assert_, check. cbn [idle setIdleFlag].
      rewrite bool_decide_true, bind_ret, bind_modify by (by destruct Hi as [-> | ->]). exact El. }
    by rewrite (bind_ok _ _ _ _ _ Er), bind_modify. }
  assert (Eit : iterate r w = idling r w).
  { unfold iterate. rewrite He. cbn [addTasks]. rewrite bind_ret. unfold takeTask. unfold bind at 1. by rewrite Ht. }
  destruct (turn_ok w r HL Hok) as (b & w' & E & HL' & _). rewrite Eit, Ei in E. injection E as <- <-.
  exists (setIdleFlag false (setIdle SUSPEND v)). rewrite Eit. destruct HS as [Hsf _ Hsc _ _ _ _ _].
  split; [done|]. split; [exact HP|]. split; [exact Hsc|]. split; [exact Hsf|]. split; cbn; try done.
  - rewrite HP. by apply inv_delivered.
  - rewrite HT. cbn. by rewrite Ht.
  - by rewrite HR.
  - by right.
  - rewrite HP, Hsf. apply delivered_none.
Qed.

(** A turn without a task in which the timers of [fs] expire: their functions
    are queued, in order. *)
Definition timedRound (e : Z) (fs : list (option Prog)) : Round :=
  {| early := []; expire := e; arrivals := []; stops := false; expired := fs; ready := [] |}.

Lemma waited_run w (fs : list (option Prog)) (p : Poller) :
  ioEvents_ (waited w fs p) = ioEvents_ p /\ (Inv p -> Inv (waited w fs p))
  /\ scheduled (waited w fs p) = scheduled p ++ map (fun f => (w, TaskFunc f)) (omap id fs).
Proof.
  unfold waited.
  assert (H0 : Inv p -> Inv (setPolling false (setPolling true p))) by (intros Hp; by do 2 apply inv_polling).
  change (ioEvents_ p) with (ioEvents_ (setPolling false (setPolling true p))).
  change (scheduled p) with (scheduled (setPolling false (setPolling true p))).
  revert H0. generalize (setPolling false (setPolling true p)).
  induction fs as [|[f|] fs IH]; intros q Hq; cbn [foldl omap list_omap id map].
  - by rewrite app_nil_r.
  - destruct (IH (schedule w (TaskFunc f) q)) as (Hi & Hv & Hs).
    { intros Hp. destruct (Hq Hp) as [[? ? ?] ? ?]. split; [by split|done..]. }
    split; [exact Hi|]. split; [exact Hv|]. rewrite Hs. cbn. by rewrite <- app_assoc.
  - by apply IH.
Qed.

Lemma mine_self w (ts : list Task) : mine w (map (fun t => (w, t)) ts) = ts.
Proof.
  unfold mine. induction ts as [|t ts IH]; cbn [map]; [done|].
  rewrite filter_cons_True by done. cbn [map snd]. by rewrite IH.
Qed.

Lemma functions_are_tasks (fs : list Prog) (w : Worker) :
  filter (fun t => isTask t w = true) (map TaskFunc fs) = map TaskFunc fs.
Proof. induction fs as [|f fs IH]; cbn [map]; [done|]. by rewrite filter_cons_True, IH. Qed.

Lemma expired_turn e fs w :
  Rest w [] -> Forall (fun f => from_option prog_ok True f) fs ->
  exists w1, iterate (timedRound e fs) w = (Ok true, w1) /\ ioEvents_ (poller_ w1) = ioEvents_ (poller_ w)
    /\ coroutines w1 = coroutines w /\ self w1 = self w /\ Rest w1 (map TaskFunc (omap id fs)).
Proof.
  intros Hrest Hfs. set (q := waited (self w) fs (setPolling true (poller_ w))).
  destruct (waited_run (self w) fs (setPolling true (poller_ w))) as (Hi & Hv & Hs).
  destruct (idle_turn w (timedRound e fs) q Hrest) as (w1 & E1 & HP1 & HC1 & HS1 & HR1); try done.
  { apply Hv, inv_polling, (rs_poller _ _ Hrest). }
  exists w1. split; [done|]. split; [by rewrite HP1|]. split; [done|]. split; [done|].
  fold q in Hs. change (scheduled (setPolling true _)) with (scheduled (poller_ w)) in Hs.
  assert (Hm : mine (self w) (scheduled q) = map TaskFunc (omap id fs)).
  { rewrite Hs, mine_app, mine_none by apply (rs_none _ _ Hrest). cbn [app].
    rewrite <- (mine_self (self w) (map TaskFunc _)), map_map. done. }
  rewrite Hm in HR1. by rewrite functions_are_tasks in HR1.
Qed.

(** ** A coroutine that waits for a descriptor *)

Definition other (type : Z) : Z := if type =? EPOLLIN then EPOLLOUT else EPOLLIN.

Definition suspended (w : Worker) (c : nat) (p : Prog) : Prop :=
  exists x, coroutines w !! c = Some x /\ state_ x = SUSPEND /\ context_ x = p.

(** Coroutine [c] waits for [type] on [fd] and nobody for the other event;
    with [p] left to run. *)
Record Waiting (w : Worker) (c : nat) (fd type : Z) (p : Prog) : Prop := {
  wt_rest : Rest w [];
  wt_co : suspended w c p;
  wt_registered : registered (poller_ w) fd type = Some (self w, TaskCo c);
  wt_other : registered (poller_ w) fd (other type) = None
}.

(** The next turn resumes [c], and nobody waits for [fd]. *)
Record Runnable (w : Worker) (c : nat) (fd : Z) (p : Prog) : Prop := {
  rn_rest : Rest w [TaskCo c];
  rn_co : suspended w c p;
  rn_free : forall type, is_type type -> registered (poller_ w) fd type = None
}.

Context (fd type : Z) (Hfd : 2 <= fd < 2 ^ 31) (Htype : is_type type) (Hk : forall k : KE, accepts k fd).

Lemma other_type : is_type (other type) /\ other type <> type.
Proof using Htype. destruct Htype as [-> | ->]; split; [by right|done|by left|done]. Qed.

Lemma type_cases u : is_type u -> u = type \/ u = other type.
Proof using Htype. destruct Htype as [-> | ->]; intros [-> | ->]; auto. Qed.

(** Nothing but [type] is registered for [fd]. *)
Lemma only_types (p : Poller) x :
  Inv p -> registered p fd type = Some x -> registered p fd (other type) = None ->
  exists i e, fd = Z.of_nat i /\ ioEvents_ p !! i = Some e /\ types e = type.
Proof using Hfd Htype.
  intros Hp Hr Ho. destruct (ioEvents_ p !! Z.to_nat fd) as [e|] eqn:He; [|unfold registered in Hr; by rewrite He in Hr].
  exists (Z.to_nat fd), e. split; [lia|]. split; [done|].
  pose proof (registered_bool p _ e type (inv_shape p Hp) He Htype) as H1.
  pose proof (registered_bool p _ e (other type) (inv_shape p Hp) He (proj1 other_type)) as H2.
  rewrite Z2Nat.id in H1, H2 by lia. rewrite Hr in H1. rewrite Ho in H2. cbn in H1.
  rewrite bool_decide_false in H2 by (by intros [? ?]).
  pose proof (ev_types _ _ (sh_events p (inv_shape p Hp) _ e He)) as Ht. clear -Htype H1 H2 Ht.
  destruct Htype as [-> | ->], Ht as [E|[E|[E|E]]]; rewrite E in *; done.
Qed.

(** The kernel reports the event, or an error that stands for it. *)
Definition reports (ev : Z) : Prop := realEventsOf ev type = type.

Definition readyRound (ev : Z) : Round :=
  {| early := []; expire := -1; arrivals := []; stops := false; expired := []; ready := [ReadyIO fd ev] |}.

Lemma ready_turn ev w c p :
  reports ev -> Waiting w c fd type p ->
  exists w', iterate (readyRound ev) w = (Ok true, w') /\ Runnable w' c fd p.
Proof using Hfd Htype Hk.
  intros Hev [Hrest (x & Hx & Hst & Hcx) Hreg Hoth]. pose proof (rs_poller _ _ Hrest) as HI.
  set (q := setPolling false (setPolling true (setPolling true (poller_ w)))).
  assert (HIq : Inv q) by (by do 3 apply inv_polling).
  destruct (only_types q (self w, TaskCo c) HIq Hreg Hoth) as (i & e & Hi & He & Hte).
  assert (Hsub : Z.land (realEventsOf ev (types e)) (Z.lnot (types e)) = 0).
  { rewrite Hte, Hev. by destruct Htype as [-> | ->]. }
  destruct (ready_run q i e ev HIq He Hsub) as (p' & E & _ & Hsc & Hr & Hinv & _); [rewrite <- Hi; apply Hk|].
  rewrite <- Hi, Hte, Hev in *.
  assert (HIp : Inv p') by (apply Hinv; left; by destruct Htype as [-> | ->]).
  assert (Hm : scheduled p' = scheduled (poller_ w) ++ [(self w, TaskCo c)]).
  { rewrite Hsc. change (registered q fd) with (registered (poller_ w) fd). unfold ready_of.
    destruct Htype as [-> | ->]; cbn in Hreg, Hoth |- *; rewrite Hreg, ?Hoth; done. }
  assert (Hrd : round_ok w (readyRound ev)).
  { split; try done. cbn [ready readies_ok readyRound]. split; [|done]. split; [lia|]. exists e.
    rewrite Hte, Hev. rewrite Hi, Nat2Z.id. split; [exact He|]. by destruct Htype as [-> | ->]. }
  destruct (idle_turn w (readyRound ev) p' Hrest Hrd) as (w1 & E1 & HP1 & HC1 & HS1 & HR1); try done.
  { unfold Epoller.wait. rewrite !bind_modify. cbn [handleAllReady readyRound ready expired foldl].
    change (setPolling false _) with q. by rewrite (bind_ok _ _ _ _ _ E). }
  exists w1. split; [done|]. split.
  - rewrite Hm, mine_app, mine_none in HR1 by (apply (rs_none _ _ Hrest)). cbn [app] in HR1.
    unfold mine in HR1. rewrite filter_cons_True in HR1 by done. rewrite filter_nil in HR1. cbn [map snd] in HR1.
    rewrite filter_cons_True in HR1; [exact HR1|]. cbn. apply bool_decide_eq_true. by eexists.
  - exists x. by rewrite HC1.
  - intros u Hu. rewrite HP1. change (registered (delivered (self w) p') fd u) with (registered p' fd u).
    rewrite Hr by (done || lia). destruct (type_cases u Hu) as [-> | ->].
    + rewrite decide_True; [done|]. split; [done|]. by destruct Htype as [-> | ->].
    + rewrite decide_False; [exact Hoth|]. intros [_ Hx']. by destruct Htype as [-> | ->].
Qed.

(** [epoll_wait] times out. *)
Lemma quiet_turn w c p :
  Waiting w c fd type p -> exists w', iterate quiet w = (Ok true, w') /\ Waiting w' c fd type p.
Proof using Type.
  intros [Hrest (x & Hx & Hst & Hcx) Hreg Hoth].
  destruct (expired_turn (-1) [] w Hrest) as (w1 & E1 & HP1 & HC1 & HS1 & HR1); [constructor|].
  exists w1. split; [exact E1|]. split.
  - exact HR1.
  - exists x. by rewrite HC1.
  - unfold registered. rewrite HP1, HS1. exact Hreg.
  - unfold registered. rewrite HP1. exact Hoth.
Qed.

(** ** The calls of the coroutine *)

Lemma register_run (w : Worker) c :
  Inv (poller_ w) -> Forall (fun x => x.1 <> self w) (scheduled (poller_ w)) ->
  (forall u, is_type u -> registered (poller_ w) fd u = None) ->
  exists w', onPoller (addEvent (self w) c fd type None) w = (Ok true, w') /\ Same w w' /\ tasks_ w' = tasks_ w
    /\ Worker.running_ w' = Worker.running_ w /\ Inv (poller_ w')
    /\ Forall (fun x => x.1 <> self w) (scheduled (poller_ w'))
    /\ registered (poller_ w') fd type = Some (self w, TaskCo c) /\ registered (poller_ w') fd (other type) = None.
Proof using Hfd Htype Hk.
  intros HI Hn Hfree.
  assert (Hok : regop_ok (poller_ w) (RAdd (self w) c fd type None)) by (split; [lia|]; split; [done|left; lia]).
  destruct (add_spec (poller_ w) (self w) c fd type None HI Hok) as (ok & p & E & HIp & _ & Hyes). cbn [run_regop] in E.
  pose proof (add_progress _ _ _ _ _ _ _ _ HI Hok (Hk _) E) as Ho. rewrite (Hfree type Htype) in Ho. cbn in Ho.
  subst ok. destruct (Hyes eq_refl) as [Hsc Hr]. cbn [emitted] in Hsc. rewrite app_nil_r in Hsc.
  destruct (onPoller_run _ true p w E) as (w' & Eo & HS & HP & HR & HT).
  exists w'. split; [done|]. split; [done|]. split_and!; try done.
  - by rewrite HT, Hsc, mine_none, filter_nil, app_nil_r.
  - rewrite HP. by apply inv_delivered.
  - rewrite HP. apply delivered_none.
  - rewrite HP. change (registered (delivered (self w) p) fd type) with (registered p fd type).
    rewrite Hr by (done || lia). cbn [effect]. by rewrite decide_True.
  - rewrite HP. change (registered (delivered (self w) p) fd (other type)) with (registered p fd (other type)).
    destruct other_type as [Hot Hne]. rewrite Hr by (done || lia). cbn [effect]. rewrite decide_False by naive_solver.
    by apply Hfree.
Qed.

(** [i] interrupted calls. *)
Definition interrupts (i : nat) : list (Z * Z) := replicate i (-1, EINTR).
Definition again (n e : Z) : bool := (n =? -1) && ((e =? EINTR) || (e =? EAGAIN)).

Lemma ioProg_interrupts i l k : ioProg (interrupts i ++ l) fd type k = ioProg l fd type k.
Proof. induction i as [|i IH]; [done|]. exact IH. Qed.

Lemma ioProg_answer i n e l k : again n e = false -> ioProg (interrupts i ++ (n, e) :: l) fd type k = k n e.
Proof.
  intros Hn. rewrite ioProg_interrupts. cbn [ioProg]. unfold again in Hn.
  destruct (n =? -1), (e =? EINTR), (e =? EAGAIN); done.
Qed.

(** The turn in which the call would block again. *)
Lemma block_turn w c i l k :
  Runnable w c fd (ioProg (interrupts i ++ (-1, EAGAIN) :: l) fd type k) ->
  exists w', iterate quiet w = (Ok true, w') /\ Waiting w' c fd type (ioProg l fd type k).
Proof using Hfd Htype Hk.
  intros [Hrest (x & Hx & Hst & Hcx) Hfree]. rewrite ioProg_interrupts in Hcx.
  pose proof Hrest as [HL HI Ht Hr Hi Hn].
  assert (Eit : iterate quiet w = (exec c (context_ x) ;;; ret true) (resumed c x [] w)) by (by apply iterate_resumes).
  set (w1 := resumed c x [] w) in *.
  destruct (register_run w1 c HI Hn Hfree) as (w2 & E2 & [] & HT2 & HR2 & HI2 & Hn2 & Hreg & Hoth).
  assert (Hx2 : coroutines w2 !! c = Some (setState RUNNING x)) by (rewrite sm_coroutines; cbn; by rewrite lookup_insert_eq).
  assert (E : iterate quiet w = (Ok true, setCur None (setCoroutines
    (<[c := parked (ioProg l fd type k) (setState RUNNING x)]> (coroutines w2)) w2))).
  { rewrite Eit, Hcx.
    change (ioProg ((-1, EAGAIN) :: l) fd type k) with (AddEvent fd type None (fun ok =>
      if ok then YieldToSuspend (ioProg l fd type k) else k (-1) EAGAIN)).
    cbn [exec]. unfold bind at 1. rewrite bind_gets, (bind_ok _ _ _ _ _ E2). cbn [exec].
    by rewrite (park_run c _ w2 _ Hx2 eq_refl). }
  destruct (turn_ok w quiet HL (quiet_ok w)) as (b & w' & E' & HL' & _). rewrite E in E'. injection E' as <- <-.
  eexists. split; [exact E|]. split; cbn.
  - split; cbn; try done; [by rewrite HR2|by rewrite sm_idle|by rewrite sm_self].
  - eexists. cbn. rewrite lookup_insert_eq. split; [done|]. by split.
  - by rewrite sm_self.
  - done.
Qed.

(** ** A blocking call from its first attempt to its answer *)

(** One attempt that would block: how often it is interrupted, and how many
    times [epoll_wait] times out before it reports the descriptor. *)
Definition attempt (r : nat * nat) : list (Z * Z) := interrupts r.1 ++ [(-1, EAGAIN)].
Definition attemptTurns (ev : Z) (r : nat * nat) : list Round := quiet :: replicate r.2 quiet ++ [readyRound ev].

Lemma wait_turns j w c p :
  Waiting w c fd type p -> exists w', turns (replicate j quiet) w = (Ok tt, w') /\ Waiting w' c fd type p.
Proof using Hfd.
  revert w. induction j as [|j IH]; intros w Hw; cbn [replicate turns]; [by exists w|].
  destruct (quiet_turn w c p Hw) as (w1 & E1 & Hw1). destruct (IH w1 Hw1) as (w2 & E2 & Hw2).
  exists w2. rewrite (bind_ok _ _ _ _ _ E1). by split.
Qed.

Lemma attempt_turns ev r w c l k :
  reports ev -> Runnable w c fd (ioProg (attempt r ++ l) fd type k) ->
  exists w', turns (attemptTurns ev r) w = (Ok tt, w') /\ Runnable w' c fd (ioProg l fd type k).
Proof using Hfd Htype Hk.
  intros Hev Hw. unfold attempt in Hw. rewrite <- app_assoc in Hw.
  destruct (block_turn w c _ _ k Hw) as (w1 & E1 & Hw1).
  destruct (wait_turns r.2 w1 c _ Hw1) as (w2 & E2 & Hw2).
  destruct (ready_turn ev w2 c _ Hev Hw2) as (w3 & E3 & Hw3).
  exists w3. split; [|done]. unfold attemptTurns. change (quiet :: ?x) with ([quiet] ++ x).
  rewrite (turns_app _ _ _ _ (turns_one _ _ _ E1)), (turns_app _ _ _ _ E2). by apply turns_one.
Qed.

(** C8: A hooked call in a coroutine blocks the coroutine and not the worker,
    and comes back.  Whatever number of times the call would block, and is
    interrupted, before it has an answer: each time the coroutine registers
    with its worker's poller and suspends, the worker's loop goes on, whether
    [epoll_wait] times out or not, and when the kernel reports the event or
    an error on the descriptor the next turn resumes the coroutine, which
    tries again.  In the end it goes on with the result and [errno] of the
    answer, no registration is left behind, and the poller, the kernel and
    the worker are consistent. *)
Theorem blocking_call_completes rs ev i n e l w c k :
  reports ev -> again n e = false ->
  Runnable w c fd (ioProg (List.concat (map attempt rs) ++ interrupts i ++ (n, e) :: l) fd type k) ->
  exists w', turns (List.concat (map (attemptTurns ev) rs)) w = (Ok tt, w') /\ Runnable w' c fd (k n e)
    /\ forall r, early r = [] -> exists x, coroutines w' !! c = Some x /\
         iterate r w' = (exec c (k n e) ;;; ret true) (resumed c x [] w').
Proof using Hfd Htype Hk.
  intros Hev Hn. revert w. induction rs as [|r rs IH]; intros w Hw; cbn [map List.concat] in *.
  - exists w. cbn [app] in Hw. rewrite (ioProg_answer i n e l k Hn) in Hw. split; [done|]. split; [done|].
    destruct Hw as [Hrest (x & Hx & Hst & Hcx) _]. intros r He. exists x. split; [done|]. rewrite <- Hcx.
    apply iterate_resumes; [done|apply (rs_tasks _ _ Hrest)|done..].
  - rewrite <- app_assoc in Hw. destruct (attempt_turns ev r w c _ k Hev Hw) as (w1 & E1 & Hw1).
    destruct (IH w1 Hw1) as (w2 & E2 & Hrest). exists w2. rewrite (turns_app _ _ _ _ E1). by split.
Qed.

(** ** The timer of a call *)

(** The callback [do_io] gives to its timer.  [t] is what [winfo.lock()]
    yields when it runs: nothing once [do_io] has returned, and otherwise
    [cancelled] of the [timerInfo]; with the [timerInfo] it leaves comes what
    it does to the poller of the worker it runs on. *)
Definition onTimeout (t : option Z) : option Z * Prog :=
  match t with
  | None => (t, Return)
  | Some cancelled =>
      if negb (cancelled =? 0) then (t, Return)
      else (Some ETIMEDOUT, HandleEvent fd type (fun _ => Return))
  end.

(** The function of the timer: [addConditonTimer] binds [OnTimer] to the
    callback and the object it depends on, here the [timerInfo]. *)
Definition timeout (t : option Z) : option Z * Prog :=
  match OnTimer (match t with Some _ => true | None => false end) onTimeout with
  | Some func => func t
  | None => (t, Return)
  end.

Lemma timeout_quiet t : t <> Some 0 -> timeout t = (t, Return).
Proof using Type.
  destruct t as [x|]; [|done]. intros Hx. cbn. destruct (x =? 0) eqn:E; [|done].
  apply Z.eqb_eq in E. by subst.
Qed.

Lemma timeout_mark t : (timeout t).1 = if decide (t = Some 0) then Some ETIMEDOUT else t.
Proof using Type. case_decide as Ht; [by subst|]. by rewrite timeout_quiet. Qed.

(** The turn of the worker that collects the expiry of the timer, with what
    its callback does when it runs, in the next turn. *)
Definition timerRound (t : option Z) : Round := timedRound (-1) [Some (timeout t).2].

Lemma claim_frame f (w w1 : Worker) d :
  LoopInv w -> claimCoroutine f w = (Ok d, w1) ->
  self w1 = self w /\ forall c x, coroutines w !! c = Some x -> Worker.finished (state_ x) = false -> d <> c.
Proof.
  intros HL E. unfold claimCoroutine in E. rewrite bind_gets in E. destruct (coFunc w) as [d'|] eqn:Ec.
  - destruct (l_coFunc _ HL d' Ec) as (y & Hy & Hyf). unfold reuse in E.
    assert (Eg : getCoroutine d' w = (Ok y, w)) by (unfold getCoroutine; by rewrite Hy).
    unfold bind at 1 in E. rewrite (bind_ok _ _ _ _ _ Eg) in E. unfold assert_, check in E.
    destruct (reusable (state_ y)); [|done]. rewrite bind_ret in E. injection E as <- <-.
    split; [done|]. congruence.
  - unfold newCoroutine in E. injection E as <- <-. split; [done|]. intros c x Hx Hf <-.
    pose proof (c_ids _ _ (l_coroutines _ HL) (S (s_coroutineId w)) ltac:(by eexists)). lia.
Qed.

(** The turn that takes a function: [v] is the worker when the function
    starts in coroutine [d]; the coroutines that have not finished are as they
    were, and the turn ends with the function when it does not suspend. *)
Record Started (w v : Worker) (d : nat) (f : Prog) (ts : list Task) : Prop := {
  sd_self : self v = self w;
  sd_poller : poller_ v = poller_ w;
  sd_tasks : tasks_ v = ts;
  sd_running : Worker.running_ v = Worker.running_ w;
  sd_idle : idle v = idle w;
  sd_co : coroutines v !! d = Some (setState RUNNING (fresh f));
  sd_kept : forall c x, coroutines w !! c = Some x -> Worker.finished (state_ x) = false ->
    d <> c /\ coroutines v !! c = Some x;
  sd_turn : forall w' y, exec d f v = (Ok tt, w') -> coroutines w' !! d = Some y -> state_ y <> SUSPEND ->
    iterate quiet w = (Ok true, w') /\ LoopInv w'
}.

Lemma function_turn f ts w :
  LoopInv w -> tasks_ w = TaskFunc f :: ts -> exists d v, Started w v d f ts.
Proof.
  intros HL Ht. set (w1 := popTask (TaskFunc f) ts w).
  assert (HL1 : LoopInv w1).
  { destruct HL as [HQ HC Hf Hid Hcf]. split; try done; [by apply QInv_pop|by destruct HC; split]. }
  destruct (claim_run f w1 HL1) as (d & w2 & E2 & Hco & _ & _ & Hid2 & _ & Hts2 & Hp2 & Hr2 & _).
  assert (Hd2 : coroutines w2 !! d = Some (fresh f)) by (by rewrite Hco, lookup_insert_eq).
  destruct (claim_frame f w1 w2 d HL1 E2) as [Hs2 Hne].
  exists d, (setCur (Some d) (setCoroutines (<[d := setState RUNNING (fresh f)]> (coroutines w2)) w2)).
  split; cbn; try done.
  - by rewrite lookup_insert_eq.
  - intros c x Hx Hfin. specialize (Hne c x Hx Hfin). split; [done|].
    rewrite lookup_insert_ne by done. rewrite Hco. by rewrite lookup_insert_ne.
  - intros w' y E Hy Hsus.
    assert (Eit : iterate quiet w = (Ok true, w')).
    { unfold iterate. cbn [early quiet addTasks]. rewrite bind_ret. unfold takeTask. unfold bind at 1. rewrite Ht.
      fold w1. assert (Ef : runFunc f w1 = (Ok tt, w')); [|by rewrite (bind_ok _ _ _ _ _ Ef)].
      unfold runFunc. rewrite (bind_ok _ _ _ _ _ E2). rewrite <- (resume_run d (fresh f) w2) in E by done.
      rewrite (bind_ok _ _ _ _ _ E).
      assert (Eg : getCoroutine d w' = (Ok y, w')) by (unfold getCoroutine; by rewrite Hy).
      rewrite (bind_ok _ _ _ _ _ Eg). by rewrite bool_decide_false. }
    split; [done|]. destruct (turn_ok w quiet HL (quiet_ok w)) as (b & w'' & E' & HL' & _).
    rewrite Eit in E'. by injection E' as <- <-.
Qed.

(** The end of a function. *)
Definition done_ (x : Coroutine) : Coroutine := {| func_ := None; context_ := Return; state_ := DONE |}.

Lemma return_run d w :
  exec d Return w = (Ok tt, setCur None (setCoroutines (alter done_ d (coroutines w)) w)).
Proof.
  cbn [exec]. unfold yield, updCoroutine. rewrite !bind_modify. unfold modify. cbn [coroutines setCoroutines].
  by rewrite alter_alter_eq.
Qed.

(** The turn of a function that comes to its end without suspending. *)
Lemma ended_turn f (w v v' : Worker) d ts :
  Rest w [TaskFunc f] -> Started w v d f [] -> exec d f v = exec d Return v' -> Same v v' ->
  Worker.running_ v' = Worker.running_ v -> Inv (poller_ v') -> tasks_ v' = ts ->
  Forall (fun x => x.1 <> self w) (scheduled (poller_ v')) ->
  exists w', iterate quiet w = (Ok true, w') /\ poller_ w' = poller_ v' /\ self w' = self w /\ Rest w' ts
    /\ forall c p, suspended w c p -> suspended w' c p.
Proof.
  intros [HL HI Ht Hr Hi Hn] [Hsf Hp Hts Hr' Hi' Hd Hkept Hturn] E HS HR HI' HT HN.
  assert (Hd' : coroutines v' !! d = Some (setState RUNNING (fresh f))) by (by rewrite (sm_coroutines _ _ HS)).
  destruct (Hturn (setCur None (setCoroutines (alter done_ d (coroutines v')) v')) (done_ (fresh f))) as [Eit HL'].
  { rewrite E. apply return_run. } { cbn. by rewrite lookup_alter_eq, Hd'. } { done. }
  destruct HS. eexists. split; [exact Eit|]. cbn. split; [done|]. split; [congruence|]. split.
  - split; cbn; try done; [congruence|by rewrite sm_idle, Hi'|by rewrite sm_self, Hsf].
  - intros c p (x & Hx & Hst & Hcx). destruct (Hkept c x Hx) as [Hdc Hc]; [by rewrite Hst|].
    exists x. cbn. rewrite lookup_alter_ne by done. by rewrite sm_coroutines.
Qed.

(** The callback that does nothing. *)
Lemma idle_callback_turn w :
  Rest w [TaskFunc Return] ->
  exists w', iterate quiet w = (Ok true, w') /\ Rest w' [] /\ poller_ w' = poller_ w
    /\ forall c p, suspended w c p -> suspended w' c p.
Proof.
  intros HR. destruct (function_turn Return [] w (rs_loop _ _ HR) (rs_tasks _ _ HR)) as (d & v & HS).
  pose proof HS as [Hsf Hp Hts Hr' _ _ _ _].
  destruct (ended_turn Return w v v d [] HR HS) as (w' & E & HP & _ & HR' & Hk'); try done.
  - rewrite Hp. apply (rs_poller _ _ HR).
  - rewrite Hp. apply (rs_none _ _ HR).
  - exists w'. split; [done|]. split; [done|]. split; [congruence|done].
Qed.

(** The callback that takes the event back: what was registered for it on the
    poller of the worker that runs the callback is queued. *)
Definition woken (w w' : Worker) : Prop :=
  forall g u, 0 <= g -> is_type u ->
    registered (poller_ w') g u = if decide (g = fd /\ u = type) then None else registered (poller_ w) g u.

Lemma handle_woken (p : Poller) :
  Inv p ->
  exists ok q, handleEvent fd type p = (Ok ok, q) /\ Inv q
    /\ scheduled q = scheduled p ++ option_list (registered p fd type)
    /\ forall g u, 0 <= g -> is_type u ->
         registered q g u = if decide (g = fd /\ u = type) then None else registered p g u.
Proof using Hfd Htype Hk.
  intros HI. assert (Hfd0 : 0 <= fd) by lia.
  destruct (handle_spec p fd type HI Hfd0 Htype) as (ok & q & E & HIq & Hno & Hyes). cbn [run_regop] in E.
  pose proof (handle_progress _ _ _ _ _ HI Hfd0 Htype (Hk _) E) as Ho. exists ok, q. split; [done|]. split; [done|].
  destruct ok; [by apply Hyes|]. destruct (Hno eq_refl) as [Hsc Hrq].
  destruct (registered p fd type) eqn:Hx; [done|]. cbn [option_list]. rewrite app_nil_r.
  split; [done|]. intros g u Hg _. rewrite Hrq by done. case_decide as Hd; [|done]. by destruct Hd as [-> ->].
Qed.

Lemma wake_turn w :
  Rest w [TaskFunc (HandleEvent fd type (fun _ => Return))] ->
  (forall t, registered (poller_ w) fd type = Some t -> exists c p, t = (self w, TaskCo c) /\ suspended w c p) ->
  exists w', iterate quiet w = (Ok true, w') /\ self w' = self w
    /\ Rest w' (map snd (option_list (registered (poller_ w) fd type)))
    /\ (forall c p, suspended w c p -> suspended w' c p) /\ woken w w'.
Proof using Hfd Htype Hk.
  intros HR Hreg. destruct (function_turn _ [] w (rs_loop _ _ HR) (rs_tasks _ _ HR)) as (d & v & HS).
  pose proof HS as [Hsf Hp Hts Hr' _ _ Hkept _]. destruct (handle_woken (poller_ w) (rs_poller _ _ HR)) as (ok & q & E & HIq & Hsc & Hrq).
  destruct (onPoller_run (handleEvent fd type) ok q v) as (v' & Ev & HSm & HP' & HR' & HT'); [by rewrite Hp|].
  rewrite Hsf in HP', HT'.
  assert (HT : tasks_ v' = map snd (option_list (registered (poller_ w) fd type))).
  { rewrite HT', Hts, Hsc, mine_app, mine_none by (apply (rs_none _ _ HR)). cbn [app].
    destruct (registered (poller_ w) fd type) as [t|]; [|done]. destruct (Hreg t eq_refl) as (c & p & -> & x & Hx & Hst & _).
    change (option_list (Some ?x)) with [x]. cbn [map snd].
    rewrite (mine_self (self w) [TaskCo c] : mine _ [(_, TaskCo c)] = _), filter_cons_True, filter_nil; [done|].
    cbn. apply bool_decide_eq_true. exists x. by apply Hkept; [|rewrite Hst]. }
  destruct (ended_turn _ w v v' d (map snd (option_list (registered (poller_ w) fd type))) HR HS) as (w' & E' & HPw & Hsw & HRw & Hkw); try done.
  - cbn [exec]. by rewrite (bind_ok _ _ _ _ _ Ev).
  - rewrite HP'. by apply inv_delivered.
  - rewrite HP'. apply delivered_none.
  - exists w'. split; [done|]. split; [done|]. split; [done|]. split; [done|].
    intros g u Hg Hu. rewrite HPw, HP'. by apply Hrq.
Qed.

(** The turn in which [epoll_wait] times out, the expiry is collected and the
    callback is queued. *)
Lemma collect_turn t (w : Worker) :
  Rest w [] ->
  exists w', iterate (timerRound t) w = (Ok true, w') /\ self w' = self w /\ Rest w' [TaskFunc (timeout t).2]
    /\ (forall g u, registered (poller_ w') g u = registered (poller_ w) g u)
    /\ (forall c p, suspended w c p -> suspended w' c p).
Proof using Hfd Htype.
  intros HR. destruct (expired_turn (-1) [Some (timeout t).2] w HR) as (w1 & E1 & HP1 & HC1 & HS1 & HR1).
  { apply Forall_singleton. cbn. destruct t as [x|]; [|done]. cbn. destruct (negb _); [done|]. split; [lia|]. by split. }
  exists w1. split; [done|]. split; [done|]. split; [done|].
  split; [unfold registered; by rewrite HP1|unfold suspended; by rewrite HC1].
Qed.

Lemma turns_two r r' w w1 w2 :
  iterate r w = (Ok true, w1) -> iterate r' w1 = (Ok true, w2) -> turns [r; r'] w = (Ok tt, w2).
Proof.
  intros E E'. change [r; r'] with ([r] ++ [r']). rewrite (turns_app _ _ _ _ (turns_one _ _ _ E)). by apply turns_one.
Qed.

(** C37: The timer of a hooked call.  When the worker of the coroutine
    collects its expiry while the coroutine waits, the callback, which that
    worker runs in its next turn, marks the call as timed out, takes the
    registration back and queues the coroutine; the turn after that resumes it
    where it suspended, with nothing registered any more.  On a worker with
    no registration of the event with its own poller, which is every other
    worker as the timers belong to the scheduler and [HandleEvent] asks the
    poller of the worker it runs on, and after the call has returned or has
    timed out, the callback queues nothing and leaves every registration of
    that worker: it marks a call that waits elsewhere as timed out and does
    not wake it. *)
Theorem timeout_wakes :
  (forall w c p, Waiting w c fd type p ->
    (timeout (Some 0)).1 = Some ETIMEDOUT /\
    exists w', turns [timerRound (Some 0); quiet] w = (Ok tt, w') /\ Runnable w' c fd p
      /\ forall r, early r = [] -> exists x, coroutines w' !! c = Some x /\
           iterate r w' = (exec c p ;;; ret true) (resumed c x [] w'))
  /\ (forall v t, Rest v [] -> t <> Some 0 \/ registered (poller_ v) fd type = None ->
    (timeout t).1 = (if decide (t = Some 0) then Some ETIMEDOUT else t) /\
    exists v', turns [timerRound t; quiet] v = (Ok tt, v') /\ Rest v' []
      /\ (forall c p, suspended v c p -> suspended v' c p)
      /\ forall g u, 0 <= g -> is_type u -> registered (poller_ v') g u = registered (poller_ v) g u).
Proof using Hfd Htype Hk.
  split.
  - intros w c p [HR Hco Hreg Hoth]. split; [done|].
    destruct (collect_turn (Some 0) w HR) as (w1 & E1 & HS1 & HR1 & Hr1 & Hk1).
    destruct (wake_turn w1 HR1) as (w2 & E2 & HS2 & HR2 & Hk2 & Hw2).
    { intros t. rewrite Hr1, Hreg. intros [= <-]. exists c, p. rewrite HS1. auto. }
    rewrite Hr1, Hreg in HR2. destruct (Hk2 c p (Hk1 c p Hco)) as (y & Hy & Hsty & Hcy).
    exists w2. split; [by eapply turns_two|]. split.
    + split; [exact HR2|by exists y|]. intros u Hu. rewrite Hw2, !Hr1 by (done || lia).
      destruct (type_cases u Hu) as [-> | ->]; [by rewrite decide_True|].
      destruct other_type. by rewrite decide_False by naive_solver.
    + intros r He. exists y. split; [done|]. rewrite <- Hcy.
      apply iterate_resumes; [done|apply (rs_tasks _ _ HR2)|done..].
  - intros v t HR Hcase. split; [by apply timeout_mark|].
    destruct (collect_turn t v HR) as (v1 & E1 & _ & HR1 & Hr1 & Hk1).
    destruct (decide (t = Some 0)) as [-> | Ht].
    + destruct Hcase as [? | Hnone]; [done|]. destruct (wake_turn v1 HR1) as (v2 & E2 & _ & HR2 & Hk2 & Hw2).
      { intros u. by rewrite Hr1, Hnone. }
      rewrite Hr1, Hnone in HR2. exists v2. split; [by eapply turns_two|]. split; [done|]. split; [by eauto|].
      intros g u Hg Hu. rewrite Hw2, Hr1 by done. by case_decide as Hd; [destruct Hd as [-> ->]|].
    + rewrite timeout_quiet in HR1 by done. destruct (idle_callback_turn v1 HR1) as (v2 & E2 & HR2 & HP2 & Hk2).
      exists v2. split; [by eapply turns_two|]. split; [done|]. split; [by eauto|]. intros g u _ _. by rewrite HP2.
Qed.

Lemma ioProg_ok calls k : (forall n e, prog_ok (k n e)) -> prog_ok (ioProg calls fd type k).
Proof using Hfd Htype.
  intros Hp. induction calls as [|[n e] calls IH]; cbn [ioProg]; [done|].
  destruct (_ && _); [done|]. destruct (_ && _); [|done]. cbn. split; [lia|]. split; [done|]. split; [done|]. by intros [].
Qed.
End Runtime.

(** ** Concrete runs *)

(** A read on descriptor 5 that would block twice, interrupted twice, before
    it gets seven bytes. *)
Definition demoRead : Prog :=
  ioProg (List.concat (map attempt [(1, 2); (0, 0)]%nat) ++ interrupts 1 ++ [(7, 0)]) 5 EPOLLIN
    (fun n _ => if n =? 7 then AddTask Return Return else Raise).

(** A worker with one coroutine, suspended in [p] and queued. *)
Definition oneQueued (p : Prog) : Worker (KE := gmap Z Z) :=
  pushTask (TaskCo 1%nat) (allocate {| func_ := Some p; context_ := p; state_ := SUSPEND |} (setRunning true W0)).

Lemma oneQueued_rest p : prog_ok p -> Rest (oneQueued p) [TaskCo 1%nat].
Proof.
  intros Hp. destruct new_poller_ok as [Hs Hk]. split; try done; [|by left].
  split; [| |done|by left|done].
  - split; [exact Hs|exact Hk|by repeat constructor| |done]. intros c Hc.
    apply list_elem_of_singleton in Hc as [= ->]. by eexists.
  - split; [done|..]; cbn.
    + intros c x Hx. by apply lookup_insert_Some in Hx as [[<- <-]|[_ Hx]].
    + intros c x Hx. by apply lookup_insert_Some in Hx as [[<- <-]|[_ Hx]].
    + intros c Hc. apply lookup_insert_is_Some' in Hc as [<-|[? ?]]; [lia|done].
Qed.

(** Another worker, with nothing to do. *)
Definition atRest : Worker (KE := gmap Z Z) := setRunning true W0.

Lemma atRest_rest : Rest atRest [].
Proof.
  destruct new_poller_ok as [Hs Hk]. split; try done; [|by left].
  split; [| |done|by left|done].
  - split; [exact Hs|exact Hk|by constructor| |done]. intros c Hc. by apply elem_of_nil in Hc.
  - split; [done|..]; cbn; try done. intros c Hc. by destruct Hc as [? ?].
Qed.

Definition DW : Worker (KE := gmap Z Z) := oneQueued demoRead.

Lemma DW_runnable : Runnable DW 1%nat 5 demoRead.
Proof.
  split.
  - apply oneQueued_rest, ioProg_ok; [lia|by left|]. intros n e. by destruct (n =? 7).
  - eexists. split; [reflexivity|]. done.
  - intros u _. done.
Qed.

Lemma blocking_call_completes_witness :
  exists w', turns (List.concat (map (attemptTurns 5 EPOLLIN) [(1, 2); (0, 0)]%nat)) DW = (Ok tt, w')
    /\ Runnable w' 1%nat 5 (AddTask Return Return).
Proof.
  destruct (blocking_call_completes 5 EPOLLIN ltac:(lia) ltac:(by left) (fun k => map_accepts k 5)
    [(1, 2); (0, 0)]%nat EPOLLIN 1 7 0 [] DW 1 (fun n _ => if n =? 7 then AddTask Return Return else Raise))
    as (w' & E & Hw & _).
  - reflexivity.
  - reflexivity.
  - exact DW_runnable.
  - exists w'. split; [exact E|exact Hw].
Defined.

Lemma timeout_wakes_witness :
  exists w p v, Waiting w 1%nat 5 EPOLLIN p
    /\ (exists w', turns [timerRound 5 EPOLLIN (Some 0); quiet] w = (Ok tt, w') /\ Runnable w' 1%nat 5 p)
    /\ exists v', turns [timerRound 5 EPOLLIN (Some 0); quiet] v = (Ok tt, v') /\ tasks_ v' = [].
Proof.
  destruct (block_turn 5 EPOLLIN ltac:(lia) ltac:(by left) (fun k => map_accepts k 5) DW 1 1
    ((-1, EAGAIN) :: interrupts 1 ++ [(7, 0)]) _ DW_runnable)
    as (w & _ & Hw).
  destruct (timeout_wakes 5 EPOLLIN ltac:(lia) ltac:(by left) (fun k => map_accepts k 5)) as [Hown Hother].
  destruct (Hother atRest (Some 0) atRest_rest) as (_ & v' & Ev & HRv & _); [by right|].
  destruct (Hown w 1%nat _ Hw) as (_ & w' & E & Hr & _).
  eexists w, _, atRest. split; [exact Hw|]. split; [by exists w'|]. exists v'. split; [exact Ev|exact (rs_tasks _ _ HRv)].
Defined.
