(* ===== verification/Lifetime.v ===== *)
(** * Who keeps a coroutine alive (src/reyao: coroutine.cc, worker.cc, epoller.cc)

    Coroutines are shared: the queue, the event contexts of the poller, the
    local [coFunc] of [Worker::run] and [t_curCoroutine] hold them, and the
    last holder that lets go runs the destructor, which asserts that the
    coroutine is not in the middle of its function. *)

From S2P Require Import Prelude Epoller Hook Worker Runtime.

Section Lifetime.
Context {KE : Type} `{Epoll KE}.

Abbreviation Task := (Epoller.Task (C := nat) (F := Prog)).
Abbreviation Worker := (Worker.Worker (KE := KE)).

(** [Coroutine::GetCoroutineId]; the main coroutine has no id. *)
Definition GetCoroutineId (w : Worker) : nat := default 0%nat (cur w).

(** ** The holders *)

Definition isCo (c : nat) (t : Task) : bool := match t with TaskCo d => (d =? c)%nat | TaskFunc _ => false end.
Definition ctxHolds (c : nat) (x : EventCtx (W := nat) (C := nat) (F := Prog)) : nat :=
  match co x with Some d => if (d =? c)%nat then 1 else 0 | None => 0 end.
Definition isSome (c : nat) (o : option nat) : nat := match o with Some d => if (d =? c)%nat then 1 else 0 | None => 0 end.

Definition queued (w : Worker) (c : nat) : nat := length (filter (fun t => isCo c t = true) (tasks_ w)).
Definition listening (w : Worker) (c : nat) : nat :=
  sum_list_with (fun e => ctxHolds c (readEvent e) + ctxHolds c (writeEvent e))%nat (ioEvents_ (poller_ w)).

(** The use count of [c] on this worker. *)
Definition holders (w : Worker) (c : nat) : nat :=
  (queued w c + listening w c + isSome c (coFunc w) + isSome c (cur w))%nat.

(** [~Coroutine] of a coroutine with a stack. *)
Definition destroy (c : nat) : M Worker unit :=
  x <-- getCoroutine c ;;
  assert_ (reusable (state_ x)) ;;;
  modify (fun w => setCoroutines (delete c (coroutines w)) w).

(** A holder has let go of [c]. *)
Definition release (c : nat) : M Worker unit := fun w =>
  if (holders w c =? 0)%nat then destroy c w else (Ok tt, w).

(** ** A coroutine that waits is held *)

Lemma queued_in w c : TaskCo c ∈ tasks_ w -> (1 <= queued w c)%nat.
Proof.
  intros Hin. unfold queued. destruct (filter _ _) as [|t l] eqn:E; [|cbn; lia].
  assert (Hf : TaskCo c ∈ filter (fun t => isCo c t = true) (tasks_ w)).
  { apply list_elem_of_filter. split; [cbn; apply Nat.eqb_refl|done]. }
  rewrite E in Hf. by apply elem_of_nil in Hf.
Qed.

Lemma sum_elem {X} (f : X -> nat) l i x : l !! i = Some x -> (f x <= sum_list_with f l)%nat.
Proof. revert i. induction l as [|y l IH]; intros [|i] Hi; cbn in *; [done|done|injection Hi as ->; lia|]. specialize (IH i Hi). lia. Qed.

Lemma listening_registered w c fd type v :
  is_type type -> registered (poller_ w) fd type = Some (v, TaskCo c) -> (1 <= listening w c)%nat.
Proof.
  intros Ht Hr. unfold registered in Hr. destruct (ioEvents_ (poller_ w) !! Z.to_nat fd) as [e|] eqn:He; [|done].
  cbn in Hr. destruct (has (types e) type); [|done]. unfold listening.
  pose proof (sum_elem (fun e => ctxHolds c (readEvent e) + ctxHolds c (writeEvent e))%nat _ _ _ He) as Hs. cbn beta in Hs.
  assert (Hc : ctxHolds c (ctxOf type e) = 1%nat).
  { unfold taskOf in Hr. unfold ctxHolds. destruct (worker _), (co _); try done; [|by destruct (func _)].
    injection Hr as _ ->. by rewrite Nat.eqb_refl. }
  unfold ctxOf in Hc. destruct (type =? EPOLLIN); lia.
Qed.

Lemma release_held w c : (1 <= holders w c)%nat -> release c w = (Ok tt, w).
Proof. intros Hh. unfold release. by rewrite (proj2 (Nat.eqb_neq _ _)) by lia. Qed.

(** A coroutine blocked in a hooked call is held at the end of every turn, by
    the poller while it waits and by the queue once it is woken: letting go of
    any other reference to it runs no destructor. *)
Theorem blocked_is_held w c fd type p :
  is_type type -> Waiting w c fd type p \/ Runnable w c fd p -> release c w = (Ok tt, w).
Proof.
  intros Ht Hw. apply release_held. unfold holders. destruct Hw as [[_ _ Hr _]|[[_ _ Hts _ _ _] _ _]].
  - pose proof (listening_registered _ _ _ _ _ Ht Hr). lia.
  - pose proof (queued_in w c ltac:(rewrite Hts; by left)). lia.
Qed.

(** ** A coroutine that suspends without having stored itself *)

Lemma listening_same (w w' : Worker) c : poller_ w' = poller_ w -> listening w' c = listening w c.
Proof. intros E. unfold listening. by rewrite E. Qed.

(** A function that calls [YieldToSuspend] with nobody to wake it: at the end
    of its turn [run] lets go of [coFunc], the last holder, and the destructor
    fails its assertion. *)
Theorem bare_suspension_aborts w r k :
  LoopInv w -> early r = [] -> tasks_ w = [TaskFunc (YieldToSuspend k)] -> (forall c, listening w c = 0%nat) ->
  exists c w', iterate r w = (Ok true, w') /\ (exists x, coroutines w' !! c = Some x /\ state_ x = SUSPEND)
    /\ release c w' = (Throw AssertFail, w').
Proof.
  intros HL He Ht Hl. set (w1 := popTask (TaskFunc (YieldToSuspend k)) [] w).
  assert (HL1 : LoopInv w1) by (destruct HL as [HQ HC Hf Hid Hcf]; split; try done; [by apply QInv_pop|by destruct HC; split]).
  destruct (claim_run (YieldToSuspend k) w1 HL1) as (c & w2 & E2 & Hco & Hcf & _ & _ & _ & Hts & Hp & _).
  assert (Hc2 : coroutines w2 !! c = Some (fresh (YieldToSuspend k))) by (by rewrite Hco, lookup_insert_eq).
  set (w3 := setCur (Some c) (setCoroutines (<[c := setState RUNNING (fresh (YieldToSuspend k))]> (coroutines w2)) w2)).
  assert (Hc3 : coroutines w3 !! c = Some (setState RUNNING (fresh (YieldToSuspend k)))) by (cbn; by rewrite lookup_insert_eq).
  pose proof (park_run c k w3 _ Hc3 eq_refl) as E3. set (w4 := setCur None _) in E3.
  assert (Er : resume c w2 = (Ok tt, w4)).
  { rewrite (resume_run c (fresh (YieldToSuspend k)) w2) by done. exact E3. }
  set (y := parked k (setState RUNNING (fresh (YieldToSuspend k)))) in *.
  assert (Hc4 : coroutines w4 !! c = Some y) by (cbn; by rewrite lookup_insert_eq).
  assert (Eg4 : getCoroutine c w4 = (Ok y, w4)) by (unfold getCoroutine; by rewrite Hc4).
  set (w5 := setCoFunc None w4).
  exists c, w5. split; [|split].
  - unfold iterate. rewrite He. cbn [addTasks]. rewrite bind_ret. unfold takeTask. unfold bind at 1. rewrite Ht. fold w1.
    assert (Ef : runFunc (YieldToSuspend k) w1 = (Ok tt, w5)); [|by rewrite (bind_ok _ _ _ _ _ Ef)].
    unfold runFunc. rewrite (bind_ok _ _ _ _ _ E2), (bind_ok _ _ _ _ _ Er), (bind_ok _ _ _ _ _ Eg4).
    by rewrite bool_decide_true.
  - by exists y.
  - unfold release. assert (Hh : holders w5 c = 0%nat).
    { unfold holders. rewrite (listening_same w w5) by (cbn; by rewrite Hp). rewrite Hl. unfold queued. cbn.
      by rewrite Hts. }
    rewrite Hh. cbn [Nat.eqb]. unfold destroy.
    assert (Eg5 : getCoroutine c w5 = (Ok y, w5)) by (unfold getCoroutine; cbn; by rewrite lookup_insert_eq).
    by rewrite (bind_ok _ _ _ _ _ Eg5).
Qed.
End Lifetime.
