(* ===== verification/Sleep.v ===== *)
(** * Sleeping coroutines (src/reyao: hook.cc, timer.cc, worker.cc, epoller.cc together)

    A hooked [sleep] hands the scheduler's timers a callback that puts the
    coroutine back, and suspends.  The worker asks the timers how long it may
    wait ([canStop]), waits, queues the callbacks that have expired
    ([Epoller::wait]) and runs them; each puts its coroutine back.  The
    timers are those of Timer.v, the worker and its poller those of Worker.v
    and Epoller.v; here they run together, one worker with the scheduler's
    timers. *)

From S2P Require Import Prelude Timer Hook Epoller Worker Runtime.

Section Sleep.
Context {KE : Type} `{Epoll KE}.

Abbreviation Task := (Epoller.Task (C := nat) (F := Prog)).
Abbreviation Worker := (Worker.Worker (KE := KE)).
Abbreviation Timers := (Timer.TimeManager (F := Prog)).

Record Clocked := { tm : Timers; wk : Worker }.

Definition setTm (m : Timers) (s : Clocked) : Clocked := {| tm := m; wk := wk s |}.
Definition setWk (w : Worker) (s : Clocked) : Clocked := {| tm := tm s; wk := w |}.

Definition onTimers {A} : M Timers A -> M Clocked A := zoom tm setTm.
Definition onWorker {A} : M Worker A -> M Clocked A := zoom wk setWk.

(** The callback, [Worker::addTask] bound to the worker and the coroutine. *)
Definition wakeup (c : nat) : Prog := AddCo c Return.

(** A hooked [sleep], [usleep] or [nanosleep] of [ms] milliseconds in
    coroutine [c], with [k] left to run: [a] is the address of the new timer,
    [now] what its constructor reads off the clock. *)
Definition sleepFor (now a ms : Z) (c : nat) (k : Prog) : M Clocked unit :=
  onTimers (addTimer now a ms (wakeup c) false) ;;; onWorker (yieldToSuspend c k).

(** ** A turn of the loop with its timers *)

(** The worker as the idle coroutine finds it, if the turn gets there. *)
Definition beforeIdle (r : Round) (w : Worker) : option Worker :=
  let idles w := if bool_decide (idle w = DONE) then None else Some w in
  match (addTasks (early r) ;;; takeTask) w with
  | (Ok None, w) => idles w
  | (Ok (Some (TaskCo c)), w) =>
      match coroutines w !! c with
      | Some x => if Worker.finished (state_ x) then idles w else None
      | None => None
      end
  | _ => None
  end.

Definition withTimers (e : Z) (fs : list (option Prog)) (r : Round) : Round :=
  {| early := early r; expire := e; arrivals := arrivals r; stops := stops r; expired := fs; ready := ready r |}.

(** When a turn looks at the clock: [canStop] reads [now], [expiredFunctions]
    reads [later] and keeps its [now_timer] at [tmp]. *)
Record Tick := { now : Z; later : Z; tmp : Z }.

Definition turnAt (k : Tick) (r : Round) : M Clocked bool :=
  o <-- gets (fun s => beforeIdle r (wk s)) ;;
  match o with
  | None => onWorker (iterate r)
  | Some w =>
      e <-- onTimers (getExpire (now k)) ;;
      fs <-- match canStop e w with
             | (Ok false, _) => onTimers (expiredFunctions (later k) (tmp k))
             | _ => ret []
             end ;;
      onWorker (iterate (withTimers e fs r))
  end.

(** Turns that are given nothing but the time. *)
Fixpoint turnsAt (ks : list Tick) : M Clocked unit :=
  match ks with
  | [] => ret tt
  | k :: ks => b <-- turnAt k quiet ;; assert_ b ;;; turnsAt ks
  end.

(** How long [epoll_wait] may block in a turn that reaches it. *)
Definition pollTimeout (m : Timers) (now : Z) : Z :=
  match getExpire now m with (Ok e, _) => clampTimeout e | _ => 0 end.

(** ** The calls on the parts *)

Lemma tm_run {A} (m : M Timers A) a t s : m (tm s) = (Ok a, t) -> onTimers m s = (Ok a, setTm t s).
Proof. intros E. unfold onTimers, zoom. by rewrite E. Qed.

Lemma wk_run {A} (m : M Worker A) a w s : m (wk s) = (Ok a, w) -> onWorker m s = (Ok a, setWk w s).
Proof. intros E. unfold onWorker, zoom. by rewrite E. Qed.

Lemma turnsAt_app ks ks' s s' : turnsAt ks s = (Ok tt, s') -> turnsAt (ks ++ ks') s = turnsAt ks' s'.
Proof.
  revert s. induction ks as [|k ks IH]; intros s E; cbn [app turnsAt] in *.
  - by injection E as ->.
  - inv_bind E. inv_bind E. erewrite bind_ok by eassumption. erewrite bind_ok by eassumption. by apply IH.
Qed.

Lemma turnsAt_cons k ks s s' : turnAt k quiet s = (Ok true, s') -> turnsAt (k :: ks) s = turnsAt ks s'.
Proof. intros E. cbn [turnsAt]. by rewrite (bind_ok _ _ _ _ _ E). Qed.

(** ** Coroutines that sleep *)

(** Every timer in the set is the wake-up of a suspended coroutine. *)
Definition sleeps (w : Worker) (t : Timer.Timer (F := Prog)) : Prop :=
  recursive_ t = false
  /\ exists c x, Timer.func_ t = Some (wakeup c) /\ coroutines w !! c = Some x /\ state_ x = SUSPEND.

Record Asleep (s : Clocked) : Prop := {
  as_timers : Timer.Inv (tm s);
  as_sleeps : forall a t, a ∈ timers_ (tm s) -> heap (tm s) !! a = Some t -> sleeps (wk s) t
}.

(** The coroutines of the timers of a list. *)
Definition sleeperOf (m : Timers) (a : Z) : option nat :=
  match funcOf m a with Some (AddCo c Return) => Some c | _ => None end.
Definition sleepers (m : Timers) : list Z -> list nat := omap (sleeperOf m).

Definition suspended_in (w : Worker) (c : nat) (x : Coroutine) : Prop :=
  coroutines w !! c = Some x /\ state_ x = SUSPEND.
Definition stay (w w' : Worker) : Prop := forall c x, suspended_in w c x -> suspended_in w' c x.

Lemma sleeps_stay w w' t : stay w w' -> sleeps w t -> sleeps w' t.
Proof. intros Hs (Hr & c & x & Hf & Hx). split; [done|]. exists c, x. split; [done|]. by apply Hs. Qed.

Lemma sleeping s a t : Asleep s -> a ∈ timers_ (tm s) -> heap (tm s) !! a = Some t ->
  exists c x, funcOf (tm s) a = Some (wakeup c) /\ sleeperOf (tm s) a = Some c /\ suspended_in (wk s) c x.
Proof.
  intros HA Ha Ht. destruct (as_sleeps s HA a t Ha Ht) as (_ & c & x & Hf & Hx).
  assert (Hfo : funcOf (tm s) a = Some (wakeup c)) by (unfold funcOf; by rewrite Ht).
  exists c, x. split; [done|]. split; [|done]. unfold sleeperOf. by rewrite Hfo.
Qed.
(** The turn that runs a wake-up puts its coroutine at the end of the queue. *)
Lemma wakeup_turn c x ts w :
  Rest w (TaskFunc (wakeup c) :: ts) -> suspended_in w c x ->
  exists w', iterate quiet w = (Ok true, w') /\ Rest w' (ts ++ [TaskCo c]) /\ stay w w'.
Proof.
  intros [HL HI Ht Hr Hi Hn] [Hx Hst].
  destruct (function_turn (wakeup c) ts w HL Ht) as (d & v & [Hsf Hp Hts Hrv Hiv Hd Hkept Hturn]).
  destruct (Hkept c x Hx) as [_ Hc]; [by rewrite Hst|].
  destruct (addTask_run v (TaskCo c)) as (v1 & E1 & HS1 & HP1 & HR1 & HT1).
  replace (isTask (TaskCo c) v) with true in HT1 by (symmetry; apply bool_decide_eq_true; by eexists).
  destruct (Hturn (setCur None (setCoroutines (alter done_ d (coroutines v1)) v1)) (done_ (fresh (wakeup c))))
    as [Eit HL'].
  { change (exec d (wakeup c) v) with ((addTask (TaskCo c) ;;; exec d Return) v).
    rewrite (bind_ok _ _ _ _ _ E1). apply return_run. }
  { cbn. by rewrite lookup_alter_eq, (sm_coroutines _ _ HS1), Hd. } { done. }
  eexists. split; [exact Eit|]. destruct HS1. split.
  - split; [done|..]; cbn.
    + by rewrite HP1, Hp.
    + by rewrite HT1, Hts.
    + by rewrite HR1, Hrv.
    + by rewrite sm_idle, Hiv.
    + by rewrite HP1, sm_self, Hp, Hsf.
  - intros e y [Hy Hsy]. destruct (Hkept e y Hy) as [Hne Hey]; [by rewrite Hsy|]. split; [|done]. cbn.
    rewrite lookup_alter_ne by done. by rewrite sm_coroutines.
Qed.

(** A turn that has a function to run does not look at the clock. *)
Lemma busy_turn k f ts s b w :
  tasks_ (wk s) = TaskFunc f :: ts -> iterate quiet (wk s) = (Ok b, w) -> turnAt k quiet s = (Ok b, setWk w s).
Proof.
  intros Ht E. unfold turnAt. rewrite bind_gets.
  assert (Eb : beforeIdle quiet (wk s) = None).
  { unfold beforeIdle. cbn [early quiet addTasks]. rewrite bind_ret. unfold takeTask. by rewrite Ht. }
  rewrite Eb. by apply wk_run.
Qed.

Lemma stay_trans w1 w2 w3 : stay w1 w2 -> stay w2 w3 -> stay w1 w3.
Proof. intros H1 H2 c x Hc. by apply H2, H1. Qed.

(** The wake-ups of [cs], one turn each. *)
Lemma wakeup_turns cs ks ds s :
  length ks = length cs -> (forall c, c ∈ cs -> exists x, suspended_in (wk s) c x) ->
  Rest (wk s) (map TaskFunc (map wakeup cs) ++ map TaskCo ds) ->
  exists w, turnsAt ks s = (Ok tt, setWk w s) /\ Rest w (map TaskCo (ds ++ cs)) /\ stay (wk s) w.
Proof.
  revert cs ds s. induction ks as [|k ks IH]; intros [|c cs] ds s Hl Hcs HR; try done.
  - exists (wk s). split; [by destruct s|]. split; [by rewrite app_nil_r|]. by intros ? ?.
  - destruct (Hcs c) as [x Hx]; [by left|]. cbn [map app] in HR.
    destruct (wakeup_turn c x _ _ HR Hx) as (w1 & E1 & HR1 & HS1).
    destruct (IH cs (ds ++ [c]) (setWk w1 s)) as (w2 & E2 & HR2 & HS2).
    + by injection Hl.
    + intros d Hd. destruct (Hcs d) as [y Hy]; [by right|]. exists y. by apply HS1.
    + cbn. by rewrite map_app, app_assoc.
    + exists w2. rewrite <- app_assoc in HR2. cbn [wk setWk app] in *. split; [|split; [exact HR2|by eapply stay_trans]].
      rewrite (turnsAt_cons k ks s (setWk w1 s)); [exact E2|].
      eapply busy_turn; [apply (rs_tasks _ _ HR)|done].
Qed.

(** ** The turn in which the worker waits *)

Definition dueAt (later : Z) (m : Timers) (due : list Z) : Prop :=
  sorted (heap m) due /\ forall a, a ∈ due <-> a ∈ timers_ m /\ expireOf (heap m) a <= later.

(** The set of timers without those of [due]. *)
Definition without (due : list Z) (m m' : Timers) : Prop :=
  (forall a, a ∈ timers_ m' <-> a ∈ timers_ m /\ a ∉ due)
  /\ (forall a, a ∉ due -> heap m' !! a = heap m !! a) /\ dom (heap m') = dom (heap m).

(** Expiry takes the due timers out of the set, and sleepers' timers are not
    recursive. *)
Lemma expired_without later s due m2 :
  Asleep s -> Timer.Inv m2 -> (forall a, a ∈ due -> a ∈ timers_ (tm s)) ->
  (forall a, heap m2 !! a = if decide (a ∈ due) then fire later <$> heap (tm s) !! a else heap (tm s) !! a) ->
  without due (tm s) m2.
Proof.
  intros HA Hi2 Hdue Hh2. split; [|split].
  - intros a. rewrite (Timer.inv_live _ Hi2), (Timer.inv_live _ (as_timers s HA)). unfold funcOf. rewrite Hh2.
    destruct (decide (a ∈ due)) as [Ha|Ha]; [|tauto]. split; [|tauto]. intros [f Hf].
    pose proof (Hdue a Ha) as Hin. destruct (inv_heap _ a (as_timers s HA) Hin) as (t & ? & Hta & _).
    rewrite Hta in Hf. cbn in Hf. destruct (as_sleeps s HA a t Hin Hta) as [Hrec _]. unfold fire in Hf.
    by rewrite Hrec in Hf.
  - intros a Ha. rewrite Hh2. by rewrite decide_False.
  - apply set_eq. intros a. rewrite !elem_of_dom, Hh2. case_decide; [|done]. by rewrite fmap_is_Some.
Qed.

Lemma idle_turnAt k s :
  Asleep s -> Rest (wk s) [] -> heap (tm s) !! tmp k = None ->
  exists due s', turnAt k quiet s = (Ok true, s') /\ dueAt (later k) (tm s) due /\ without due (tm s) (tm s')
    /\ coroutines (wk s') = coroutines (wk s) /\ Asleep s'
    /\ Rest (wk s') (map TaskFunc (map wakeup (sleepers (tm s) due)))
    /\ forall a, a ∈ due -> exists c x, sleeperOf (tm s) a = Some c /\ suspended_in (wk s) c x.
Proof.
  intros HA HR Htmp.
  destruct (getExpire_spec (now k) (tm s)) as (m1 & Eg & Hh1 & Ht1 & Hi1).
  match type of Eg with _ = (Ok ?x, _) => set (e := x) in Eg end.
  specialize (Hi1 (as_timers s HA)).
  destruct (expired_spec (later k) (tmp k) m1 Hi1) as (due & m2 & Ee & Hsd & Hdue & Hh2 & Hi2); [by rewrite Hh1|].
  rewrite Hh1, Ht1 in *.
  assert (Hfo : forall a, funcOf m1 a = funcOf (tm s) a) by (intros a; unfold funcOf; by rewrite Hh1).
  assert (Hwk : forall a, a ∈ due -> exists c x, funcOf (tm s) a = Some (wakeup c)
    /\ sleeperOf (tm s) a = Some c /\ suspended_in (wk s) c x).
  { intros a Ha. apply Hdue in Ha as [Ha _]. destruct (inv_heap _ a (as_timers s HA) Ha) as (t & ? & Hta & _).
    by apply (sleeping s a t HA Ha Hta). }
  assert (Hfs : omap id (map (funcOf m1) due) = map wakeup (sleepers (tm s) due)).
  { clear -Hwk Hfo. induction due as [|a due IH]; [done|]. destruct (Hwk a) as (c & x & Hf & Hs & _); [by left|].
    cbn. rewrite Hfo, Hf. unfold sleepers. cbn. rewrite Hs. cbn. f_equal. apply IH. intros b Hb. apply Hwk. by right. }
  destruct (expired_turn e (map (funcOf m1) due) (wk s) HR) as (w1 & E1 & _ & HC1 & _ & HR1).
  { apply Forall_forall. intros f Hf. apply list_elem_of_fmap in Hf as (a & -> & Ha).
    destruct (Hwk a Ha) as (c & x & Hfa & _). by rewrite Hfo, Hfa. }
  set (s' := {| tm := m2; wk := w1 |}). exists due, s'.
  assert (Hwo : without due (tm s) m2).
  { apply (expired_without (later k)); [done..| |exact Hh2]. intros a Ha. by apply Hdue in Ha as [? _]. }
  split_and!.
  - unfold turnAt. rewrite bind_gets.
    assert (Eb : beforeIdle quiet (wk s) = Some (wk s)).
    { unfold beforeIdle. cbn [early quiet addTasks]. rewrite bind_ret. unfold takeTask. rewrite (rs_tasks _ _ HR).
      rewrite bool_decide_false; [done|]. by destruct (rs_idle _ _ HR) as [-> | ->]. }
    rewrite Eb, (bind_ok _ _ _ _ _ (tm_run _ _ _ s Eg)).
    assert (Ec : canStop e (wk s) = (Ok false, wk s)).
    { unfold canStop. rewrite bind_gets. unfold id. by rewrite (rs_running _ _ HR). }
    rewrite Ec, (bind_ok _ _ _ _ _ (tm_run _ _ _ (setTm m1 s) Ee)). by apply (wk_run _ true w1 (setTm m2 (setTm m1 s))).
  - by split.
  - exact Hwo.
  - done.
  - split; [done|]. intros a t Ha Hta. destruct Hwo as (Hts & Hhp & _). apply Hts in Ha as [Ha Hnd].
    cbn in Hta. rewrite Hhp in Hta by done. eapply sleeps_stay; [|by apply (as_sleeps s HA a)].
    intros c x [Hx Hsx]. split; [|done]. cbn. by rewrite HC1.
  - by rewrite <- Hfs.
  - intros a Ha. destruct (Hwk a Ha) as (c & x & _ & Hs). by exists c, x.
Qed.

(** ** Going to sleep *)

(** The turn that resumes [c] into a hooked sleep: the timer is set, the
    coroutine is suspended, and the worker is at rest with what was queued
    behind it. *)
Lemma sleepFor_run n a ms c x k ts s :
  Asleep s -> Rest (wk s) (TaskCo c :: ts) -> suspended_in (wk s) c x -> context_ x = YieldToSuspend k ->
  heap (tm s) !! a = None ->
  exists s', sleepFor n a ms c k (setWk (resumed c x ts (wk s)) s) = (Ok tt, s')
    /\ Asleep s' /\ Rest (wk s') ts /\ suspended_in (wk s') c (parked k x)
    /\ heap (tm s') = <[a := newTimer n ms (wakeup c) false]> (heap (tm s))
    /\ forall b, b ∈ timers_ (tm s') <-> b = a \/ b ∈ timers_ (tm s).
Proof.
  intros HA [HL HI Ht Hr Hi Hn] [Hx Hst] Hk Ha.
  destruct (addTimer_spec n a ms (wakeup c) false (tm s) (as_timers s HA) Ha) as (m & Em & Hm & Hh & Hts).
  set (w1 := resumed c x ts (wk s)).
  assert (Hx1 : coroutines w1 !! c = Some (setState RUNNING x)) by (cbn; by rewrite lookup_insert_eq).
  pose proof (park_run c k w1 _ Hx1 eq_refl) as Ep. set (w2 := setCur None _) in Ep.
  assert (Eit : iterate quiet (wk s) = (Ok true, w2)).
  { rewrite (iterate_resumes quiet _ c x ts eq_refl Ht Hx Hst), Hk. fold w1. unfold bind at 1. cbn [exec]. by rewrite Ep. }
  destruct (turn_ok _ quiet HL (quiet_ok _)) as (b & w' & E' & HL' & _). rewrite Eit in E'. injection E' as <- <-.
  assert (Hc2 : suspended_in w2 c (parked k x)) by (split; [cbn; by rewrite lookup_insert_eq|done]).
  exists {| tm := m; wk := w2 |}. split.
  { unfold sleepFor. rewrite (bind_ok _ _ _ _ _ (tm_run _ _ _ (setWk w1 s) Em)).
    by apply (wk_run _ tt w2 (setTm m (setWk w1 s))). }
  split; [|split_and!; try done; apply Hc2]. split; [done|]. cbn. rewrite Hh. intros b t Hb Hbt.
  destruct (decide (b = a)) as [->|Hne].
  - rewrite lookup_insert_eq in Hbt. injection Hbt as <-. split; [done|]. by exists c, (parked k x).
  - rewrite lookup_insert_ne in Hbt by done. apply Hts in Hb as [?|Hb]; [done|].
    destruct (as_sleeps s HA b t Hb Hbt) as (Hrec & d & y & Hf & Hy & Hsy). split; [done|].
    destruct (decide (d = c)) as [->|Hdc]; [by exists c, (parked k x)|]. exists d, y. split; [done|]. split; [|done].
    cbn. rewrite lookup_insert_ne by done. cbn. by rewrite lookup_insert_ne.
Qed.

(** ** Waking up *)

(** The first deadline. *)
Definition earliest (m : Timers) (e : Z) : Prop :=
  (exists a, a ∈ timers_ m /\ expireOf (heap m) a = e) /\ forall a, a ∈ timers_ m -> e <= expireOf (heap m) a.

(** The clock does not go back, and [epoll_wait] blocks for the time it is
    given when nothing happens. *)
Fixpoint patient (t0 : Z) (ks : list Tick) (s : Clocked) : Prop :=
  match ks with
  | [] => True
  | k :: ks => t0 <= now k /\ now k + pollTimeout (tm s) (now k) <= later k
      /\ patient (later k) ks (turnAt k quiet s).2
  end.

Lemma pollTimeout_spec m e n :
  Timer.Inv m -> earliest m e -> e - n < 2 ^ 31 ->
  pollTimeout m n = if e <? n then 0 else Z.min (e - n) kMaxTimeout.
Proof.
  intros Hm [(a & Ha & Hae) Hmin] Hr. unfold pollTimeout. destruct (getExpire_spec n m) as (m' & -> & _).
  pose proof (Timer.inv_sorted m Hm) as Hs. destruct (timers_ m) as [|b l]; [by apply not_elem_of_nil in Ha|].
  assert (Hb : expireOf (heap m) b = e).
  { specialize (Hmin b ltac:(by left)). apply elem_of_cons in Ha as [->|Ha]; [done|].
    unfold sorted in Hs. apply StronglySorted_inv in Hs as [_ Hf]. rewrite Forall_forall in Hf. specialize (Hf a Ha).
    unfold lt_timer in Hf. rewrite less_spec in Hf. lia. }
  rewrite Hb. destruct (Z.ltb_spec e n) as [Hlt|Hle]; [done|].
  destruct (clampTimeout_bounds (e - n)) as [Hc _]. destruct Hc as [_ Hc]; [lia|]. apply Hc. lia.
Qed.

Lemma without_nil m m' : without [] m m' -> heap m' = heap m /\ forall a, a ∈ timers_ m' <-> a ∈ timers_ m.
Proof.
  intros (Ht & Hh & _). split; [|set_solver]. apply map_eq. intros a. apply Hh. apply not_elem_of_nil.
Qed.

(** A timer set that differs only in the order of its elements, if at all. *)
Lemma same_timers m m' :
  heap m' = heap m -> (forall a, a ∈ timers_ m' <-> a ∈ timers_ m) ->
  (forall e, earliest m e -> earliest m' e) /\ (forall l due, dueAt l m' due -> dueAt l m due)
  /\ (forall due, sleepers m' due = sleepers m due) /\ (forall due m2, without due m' m2 -> without due m m2).
Proof.
  intros Hh Ht. unfold earliest, dueAt, without. setoid_rewrite Hh. setoid_rewrite Ht. split_and!; try done.
  intros due. unfold sleepers, sleeperOf, funcOf. by rewrite Hh.
Qed.

Lemma length_sleepers m due (P : nat -> Prop) :
  (forall a, a ∈ due -> exists c, sleeperOf m a = Some c /\ P c) ->
  length (sleepers m due) = length due /\ forall c, c ∈ sleepers m due -> P c.
Proof.
  unfold sleepers. induction due as [|a due IH]; intros Hd; cbn; [split; [done|]; intros c Hc; by apply not_elem_of_nil in Hc|].
  destruct (Hd a) as (c & Hc & HP); [by left|]. rewrite Hc. destruct IH as [Hl HPs]; [intros b Hb; apply Hd; by right|].
  cbn. split; [by rewrite Hl|]. intros d [->|Hd']%elem_of_cons; [done|by apply HPs].
Qed.

Lemma asleep_stay s w : stay (wk s) w -> Asleep s -> Asleep (setWk w s).
Proof. intros Hs [Hm Hsl]. split; [done|]. intros a t Ha Ht. by eapply sleeps_stay, Hsl. Qed.

(** The sleepers of [due] are the queue, in that order and suspended as
    before, and the other timers are untouched. *)
Record Woken (due : list Z) (s s' : Clocked) : Prop := {
  wo_rest : Rest (wk s') (map TaskCo (sleepers (tm s) due));
  wo_all : length (sleepers (tm s) due) = length due;
  wo_timers : without due (tm s) (tm s');
  wo_stay : stay (wk s) (wk s');
  wo_asleep : Asleep s'
}.

(** The turn in which sleepers are due, and those of their wake-ups. *)
Lemma due_turns k more due s :
  Asleep s -> Rest (wk s) [] -> heap (tm s) !! tmp k = None -> dueAt (later k) (tm s) due -> length more = length due ->
  exists s', turnsAt (k :: more) s = (Ok tt, s') /\ Woken due s s'.
Proof.
  intros HA HR Htmp Hdue Hl.
  destruct (idle_turnAt k s HA HR Htmp) as (due' & s1 & E1 & Hdue' & Hwo & HC & HA1 & HR1 & Hsl).
  assert (due' = due) as ->.
  { destruct Hdue as [Hs1 He1], Hdue' as [Hs2 He2]. apply (sorted_unique (heap (tm s))); [done..|].
    intros a. by rewrite He1, He2. }
  destruct (length_sleepers (tm s) due (fun c => exists x, suspended_in (wk s) c x)) as [Hls Hco].
  { intros a Ha. destruct (Hsl a Ha) as (c & x & Hc & Hx). exists c. split; [done|]. by exists x. }
  assert (Hst : stay (wk s) (wk s1)) by (intros c x [Hx Hsx]; split; [by rewrite HC|done]).
  destruct (wakeup_turns (sleepers (tm s) due) more [] s1) as (w & E & HRw & Hw).
  { congruence. } { intros c Hc. destruct (Hco c Hc) as [x Hx]. exists x. by apply Hst. }
  { by rewrite app_nil_r. }
  exists (setWk w s1). rewrite (turnsAt_cons k more s s1 E1). split; [exact E|].
  split; try done; [by eapply stay_trans|by apply asleep_stay].
Qed.

(** C31: Sleeping coroutines wake up, in time and in order.  On a worker with
    nothing to do but sleepers, while the clock does not go back and
    [epoll_wait] blocks for the time it is given, at most five seconds at a
    time: some turn reaches the first deadline, after at most one turn per
    five seconds; until then no coroutine is queued, so none wakes early; in
    that turn exactly the sleepers whose deadline has passed are woken, and
    one turn for each later they are the queue of the worker, in the order of
    their deadlines, suspended where they were, with their timers and no
    others taken off the set. *)
Theorem sleepers_wake ks t0 e s :
  Asleep s -> Rest (wk s) [] -> earliest (tm s) e -> e - t0 < 2 ^ 31 ->
  patient t0 ks s -> Forall (fun k => heap (tm s) !! tmp k = None) ks ->
  ks <> [] -> e <= t0 + kMaxTimeout * zlen ks ->
  exists ks0 k ks1 s0 due, ks = ks0 ++ k :: ks1
    /\ Forall (fun k => later k < e) ks0 /\ turnsAt ks0 s = (Ok tt, s0) /\ tasks_ (wk s0) = [] /\ coroutines (wk s0) = coroutines (wk s)
    /\ e <= later k /\ dueAt (later k) (tm s) due /\ due <> []
    /\ forall more, length more = length due ->
         exists s', turnsAt (ks0 ++ k :: more) s = (Ok tt, s') /\ Woken due s s'.
Proof.
  revert t0 s. induction ks as [|k ks IH]; intros t0 s HA HR He Hr Hp Htmp Hne Hlen; [done|]. clear Hne.
  apply Forall_cons in Htmp as [Hk Hks]. destruct Hp as (Hn & Hlat & Hp).
  destruct (idle_turnAt k s HA HR Hk) as (due & s1 & E1 & Hdue & Hwo & HC & HA1 & HR1 & _).
  destruct (Z.le_gt_cases e (later k)) as [Hle|Hgt].
  - exists [], k, ks, s, due. split_and!; try done; [apply (rs_tasks _ _ HR)| |].
    + intros ->. destruct He as [(a & Ha & Hae) _]. apply (not_elem_of_nil a). apply Hdue. split; [done|lia].
    + intros more Hl. by apply due_turns.
  - assert (due = []) as ->.
    { destruct due as [|a due]; [done|]. destruct He as [_ Hmin]. destruct (proj1 (proj2 Hdue a) ltac:(by left)) as [Ha Hla].
      specialize (Hmin a Ha). lia. }
    destruct (without_nil _ _ Hwo) as [Hh Hts]. destruct (same_timers _ _ Hh Hts) as (Hsa & Hsd & Hss & Hsw).
    rewrite (pollTimeout_spec _ e _ (as_timers s HA) He) in Hlat by lia. unfold kMaxTimeout in *. rewrite zlen_cons in Hlen.
    assert (Hl5 : t0 + 5000 <= later k) by (revert Hlat; destruct (Z.ltb_spec e (now k)); lia).
    rewrite E1 in Hp. cbn [snd] in Hp.
    destruct (IH (later k) s1) as (ks0 & k' & ks1 & s0 & due & -> & Hb & E0 & Ht0 & HC0 & Hle & Hd & Hdn & Hm); try done.
    + by apply Hsa. + lia. + by rewrite Hh.
    + intros ->. change (zlen (@nil Tick)) with 0 in Hlen. lia.
    + lia.
    + exists (k :: ks0), k', ks1, s0, due. split_and!; try done.
      * by constructor.
      * by rewrite (turnsAt_cons k ks0 s s1 E1).
      * congruence.
      * by apply Hsd.
      * intros more Hl. destruct (Hm more Hl) as (s' & E & [Hw1 Hw2 Hw3 Hw4 Hw5]). exists s'.
        cbn [app]. rewrite (turnsAt_cons k _ s s1 E1). split; [done|]. rewrite Hss in *.
        split; try done; [by apply Hsw|]. eapply stay_trans; [|exact Hw4].
        intros c x [Hx Hsx]. split; [by rewrite HC|done].
Qed.
End Sleep.

(** ** A concrete run *)

(** A coroutine that sleeps for seven seconds, then adds a task. *)
Definition demoSleep : Prog := YieldToSuspend (AddTask Return Return).
Definition sleepy : Coroutine := {| Worker.func_ := Some demoSleep; context_ := demoSleep; state_ := SUSPEND |}.

Definition SW : Clocked (KE := gmap Z Z) :=
  (sleepFor 100 1 7000 1 (AddTask Return Return)
    {| tm := newTimeManager; wk := resumed 1 sleepy [] (oneQueued demoSleep) |}).2.

Definition demoTicks : list Tick :=
  [{| now := 100; later := 5100; tmp := 2 |}; {| now := 5101; later := 7101; tmp := 2 |}].

Lemma SW_asleep : Asleep SW /\ Rest (wk SW) [].
Proof.
  destruct (sleepFor_run 100 1 7000 1 sleepy (AddTask Return Return) []
    {| tm := newTimeManager; wk := oneQueued demoSleep |}) as (s & E & HA & HR & _); try done.
  - split; [apply newTimeManager_inv|]. intros a t Ha. by apply not_elem_of_nil in Ha.
  - by apply oneQueued_rest.
  - assert (SW = s) as ->; [|done]. unfold SW, setWk in *. cbn [wk tm] in E. by rewrite E.
Qed.

Lemma SW_earliest : earliest (tm SW) 7100.
Proof.
  split; [exists 1; split; [by left|done]|]. intros a Ha.
  change (timers_ (tm SW)) with [1] in Ha. apply list_elem_of_singleton in Ha as ->. done.
Qed.

Lemma SW_patient : patient 100 demoTicks SW.
Proof. unfold demoTicks. cbn [patient]. split_and!; [vm_compute; discriminate..|exact I]. Qed.

Lemma sleepers_wake_witness :
  exists ks0 k due, later k >= 7100 /\ due <> []
    /\ forall more, length more = length due ->
         exists s', turnsAt (ks0 ++ k :: more) SW = (Ok tt, s') /\ Woken due SW s'.
Proof.
  destruct SW_asleep as [HA HR].
  destruct (sleepers_wake demoTicks 100 7100 SW HA HR SW_earliest ltac:(lia) SW_patient)
    as (ks0 & k & ks1 & s0 & due & _ & _ & _ & _ & _ & Hle & _ & Hd & Hm).
  - repeat constructor.
  - discriminate.
  - vm_compute. discriminate.
  - exists ks0, k, due. split; [lia|]. split; [exact Hd|exact Hm].
Defined.
