(* ===== verification/Socket.v ===== *)
(** * Sockets and the TCP server and client (src/reyao: socket, tcp_server, tcp_client)

    The socket object over the hooked system calls of Hook.v: its life cycle,
    and the accept loop of the server. *)

From S2P Require Import Prelude Util Epoller Hook.

Definition AF_INET : Z := 2.
Definition SOCK_STREAM : Z := 1.

Inductive SockState := SInit | SListen | SConnected | SClose.

#[export] Instance SockState_eq_dec : EqDecision SockState.
Proof. solve_decision. Defined.

(** The options the code sets. *)
Inductive SockOpt :=
| ReuseAddr                                  (** SOL_SOCKET, SO_REUSEADDR *)
| NoDelay                                    (** IPPROTO_TCP, TCP_NODELAY *)
| Timeout (opt : TimeoutOpt) (timeout : Z).  (** SOL_SOCKET, SO_RCVTIMEO or SO_SNDTIMEO *)

#[export] Instance TimeoutOpt_eq_dec : EqDecision TimeoutOpt.
Proof. solve_decision. Defined.
#[export] Instance SockOpt_eq_dec : EqDecision SockOpt.
Proof. solve_decision. Defined.

Section Socket.
Context {W C F KE K A : Type} `{Epoll KE} `{Sys K}.

(** The thread of Hook.v. *)
Abbreviation Os := (St (W := W) (C := C) (F := F) (KE := KE) (K := K)).

Record Socket := mkSocket {
  type_ : Z;
  family_ : Z;
  protocol_ : Z;
  sockfd_ : Z;
  state_ : SockState;
  local_ : option A;
  peer_ : option A
}.

(** One socket object and the thread that uses it; [names] are the answers of
    [getsockname] and [getpeername] to come ([None]: the call fails),
    [options] the options handed to the kernel, by descriptor. *)
Record World := mkWorld {
  sock : Socket;
  os : Os;
  names : list (option A);
  options : list (Z * SockOpt)
}.

Definition setSock x w := mkWorld x (os w) (names w) (options w).
Definition setOs s w := mkWorld (sock w) s (names w) (options w).
Definition setNames l w := mkWorld (sock w) (os w) l (options w).
Definition logOption fd o w := mkWorld (sock w) (os w) (names w) (options w ++ [(fd, o)]).

Definition withFd fd x := mkSocket (type_ x) (family_ x) (protocol_ x) fd (state_ x) (local_ x) (peer_ x).
Definition withState st x := mkSocket (type_ x) (family_ x) (protocol_ x) (sockfd_ x) st (local_ x) (peer_ x).
Definition withLocal a x := mkSocket (type_ x) (family_ x) (protocol_ x) (sockfd_ x) (state_ x) (Some a) (peer_ x).
Definition withPeer a x := mkSocket (type_ x) (family_ x) (protocol_ x) (sockfd_ x) (state_ x) (local_ x) (Some a).

Definition updSock (f : Socket -> Socket) : M World unit := modify (fun w => setSock (f (sock w)) w).
Definition onOs {B} (m : M Os B) : M World B := zoom os setOs m.

Definition newSocket (type family protocol : Z) : Socket :=
  mkSocket type family protocol (-1) SInit None None.

Definition isConnected (x : Socket) : bool := bool_decide (state_ x = SConnected).
Definition isValid (x : Socket) : bool := negb (sockfd_ x =? -1).

(** [getsockname], [getpeername]: the next answer. *)
Definition askName : M World (option A) := fun w =>
  match names w with
  | [] => (Throw NoFuel, w)
  | a :: l => (Ok a, setNames l w)
  end.

(** [Socket::toString]; [text] is the [toString] of an address. *)
Definition toString (text : A -> bytes) (x : Socket) : bytes :=
  let named (label : bytes) (o : option A) := match o with Some a => label ++ text a | None => [] end in
  bs "sockfd=" ++ to_string (sockfd_ x) ++ bs " type=" ++ to_string (type_ x)
  ++ bs " protocol=" ++ to_string (protocol_ x)
  ++ match state_ x with
     | SListen => bs " state=LISTEN" ++ named (bs " local=") (local_ x)
     | SConnected => bs " state=CONNECTED" ++ named (bs " local=") (local_ x) ++ named (bs " peer=") (peer_ x)
     | SInit | SClose => bs " state=CLOSE"
     end.

Definition getLocalAddr : M World (option A) :=
  x <-- gets sock ;;
  match local_ x with
  | Some a => ret (Some a)
  | None =>
      o <-- askName ;;
      match o with
      | None => ret None
      | Some a => updSock (withLocal a) ;;; ret (Some a)
      end
  end.

Definition getPeerAddr : M World (option A) :=
  x <-- gets sock ;;
  match peer_ x with
  | Some a => ret (Some a)
  | None =>
      o <-- askName ;;
      match o with
      | None => ret None
      | Some a => updSock (withPeer a) ;;; ret (Some a)
      end
  end.

(** [setOption]: the hooked [setsockopt], which looks at timeouts only. *)
Definition setOption (o : SockOpt) : M World bool :=
  x <-- gets sock ;;
  rt <-- onOs (match o with
               | Timeout opt t => setSocketTimeout (sockfd_ x) opt t
               | _ => origin
               end) ;;
  modify (logOption (sockfd_ x) o) ;;;
  ret (rt =? 0).

Definition setReuseAddr : M World unit := setOption ReuseAddr ;;; ret tt.

Definition setNoDelay : M World unit :=
  x <-- gets sock ;;
  if type_ x =? SOCK_STREAM then setOption NoDelay ;;; ret tt else ret tt.

Definition setRecvTimeout (t : Z) : M World unit := setOption (Timeout SO_RCVTIMEO t) ;;; ret tt.
Definition setSendTimeout (t : Z) : M World unit := setOption (Timeout SO_SNDTIMEO t) ;;; ret tt.
Definition getRecvTimeout : M World Z := x <-- gets sock ;; onOs (getSocketTimeout (sockfd_ x) SO_RCVTIMEO).
Definition getSendTimeout : M World Z := x <-- gets sock ;; onOs (getSocketTimeout (sockfd_ x) SO_SNDTIMEO).

(** [getOption], and [getError] where [getsockopt] stores [error]. *)
Definition getOption : M World bool := rt <-- onOs Hook.getsockopt ;; ret (rt =? 0).
Definition getError (error : Z) : M World Z := b <-- getOption ;; ret (if b : bool then error else -1).

(** [init]: a socket for a connection that was accepted. *)
Definition initSocket (sockfd : Z) : M World bool :=
  fdctx <-- onOs (getFdContext sockfd) ;;
  match fdctx with
  | Some c =>
      if isSock_ c && negb (close_ c) then
        updSock (fun x => withState SConnected (withFd sockfd x)) ;;;
        getLocalAddr ;;;
        getPeerAddr ;;;
        setReuseAddr ;;;
        setNoDelay ;;;
        ret true
      else ret false
  | None => ret false
  end.

Definition newSock : M World unit :=
  fd <-- onOs Hook.socket ;;
  updSock (withFd fd) ;;;
  if fd =? -1 then ret tt else setReuseAddr ;;; setNoDelay.

(** [::bind] and [::listen] are not hooked. *)
Definition bind_ : M World bool :=
  x <-- gets sock ;;
  (if isValid x then ret tt else newSock) ;;;
  x <-- gets sock ;;
  if negb (isValid x) then ret false
  else
    rt <-- onOs origin ;;
    if negb (rt =? 0) then ret false
    else getLocalAddr ;;; ret true.

Definition listen : M World bool :=
  x <-- gets sock ;;
  if negb (isValid x) then ret false
  else
    rt <-- onOs origin ;;
    if negb (rt =? 0) then ret false
    else updSock (withState SListen) ;;; ret true.

Definition close : M World bool :=
  x <-- gets sock ;;
  if bool_decide (state_ x = SClose) && (sockfd_ x =? -1) then ret true
  else
    onOs (Hook.close (sockfd_ x)) ;;;
    updSock (fun x => withFd (-1) (withState SClose x)) ;;;
    ret true.

(** [~Socket] *)
Definition destroy : M World unit := close ;;; ret tt.

(** Runs [m] on another socket object of the same thread. *)
Definition onSocket {B} (x : Socket) (m : M World B) : M World (B * Socket) := fun w =>
  let '(r, w') := m (setSock x w) in
  match r with
  | Ok b => (Ok (b, sock w'), setSock (sock w) w')
  | Throw e => (Throw e, setSock (sock w) w')
  end.

(** A new socket that cannot be initialised is destroyed on the way out. *)
Definition accept : M World (option Socket) :=
  x <-- gets sock ;;
  fd <-- onOs (Hook.accept (sockfd_ x)) ;;
  if fd =? -1 then ret None
  else
    r <-- onSocket (newSocket (type_ x) (family_ x) (protocol_ x)) (initSocket fd) ;;
    if fst r : bool then ret (Some (snd r)) else onSocket (snd r) destroy ;;; ret None.

Definition connect (timeout : Z) (soerror : Z * Z) : M World bool :=
  x <-- gets sock ;;
  (if isValid x then ret tt else newSock) ;;;
  x <-- gets sock ;;
  rt <-- onOs (if timeout =? -1 then Hook.connect (sockfd_ x) soerror
               else connect_with_timeout (sockfd_ x) timeout soerror) ;;
  if negb (rt =? 0) then close ;;; ret false
  else
    updSock (withState SConnected) ;;;
    getLocalAddr ;;;
    getPeerAddr ;;;
    ret true.

(** The number of bytes, cut to [int]. *)
Definition io (call : Z -> M Os Z) : M World Z :=
  x <-- gets sock ;;
  if isConnected x then n <-- onOs (call (sockfd_ x)) ;; ret (i32 n) else ret (-1).

Definition send : M World Z := io Hook.send.
Definition sendTo : M World Z := io Hook.sendto.
Definition recv : M World Z := io Hook.recv.
Definition recvFrom : M World Z := io Hook.recvfrom.

Definition cancelRead : M World bool := x <-- gets sock ;; onOs (onPoller (handleEvent (sockfd_ x) EPOLLIN)).
Definition cancelWrite : M World bool := x <-- gets sock ;; onOs (onPoller (handleEvent (sockfd_ x) EPOLLOUT)).
Definition cancelAll : M World bool := x <-- gets sock ;; onOs (onPoller (handleAllEvent (sockfd_ x))).

(** [CreateTcp]: the constructor takes the type first. *)
Definition CreateTcp : Socket := newSocket AF_INET SOCK_STREAM 0.

(** ** TcpServer and TcpClient *)

(** The tasks the server gives to the scheduler are the sockets they handle. *)
Record TcpServer := { recvTimeout_ : Z; handed : list Socket }.

Definition s_maxRecvTimeout : Z := 30 * 1000.

(** One turn of the accept loop; [listenSock_] is the socket of the world. *)
Definition acceptOne (srv : TcpServer) : M World TcpServer :=
  client <-- accept ;;
  match client with
  | None => ret srv
  | Some c =>
      r <-- onSocket c (setRecvTimeout (i64 (recvTimeout_ srv))) ;;
      ret {| recvTimeout_ := recvTimeout_ srv; handed := handed srv ++ [snd r] |}
  end.

(** [accept], which ends when [running_] is cleared: after [n] turns. *)
Fixpoint acceptLoop (n : nat) (srv : TcpServer) : M World TcpServer :=
  match n with
  | O => ret srv
  | S n => srv <-- acceptOne srv ;; acceptLoop n srv
  end.

(** Failures of [bind] and [listen] are logged and passed over. *)
Definition listenAndAccpet (n : nat) (srv : TcpServer) : M World TcpServer :=
  updSock (fun _ => CreateTcp) ;;;
  bind_ ;;;
  listen ;;;
  acceptLoop n srv.

Definition s_ConnectMaxTimeOut : Z := 10 * 1000.

(** The task of [TcpClient::start]: whether the callback runs. *)
Definition clientStart (soerror : Z * Z) : M World bool :=
  updSock (fun _ => CreateTcp) ;;;
  connect s_ConnectMaxTimeOut soerror.

Definition clientStop : M World unit :=
  x <-- gets sock ;;
  if isConnected x then close ;;; ret tt else ret tt.

(** ** The life cycle *)

(** A call on the thread's state leaves the hook flag alone. *)
Definition keeps {B} (m : M Os B) : Prop := forall s : Os, t_hookEnable (snd (m s)) = t_hookEnable s.

Lemma keeps_bind {B D} (m : M Os B) (k : B -> M Os D) : keeps m -> (forall b, keeps (k b)) -> keeps (bind m k).
Proof.
  intros Hm Hk s. unfold bind. specialize (Hm s). destruct (m s) as [[b|e] s']; [|done].
  rewrite <- Hm. apply Hk.
Qed.

Lemma keeps_check b e : keeps (check b e).
Proof. intros s. by destruct b. Qed.

Lemma keeps_modify f : (forall s, t_hookEnable (f s) = t_hookEnable s) -> keeps (modify f).
Proof. intros Hf s. apply Hf. Qed.

Lemma keeps_origin : keeps origin.
Proof. intros s. unfold origin. destruct (calls s) as [|[n e] l]; [done|]. by destruct (n =? -1). Qed.

Lemma keeps_yield : keeps YieldToSuspend.
Proof. intros s. unfold YieldToSuspend. by destruct (wakes s) as [|[c p] l]. Qed.

Lemma keeps_poller {B} (m : M Epoller B) : keeps (onPoller m).
Proof. intros s. unfold onPoller, zoom. by destruct (m (poller s)). Qed.

(** Splits a computation into the calls above. *)
Ltac keeps :=
  repeat (intros; match goal with
  | |- keeps (bind _ _) => apply keeps_bind
  | |- keeps (check _ _) => apply keeps_check
  | |- keeps (assert_ _) => apply keeps_check
  | |- keeps origin => apply keeps_origin
  | |- keeps YieldToSuspend => apply keeps_yield
  | |- keeps (onPoller _) => apply keeps_poller
  | |- keeps (if ?b then _ else _) => destruct b
  | |- keeps (match ?x with _ => _ end) => destruct x
  | |- keeps (ret _) => intros ?; reflexivity
  | |- keeps (throw _) => intros ?; reflexivity
  | |- keeps (gets _) => intros ?; reflexivity
  | |- keeps (modify _) => apply keeps_modify; intros; reflexivity
  | |- keeps _ => solve [auto with reyao]
  end).

Lemma keeps_getFdContext fd : keeps (getFdContext fd).
Proof. unfold getFdContext. keeps. Qed.
Lemma keeps_addFd fd : keeps (addFd fd).
Proof. unfold addFd, initContext. keeps. Qed.
Lemma keeps_delFd fd : keeps (delFd fd).
Proof. unfold delFd. keeps. Qed.

#[local] Hint Resolve keeps_getFdContext keeps_addFd keeps_delFd : reyao.

Lemma keeps_again fuel : keeps (again_on_EINTR fuel).
Proof. induction fuel; cbn [again_on_EINTR]; keeps. Qed.

#[local] Hint Resolve keeps_again : reyao.

Lemma keeps_retry fuel fd type timeout : keeps (retry fuel fd type timeout).
Proof. induction fuel; cbn [retry]; unfold AddEvent; keeps. Qed.

#[local] Hint Resolve keeps_retry : reyao.

Lemma keeps_do_io fd type opt : keeps (do_io fd type opt).
Proof. unfold do_io. keeps. Qed.

#[local] Hint Resolve keeps_do_io : reyao.

Lemma keeps_accept fd : keeps (Hook.accept fd).
Proof. unfold Hook.accept. keeps. Qed.

Lemma keeps_socket : keeps Hook.socket.
Proof. unfold Hook.socket. keeps. Qed.

Lemma keeps_connect fd timeout soerror : keeps (connect_with_timeout fd timeout soerror).
Proof. unfold connect_with_timeout, AddEvent. keeps. Qed.

Lemma keeps_close fd : keeps (Hook.close fd).
Proof. unfold Hook.close. keeps. Qed.

Lemma keeps_timeout fd opt t : keeps (setSocketTimeout fd opt t).
Proof. unfold setSocketTimeout, setsockopt_timeout, updContext. keeps. Qed.

Lemma keeps_getSocketTimeout fd opt : keeps (getSocketTimeout fd opt).
Proof. unfold getSocketTimeout. keeps. Qed.

(** What most calls leave alone: everything but the addresses and the thread. *)
Record Untouched (w w' : World) : Prop := {
  un_state : state_ (sock w') = state_ (sock w);
  un_fd : sockfd_ (sock w') = sockfd_ (sock w);
  un_type : type_ (sock w') = type_ (sock w);
  un_hook : t_hookEnable (os w') = t_hookEnable (os w)
}.

Lemma untouched_refl w : Untouched w w.
Proof. by split. Qed.

Lemma untouched_trans w1 w2 w3 : Untouched w1 w2 -> Untouched w2 w3 -> Untouched w1 w3.
Proof. intros [] []. split; congruence. Qed.

Definition same {B} (m : M World B) : Prop := forall w, wp m w (fun _ w' => Untouched w w').

Lemma same_bind {B D} (m : M World B) (k : B -> M World D) : same m -> (forall b, same (k b)) -> same (bind m k).
Proof.
  intros Hm Hk w. apply wp_bind. eapply wp_mono; [apply Hm|]. intros b w1 H1.
  eapply wp_mono; [apply Hk|]. intros d w2 H2. exact (untouched_trans _ _ _ H1 H2).
Qed.

Lemma same_onOs {B} (m : M Os B) : keeps m -> same (onOs m).
Proof.
  intros Hm w. apply wp_zoom. intros b s E. split; try done. cbn. specialize (Hm (os w)). by rewrite E in Hm.
Qed.

Lemma same_updSock f :
  (forall x, state_ (f x) = state_ x /\ sockfd_ (f x) = sockfd_ x /\ type_ (f x) = type_ x) -> same (updSock f).
Proof. intros Hf w. apply wp_modify. destruct (Hf (sock w)) as (? & ? & ?). by split. Qed.

(** Splits a call on a socket object into its parts. *)
Ltac same :=
  repeat (intros; match goal with
  | |- same (bind _ _) => apply same_bind
  | |- same (onOs _) => apply same_onOs
  | |- same (updSock _) => apply same_updSock; intros; split_and!; reflexivity
  | |- same (if ?b then _ else _) => destruct b
  | |- same (match ?x with _ => _ end) => destruct x
  | |- keeps (match ?x with _ => _ end) => destruct x
  | |- same (ret _) => intros ?; apply wp_ret, untouched_refl
  | |- same (gets _) => intros ?; apply wp_gets, untouched_refl
  | |- same (modify _) => intros ?; apply wp_modify; split; reflexivity
  | |- _ => solve [auto with reyao]
  end).

#[local] Hint Resolve keeps_origin keeps_timeout keeps_getSocketTimeout keeps_accept keeps_socket keeps_connect keeps_close keeps_do_io
  (@keeps_poller) : reyao.

Lemma same_askName : same askName.
Proof. intros w a w' E. unfold askName in E. destruct (names w); [done|]. injection E as <- <-. by split. Qed.
#[local] Hint Resolve same_askName : reyao.

(** A socket that was never opened prints as a closed one, and only the state
    and the fields it goes with are printed. *)
Lemma toString_states text x :
  (state_ x = SInit -> toString text x = toString text (withState SClose x))
  /\ (state_ x <> SConnected -> forall a, toString text (withPeer a x) = toString text x)
  /\ (state_ x <> SConnected -> state_ x <> SListen -> forall a, toString text (withLocal a x) = toString text x).
Proof. destruct x as [ty fa pr fd st lo pe]. unfold toString. cbn. split; [by intros ->|]. by destruct st. Qed.

Lemma same_getLocalAddr : same getLocalAddr.
Proof. unfold getLocalAddr. same. Qed.
Lemma same_getPeerAddr : same getPeerAddr.
Proof. unfold getPeerAddr. same. Qed.
Lemma same_setOption o : same (setOption o).
Proof. unfold setOption. same. Qed.
#[local] Hint Resolve same_getLocalAddr same_getPeerAddr same_setOption : reyao.

Lemma same_setReuseAddr : same setReuseAddr.
Proof. unfold setReuseAddr. same. Qed.
Lemma same_setNoDelay : same setNoDelay.
Proof. unfold setNoDelay. same. Qed.
#[local] Hint Resolve same_setReuseAddr same_setNoDelay : reyao.

(** The calls on one socket. *)
Inductive SockOp :=
| OpBind | OpListen | OpAccept | OpClose
| OpConnect (timeout : Z) (soerror : Z * Z)
| OpSend | OpSendTo | OpRecv | OpRecvFrom
| OpCancelRead | OpCancelWrite | OpCancelAll
| OpRecvTimeout (t : Z) | OpSendTimeout (t : Z) | OpGetRecvTimeout | OpGetSendTimeout
| OpGetError (error : Z).

Inductive SockRes := RBool (b : bool) | RInt (n : Z) | RSock (o : option Socket) | RUnit.

Definition withRes {B} (f : B -> SockRes) (m : M World B) : M World SockRes := b <-- m ;; ret (f b).

Definition runSock (o : SockOp) : M World SockRes :=
  match o with
  | OpBind => withRes RBool bind_
  | OpListen => withRes RBool listen
  | OpAccept => withRes RSock accept
  | OpClose => withRes RBool close
  | OpConnect t e => withRes RBool (connect t e)
  | OpSend => withRes RInt send
  | OpSendTo => withRes RInt sendTo
  | OpRecv => withRes RInt recv
  | OpRecvFrom => withRes RInt recvFrom
  | OpCancelRead => withRes RBool cancelRead
  | OpCancelWrite => withRes RBool cancelWrite
  | OpCancelAll => withRes RBool cancelAll
  | OpRecvTimeout t => withRes (fun _ => RUnit) (setRecvTimeout t)
  | OpSendTimeout t => withRes (fun _ => RUnit) (setSendTimeout t)
  | OpGetRecvTimeout => withRes RInt getRecvTimeout
  | OpGetSendTimeout => withRes RInt getSendTimeout
  | OpGetError e => withRes RInt (getError e)
  end.

(** The abstract socket: its state and whether it has a descriptor. *)
Definition life (w : World) : SockState * bool := (state_ (sock w), isValid (sock w)).

Definition lifeStep (o : SockOp) (l : SockState * bool) (r : SockRes) (l' : SockState * bool) : Prop :=
  match o, r with
  | OpBind, RBool b => l'.1 = l.1 /\ (b = true \/ l.2 = true -> l'.2 = true)
  | OpListen, RBool b => if b then l.2 = true /\ l' = (SListen, true) else l' = l
  | OpConnect _ _, RBool b => l' = if b then (SConnected, true) else (SClose, false)
  | OpClose, RBool b => b = true /\ l' = (SClose, false)
  | OpAccept, RSock o => l' = l /\ forall c, o = Some c -> state_ c = SConnected /\ isValid c = true
  | (OpSend | OpSendTo | OpRecv | OpRecvFrom), RInt n => l' = l /\ (l.1 <> SConnected -> n = -1)
  | (OpCancelRead | OpCancelWrite | OpCancelAll), RBool _ => l' = l
  | (OpRecvTimeout _ | OpSendTimeout _), RUnit => l' = l
  | (OpGetRecvTimeout | OpGetSendTimeout), RInt _ => l' = l
  | OpGetError e, RInt n => l' = l /\ (n = e \/ n = -1)
  | _, _ => False
  end.

(** A listening or connected socket has a descriptor. *)
Definition usable (l : SockState * bool) : Prop := l.1 = SListen \/ l.1 = SConnected -> l.2 = true.

Lemma untouched_life w w' : Untouched w w' -> life w' = life w.
Proof. intros [Hs Hf _ _]. unfold life, isValid. by rewrite Hs, Hf. Qed.

Lemma newSock_wp w :
  wp newSock w (fun _ w' => state_ (sock w') = state_ (sock w) /\ t_hookEnable (os w') = t_hookEnable (os w)).
Proof.
  unfold newSock. apply wp_bind. eapply wp_mono; [apply same_onOs, keeps_socket|]. intros fd w1 [H1 _ _ H2].
  apply wp_bind, wp_modify. set (w2 := setSock _ w1).
  assert (Hs : same (if fd =? -1 then ret tt else setReuseAddr ;;; setNoDelay)) by same.
  eapply wp_mono; [apply Hs|]. intros u w3 [H3 _ _ H4]. rewrite H3, H4. cbn. by rewrite H1, H2.
Qed.

(** The descriptor of the socket, made if there is none. *)
Lemma ensure_wp w :
  wp (if isValid (sock w) then ret tt else newSock) w (fun _ w' =>
    state_ (sock w') = state_ (sock w) /\ t_hookEnable (os w') = t_hookEnable (os w)
    /\ (isValid (sock w) = true -> isValid (sock w') = true)).
Proof.
  destruct (isValid (sock w)) eqn:E; [by apply wp_ret|].
  eapply wp_mono; [apply newSock_wp|]. by intros u w' [? ?].
Qed.

Lemma getFdContext_wp fd (s : Os) : wp (getFdContext fd) s (fun _ _ => 0 <= fd).
Proof.
  unfold getFdContext. apply wp_bind, wp_gets, wp_bind. intros u s' E. unfold assert_, check in E.
  destruct (Z.leb_spec 0 fd); [|done]. injection E as _ <-. by apply wp_ret.
Qed.

(** With hooks a connection is only made on a descriptor. *)
Lemma connect_wp fd timeout e (s : Os) :
  t_hookEnable s = true -> wp (connect_with_timeout fd timeout e) s (fun _ _ => 0 <= fd).
Proof.
  intros Hh. unfold connect_with_timeout. apply wp_bind, wp_gets. unfold id. rewrite Hh. cbn [negb].
  apply wp_bind. eapply wp_mono; [apply getFdContext_wp|]. intros o s1 Hfd. by intros r s2 _.
Qed.

Lemma close_wp w : wp close w (fun b w' => b = true /\ life w' = (SClose, false)
  /\ t_hookEnable (os w') = t_hookEnable (os w)).
Proof.
  unfold close. apply wp_bind, wp_gets. destruct (bool_decide (state_ (sock w) = SClose)) eqn:Es; cbn [andb].
  - apply bool_decide_eq_true in Es. destruct (Z.eqb_spec (sockfd_ (sock w)) (-1)) as [Ef|Ef].
    + apply wp_ret. unfold life, isValid. by rewrite Es, Ef.
    + apply wp_bind. eapply wp_mono; [apply same_onOs, keeps_close|]. intros n w1 []. by apply wp_bind, wp_modify, wp_ret.
  - apply wp_bind. eapply wp_mono; [apply same_onOs, keeps_close|]. intros n w1 []. by apply wp_bind, wp_modify, wp_ret.
Qed.

Lemma wp_withRes {B} (f : B -> SockRes) (m : M World B) w Q :
  wp m w (fun b w' => Q (f b) w') -> wp (withRes f m) w Q.
Proof. intros Hm. apply wp_bind. eapply wp_mono; [exact Hm|]. intros b w' Hq. by apply wp_ret. Qed.

Definition Step (o : SockOp) (w : World) (r : SockRes) (w' : World) : Prop :=
  lifeStep o (life w) r (life w') /\ t_hookEnable (os w') = t_hookEnable (os w).

Lemma bind_step w : wp bind_ w (fun b w' => Step OpBind w (RBool b) w').
Proof.
  unfold bind_. apply wp_bind, wp_gets, wp_bind. eapply wp_mono; [apply ensure_wp|]. intros u w1 (H1 & H2 & H3).
  apply wp_bind, wp_gets. destruct (isValid (sock w1)) eqn:Ev; cbn [negb]; cycle 1.
  { apply wp_ret. split; [|done]. split; [done|]. intros [|Hv]; [done|]. unfold life in Hv. cbn in Hv.
    by rewrite (H3 Hv) in Ev. }
  assert (Hs : same (rt <-- onOs origin ;; if negb (rt =? 0) then ret false else getLocalAddr ;;; ret true)) by same.
  eapply wp_mono; [apply Hs|]. intros b w2 H12. pose proof (untouched_life _ _ H12) as E. split.
  - rewrite E. unfold life. cbn. by rewrite Ev.
  - rewrite (un_hook _ _ H12). exact H2.
Qed.

Lemma listen_step w : wp listen w (fun b w' => Step OpListen w (RBool b) w').
Proof.
  unfold listen. apply wp_bind, wp_gets. destruct (isValid (sock w)) eqn:Ev; cbn [negb]; [|by apply wp_ret].
  apply wp_bind. eapply wp_mono; [apply same_onOs, keeps_origin|]. intros rt w1 H1.
  pose proof (untouched_life _ _ H1) as E. destruct (rt =? 0); cbn [negb].
  - apply wp_bind, wp_modify, wp_ret. split; [|exact (un_hook _ _ H1)]. split; [exact Ev|].
    injection E as _ E2. unfold life. cbn. unfold isValid in *. cbn. by rewrite E2, Ev.
  - apply wp_ret. split; [exact E|exact (un_hook _ _ H1)].
Qed.

Lemma connect_step t e w :
  t_hookEnable (os w) = true -> wp (connect t e) w (fun b w' => Step (OpConnect t e) w (RBool b) w').
Proof.
  intros Hh. unfold connect. apply wp_bind, wp_gets, wp_bind. eapply wp_mono; [apply ensure_wp|].
  intros u w1 (H1 & H2 & H3). apply wp_bind, wp_gets, wp_bind.
  set (m := if t =? -1 then _ else _).
  assert (Hm : wp m (os w1) (fun _ _ => 0 <= sockfd_ (sock w1)))
    by (unfold m; destruct (t =? -1); apply connect_wp; congruence).
  assert (Hk : keeps m) by (unfold m; destruct (t =? -1); apply keeps_connect).
  clearbody m. intros rt w2 E2. pose proof (same_onOs m Hk w1 rt w2 E2) as H12.
  assert (Hfd : 0 <= sockfd_ (sock w2)).
  { rewrite (un_fd _ _ H12). unfold onOs, zoom in E2. destruct (m (os w1)) as [r s'] eqn:Em.
    injection E2 as -> <-. exact (Hm _ _ Em). }
  destruct (rt =? 0); cbn [negb].
  - apply wp_bind, wp_modify. set (w3 := setSock _ w2).
    assert (Hs : same (getLocalAddr ;;; getPeerAddr ;;; ret true)) by same.
    assert (Hr : forall b w4, (getLocalAddr ;;; getPeerAddr ;;; ret true) w3 = (Ok b, w4) -> b = true).
    { intros b w4 E. inv_bind E. by injection E. }
    intros b w4 E. rewrite (Hr _ _ E). specialize (Hs w3 b w4 E). split.
    + rewrite (untouched_life _ _ Hs). unfold life, isValid. cbn. rewrite (proj2 (Z.eqb_neq _ _)) by lia. done.
    + rewrite (un_hook _ _ Hs). cbn. rewrite (un_hook _ _ H12). exact H2.
  - apply wp_bind. eapply wp_mono; [apply close_wp|]. intros b w3 (_ & El & Eh). apply wp_ret.
    split; [exact El|]. rewrite Eh, (un_hook _ _ H12). exact H2.
Qed.

Lemma init_wp fd w :
  wp (initSocket fd) w (fun b w' => t_hookEnable (os w') = t_hookEnable (os w)
    /\ (b = true -> state_ (sock w') = SConnected /\ sockfd_ (sock w') = fd)).
Proof.
  unfold initSocket. apply wp_bind. eapply wp_mono; [apply same_onOs, keeps_getFdContext|]. intros o w1 H1.
  destruct o as [c|]; [|apply wp_ret; split; [apply H1|done]].
  destruct (isSock_ c && negb (close_ c)); [|apply wp_ret; split; [apply H1|done]].
  apply wp_bind, wp_modify. set (w2 := setSock _ w1).
  assert (Hs : same (getLocalAddr ;;; getPeerAddr ;;; setReuseAddr ;;; setNoDelay ;;; ret true)) by same.
  eapply wp_mono; [apply Hs|]. intros b w3 [Ha Hb _ Hc]. rewrite Ha, Hb, Hc. split; [apply H1|done].
Qed.

Lemma wp_onSocket {B} x (m : M World B) w (Q : B * Socket -> World -> Prop) :
  wp m (setSock x w) (fun b w' => Q (b, sock w') (setSock (sock w) w')) -> wp (onSocket x m) w Q.
Proof.
  intros Hm [b c] w' E. unfold onSocket in E. destruct (m (setSock x w)) as [[b'|e] w3] eqn:Em; [|done].
  injection E as -> <- <-. exact (Hm _ _ Em).
Qed.

Lemma accept_step w : wp accept w (fun o w' => Step OpAccept w (RSock o) w').
Proof.
  unfold accept. apply wp_bind, wp_gets, wp_bind. eapply wp_mono; [apply same_onOs, keeps_accept|]. intros fd w1 H1.
  pose proof (untouched_life _ _ H1) as E1. destruct (Z.eqb_spec fd (-1)) as [|Hfd].
  { apply wp_ret. split; [by split|apply H1]. }
  apply wp_bind, wp_onSocket. eapply wp_mono; [apply init_wp|]. intros b w3 [Hh Hc]. cbn [fst snd].
  destruct b.
  - apply wp_ret. split; [|rewrite <- (un_hook _ _ H1); exact Hh]. split; [exact E1|]. intros c [= <-].
    destruct (Hc eq_refl) as [Hst Hf]. split; [exact Hst|]. unfold isValid. rewrite Hf.
    by rewrite (proj2 (Z.eqb_neq _ _)).
  - apply wp_bind, wp_onSocket. unfold destroy. apply wp_bind. eapply wp_mono; [apply close_wp|].
    intros b w4 (_ & _ & Hh4). apply wp_ret, wp_ret. split; [by split|]. cbn. rewrite Hh4, <- (un_hook _ _ H1). exact Hh.
Qed.

Lemma io_step call w :
  (forall fd, keeps (call fd)) ->
  wp (io call) w (fun n w' => (life w' = life w /\ (state_ (sock w) <> SConnected -> n = -1))
    /\ t_hookEnable (os w') = t_hookEnable (os w)).
Proof.
  intros Hc. unfold io. apply wp_bind, wp_gets. unfold isConnected.
  destruct (decide (state_ (sock w) = SConnected)) as [E|E].
  - rewrite bool_decide_true by done. apply wp_bind. eapply wp_mono; [apply same_onOs, Hc|]. intros n w1 H1.
    apply wp_ret. split; [|apply H1]. split; [by apply untouched_life|done].
  - rewrite bool_decide_false by done. by apply wp_ret.
Qed.

Lemma same_step o w {B} (f : B -> SockRes) (m : M World B) :
  same m -> (forall b, lifeStep o (life w) (f b) (life w)) -> wp (withRes f m) w (Step o w).
Proof.
  intros Hm Hl. apply wp_withRes. eapply wp_mono; [apply Hm|]. intros b w1 H1.
  split; [rewrite (untouched_life _ _ H1); apply Hl|apply H1].
Qed.

Lemma getError_step e w : wp (getError e) w (fun n w' => Step (OpGetError e) w (RInt n) w').
Proof.
  assert (Hg : same getOption) by (unfold getOption, Hook.getsockopt; same).
  apply wp_bind. eapply wp_mono; [apply Hg|]. intros b w1 H1. apply wp_ret.
  split; [|apply H1]. cbn [lifeStep]. rewrite (untouched_life _ _ H1). split; [done|]. destruct b; auto.
Qed.

Lemma runSock_step o w : t_hookEnable (os w) = true -> wp (runSock o) w (Step o w).
Proof.
  intros Hh. destruct o; cbn [runSock];
    try (apply same_step; [unfold cancelRead, cancelWrite, cancelAll, setRecvTimeout, setSendTimeout, getRecvTimeout,
      getSendTimeout; same|done]);
    try (apply wp_withRes; apply io_step; intros; apply keeps_do_io); apply wp_withRes.
  - apply bind_step.
  - apply listen_step.
  - apply accept_step.
  - eapply wp_mono; [apply close_wp|]. intros b w' (-> & El & Eh). split; [by split|done].
  - by apply connect_step.
  - apply getError_step.
Qed.

Lemma lifeStep_usable o l r l' : usable l -> lifeStep o l r l' -> usable l'.
Proof.
  unfold usable. destruct o, r; cbn; try done; try (intros Hu [-> _]; exact Hu); try (intros Hu ->; exact Hu).
  - intros Hu [E Hb] Hl. apply Hb. right. apply Hu. by rewrite <- E.
  - destruct b; [by intros ? [_ ->]|by intros Hu ->].
  - intros Hu [_ ->]. by intros [|].
  - destruct b; intros Hu ->; cbn; [done|by intros [|]].
Qed.

(** C23: every call on a socket object of a hooked thread that returns acts on
    the abstract socket as its life cycle says, whatever the kernel answers:
    [connect] leaves a connected socket or a closed one without a descriptor,
    [close] always the latter, [listen] needs a descriptor, an accepted socket
    is connected, reading and writing need a connected socket and change
    neither state nor descriptor; and a listening or connected socket always
    has a descriptor. *)
Theorem socket_refines_life o w r w' :
  t_hookEnable (os w) = true -> usable (life w) -> runSock o w = (Ok r, w') ->
  lifeStep o (life w) r (life w') /\ usable (life w') /\ t_hookEnable (os w') = true.
Proof.
  intros Hh Hu E. destruct (runSock_step o w Hh r w' E) as [Hl Hh']. split; [done|]. split; [|congruence].
  exact (lifeStep_usable _ _ _ _ Hu Hl).
Qed.

(** ** Sockets without a descriptor *)

(** A hooked call on descriptor -1 fails the assertion of the table. *)
Lemma getFdContext_unopened (s : Os) : getFdContext (-1) s = (Throw AssertFail, s).
Proof. done. Qed.

Lemma onOs_ok {B} (m : M Os B) w r s : m (os w) = (r, s) -> onOs m w = (r, setOs s w).
Proof. intros E. unfold onOs, zoom. by rewrite E. Qed.

(** In a hooked thread the destructor of a socket that was never opened
    (from [CreateTcp], or after a [bind] that got no descriptor) fails an
    assertion, as does [connect] when [socket] gives no descriptor: neither
    reports an error to its caller. *)
Theorem unopened_socket_aborts w :
  t_hookEnable (os w) = true -> sockfd_ (sock w) = -1 -> state_ (sock w) <> SClose ->
  (exists w', destroy w = (Throw AssertFail, w'))
  /\ forall e l t soerror, calls (os w) = (-1, e) :: l ->
     exists w', connect t soerror w = (Throw AssertFail, w').
Proof.
  intros Hh Hf Hs. split.
  - assert (E : onOs (Hook.close (sockfd_ (sock w))) w = (Throw AssertFail, setOs (os w) w)).
    { apply onOs_ok. rewrite Hf. unfold Hook.close. rewrite bind_gets. unfold id. by rewrite Hh. }
    eexists. unfold destroy, close. apply bind_throw. rewrite bind_gets.
    rewrite bool_decide_false by done. cbn [andb]. exact (bind_throw _ _ _ _ _ E).
  - intros e l t soerror Hc. unfold connect. rewrite bind_gets. unfold isValid. rewrite Hf. cbn [Z.eqb negb Pos.eqb].
    destruct (origin_spec (os w) (-1) e l Hc) as (s1 & E1 & [Ah _ _ _ _ _] & _).
    assert (E2 : onOs Hook.socket w = (Ok (-1), setOs s1 w)).
    { apply onOs_ok. unfold Hook.socket. rewrite bind_gets. unfold id. rewrite (bind_ok _ _ _ _ _ E1), Hh. done. }
    assert (E3 : newSock w = (Ok tt, setSock (withFd (-1) (sock w)) (setOs s1 w))).
    { unfold newSock. rewrite (bind_ok _ _ _ _ _ E2). done. }
    rewrite (bind_ok _ _ _ _ _ E3), bind_gets. cbn [sock setSock sockfd_ withFd].
    eexists. apply bind_throw. apply onOs_ok. cbn [os setSock setOs]. unfold Hook.connect, connect_with_timeout.
    destruct (t =? -1); rewrite bind_gets; unfold id; by rewrite Ah, Hh.
Qed.

(** ** TCP_NODELAY *)

Definition noDelayFree (w : World) : Prop := type_ (sock w) <> SOCK_STREAM /\ forall fd, (fd, NoDelay) ∉ options w.

Definition quiet {B} (m : M World B) : Prop := forall w, noDelayFree w ->
  wp m w (fun _ w' => noDelayFree w' /\ type_ (sock w') = type_ (sock w)).

Lemma quiet_bind {B D} (m : M World B) (k : B -> M World D) : quiet m -> (forall b, quiet (k b)) -> quiet (bind m k).
Proof.
  intros Hm Hk w Hw. apply wp_bind. eapply wp_mono; [by apply Hm|]. intros b w1 [H1 E1].
  eapply wp_mono; [by apply Hk|]. intros d w2 [H2 E2]. split; [done|congruence].
Qed.

Lemma quiet_onOs {B} (m : M Os B) : quiet (onOs m).
Proof. intros w Hw. apply wp_zoom. by intros b s _. Qed.

Lemma quiet_updSock f : (forall x, type_ (f x) = type_ x) -> quiet (updSock f).
Proof.
  intros Hf w [Ht Ho]. apply wp_modify. split; [split; [|done]|]; cbn; by rewrite Hf.
Qed.

Ltac quiet :=
  repeat (intros; match goal with
  | |- quiet (bind _ _) => apply quiet_bind
  | |- quiet (onOs _) => apply quiet_onOs
  | |- quiet (updSock _) => apply quiet_updSock; reflexivity
  | |- quiet (if ?b then _ else _) => destruct b
  | |- quiet (match ?x with _ => _ end) => destruct x
  | |- quiet (ret _) => intros ? ?; by apply wp_ret
  | |- quiet (gets _) => intros ? ?; by apply wp_gets
  | |- _ => solve [auto with reyao]
  end).

Lemma quiet_askName : quiet askName.
Proof. intros w Hw a w' E. unfold askName in E. destruct (names w); [done|]. by injection E as <- <-. Qed.

Lemma quiet_setOption o : o <> NoDelay -> quiet (setOption o).
Proof.
  intros Ho. unfold setOption. apply quiet_bind; [quiet|]. intros x. apply quiet_bind; [quiet|]. intros rt.
  apply quiet_bind; [|quiet]. intros w [Ht Hn]. apply wp_modify. split; [|done]. split; [done|].
  intros fd Hin. cbn in Hin. apply elem_of_app in Hin as [Hin|Hin]; [by apply (Hn fd)|].
  apply list_elem_of_singleton in Hin. by injection Hin as _ <-.
Qed.
#[local] Hint Resolve quiet_askName : reyao.

Lemma quiet_getLocalAddr : quiet getLocalAddr.
Proof. unfold getLocalAddr. quiet. Qed.
Lemma quiet_getPeerAddr : quiet getPeerAddr.
Proof. unfold getPeerAddr. quiet. Qed.
Lemma quiet_setReuseAddr : quiet setReuseAddr.
Proof. unfold setReuseAddr. pose proof (quiet_setOption ReuseAddr ltac:(done)). quiet. Qed.
Lemma quiet_setNoDelay : quiet setNoDelay.
Proof.
  intros w Hw. unfold setNoDelay. apply wp_bind, wp_gets. destruct Hw as [Ht Ho].
  rewrite (proj2 (Z.eqb_neq _ _)) by done. by apply wp_ret.
Qed.
#[local] Hint Resolve quiet_getLocalAddr quiet_getPeerAddr quiet_setReuseAddr quiet_setNoDelay : reyao.

Lemma quiet_newSock : quiet newSock.
Proof. unfold newSock. quiet. Qed.
Lemma quiet_initSocket fd : quiet (initSocket fd).
Proof. unfold initSocket. quiet. Qed.
Lemma quiet_close : quiet close.
Proof. unfold close. quiet. Qed.
#[local] Hint Resolve quiet_newSock quiet_close : reyao.

Lemma quiet_accept : quiet accept.
Proof.
  intros w Hw. unfold accept. apply wp_bind, wp_gets, wp_bind. eapply wp_mono; [by apply quiet_onOs|].
  intros fd w1 [[Ht1 Ho1] E1]. destruct (fd =? -1); [by apply wp_ret|]. apply wp_bind, wp_onSocket.
  eapply wp_mono; [apply quiet_initSocket; by split; [destruct Hw|]|]. intros b w3 [[Hx Ho3] _]. cbn [fst snd].
  destruct b; [by apply wp_ret|]. apply wp_bind, wp_onSocket.
  assert (Hq : quiet destroy) by (unfold destroy; quiet).
  eapply wp_mono; [apply Hq; by split|]. intros u w4 [[_ Ho4] _]. by apply wp_ret.
Qed.

(** No call ever sets TCP_NODELAY on the sockets of [CreateTcp] or on
    those accepted from them: the constructor gets the address family where
    it takes the type, so that [setNoDelay] sees no stream socket. *)
Theorem tcp_nodelay_never_set o w r w' :
  type_ (sock w) = type_ CreateTcp -> (forall fd, (fd, NoDelay) ∉ options w) ->
  runSock o w = (Ok r, w') -> type_ (sock w') = type_ CreateTcp /\ forall fd, (fd, NoDelay) ∉ options w'.
Proof.
  intros Ht Ho E. assert (Hq : quiet (runSock o)).
  { pose proof quiet_accept. pose proof (quiet_setOption (Timeout SO_RCVTIMEO 0)).
    assert (Htm : forall opt t, quiet (setOption (Timeout opt t))) by (intros; by apply quiet_setOption).
    destruct o; cbn [runSock]; unfold withRes, bind_, listen, connect, send, sendTo, recv, recvFrom, io, cancelRead,
      cancelWrite, cancelAll, setRecvTimeout, setSendTimeout, getRecvTimeout, getSendTimeout, getError, getOption; quiet. }
  destruct (Hq w ltac:(split; [by rewrite Ht|done]) r w' E) as [[_ Hn] Et]. split; [congruence|done].
Qed.

(** ** The accept loop *)

(** [s'] is [s] after a call that only made the context of the new socket [fd]. *)
Record NewFd (fd : Z) (s s' : Os) : Prop := {
  nf_hook : t_hookEnable s' = t_hookEnable s;
  nf_calls : calls s' = calls s;
  nf_wakes : wakes s' = wakes s;
  nf_ctx : exists c, fdcontexts_ s' !! Z.to_nat fd = Some (Some c) /\ isSock_ c = true /\ close_ c = false;
  nf_old : forall i c, i <> Z.to_nat fd -> fdcontexts_ s !! i = Some (Some c) -> fdcontexts_ s' !! i = Some (Some c);
  nf_socket : forall g, is_socket (sys s') g = is_socket (sys s) g
}.

Lemma initContext_socket fd (s : Os) :
  is_socket (sys s) fd = true ->
  exists c k, initContext fd s = (Ok c, setSys k s) /\ isSock_ c = true /\ close_ c = false
    /\ forall g, is_socket k g = is_socket (sys s) g.
Proof.
  intros Hs. unfold initContext. rewrite bind_gets, Hs. destruct (_ =? 0).
  - destruct (setfl fd (Z.lor (getfl (sys s) fd) O_NONBLOCK) (sys s)) as [r k] eqn:E.
    eexists _, k. split; [done|]. split; [done|]. split; [done|]. intros g.
    destruct (decide (r = 0)) as [->|Hr]; [by apply (setfl_ok _ _ _ _ E)|by apply (setfl_fail _ _ _ _ _ E)].
  - eexists _, (sys s). split; [by destruct s|done].
Qed.

Lemma addFd_socket fd (s : Os) :
  2 <= fd -> is_socket (sys s) fd = true -> exists s', addFd fd s = (Ok tt, s') /\ NewFd fd s s'.
Proof.
  intros Hfd Hs. rewrite addFd_grown. set (g := grown fd s).
  assert (Hg : fd < zlen (fdcontexts_ g) /\ t_hookEnable g = t_hookEnable s /\ calls g = calls s /\ wakes g = wakes s
    /\ sys g = sys s /\ forall i c, fdcontexts_ s !! i = Some (Some c) -> fdcontexts_ g !! i = Some (Some c)).
  { unfold g, grown. destruct (Z.leb_spec (zlen (fdcontexts_ s)) fd) as [Hle|]; [|done].
    cbn [setContexts fdcontexts_ t_hookEnable calls wakes sys].
    assert (Hd : fd + 1 <= fd * 3 / 2) by (apply Z.div_le_lower_bound; lia).
    split; [rewrite zlen_resize by lia; lia|]. do 4 (split; [done|]). intros i c Hi.
    pose proof (lookup_lt_Some _ _ _ Hi) as Hlt. unfold zlen in Hle.
    by rewrite lookup_resize by lia. }
  destruct Hg as (Hlen & Hh & Hc & Hw & Hsys & Hold).
  destruct (initContext_socket fd g) as (c & k & E & Hsk & Hcl & Hk); [by rewrite Hsys|].
  rewrite (bind_ok _ _ _ _ _ E), bind_gets. unfold id. cbn [fdcontexts_ setSys].
  rewrite (proj2 (Z.leb_le 0 fd)), (proj2 (Z.ltb_lt _ _) Hlen) by lia. unfold check. cbn [andb]. rewrite bind_ret.
  eexists. split; [done|]. split; cbn [t_hookEnable calls wakes fdcontexts_ sys setContexts setSys]; try done.
  - exists c. split; [|done]. apply list_lookup_insert_eq. unfold zlen in Hlen. lia.
  - intros i x Hi Hx. rewrite list_lookup_insert_ne by done. by apply Hold.
  - intros h. by rewrite Hk, Hsys.
Qed.

(** The hooked [accept] when a connection waits. *)
Lemma accept_ready L cL fd e l (s : Os) :
  Blocking s L cL -> calls s = (fd, e) :: l -> 2 <= fd -> is_socket (sys s) fd = true ->
  exists s', Hook.accept L s = (Ok fd, s') /\ calls s' = l /\ t_hookEnable s' = true
    /\ (exists c, fdcontexts_ s' !! Z.to_nat fd = Some (Some c) /\ isSock_ c = true /\ close_ c = false)
    /\ (forall i c, i <> Z.to_nat fd -> fdcontexts_ s !! i = Some (Some c) -> fdcontexts_ s' !! i = Some (Some c))
    /\ forall g, is_socket (sys s') g = is_socket (sys s) g.
Proof.
  intros Hb Hc Hfd Hs. unfold Hook.accept.
  destruct (retry_answer (length (wakes s)) s L EPOLLIN (getTimeout SO_RCVTIMEO cL) 0 fd e l Hc) as (s1 & E & Ha & Hl & _);
    [lia|]. rewrite <- (do_io_blocking _ _ _ _ _ Hb) in E. rewrite (bind_ok _ _ _ _ _ E).
  destruct Ha. destruct (addFd_socket fd s1 Hfd ltac:(by rewrite af_sys)) as (s2 & E2 & []).
  rewrite (proj2 (Z.leb_le 0 fd)) by lia. rewrite (bind_ok _ _ _ _ _ E2). exists s2. split; [done|].
  split; [congruence|]. split; [destruct Hb; congruence|]. split; [done|]. split; [by rewrite <- af_ctx|].
  intros g. by rewrite nf_socket0, af_sys.
Qed.

(** A connection that waits: its descriptor and its two addresses, with the
    answers of [accept], of SO_REUSEADDR and of SO_RCVTIMEO. *)
Record Conn := { c_fd : Z; c_local : A; c_peer : A; c_errno : Z; c_reuse : Z * Z; c_timeout : Z * Z }.

Definition connCalls (c : Conn) : list (Z * Z) := [(c_fd c, c_errno c); c_reuse c; c_timeout c].
Definition connNames (c : Conn) : list (option A) := [Some (c_local c); Some (c_peer c)].

(** The socket its handler gets. *)
Definition clientOf (lis : Socket) (c : Conn) : Socket :=
  mkSocket (type_ lis) (family_ lis) (protocol_ lis) (c_fd c) SConnected (Some (c_local c)) (Some (c_peer c)).

Lemma set_timeout_ok fd opt t c n e l (s : Os) :
  t_hookEnable s = true -> 0 <= fd -> fdcontexts_ s !! Z.to_nat fd = Some (Some c) -> calls s = (n, e) :: l ->
  - 2 ^ 63 <= t < 2 ^ 63 ->
  exists s', setSocketTimeout fd opt t s = (Ok n, s') /\ calls s' = l /\ t_hookEnable s' = true /\ sys s' = sys s
    /\ fdcontexts_ s' = <[Z.to_nat fd := Some (setTimeout opt t c)]> (fdcontexts_ s).
Proof.
  intros Hh Hfd Hc Hl Ht. unfold setSocketTimeout, setsockopt_timeout. rewrite bind_gets. unfold id. rewrite Hh.
  cbn [negb]. rewrite (bind_ok _ _ _ _ _ (getFdContext_spec s fd (Some c) Hfd Hc)). unfold updContext. rewrite bind_modify.
  set (v := i64 _). assert (Hv : v = t).
  { unfold v. rewrite Z.quot_mul by lia. pose proof (Z.quot_rem' t 1000). rewrite swrap_small; lia. }
  set (s2 := setContexts _ s). destruct (origin_spec s2 n e l Hl) as (s1 & E & [] & Hl1 & _). exists s1.
  split; [done|]. split; [done|]. split; [by rewrite af_hook|]. split; [by rewrite af_sys|]. rewrite af_ctx.
  unfold s2. cbn [fdcontexts_ setContexts]. apply list_eq. intros i. destruct (decide (i = Z.to_nat fd)) as [->|Hi].
  - rewrite list_lookup_alter_eq, Hc, list_lookup_insert_eq by (by eapply lookup_lt_Some). cbn. by rewrite Hv.
  - by rewrite list_lookup_alter_ne, list_lookup_insert_ne by done.
Qed.

(** The listening socket [lis] and the clients handed out so far. *)
Record Serving (lis : Socket) (cL : FdContext) (t : Z) (fds : list Z) (w : World) : Prop := {
  sv_sock : sock w = lis;
  sv_listen : Blocking (os w) (sockfd_ lis) cL;
  sv_clients : forall fd, fd ∈ fds -> 0 <= fd /\ exists c, fdcontexts_ (os w) !! Z.to_nat fd = Some (Some c)
    /\ isSock_ c = true /\ Hook.recvTimeout_ c = t
}.

Lemma initSocket_ready fd c r e l a b ns w :
  t_hookEnable (os w) = true -> 0 <= fd -> fdcontexts_ (os w) !! Z.to_nat fd = Some (Some c) -> isSock_ c = true ->
  close_ c = false -> calls (os w) = (r, e) :: l -> names w = Some a :: Some b :: ns ->
  type_ (sock w) <> SOCK_STREAM -> local_ (sock w) = None -> peer_ (sock w) = None ->
  exists s', After (os w) s' [] /\ calls s' = l /\
    initSocket fd w = (Ok true, mkWorld (mkSocket (type_ (sock w)) (family_ (sock w)) (protocol_ (sock w)) fd SConnected
      (Some a) (Some b)) s' ns (options w ++ [(fd, ReuseAddr)])).
Proof.
  intros Hh Hfd Hc Hs Hcl Hl Hn Ht Hlo Hp. destruct (origin_spec (os w) r e l Hl) as (s' & E & Ha & Hl' & _).
  exists s'. split; [done|]. split; [done|]. unfold initSocket.
  rewrite (bind_ok _ _ _ _ _ (onOs_ok _ _ _ _ (getFdContext_spec _ _ _ Hfd Hc))). rewrite Hs, Hcl. cbn [andb negb].
  destruct w as [[ty fa pr fd0 st lo pe] s nm op]. cbn in Hn, Ht, Hlo, Hp, E |- *. subst lo pe nm.
  unfold getLocalAddr, getPeerAddr, askName, updSock.
  unfold bind, gets, modify, ret, setOs. cbn. unfold setReuseAddr, setOption, onOs, zoom, bind, gets. cbn. rewrite E. cbn.
  unfold setNoDelay, bind, gets. cbn. by rewrite (proj2 (Z.eqb_neq _ _) Ht).
Qed.

Definition addClient (x : Socket) (srv : TcpServer) : TcpServer :=
  {| recvTimeout_ := recvTimeout_ srv; handed := handed srv ++ [x] |}.

(** A new descriptor of the kernel that the server does not have yet. *)
Definition newConn (lis : Socket) (fds : list Z) (w : World) (c : Conn) : Prop :=
  2 <= c_fd c /\ c_fd c <> sockfd_ lis /\ (c_fd c ∈ fds -> False) /\ is_socket (sys (os w)) (c_fd c) = true.

Lemma accept_conn lis cL t fds c l ns w :
  Serving lis cL t fds w -> type_ lis <> SOCK_STREAM -> newConn lis fds w c ->
  calls (os w) = connCalls c ++ l -> names w = connNames c ++ ns ->
  exists w' x, accept w = (Ok (Some (clientOf lis c)), w') /\ Serving lis cL t fds w'
    /\ fdcontexts_ (os w') !! Z.to_nat (c_fd c) = Some (Some x) /\ isSock_ x = true
    /\ calls (os w') = c_timeout c :: l /\ names w' = ns
    /\ forall g, is_socket (sys (os w')) g = is_socket (sys (os w)) g.
Proof.
  intros [Hso Hb Hcl] Hty (Hfd & HL & Hfresh & Hs) Hc Hn. unfold accept. rewrite bind_gets, Hso.
  destruct (accept_ready _ _ _ _ _ _ Hb Hc Hfd Hs) as (s1 & E1 & Hc1 & Hh1 & (x & Hx & Hxs & Hxc) & Hold & Hsk1).
  rewrite (bind_ok _ _ _ _ _ (onOs_ok _ _ _ _ E1)). rewrite (proj2 (Z.eqb_neq (c_fd c) (-1))) by lia.
  destruct (c_reuse c) as [r e] eqn:Er.
  destruct (initSocket_ready (c_fd c) x r e (c_timeout c :: l) (c_local c) (c_peer c) ns
    (setSock (newSocket (type_ lis) (family_ lis) (protocol_ lis)) (setOs s1 w))) as (s2 & [] & Hc2 & E2);
    cbn [os setSock setOs names sock type_ local_ peer_ newSocket]; try done; [lia|].
  cbn [sock setSock setOs type_ family_ protocol_ newSocket options os] in *.
  eexists _, x. unfold bind, onSocket. rewrite E2. cbn [fst snd sock setSock setOs os names]. split; [done|].
  cbn [os names setSock]. rewrite af_ctx, af_sys. split; [|by split_and!]. split; cbn [os sock setSock]; [done| |].
  - destruct Hb. split; [congruence|done| |done..]. rewrite af_ctx. apply Hold; [lia|done].
  - intros fd Hin. destruct (Hcl fd Hin) as [Hp (y & Hy & Hrest)]. split; [done|]. exists y.
    split; [|done]. rewrite af_ctx. apply Hold; [|done]. intros Heq. apply Hfresh.
    by replace (c_fd c) with fd by lia.
Qed.

(** A connection is accepted and gets its timeout. *)
Lemma accept_timed lis cL t fds c l ns w :
  Serving lis cL t fds w -> type_ lis <> SOCK_STREAM -> newConn lis fds w c ->
  calls (os w) = connCalls c ++ l -> names w = connNames c ++ ns -> 0 <= t < 2 ^ 63 ->
  exists w1 w', accept w = (Ok (Some (clientOf lis c)), w1)
    /\ onSocket (clientOf lis c) (setRecvTimeout (i64 t)) w1 = (Ok (tt, clientOf lis c), w')
    /\ Serving lis cL t (fds ++ [c_fd c]) w' /\ calls (os w') = l /\ names w' = ns
    /\ forall g, is_socket (sys (os w')) g = is_socket (sys (os w)) g.
Proof.
  intros Hsv Hty Hnew Hc Hn Ht.
  destruct (accept_conn _ _ _ _ _ _ _ _ Hsv Hty Hnew Hc Hn) as (w1 & x & E1 & [Hso Hb Hcl] & Hx & Hxs & Hc1 & Hn1 & Hs1).
  exists w1. destruct Hnew as (Hfd & HL & Hfresh & _). destruct (c_timeout c) as [n e] eqn:Etm.
  destruct (set_timeout_ok (c_fd c) SO_RCVTIMEO t x n e l (os w1)) as (s2 & E2 & Hc2 & Hh2 & Hy2 & Hf2);
    [destruct Hb; done|lia|done|done|lia|].
  assert (Eo : onSocket (clientOf lis c) (setRecvTimeout (i64 t)) w1
    = (Ok (tt, clientOf lis c), setSock (sock w1) (logOption (c_fd c) (Timeout SO_RCVTIMEO t) (setOs s2 w1)))).
  { rewrite swrap_small by lia. unfold onSocket, setRecvTimeout, setOption, bind, gets, onOs, zoom.
    cbn [sock setSock sockfd_ clientOf os]. by rewrite E2. }
  eexists. split; [done|]. split; [exact Eo|]. cbn [os names setSock logOption setOs].
  split; [|rewrite Hy2; by split_and!]. split; cbn [sock os setSock logOption setOs]; [done| |].
  - destruct Hb. split; [done|done| |done..]. rewrite Hf2, list_lookup_insert_ne by lia. done.
  - intros fd [Hin| ->%list_elem_of_singleton]%elem_of_app.
    + destruct (Hcl fd Hin) as [Hp (y & Hy & Hrest)]. split; [done|]. exists y. rewrite Hf2, list_lookup_insert_ne; [done|].
      intros Heq. apply Hfresh. by replace (c_fd c) with fd by lia.
    + split; [lia|]. eexists. rewrite Hf2, list_lookup_insert_eq by (by eapply lookup_lt_Some). split; [done|].
      by split.
Qed.

Lemma acceptOne_conn lis cL t fds c l ns srv w :
  Serving lis cL t fds w -> type_ lis <> SOCK_STREAM -> newConn lis fds w c ->
  calls (os w) = connCalls c ++ l -> names w = connNames c ++ ns -> recvTimeout_ srv = t -> 0 <= t < 2 ^ 63 ->
  exists w', acceptOne srv w = (Ok (addClient (clientOf lis c) srv), w') /\ Serving lis cL t (fds ++ [c_fd c]) w'
    /\ calls (os w') = l /\ names w' = ns /\ forall g, is_socket (sys (os w')) g = is_socket (sys (os w)) g.
Proof.
  intros Hsv Hty Hnew Hc Hn <- Ht.
  destruct (accept_timed _ _ _ _ _ _ _ _ Hsv Hty Hnew Hc Hn Ht) as (w1 & w' & E1 & E2 & Hrest).
  exists w'. split; [|exact Hrest]. unfold acceptOne. by rewrite (bind_ok _ _ _ _ _ E1), (bind_ok _ _ _ _ _ E2).
Qed.

Fixpoint newConns (lis : Socket) (fds : list Z) (w : World) (cs : list Conn) : Prop :=
  match cs with
  | [] => True
  | c :: cs => newConn lis fds w c /\ newConns lis (fds ++ [c_fd c]) w cs
  end.

Lemma newConns_sys lis fds w w' cs :
  (forall g, is_socket (sys (os w')) g = is_socket (sys (os w)) g) -> newConns lis fds w cs -> newConns lis fds w' cs.
Proof.
  intros Hg. revert fds. induction cs as [|c cs IH]; intros fds; cbn [newConns]; [done|].
  intros [(? & ? & ? & ?) Hcs]. split; [|by apply IH]. split_and!; try done. by rewrite Hg.
Qed.

(** The accept loop of the server hands every connection that the kernel
    accepts to the scheduler, once and in the order of arrival: each task gets
    a connected socket of its own, with the descriptor and both addresses of
    its connection, whose reads time out after the receive timeout of the
    server; the listening socket and the clients already handed out are left
    as they were. *)
Theorem server_hands_clients lis cL fds cs l ns srv w :
  Serving lis cL (recvTimeout_ srv) fds w -> type_ lis <> SOCK_STREAM -> newConns lis fds w cs ->
  0 <= recvTimeout_ srv < 2 ^ 63 ->
  calls (os w) = List.concat (map connCalls cs) ++ l -> names w = List.concat (map connNames cs) ++ ns ->
  exists srv' w', acceptLoop (length cs) srv w = (Ok srv', w')
    /\ handed srv' = handed srv ++ map (clientOf lis) cs
    /\ Serving lis cL (recvTimeout_ srv) (fds ++ map c_fd cs) w' /\ calls (os w') = l.
Proof.
  revert fds srv w. induction cs as [|c cs IH]; intros fds srv w Hsv Hty Hnew Ht Hc Hn; cbn [acceptLoop length].
  - exists srv, w. cbn [map]. by rewrite !app_nil_r.
  - cbn [map List.concat] in Hc, Hn. rewrite <- app_assoc in Hc, Hn. destruct Hnew as [Hc1 Hcs].
    destruct (acceptOne_conn _ _ _ _ _ _ _ _ _ Hsv Hty Hc1 Hc Hn eq_refl Ht) as (w1 & E & Hsv1 & Hl1 & Hn1 & Hs1).
    rewrite (bind_ok _ _ _ _ _ E).
    destruct (IH (fds ++ [c_fd c]) (addClient (clientOf lis c) srv) w1) as (srv' & w' & E' & Hh & Hsv' & Hl');
      try done; [by eapply newConns_sys|].
    exists srv', w'. split; [done|]. rewrite Hh. cbn [addClient handed map recvTimeout_] in *.
    by rewrite <- !app_assoc in *.
Qed.

(** A server whose [bind] fails is not told: it goes on to listen on the
    socket without an address, and to accept. *)
Theorem failed_bind_listens w fd e0 r0 e e' l n srv :
  t_hookEnable (os w) = true -> 2 <= fd -> is_socket (sys (os w)) fd = true ->
  calls (os w) = (fd, e0) :: r0 :: (-1, e) :: (0, e') :: l ->
  exists w', listenAndAccpet n srv w = acceptLoop n srv w' /\ sockfd_ (sock w') = fd /\ state_ (sock w') = SListen
    /\ local_ (sock w') = None.
Proof.
  intros Hh Hfd Hs Hc. unfold listenAndAccpet, updSock. rewrite bind_modify. set (w0 := setSock CreateTcp w).
  destruct (origin_spec (os w) fd e0 _ Hc) as (s1 & E1 & [] & Hl1 & _).
  destruct (addFd_socket fd s1 Hfd ltac:(by rewrite af_sys)) as (s2 & E2 & Hn2).
  assert (Eso : onOs Hook.socket w0 = (Ok fd, setOs s2 w0)).
  { apply onOs_ok. unfold Hook.socket. rewrite bind_gets. cbn [os w0 setSock]. unfold id.
    rewrite (bind_ok _ _ _ _ _ E1), Hh. cbn [negb]. rewrite (proj2 (Z.eqb_neq fd (-1))) by lia.
    by rewrite (bind_ok _ _ _ _ _ E2). }
  destruct r0 as [r e1]. pose proof (nf_calls _ _ _ Hn2) as Hc2. rewrite Hl1 in Hc2.
  destruct (origin_spec s2 r e1 _ Hc2) as (s3 & E3 & _ & Hl3 & _).
  destruct (origin_spec s3 (-1) e _ Hl3) as (s4 & E4 & _ & Hl4 & _).
  destruct (origin_spec s4 0 e' _ Hl4) as (s5 & E5 & _ & Hl5 & _).
  assert (Hne : (fd =? -1) = false) by (apply Z.eqb_neq; lia).
  set (w4 := mkWorld (mkSocket AF_INET SOCK_STREAM 0 fd SInit None None) s4 (names w) (options w ++ [(fd, ReuseAddr)])).
  assert (Eb : bind_ w0 = (Ok false, w4)).
  { unfold bind_. rewrite bind_gets. cbn [isValid sockfd_ CreateTcp newSocket sock w0 setSock Z.eqb negb Pos.eqb].
    assert (En : newSock w0 = (Ok tt, mkWorld (mkSocket AF_INET SOCK_STREAM 0 fd SInit None None) s3 (names w)
        (options w ++ [(fd, ReuseAddr)]))).
    { unfold newSock. rewrite (bind_ok _ _ _ _ _ Eso). unfold updSock. rewrite bind_modify, Hne.
      unfold setReuseAddr, setOption, setNoDelay, bind, gets, onOs, zoom. cbn. by rewrite E3. }
    rewrite (bind_ok _ _ _ _ _ En), bind_gets. unfold isValid. cbn [sockfd_ sock]. rewrite Hne. cbn [negb].
    unfold bind, onOs, zoom. cbn [os]. rewrite E4. done. }
  rewrite (bind_ok _ _ _ _ _ Eb).
  assert (El : listen w4 = (Ok true, setSock (withState SListen (sock w4)) (setOs s5 w4))).
  { unfold listen. rewrite bind_gets. unfold isValid. cbn [sockfd_ sock w4]. rewrite Hne. cbn [negb].
    unfold bind, onOs, zoom. cbn [os w4]. rewrite E5. done. }
  rewrite (bind_ok _ _ _ _ _ El). by eexists.
Qed.
End Socket.

(** ** Witnesses *)

Definition demoOs (script : list (Z * Z)) : St (W := nat) (C := nat) (F := nat) (KE := gmap Z Z) (K := gmap Z Z) :=
  {| t_hookEnable := true; self := 0%nat; cur := 7%nat; poller := newPoller;
     fdcontexts_ := [None; None; None; Some demoCtx]; sys := {[ 3 := 2050; 4 := 2; 6 := 2 ]}; errno := 0;
     calls := script; wakes := []; acts := [] |}.

Definition demoListen : Socket (A := string) := mkSocket AF_INET SOCK_STREAM 0 3 SListen (Some "here"%string) None.

Definition demoConns : list (Conn (A := string)) :=
  [{| c_fd := 6; c_local := "here"; c_peer := "alice"; c_errno := 0; c_reuse := (0, 0); c_timeout := (0, 0) |};
   {| c_fd := 4; c_local := "here"; c_peer := "bob"; c_errno := 0; c_reuse := (0, 0); c_timeout := (0, 0) |}]%string.

Definition demoWorld : World :=
  mkWorld demoListen (demoOs (List.concat (map connCalls demoConns))) (List.concat (map connNames demoConns)) [].

Definition demoServer : TcpServer (A := string) := {| recvTimeout_ := s_maxRecvTimeout; handed := [] |}.

Lemma demo_serving : Serving demoListen demoCtx s_maxRecvTimeout [] demoWorld.
Proof. split; [done|by split|]. intros fd H. by apply elem_of_nil in H. Qed.

Lemma server_hands_clients_witness :
  exists srv' w', acceptLoop 2 demoServer demoWorld = (Ok srv', w')
    /\ handed srv' = map (clientOf demoListen) demoConns.
Proof.
  destruct (server_hands_clients demoListen demoCtx [] demoConns [] [] demoServer demoWorld)
    as (srv' & w' & E & Eh & _).
  - exact demo_serving.
  - vm_compute. discriminate.
  - unfold newConns, newConn. cbn [demoConns].
    split; [|split; [|done]]; (split; [vm_compute; discriminate|]); (split; [vm_compute; discriminate|]);
      (split; [|vm_compute; reflexivity]).
    + intros H. inversion H.
    + intros H. apply list_elem_of_singleton in H. discriminate.
  - unfold demoServer, s_maxRecvTimeout. cbn. lia.
  - vm_compute. reflexivity.
  - vm_compute. reflexivity.
  - exists srv', w'. split; [exact E|]. exact Eh.
Defined.

Lemma socket_refines_life_witness :
  exists r w', runSock OpAccept demoWorld = (Ok r, w') /\ lifeStep OpAccept (life demoWorld) r (life w').
Proof.
  destruct (runSock OpAccept demoWorld) as [[r|e] w'] eqn:E; [|vm_compute in E; discriminate].
  exists r, w'. split; [reflexivity|].
  apply (socket_refines_life OpAccept demoWorld r w'); [reflexivity| |exact E]. intros _. reflexivity.
Defined.

Lemma unopened_socket_aborts_witness :
  let w := mkWorld CreateTcp (demoOs [(-1, 24)]) (@nil (option string)) [] in
  exists w', destroy w = (Throw AssertFail, w').
Proof.
  intros w. apply (unopened_socket_aborts w); [reflexivity|reflexivity|discriminate].
Defined.

Lemma tcp_nodelay_never_set_witness :
  exists r w', runSock OpAccept demoWorld = (Ok r, w') /\ forall fd, (fd, NoDelay) ∉ options w'.
Proof.
  destruct (runSock OpAccept demoWorld) as [[r|e] w'] eqn:E; [|vm_compute in E; discriminate].
  exists r, w'. split; [reflexivity|].
  apply (tcp_nodelay_never_set OpAccept demoWorld r w'); [reflexivity| |exact E]. intros fd. apply not_elem_of_nil.
Defined.

Lemma failed_bind_listens_witness :
  let w := mkWorld CreateTcp (demoOs [(4, 0); (0, 0); (-1, 98); (0, 0)]) (@nil (option string)) [] in
  exists w', listenAndAccpet 0 demoServer w = acceptLoop 0 demoServer w' /\ state_ (sock w') = SListen.
Proof.
  intros w. destruct (failed_bind_listens w 4 0 (0, 0) 98 0 [] 0 demoServer) as (w' & E & _ & Hs & _);
    [reflexivity|lia|vm_compute; reflexivity|reflexivity|].
  by exists w'.
Defined.

Example listening_text : toString (fun a => bs a) demoListen = bs "sockfd=3 type=2 protocol=0 state=LISTEN local=here".
Proof. vm_compute. reflexivity. Qed.
