(* ===== verification/Wire.v ===== *)
(** * Streams over hooked calls (src/reyao: socket_stream.cc, socket.cc, hook.cc together)

    SocketStream.v takes a connection for a sequence of pieces that [recv]
    returns one after the other.  Here [recv] and [send] are those of a
    [Socket] over the hooked calls, on a descriptor that is non-blocking for
    the kernel: a call may be interrupted or find nothing, and then the
    coroutine suspends.  The two implement one interface, [Conn], and each
    operation of the hooked connection is one of SocketStream.v on some
    sequence of pieces of the same bytes ([follows]); so a program over a
    connection does what it does on pieces. *)

From S2P Require Import Prelude ByteArray SocketStream Talk Epoller Hook Socket.

(** ** The kernel's end of a connection *)

(** What happens before one original [recv]: a signal interrupts it, or bytes
    have arrived (none: the descriptor may still be empty). *)
Inductive Arrival := SignalIn | Bytes (d : bytes).

(** ... and before one original [send]: a signal, or [n] bytes of room. *)
Inductive Room := SignalOut | Space (n : Z).

(** It only delays the call. *)
Definition delays (a : Room) : Prop := match a with SignalOut => True | Space n => n <= 0 end.
#[export] Instance delays_dec a : Decision (delays a).
Proof. destruct a; apply _. Defined.

(** [unread] has arrived and was not read; when [arriving] is used up the peer
    has closed, when [space] is used up there is always room. *)
Record Kernel := { unread : bytes; arriving : list Arrival; space : list Room; sent : bytes }.

(** recv(2) on a non-blocking socket with [u] unread: up to [size] bytes. *)
Definition firstBytes (size : Z) (u : bytes) : bytes := take (Z.to_nat size) u.
Definition restBytes (size : Z) (u : bytes) : bytes := drop (Z.to_nat size) u.

(** All bytes the peer sends. *)
Definition arrived (l : list Arrival) : bytes :=
  List.concat (map (fun a => match a with SignalIn => [] | Bytes d => d end) l).
Definition stream (k : Kernel) : bytes := unread k ++ arrived (arriving k).

(** What is still to be read arrives at once, or has. *)
Fixpoint atOnce (u : bytes) (l : list Arrival) : Prop :=
  arrived l = [] \/ u = [] /\ match l with
                            | [] => True
                            | SignalIn :: l => atOnce u l
                            | Bytes d :: l => atOnce d l
                            end.
Definition AtOnce (k : Kernel) : Prop := atOnce (unread k) (arriving k).

Lemma atOnce_arrived u l : arrived l = [] -> atOnce u l.
Proof. intros E. destruct l as [|a l]; by left. Qed.

Lemma atOnce_unread u l : u <> [] -> atOnce u l -> arrived l = [].
Proof. intros Hu. destruct l as [|a l]; intros [E|[? _]]; done. Qed.

Section Calls.
Context {P : Type}.

(** Consecutive original calls with the same arguments, up to the first whose
    answer is not [EINTR] or [EAGAIN]: their answers with [errno]; for each
    [EAGAIN] what wakes the coroutine; and what the last one has done.
    [woken] is the poller the coroutine finds, by the length of what is left
    of the script. *)
Record Served (X : Type) := { answers : list (Z * Z); resumes : list (Z * P); outcome : X }.
Arguments answers {X}.
Arguments resumes {X}.
Arguments outcome {X}.
Arguments Build_Served {X}.

Definition answer {X} (a : Z * Z) (r : list (Z * P)) (v : Served X) : Served X :=
  {| answers := a :: answers v; resumes := r ++ resumes v; outcome := outcome v |}.

Context (woken : nat -> P).

(** The outcome: the bytes received, those left, and the arrivals left. *)
Fixpoint recvCalls (size : Z) (u : bytes) (l : list Arrival) : Served (bytes * bytes * list Arrival) :=
  match l with
  | [] =>
      {| answers := [(zlen (firstBytes size u), 0)]; resumes := [];
         outcome := (firstBytes size u, restBytes size u, []) |}
  | SignalIn :: l => answer (-1, EINTR) [] (recvCalls size u l)
  | Bytes d :: l =>
      let u := u ++ d in
      if decide (u = []) then answer (-1, EAGAIN) [(0, woken (length l))] (recvCalls size u l)
      else {| answers := [(zlen (firstBytes size u), 0)]; resumes := [];
              outcome := (firstBytes size u, restBytes size u, l) |}
  end.

(** The outcome: the bytes taken and the room left. *)
Fixpoint sendCalls (buf : bytes) (l : list Room) : Served (bytes * list Room) :=
  match l with
  | [] => {| answers := [(zlen buf, 0)]; resumes := []; outcome := (buf, []) |}
  | SignalOut :: l => answer (-1, EINTR) [] (sendCalls buf l)
  | Space n :: l =>
      if n <=? 0 then answer (-1, EAGAIN) [(0, woken (length l))] (sendCalls buf l)
      else {| answers := [(zlen (firstBytes n buf), 0)]; resumes := [];
              outcome := (firstBytes n buf, l) |}
  end.
(** Reading takes the next bytes of the stream, none only at its end. *)
Lemma recvCalls_spec size u l :
  0 < size -> let '(d, u', l') := outcome (recvCalls size u l) in
  zlen d <= size /\ d ++ u' ++ arrived l' = u ++ arrived l /\ (d = [] -> u ++ arrived l = [])
  /\ (atOnce u l -> d = firstBytes size (u ++ arrived l) /\ arrived l' = []).
Proof.
  intros Hs. revert u. induction l as [|a l IH]; intros u; cbn [recvCalls].
  - cbn [outcome]. split_and!.
    + unfold zlen, firstBytes. rewrite length_take. lia.
    + unfold firstBytes, restBytes. by rewrite !app_assoc, take_drop.
    + intros E. cbn. rewrite app_nil_r. unfold firstBytes in E. destruct u; [done|].
      destruct (Z.to_nat size) eqn:En; [lia|done].
    + intros _. cbn. by rewrite app_nil_r.
  - destruct a as [|d].
    + specialize (IH u). cbn [answer outcome]. destruct (outcome (recvCalls size u l)) as [[d u'] l'].
      destruct IH as (H2 & H3 & H4 & H5). split_and!; try done.
      intros [Ha|[_ Ha]]; apply H5; [by apply atOnce_arrived|done].
    + change (arrived (Bytes d :: l)) with (d ++ arrived l). rewrite app_assoc. case_decide as E.
      * specialize (IH (u ++ d)). rewrite E in *. cbn [answer outcome].
        destruct (outcome (recvCalls size [] l)) as [[d1 u'] l'].
        destruct IH as (H2 & H3 & H4 & H5). split_and!; try done.
        apply app_eq_nil in E as [-> ->]. intros [Ha|[_ Ha]]; apply H5; [by apply atOnce_arrived|done].
      * cbn [outcome]. split_and!.
        -- unfold zlen, firstBytes. rewrite length_take. lia.
        -- unfold firstBytes, restBytes. by rewrite !app_assoc, take_drop.
        -- intros E'. exfalso. apply E. unfold firstBytes in E'. destruct (u ++ d); [done|].
           destruct (Z.to_nat size) eqn:En; [lia|done].
        -- intros Ha. assert (El : arrived l = []); [|by rewrite El, app_nil_r].
           destruct Ha as [Ha|[-> Ha]]; [|by apply (atOnce_unread d)].
           change (d ++ arrived l = []) in Ha. by apply app_eq_nil in Ha as [_ ?].
Qed.

(** Writing takes a beginning of the buffer, all of it if no call takes a part
    only. *)
Lemma sendCalls_spec buf l :
  let '(d, l') := outcome (sendCalls buf l) in
  d = take (length d) buf /\ (Forall delays l -> d = buf /\ l' = []).
Proof.
  induction l as [|a l IH]; cbn [sendCalls].
  - cbn [outcome]. by rewrite firstn_all.
  - destruct a as [|n]; [|destruct (Z.leb_spec n 0) as [Hle|Hlt]]; cbn [answer outcome].
    1, 2: destruct (outcome (sendCalls buf l)) as [d l']; destruct IH as (H2 & H3); split; [done|];
      by intros [_ Hq]%Forall_cons; apply H3.
    split; [|intros [Hn _]%Forall_cons; cbn in Hn; lia]. unfold firstBytes. rewrite length_take.
    destruct (Nat.min_spec (Z.to_nat n) (length buf)) as [[_ ->]|[? ->]]; [done|].
    by rewrite firstn_all, take_ge.
Qed.
End Calls.

Arguments answers {P X}.
Arguments resumes {P X}.
Arguments outcome {P X}.

(** ** A kernel and a sequence of pieces *)

Definition received (u : bytes) (l : list Arrival) (k : Kernel) : Kernel :=
  {| unread := u; arriving := l; space := space k; sent := sent k |}.
Definition accepted (d : bytes) (l : list Room) (k : Kernel) : Kernel :=
  {| unread := unread k; arriving := arriving k; space := l; sent := sent k ++ d |}.

(** [s] brings the bytes that the peer sends, in some pieces. *)
Record Met (k : Kernel) (s : Sock) : Prop := {
  mt_in : List.concat (incoming s) = stream k;
  mt_once : AtOnce k -> incoming s = inOneRead (stream k);
  mt_pieces : Forall (fun d => d <> []) (incoming s);
  mt_out : outgoing s = sent k;
  mt_room : Forall delays (space k) -> SocketStream.accepts s = []
}.

Lemma met_exists b k : exists s, Met k s /\ connected s = b.
Proof.
  exists {| connected := b; incoming := inOneRead (stream k); SocketStream.accepts := []; outgoing := sent k |}.
  split; [|done]. split; cbn; try done; [apply concat_inOneRead|apply inOneRead_pieces].
Qed.

Lemma met_connected b k s : Met k s -> Met k (setConnected b s).
Proof. by intros []. Qed.

#[local] Instance atOnce_dec u l : Decision (atOnce u l).
Proof. revert u. induction l as [|[|d] l IH]; intros u; cbn [atOnce]; apply _. Defined.

Lemma recv_inOneRead size x d s :
  0 < size -> connected s = true -> d = firstBytes size (d ++ x) -> incoming s = inOneRead x ->
  SocketStream.recv size (setIncoming (inOneRead (d ++ x)) s) = (Ok (zlen d, d), s).
Proof.
  intros Hs Hc Hd Hi. rewrite inOneRead_decide in *. unfold SocketStream.recv. cbn [connected incoming setIncoming]. rewrite Hc.
  unfold firstBytes in Hd. destruct (decide (d ++ x = [])) as [En|En].
  - apply app_eq_nil in En as [-> ->]. rewrite decide_True in Hi by done. destruct s. cbn in *. by subst.
  - assert (Hr : drop (Z.to_nat size) (d ++ x) = x) by (apply (app_inv_head d); rewrite Hd at 1; apply take_drop).
    destruct (Z.leb_spec (zlen (d ++ x)) size) as [El|El].
    + unfold zlen in El. rewrite take_ge in Hd by lia.
      assert (x = []) as ->; [|rewrite app_nil_r; rewrite decide_True in Hi by done; destruct s; cbn in *; by subst].
      apply (app_inv_head d). by rewrite <- Hd, app_nil_r.
    + rewrite <- Hd, Hr. rewrite decide_False in Hi; [destruct s; cbn in *; by subst|].
      intros ->. rewrite app_nil_r in El, Hd. unfold zlen in El. rewrite Hd, length_take in El. lia.
Qed.

(** Each call of the kernel is one on the pieces. *)
Lemma recv_met {P} (woken : nat -> P) size k d u l s' :
  0 < size -> outcome (recvCalls woken size (unread k) (arriving k)) = (d, u, l) ->
  connected s' = true -> Met (received u l k) s' ->
  exists s, connected s = true /\ Met k s /\ SocketStream.recv size s = (Ok (zlen d, d), s').
Proof.
  intros Hs Eo Hcs [Hin Honce Hpc Hout Hroom]. pose proof (recvCalls_spec woken size (unread k) (arriving k) Hs) as Hv.
  rewrite Eo in Hv. destruct Hv as (Hd & Hst & Hnil & Hone).
  change (d ++ stream (received u l k) = stream k) in Hst. change (d = [] -> stream k = []) in Hnil.
  change (AtOnce k -> d = firstBytes size (stream k) /\ arrived l = []) in Hone.
  destruct (decide (atOnce (unread k) (arriving k))) as [Ha|Hna]; [|destruct (decide (d = [])) as [->|Hne]].
  - destruct (Hone Ha) as [Hfb Ha']. specialize (Honce (atOnce_arrived _ _ Ha')).
    exists (setIncoming (inOneRead (stream k)) s'). split; [done|]. split.
    + split; cbn; try done; [apply concat_inOneRead|apply inOneRead_pieces].
    + rewrite <- Hst. apply recv_inOneRead; [lia|done| |done]. by rewrite Hst.
  - specialize (Hnil eq_refl). cbn [app] in Hst.
    assert (Hi : incoming s' = []).
    { rewrite Hst, Hnil in Hin. destruct (incoming s') as [|d l']; [done|]. cbn in Hin.
      apply Forall_cons in Hpc as [Hd0 _]. by destruct d. }
    exists s'. split; [done|]. split; [by split; rewrite <- ?Hst|].
    unfold SocketStream.recv. by rewrite Hcs, Hi.
  - exists (setIncoming (d :: incoming s') s'). split; [done|]. split.
    + split; cbn; try done; [by rewrite Hin|by constructor].
    + unfold SocketStream.recv. cbn [connected incoming setIncoming].
      rewrite Hcs, (proj2 (Z.leb_le _ _)) by lia. by destruct s'.
Qed.

Lemma send_met {P} (woken : nat -> P) buf k d l s' :
  outcome (sendCalls woken buf (space k)) = (d, l) -> connected s' = true -> Met (accepted d l k) s' ->
  exists s, connected s = true /\ Met k s /\ SocketStream.send buf s = (Ok (zlen d), s').
Proof.
  intros Eo Hcs [Hin Honce Hpc Hout Hroom]. pose proof (sendCalls_spec woken buf (space k)) as Hv.
  rewrite Eo in Hv. destruct Hv as (Hd & Hq). cbn [accepted sent space] in *.
  destruct (decide (Forall delays (space k))) as [Hsp|Hsp].
  - destruct (Hq Hsp) as [-> ->]. specialize (Hroom (Forall_nil_2 _)).
    exists (setSent [] (sent k) s'). split; [done|]. split; [by split|].
    unfold SocketStream.send. cbn [connected SocketStream.accepts outgoing setSent].
    rewrite Hcs, <- Hout. destruct s'. cbn in *. by subst.
  - exists (setSent (zlen d :: SocketStream.accepts s') (sent k) s'). split; [done|]. split; [by split|].
    unfold SocketStream.send. cbn [connected SocketStream.accepts outgoing setSent].
    rewrite Hcs, (proj2 (Z.ltb_ge _ _)) by apply zlen_nonneg.
    assert (Ed : take (Z.to_nat (zlen d)) buf = d) by (unfold zlen; rewrite Nat2Z.id; by rewrite <- Hd).
    rewrite Ed, <- Hout. by destruct s'.
Qed.

Section Wire.
Context {W C F KE KS A : Type} `{Epoll KE} `{Sys KS}.

Abbreviation Poller := (Epoller (W := W) (C := C) (F := F) (K := KE)).
Abbreviation Os := (St (W := W) (C := C) (F := F) (KE := KE) (K := KS)).
Abbreviation World := (Socket.World (W := W) (C := C) (F := F) (KE := KE) (K := KS) (A := A)).

Context (wokenIn wokenOut : nat -> Poller).

(** ** A connection over hooked calls *)

Record Hooked := { world : World; kern : Kernel }.

(** What the original calls of the next hooked call answer, and what wakes it. *)
Definition script {X} (v : Served (P := Poller) X) (w : World) : World :=
  setOs (setWakes (resumes v) (setCalls (answers v) (os w))) w.

(** [Socket::recv] and the bytes in the buffer. *)
Definition recvHooked (size : Z) : M Hooked (Z * bytes) := fun h =>
  if isConnected (sock (world h)) then
    let v := recvCalls wokenIn size (unread (kern h)) (arriving (kern h)) in
    let '(d, u, l) := outcome v in
    match Socket.recv (script v (world h)) with
    | (Ok n, w) => (Ok (n, d), {| world := w; kern := received u l (kern h) |})
    | (Throw e, w) => (Throw e, {| world := w; kern := kern h |})
    end
  else
    match Socket.recv (world h) with
    | (Ok n, w) => (Ok (n, []), {| world := w; kern := kern h |})
    | (Throw e, w) => (Throw e, {| world := w; kern := kern h |})
    end.

(** [Socket::send]. *)
Definition sendHooked (buf : bytes) : M Hooked Z := fun h =>
  if isConnected (sock (world h)) then
    let v := sendCalls wokenOut buf (space (kern h)) in
    let '(d, l) := outcome v in
    match Socket.send (script v (world h)) with
    | (Ok n, w) => (Ok n, {| world := w; kern := accepted d l (kern h) |})
    | (Throw e, w) => (Throw e, {| world := w; kern := kern h |})
    end
  else
    match Socket.send (world h) with
    | (Ok n, w) => (Ok n, {| world := w; kern := kern h |})
    | (Throw e, w) => (Throw e, {| world := w; kern := kern h |})
    end.

(** [Socket::close]; the original [close] succeeds. *)
Definition closeHooked : M Hooked unit := fun h =>
  match Socket.close (script {| answers := [(0, 0)]; resumes := []; outcome := tt |} (world h)) with
  | (Ok _, w) => (Ok tt, {| world := w; kern := kern h |})
  | (Throw e, w) => (Throw e, {| world := w; kern := kern h |})
  end.

#[export] Instance connHooked : SocketStream.Conn Hooked :=
  {| recvOn := recvHooked; sendOn := sendHooked; connectedOn h := isConnected (sock (world h));
     closeOn := closeHooked; toCome h := zlen (stream (kern h)) |}.

(** ** The calls *)

Context (fd : Z) (Hfd : 2 <= fd < 2 ^ 31) (Hk : forall k : KE, accepts k fd).

(** Nobody waits on the descriptor: so it is whenever its coroutine runs. *)
Record Free (p : Poller) : Prop := {
  fr_inv : Inv p;
  fr_none : forall type, is_type type -> registered p fd type = None
}.

Context (HwokenIn : forall i, Free (wokenIn i)) (HwokenOut : forall i, Free (wokenOut i)).

(** An open connection whose descriptor blocks for its user. *)
Record Opened (w : World) : Prop := {
  op_fd : sockfd_ (sock w) = fd;
  op_state : state_ (sock w) = SConnected;
  op_blocking : exists c, Blocking (os w) fd c;
  op_free : Free (poller (os w))
}.

Lemma free_registers (s : Os) type p : is_type type -> Free p -> registers s fd type p.
Proof using Hfd Hk.
  intros Ht [Hi Hn].
  assert (Hok : regop_ok p (RAdd (self s) (cur s) fd type None)) by (split; [lia|]; split; [done|left; lia]).
  destruct (add_spec p (self s) (cur s) fd type None Hi Hok) as (ok & p' & E & _). cbn [run_regop] in E.
  exists p'. rewrite E. pose proof (add_progress _ _ _ _ _ _ _ _ Hi Hok (Hk _) E) as Ho.
  rewrite (Hn type Ht) in Ho. by rewrite Ho.
Qed.

Lemma free_all (s : Os) type p (rs : list (nat * Poller)) :
  is_type type -> Free p -> Forall (fun r => Free r.2) rs ->
  registersAll s fd type p rs /\ Free (lastPoller p rs).
Proof using Hfd Hk.
  intros Ht Hp Hrs. revert p Hp. induction Hrs as [|r rs Hr _ IH]; intros p Hp; cbn; [done|].
  destruct (IH r.2 Hr) as [H1 H2]. split; [|done]. split; [by apply free_registers|done].
Qed.
(** The answers up to the final one are rounds that suspend, then
    interruptions. *)
Record InRounds {X} (v : Served (P := Poller) X) (n : Z) : Prop := {
  ir_split : exists rs i, answers v = roundCalls rs ++ interrupted i ++ [(n, 0)]
    /\ resumes v = roundWakes rs /\ Forall (fun r => Free r.2) rs
}.

Lemma in_rounds_final {X} n (x : X) : InRounds {| answers := [(n, 0)]; resumes := []; outcome := x |} n.
Proof using Type. split. exists [], 0%nat. by split_and!. Qed.

Lemma in_rounds_signal {X} (v : Served X) n : InRounds v n -> InRounds (answer (-1, EINTR) [] v) n.
Proof using Type.
  intros [([|[j q] rs] & i & Ha & Hr & Hf)]; split.
  - exists [], (S i). cbn [answer answers resumes app]. by rewrite Ha.
  - exists ((S j, q) :: rs), i. cbn [answer answers resumes app]. split; [by rewrite Ha|]. split; [done|].
    by apply Forall_cons in Hf as [? ?]; constructor.
Qed.

Lemma in_rounds_again {X} (v : Served X) n p :
  Free p -> InRounds v n -> InRounds (answer (-1, EAGAIN) [(0, p)] v) n.
Proof using Type.
  intros Hp [(rs & i & Ha & Hr & Hf)]. split. exists ((0%nat, p) :: rs), i. cbn [answer answers resumes app].
  split; [by rewrite Ha|]. split; [by rewrite Hr|by constructor].
Qed.

Lemma recvCalls_rounds size u l :
  let v := recvCalls wokenIn size u l in InRounds v (zlen (fst (fst (outcome v)))).
Proof using HwokenIn.
  revert u. induction l as [|[|d] l IH]; intros u; cbn [recvCalls]; [apply in_rounds_final|by apply in_rounds_signal|].
  case_decide; [by apply in_rounds_again|apply in_rounds_final].
Qed.

Lemma sendCalls_rounds buf l :
  let v := sendCalls wokenOut buf l in InRounds v (zlen (fst (outcome v))).
Proof using HwokenOut.
  induction l as [|[|n] l IH]; cbn [sendCalls]; [apply in_rounds_final|by apply in_rounds_signal|].
  destruct (n <=? 0); [by apply in_rounds_again|apply in_rounds_final].
Qed.

(** A hooked call on an open connection returns the final answer, and the
    connection is as it was. *)
Lemma io_run {X} (v : Served X) n type opt w :
  is_type type -> Opened w -> InRounds v n -> 0 <= n < 2 ^ 31 ->
  exists w', io (fun fd => do_io fd type opt) (script v w) = (Ok n, w') /\ Opened w'.
Proof using Hfd Hk.
  intros Ht [Hof Hos [c Hc] Hp] [(rs & i & Ha & Hr & Hf)] Hn.
  set (s := setWakes (resumes v) (setCalls (answers v) (os w))).
  assert (Hb : Blocking s fd c) by (destruct Hc; by split).
  destruct (free_all s type (poller s) rs Ht Hp Hf) as [Hreg Hlast].
  destruct (answers_run s fd c type opt rs i n 0 [] [] Hb) as (s' & E & Haf & Hcl & Hw & _ & Hpo); try done.
  { unfold s. cbn. by rewrite Hr, app_nil_r. } { intros [? _]. lia. }
  exists (setOs s' w). split.
  - unfold io. rewrite bind_gets. change (sock (script v w)) with (sock w). unfold isConnected.
    rewrite Hos, bool_decide_true, Hof by done.
    assert (Eo : onOs (do_io fd type opt) (script v w) = (Ok n, setOs s' (script v w))).
    { unfold onOs, zoom. change (os (script v w)) with s. by rewrite E. }
    rewrite (bind_ok _ _ _ _ _ Eo). unfold ret. by rewrite swrap_small by lia.
  - destruct Haf, Hb. split; cbn; try done.
    + exists c. split; try done; congruence.
    + by rewrite Hpo.
Qed.

Lemma recv_opened size h :
  0 < size < 2 ^ 31 -> Opened (world h) ->
  let '(d, u, l) := outcome (recvCalls wokenIn size (unread (kern h)) (arriving (kern h))) in
  exists w, recvOn size h = (Ok (zlen d, d), {| world := w; kern := received u l (kern h) |}) /\ Opened w.
Proof using Hfd Hk HwokenIn.
  intros Hs Hop. pose proof (recvCalls_spec wokenIn size (unread (kern h)) (arriving (kern h)) ltac:(lia)) as Hv.
  pose proof (recvCalls_rounds size (unread (kern h)) (arriving (kern h))) as Hir. cbv zeta in Hir.
  cbn [recvOn connHooked]. unfold recvHooked, isConnected. rewrite (op_state _ Hop), bool_decide_true by done.
  set (v := recvCalls _ _ _ _) in *. destruct (outcome v) as [[d u] l]. destruct Hv as (Hd & _). cbn [fst] in Hir.
  pose proof (zlen_nonneg d).
  destruct (io_run v (zlen d) EPOLLIN SO_RCVTIMEO (world h)) as (w' & E & Hop'); [by left|done..|lia|].
  change (Socket.recv (script v (world h)) = (Ok (zlen d), w')) in E. rewrite E. by exists w'.
Qed.

Lemma send_opened buf h :
  zlen buf < 2 ^ 31 -> Opened (world h) ->
  let '(d, l) := outcome (sendCalls wokenOut buf (space (kern h))) in
  exists w, sendOn buf h = (Ok (zlen d), {| world := w; kern := accepted d l (kern h) |}) /\ Opened w.
Proof using Hfd Hk HwokenOut.
  intros Hs Hop. pose proof (sendCalls_spec wokenOut buf (space (kern h))) as Hv.
  pose proof (sendCalls_rounds buf (space (kern h))) as Hir. cbv zeta in Hir.
  cbn [sendOn connHooked]. unfold sendHooked, isConnected. rewrite (op_state _ Hop), bool_decide_true by done.
  set (v := sendCalls _ _ _) in *. destruct (outcome v) as [d l]. destruct Hv as (Hd & _). cbn [fst] in Hir.
  assert (Hz : zlen d <= zlen buf) by (rewrite Hd; unfold zlen; rewrite length_take; lia).
  pose proof (zlen_nonneg d).
  destruct (io_run v (zlen d) EPOLLOUT SO_SNDTIMEO (world h)) as (w' & E & Hop'); [by right|done..|lia|].
  change (Socket.send (script v (world h)) = (Ok (zlen d), w')) in E. rewrite E. by exists w'.
Qed.

(** A closed connection. *)
Definition Closed (w : World) : Prop := sockfd_ (sock w) = -1 /\ state_ (sock w) = SClose.

Lemma close_opened h :
  Opened (world h) -> exists h', closeOn h = (Ok tt, h') /\ Closed (world h') /\ kern h' = kern h.
Proof using Hfd Hk.
  intros [Hof Hos [c []] [Hi _]]. cbn [closeOn connHooked]. unfold closeHooked.
  set (v := {| answers := [(0, 0)]; resumes := []; outcome := tt |}). set (w := script v (world h)).
  destruct (close_run (os w) fd c 0 0 []) as (s' & E & _); [done|lia|done|done|apply Hk|done|].
  assert (Ec : Socket.close w = (Ok true, setSock (withFd (-1) (withState SClose (sock w))) (setOs s' w))).
  { unfold Socket.close. rewrite bind_gets. change (sock w) with (sock (world h)). rewrite Hos, Hof.
    rewrite bool_decide_false by done. cbn [andb].
    assert (Eo : onOs (Hook.close fd) w = (Ok 0, setOs s' w)) by (unfold onOs, zoom; by rewrite E).
    rewrite (bind_ok _ _ _ _ _ Eo). done. }
  rewrite Ec. eexists. split; [done|]. by split.
Qed.

Lemma closed_calls h :
  Closed (world h) ->
  (forall size, recvOn size h = (Ok (-1, []), h)) /\ (forall buf, sendOn buf h = (Ok (-1), h))
  /\ exists h', closeOn h = (Ok tt, h') /\ Closed (world h') /\ kern h' = kern h.
Proof using Type.
  intros [Hf Hs]. destruct h as [w k]. cbn [world] in *.
  assert (Hc : isConnected (sock w) = false) by (unfold isConnected; by rewrite Hs).
  split_and!.
  - intros size. cbn [recvOn connHooked]. unfold recvHooked, Socket.recv, io. cbn [world kern].
    rewrite Hc, bind_gets, Hc. done.
  - intros buf. cbn [sendOn connHooked]. unfold sendHooked, Socket.send, io. cbn [world kern].
    rewrite Hc, bind_gets, Hc. done.
  - cbn [closeOn connHooked]. unfold closeHooked, Socket.close. rewrite bind_gets.
    change (sock (script _ _)) with (sock w). rewrite Hs, Hf, bool_decide_true by done. cbn [andb Z.eqb Pos.eqb].
    eexists. split; [done|]. by split.
Qed.
(** ** The refinement *)

Record Meets (h : Hooked) (s : Sock) : Prop := {
  me_life : Opened (world h) /\ connected s = true \/ Closed (world h) /\ connected s = false;
  me_met : Met (kern h) s
}.

Definition Live (h : Hooked) : Prop := Opened (world h) \/ Closed (world h).

Lemma meets_exists h : Live h -> exists s, Meets h s.
Proof using Type.
  intros [Ho|Hc].
  - destruct (met_exists true (kern h)) as (s & Hm & Hs). exists s. split; [by left|done].
  - destruct (met_exists false (kern h)) as (s & Hm & Hs). exists s. split; [by right|done].
Qed.

Lemma meets_open h s : Opened (world h) -> Meets h s -> connected s = true.
Proof using Type. intros Ho [[[_ ?]|[[_ Hc] _]] _]; [done|by rewrite (op_state _ Ho) in Hc]. Qed.

Lemma meets_closed h s : Closed (world h) -> Meets h s -> connected s = false.
Proof using Type. intros [_ Hc] [[[Ho _]|[_ ?]] _]; [by rewrite (op_state _ Ho) in Hc|done]. Qed.

Lemma meets_connected h s : Meets h s -> connectedOn h = connectedOn s.
Proof using Type.
  intros [[[Ho Hs]|[[Hf Hc] Hs]] _]; cbn [connectedOn connHooked connSock].
  - unfold isConnected, SocketStream.isConnected. by rewrite Hs, (op_state _ Ho).
  - unfold isConnected, SocketStream.isConnected. by rewrite Hs, Hc.
Qed.

Lemma meets_toCome h s : Meets h s -> toCome h = toCome s.
Proof using Type. intros [_ []]. cbn [toCome connHooked connSock]. unfold pending. by rewrite mt_in0. Qed.

(** [m] comes to an end, and to every sequence of pieces that its end meets
    leads a run of [n] with the same result, from one that its beginning
    meets. *)
Definition follows {X} (m : M Hooked X) (n : M Sock X) : Prop :=
  forall h, Live h -> exists x h', m h = (Ok x, h') /\ Live h'
    /\ forall s', Meets h' s' -> exists s, Meets h s /\ n s = (Ok x, s').

Lemma follows_ret {X} (x : X) : follows (ret x) (ret x).
Proof using Type. intros h Hl. exists x, h. split; [done|]. split; [done|]. intros s Hs. by exists s. Qed.

Lemma follows_gets {X} (f : Hooked -> X) (g : Sock -> X) :
  (forall h s, Meets h s -> f h = g s) -> follows (gets f) (gets g).
Proof using Type.
  intros Hfg h Hl. exists (f h), h. split; [done|]. split; [done|]. intros s Hs. exists s.
  split; [done|]. unfold gets. by rewrite (Hfg h s Hs).
Qed.

Lemma follows_bind {X Y} (m : M Hooked X) (n : M Sock X) (k : X -> M Hooked Y) (l : X -> M Sock Y) :
  follows m n -> (forall x, follows (k x) (l x)) -> follows (bind m k) (bind n l).
Proof using Type.
  intros Hm Hkl h Hl. destruct (Hm h Hl) as (x & h1 & E & Hl1 & Hb1).
  destruct (Hkl x h1 Hl1) as (y & h2 & E2 & Hl2 & Hb2). exists y, h2.
  rewrite (bind_ok _ _ _ _ _ E). split; [done|]. split; [done|]. intros s2 Hs2.
  destruct (Hb2 s2 Hs2) as (s1 & Hs1 & F2). destruct (Hb1 s1 Hs1) as (s & Hs & F1).
  exists s. by rewrite (bind_ok _ _ _ _ _ F1).
Qed.

Lemma recv_follows size : 0 < size < 2 ^ 31 -> follows (recvOn size) (recvOn size).
Proof using Hfd Hk HwokenIn.
  intros Hs h [Ho|Hc].
  - pose proof (recv_opened size h Hs Ho) as Hr.
    destruct (outcome (recvCalls wokenIn size (unread (kern h)) (arriving (kern h)))) as [[d u] l] eqn:Eo.
    destruct Hr as (w & E & Ho'). eexists (zlen d, d), _. split; [exact E|]. split; [by left|]. intros s' Hm.
    destruct (recv_met wokenIn size (kern h) d u l s') as (s & Hcs & Hms & Er);
      [lia|done|by apply (fun Ho => meets_open _ s' Ho Hm)|by destruct Hm|].
    exists s. split; [|done]. split; [by left|done].
  - destruct (closed_calls h Hc) as (Hr & _ & _). exists (-1, []), h. split; [apply Hr|]. split; [by right|].
    intros s' Hm. exists s'. split; [done|]. cbn [recvOn connSock]. unfold SocketStream.recv.
    by rewrite (meets_closed h s' Hc Hm).
Qed.

Lemma send_follows buf : zlen buf < 2 ^ 31 -> follows (sendOn buf) (sendOn buf).
Proof using Hfd Hk HwokenOut.
  intros Hs h [Ho|Hc].
  - pose proof (send_opened buf h Hs Ho) as Hr.
    destruct (outcome (sendCalls wokenOut buf (space (kern h)))) as [d l] eqn:Eo.
    destruct Hr as (w & E & Ho'). eexists (zlen d), _. split; [exact E|]. split; [by left|]. intros s' Hm.
    destruct (send_met wokenOut buf (kern h) d l s') as (s & Hcs & Hms & Er);
      [done|by apply (fun Ho => meets_open _ s' Ho Hm)|by destruct Hm|].
    exists s. split; [|done]. split; [by left|done].
  - destruct (closed_calls h Hc) as (_ & Hr & _). exists (-1), h. split; [apply Hr|]. split; [by right|].
    intros s' Hm. exists s'. split; [done|]. cbn [sendOn connSock]. unfold SocketStream.send.
    by rewrite (meets_closed h s' Hc Hm).
Qed.

Lemma close_follows : follows closeOn closeOn.
Proof using Hfd Hk.
  intros h Hl.
  assert (Hex : exists h', closeOn h = (Ok tt, h') /\ Closed (world h') /\ kern h' = kern h).
  { destruct Hl as [Ho|Hc]; [by apply close_opened|by apply (closed_calls h Hc)]. }
  destruct Hex as (h' & E & Hc' & Hkn). exists tt, h'. split; [done|]. split; [by right|].
  intros s' Hm. pose proof (meets_closed h' s' Hc' Hm) as Hcs. destruct Hm as [_ Hm]. rewrite Hkn in Hm.
  destruct Hl as [Ho|Hc].
  - exists (setConnected true s'). split; [split; [by left|by apply met_connected]|]. destruct s'. cbn in *. by subst.
  - exists s'. split; [split; [by right|done]|]. destruct s'. cbn in *. by subst.
Qed.

(** A program over a connection, whatever it is. *)
Lemma run_follows {X} (c : Talk X) : fits c -> follows (run c) (run c).
Proof using Hfd Hk HwokenIn HwokenOut.
  induction c as [x|size k IH|buf k IH|k IH|k IH|k IH]; cbn [run fits]; intros Hf.
  - apply follows_ret.
  - destruct Hf as [Hs Hf]. apply follows_bind; [by apply recv_follows|]. intros a. by apply IH.
  - destruct Hf as [Hs Hf]. apply follows_bind; [by apply send_follows|]. intros a. by apply IH.
  - apply follows_bind; [apply follows_gets, meets_connected|]. intros a. by apply IH.
  - apply follows_bind; [by apply close_follows|]. intros a. by apply IH.
  - apply follows_bind; [apply follows_gets, meets_toCome|]. intros a. by apply IH.
Qed.
End Wire.
