(* ===== verification/OverHooks.v ===== *)
(** * Servers over hooked calls (src/reyao: http/*, rpc/*, socket_stream.cc, socket.cc, hook.cc together)

    The programs of HttpParser.v, HttpServlet.v and Codec.v are written against
    [Conn].  Here they run over the hooked connection of Wire.v: each is one of
    their runs on a sequence of pieces, so what is known of those holds of the
    server whose [recv] and [send] suspend its coroutine. *)

From S2P Require Import Prelude Endian ByteArray SocketStream Epoller Hook Socket HttpMessage HttpParser HttpRoundTrip HttpServlet Codec Talk Wire.
Import Request (HttpRequest, newRequest).
Import Response (HttpResponse, newResponse).

(** ** From end to end *)

Section EndToEnd.
Context {W C F KE KS A : Type} `{Epoll KE} `{Sys KS}.

Abbreviation Poller := (Epoller (W := W) (C := C) (F := F) (K := KE)).
Abbreviation Hooked := (Wire.Hooked (W := W) (C := C) (F := F) (KE := KE) (KS := KS) (A := A)).

(** A party of a connection: its descriptor, and the pollers that its coroutine
    finds when it is woken. *)
Record Party := { party_fd : Z; wokenIn : nat -> Poller; wokenOut : nat -> Poller }.

Record Able (p : Party) : Prop := {
  ab_fd : 2 <= party_fd p < 2 ^ 31;
  ab_keys : forall k : KE, accepts k (party_fd p);
  ab_in : forall i, Free (party_fd p) (wokenIn p i);
  ab_out : forall i, Free (party_fd p) (wokenOut p i)
}.

Definition connOf (p : Party) : SocketStream.Conn Hooked := connHooked (wokenIn p) (wokenOut p).

(** A new connection, on which nothing was sent and no [send] will take a part
    only. *)
Record Ready (p : Party) (h : Hooked) : Prop := {
  re_open : Opened (party_fd p) (world h);
  re_room : Forall delays (space (kern h));
  re_sent : sent (kern h) = []
}.

(** The pieces that an open connection meets. *)
Lemma meets_opened fd (h : Hooked) s :
  Opened fd (world h) -> Meets fd h s -> flowing s /\ List.concat (incoming s) = stream (kern h).
Proof using Type. intros Ho Hm. pose proof (meets_open fd h s Ho Hm). by destruct Hm as [_ []]. Qed.

(** A tree on an open connection. *)
Lemma says_over (p : Party) {X T} (m : forall K, SocketStream.Conn K -> M (K * T) X) h t :
  Able p -> Opened (party_fd p) (world h) -> Says m ->
  exists s r h' s' t', Meets (party_fd p) h s /\ m _ (connOf p) (h, t) = (r, (h', t')) /\ m _ connSock (s, t) = (r, (s', t'))
    /\ Live (party_fd p) h' /\ Meets (party_fd p) h' s'.
Proof using Type.
  intros [Hf Hk Hi Ho] Hop [c [Hfit Hc]].
  destruct (run_follows (wokenIn p) (wokenOut p) (party_fd p) Hf Hk Hi Ho (c t) (Hfit t) h (or_introl Hop))
    as ([r t'] & h' & E & Hl' & Hb).
  destruct (meets_exists _ h' Hl') as [s' Hs']. destruct (Hb s' Hs') as (s & Hs & E').
  exists s, r, h', s', t'. split; [done|]. split; [by apply Hc|]. split; [by apply Hc|]. done.
Qed.

(** A program on a new connection does what it does on some pieces of the
    bytes that come. *)
Lemma run_over (p : Party) {X} (m : forall K, SocketStream.Conn K -> M K X) h :
  Able p -> Ready p h -> Says (fun K H => alone (m K H)) ->
  exists s r h' s', m _ (connOf p) h = (r, h') /\ m _ connSock s = (r, s')
    /\ flowing s /\ List.concat (incoming s) = stream (kern h) /\ SocketStream.accepts s = [] /\ outgoing s = []
    /\ (AtOnce (kern h) -> incoming s = inOneRead (stream (kern h)))
    /\ outgoing s' = sent (kern h') /\ (connected s' = false -> Closed (world h')).
Proof using Type.
  intros Hp [Ho Hr Hse] Hm. destruct (says_over p _ h tt Hp Ho Hm) as (s & r & h' & s' & [] & Hs & E & E' & _ & Hs').
  exists s, r, h', s'. destruct (meets_opened _ h s Ho Hs) as [Hfl Hin]. destruct Hs as [_ [_ Hon _ Hout Hroom]].
  unfold alone, zoom in E, E'. cbn [fst snd] in E, E'.
  split; [by destruct (m _ (connOf p) h); injection E as -> ->|].
  split; [by destruct (m _ connSock s); injection E' as -> ->|].
  rewrite Hse in Hout. split_and!; try done; [by apply Hroom|apply (mt_out _ _ (me_met _ _ _ Hs'))|].
  intros Hd. destruct (me_life _ _ _ Hs') as [[_ ?]|[? _]]; [congruence|done].
Qed.

(** C5: HTTP over hooked calls, from end to end.  The server's and the client's
    sockets are non-blocking for the kernel; every [recv] and [send] may be
    interrupted and may suspend the coroutine any number of times, and the
    bytes arrive in any pieces.  The client has sent one well-formed request
    and nothing else, each response of the servlets is smaller than 2^31 bytes,
    and no [send] of the server takes a part of what it is given ([Ready];
    [sendResponse] would not send the rest, see [short_send_cuts]).  Then the
    server parses the request, sends the response of its servlet and closes,
    and the client parses that response. *)
Theorem http_over_hooks (p q : Party) fnmatch k d req h :
  Able p -> Able q -> sizesFit k d fnmatch -> request_ok req ->
  Ready p h -> stream (kern h) = Request.dump req -> zlen (Request.dump req) <= 2 ^ 60 ->
  let rsp := respond fnmatch k d (markKeepAlive (received_request false req)) in
  response_ok rsp ->
  exists h', HttpServlet.handleClient (H := connOf p) fnmatch k d h = (Ok tt, h') /\ Closed (world h')
    /\ forall g v ka, Opened (party_fd q) (world g) -> stream (kern g) = sent (kern h') ->
         exists g' x, ResponseParser.parseResponse (H := connOf q) (ResponseParser.newParser g (newResponse v ka)) = (Ok true, (g', x))
           /\ msg_ x = received_response ka rsp.
Proof using Type.
  intros Hp Hq Hsz Hreq Hrd Hst Hlen rsp Hrsp.
  assert (Hr : zlen (Response.dump rsp) <= 2 ^ 60)
    by (pose proof (Hsz (markKeepAlive (received_request false req))); fold rsp in H1; lia).
  destruct (run_over p _ h Hp Hrd (says_handleHttp fnmatch k d Hsz))
    as (s & r & h' & s' & E & E' & Hfl & Hin & Hac & Hou & _ & Hout & Hcl).
  rewrite Hst in Hin.
  destruct (exchange_run fnmatch k d req s Hreq Hfl Hin Hlen Hac Hou Hrsp Hr) as (s1 & E1 & Hc1 & Hcli).
  rewrite E' in E1. injection E1 as -> ->. exists h'. split; [done|]. split; [by apply Hcl|].
  intros g v ka Hg Hgs.
  destruct (says_over q _ g (newByteArray kInitSize, newCore (newResponse v ka)) Hq Hg
    (says_parse (R := HttpResponse) (B := ByteArray) ltac:(done))) as (c & r & g' & c' & [b x] & Hm & Eg & Ec & _ & _).
  destruct (meets_opened _ g c Hg Hm) as [Hflc Hinc].
  destruct (Hcli c v ka Hflc) as ([c1 b1] & y & Ey & Hy); [by rewrite Hinc, Hgs, Hout|].
  unfold ResponseParser.parseResponse, ResponseParser.newParser, flat in *. cbn [fst snd] in *.
  rewrite Ey in Ec. cbn [fst snd] in Ec. injection Ec as <- <- <- <-.
  destruct (HttpParser.parse _) as [r [[g1 b2] x1]] in Eg |- *. injection Eg as -> <- <- <-.
  by exists (g1, b2), x1.
Qed.

(** Whatever the peer sends, when no [send] takes a part only: the HTTP server
    always comes to an end, having answered in their order the requests that it
    reads off some pieces of the stream, and has closed. *)
Theorem http_serves_over_hooks (p : Party) fnmatch k d h :
  Able p -> sizesFit k d fnmatch -> Ready p h -> zlen (stream (kern h)) <= 2 ^ 60 ->
  exists s reqs r h', HttpServlet.handleClient (H := connOf p) fnmatch k d h = (r, h')
    /\ flowing s /\ List.concat (incoming s) = stream (kern h) /\ served fnmatch k d s reqs r
    /\ sent (kern h') = responses fnmatch k d reqs /\ Closed (world h').
Proof using Type.
  intros Hp Hsz Hrd Hlen.
  destruct (run_over p _ h Hp Hrd (says_handleHttp fnmatch k d Hsz))
    as (s & r & h' & s' & E & E' & Hfl & Hin & Hac & Hou & _ & Hout & Hcl).
  destruct (serves_run fnmatch k d s Hfl Hac) as (reqs & r1 & s1 & E1 & Hs1 & Ho1 & Hc1 & _); [by unfold pending; rewrite Hin|].
  rewrite E' in E1. injection E1 as <- <-. exists s, reqs, r, h'. rewrite <- Hout, Ho1, Hou. split_and!; try done. by apply Hcl.
Qed.

(** C6: RPC over hooked calls, from end to end.  Both sockets are non-blocking
    for the kernel, and every [recv] and [send] may be interrupted and may
    suspend the coroutine any number of times.  The host is little-endian; the
    frames of the request and of the response have 11 to 4096 bytes, length
    field included, and types both sides know ([receivable]); each arrives at once ([AtOnce]; a frame that arrives in two reads is
    rejected, see [split_frame_rejected]), and no [send] takes a part of a
    frame ([Ready]).  Then the client's [Call] returns what the handler at the
    server made of the request, or nothing without a handler, and both sides
    have closed. *)
Theorem rpc_over_hooks `{Host} {Msg Desc : Type} `{Protobuf Msg Desc} `{Countable Desc}
    (p q : Party) (handlers : handlerMap) (req : Msg) h :
  BYTE_ORDER = LITTLE_ENDIAN -> Able p -> Able q -> receivable req ->
  (forall d f msg, handlers !! d = Some f -> Codec.fits (f msg)) ->
  (forall f, handlers !! GetDescriptor req = Some f -> receivable (f req)) ->
  Ready p h -> AtOnce (kern h) -> stream (kern h) = frame req ->
  exists h', Codec.handleClient (H1 := connOf p) handlers h = (Ok tt, h') /\ Closed (world h')
    /\ forall g, Ready q g -> AtOnce (kern g) -> stream (kern g) = sent (kern h') ->
         exists g', Call (H1 := connOf q) req g = (Ok (option_map (fun f => f req) (handlers !! GetDescriptor req)), g')
           /\ sent (kern g') = frame req /\ Closed (world g').
Proof using Type.
  intros Hle Hp Hq Hreq Hfit Hh Hrd Hone Hst.
  destruct (run_over p _ h Hp Hrd (says_handleRpc Hle handlers Hfit))
    as (s & r & h' & s' & E & E' & Hfl & Hin & Hac & Hou & Hs1 & Hout & Hcl).
  specialize (Hs1 Hone). rewrite Hst in Hs1.
  destruct (rpc_run handlers req s Hle Hreq) as (s1 & E1 & Hc1 & Hcall);
    [done|apply Hfl|done..|].
  rewrite E' in E1. injection E1 as -> ->. exists h'. split; [done|]. split; [by apply Hcl|].
  intros g Hg Hgone Hgs.
  destruct (run_over q _ g Hq Hg (says_call Hle req (receivable_fits _ Hreq)))
    as (c & r & g' & c' & Eg & Ec & Hflc & Hinc & Hacc & Houc & Hc & Houtc & Hclc).
  specialize (Hc Hgone). rewrite Hgs, <- Hout in Hc.
  destruct (Hcall c) as (c1 & Ec1 & Ho & Hcc); [apply Hflc|done..|].
  rewrite Ec in Ec1. injection Ec1 as -> ->. exists g'. split; [done|]. rewrite <- Houtc. split; [done|by apply Hclc].
Qed.
End EndToEnd.

(** ** Witnesses *)

Definition demoParty : Party (W := nat) (C := nat) (F := nat) (KE := gmap Z Z) :=
  {| party_fd := 3; wokenIn := fun _ => newPoller; wokenOut := fun _ => newPoller |}.

Lemma new_free : Free 3 newPoller.
Proof. split; [apply new_inv|]. by intros type [-> | ->]. Qed.

Lemma demo_able : Able demoParty.
Proof. split; cbn [party_fd wokenIn wokenOut demoParty]; [lia|intros k; apply map_accepts|intros _; apply new_free..]. Qed.

(** A connected socket on descriptor 3, before the bytes [d] arrive: there is
    nothing at first, then a signal; and a signal and a full buffer before
    there is room. *)
Definition demoHooked (l : list bytes) : Hooked (A := string) :=
  {| world := mkWorld (mkSocket AF_INET SOCK_STREAM 0 3 SConnected None None) (demoOs []) [] [];
     kern := {| unread := []; arriving := Bytes [] :: SignalIn :: map Bytes l; space := [SignalOut; Space 0]; sent := [] |} |}.

Lemma demo_ready l : Ready demoParty (demoHooked l).
Proof.
  split; [|by repeat constructor|done].
  split; [done|done|exists demoCtx; by split|apply new_free].
Qed.

(** The sizes of all responses of a servlet that does not look at the request. *)
Lemma all_versions (f : Z -> bytes) :
  forallb (fun i => zlen (f (Z.of_nat i)) <? 2 ^ 31) (seq 0 256) = true -> forall v, zlen (f (wrap 8 v)) < 2 ^ 31.
Proof.
  intros Hf v. pose proof (wrap_range 8 v ltac:(lia)) as Hv. rewrite forallb_forall in Hf.
  specialize (Hf (Z.to_nat (wrap 8 v))). rewrite Z2Nat.id in Hf by lia. apply Z.ltb_lt, Hf, in_seq. lia.
Qed.

Definition demo_servlets : list Servlet :=
  [(fun _ => Response.setBody (bs "exact")); (fun _ => Response.setBody (bs "glob")); NoFoundServlet (bs "Reyao")].

Lemma demo_match uri : exists s, getMatchServlet demo_fnmatch uri demo_dispatch = Some s /\ In s demo_servlets.
Proof.
  unfold getMatchServlet.
  change (servlets_ demo_dispatch) with (<[bs "/a/b" := (fun _ => Response.setBody (bs "exact")) : Servlet]> (∅ : gmap bytes Servlet)).
  change (globals_ demo_dispatch) with [(bs "/a*", (fun _ => Response.setBody (bs "glob")) : Servlet)].
  change (default_ demo_dispatch) with (Some (NoFoundServlet (bs "Reyao"))).
  destruct (_ !! uri) as [s|] eqn:Es.
  - apply lookup_insert_Some in Es as [[_ <-]|[_ Es]]; [|by rewrite lookup_empty in Es].
    eexists. split; [reflexivity|by left].
  - cbn [matchGlobal]. destruct (demo_fnmatch _ _); eexists; (split; [reflexivity|cbn; auto]).
Qed.

Lemma demo_sizes : sizesFit true demo_dispatch demo_fnmatch.
Proof.
  intros req. unfold respond, handle. destruct (demo_match (Request.path_ req)) as (s & -> & Hs).
  generalize (swrap 8 (Request.version_ req)), (Request.keepAlive_ req && true). intros v b.
  refine (all_versions (fun v => Response.dump (s req (newResponse v b))) _ v).
  destruct Hs as [<-|[<-|[<-|[]]]], b; by vm_compute.
Qed.

Lemma http_over_hooks_witness :
  let req := req_of (bs "/a/b") false in
  let h := demoHooked [take 10 (Request.dump req); drop 10 (Request.dump req)] in
  exists h', HttpServlet.handleClient (H := connOf demoParty) demo_fnmatch true demo_dispatch h = (Ok tt, h')
    /\ exists g' x, ResponseParser.parseResponse (H := connOf demoParty)
           (ResponseParser.newParser (demoHooked [sent (kern h')]) (newResponse 17 false)) = (Ok true, (g', x))
         /\ Response.body_ (msg_ x) = bs "exact".
Proof.
  intros req h.
  destruct (http_over_hooks demoParty demoParty demo_fnmatch true demo_dispatch req h) as (h' & E & _ & Hcli).
  - exact demo_able.
  - exact demo_able.
  - exact demo_sizes.
  - split; [done|by right|done| | | |..]; (repeat constructor; check_bytes).
  - apply demo_ready.
  - by vm_compute.
  - by vm_compute.
  - split; [by right|check_bytes|repeat constructor; check_bytes|by vm_compute].
  - exists h'. split; [exact E|].
    destruct (Hcli (demoHooked [sent (kern h')]) 17 false) as (g' & x & Eg & Hx); [apply demo_ready|unfold stream; cbn; by rewrite app_nil_r|].
    exists g', x. split; [exact Eg|]. rewrite Hx. by vm_compute.
Defined.

Lemma rpc_over_hooks_witness :
  let f (m : bytes * bytes) := (bs "echo.Msg", take 10 (snd m) ++ bs "!") in
  let handlers := registerRpcHandler (Msg := bytes * bytes) (bs "echo.Msg") f ∅ in
  exists h', Codec.handleClient (H := x86) (H1 := connOf demoParty) handlers (demoHooked [frame echo]) = (Ok tt, h')
    /\ exists g', Call (H := x86) (H1 := connOf demoParty) echo (demoHooked [sent (kern h')])
         = (Ok (Some (bs "echo.Msg", bs "hi!")), g').
Proof.
  intros f handlers.
  destruct (rpc_over_hooks (H1 := x86) demoParty demoParty handlers echo (demoHooked [frame echo]))
    as (h' & E & _ & Hcli).
  - by vm_compute.
  - exact demo_able.
  - exact demo_able.
  - split; [by vm_compute|]. split; [by vm_compute|]. by exists (bs "echo.Msg"), (bs "echo.Msg", []).
  - intros d g m Hg. unfold handlers, registerRpcHandler, handlerMap in Hg. apply lookup_insert_Some in Hg as [[_ <-]|[_ Hg]]; [|by rewrite lookup_empty in Hg].
    unfold Codec.fits. rewrite zlen_packet. cbn [GetTypeName Serialize pairs f fst snd]. rewrite zlen_app.
    assert (zlen (take 10 (snd m)) <= 10) by (unfold zlen; rewrite length_take; lia).
    change (zlen (bs "echo.Msg")) with 8. change (zlen (bs "!")) with 1. lia.
  - intros g [= <-]. split; [by vm_compute|]. split; [by vm_compute|]. by exists (bs "echo.Msg"), (bs "echo.Msg", []).
  - apply demo_ready.
  - right. split; [done|]. right. split; [done|]. right. split; [done|]. left. reflexivity.
  - unfold stream. cbn. by rewrite app_nil_r.
  - exists h'. split; [exact E|].
    destruct (Hcli (demoHooked [sent (kern h')])) as (g' & Eg & _ & _).
    + apply demo_ready.
    + right. split; [done|]. right. split; [done|]. right. split; [done|]. left. reflexivity.
    + unfold stream. cbn. by rewrite app_nil_r.
    + exists g'. exact Eg.
Defined.
