(* ===== verification/OnWorker.v ===== *)
(** * Connections in the coroutines of a worker (src/reyao: http/*, hook.cc, worker.cc, epoller.cc together)

    A program over a connection (Talk.v) as the program of a coroutine: each
    [recv] and [send] is the [do_io] of Runtime.v, whose original calls answer
    as the kernel of Wire.v has it.  The coroutine suspends in the poller of
    its worker, the loop of the worker goes on, and in the end the coroutine
    has done what the program does on some pieces of the bytes that came. *)

From S2P Require Import Prelude SocketStream HttpMessage HttpParser HttpRoundTrip HttpServlet Talk Hook Epoller Worker Runtime Wire OverHooks.
Import Request (HttpRequest).

Section OnWorker.
Context {KE : Type} `{Epoll KE}.

Abbreviation Worker := (Worker.Worker (KE := KE)).

(** The descriptor; what the kernel reports when it is readable and when it is
    writable, or failed; and how often [epoll_wait] times out before that, by
    the number of calls still to come. *)
Context (fd : Z) (Hfd : 2 <= fd < 2 ^ 31) (Hk : forall k : KE, accepts k fd).
Context (evIn evOut : Z) (HevIn : reports EPOLLIN evIn) (HevOut : reports EPOLLOUT evOut).
Context (late : nat -> nat).

(** ** One call *)

(** The answers of consecutive calls of which the last one succeeds. *)
Inductive Retried (n : Z) : list (Z * Z) -> Prop :=
| retried_answer : Retried n [(n, 0)]
| retried_signal l : Retried n l -> Retried n ((-1, EINTR) :: l)
| retried_again l : Retried n l -> Retried n ((-1, EAGAIN) :: l).

(** The turns of the loop that bring the coroutine through them. *)
Fixpoint callTurns (ev : Z) (l : list (Z * Z)) : list Round :=
  match l with
  | [] => []
  | (n, e) :: l =>
      if (n =? -1) && (e =? EAGAIN) then attemptTurns fd ev (0%nat, late (length l)) ++ callTurns ev l
      else callTurns ev l
  end.

Lemma call_turns type ev n l w c k :
  is_type type -> reports type ev -> Retried n l -> 0 <= n -> Runnable w c fd (ioProg l fd type k) ->
  exists w', turns (callTurns ev l) w = (Ok tt, w') /\ Runnable w' c fd (k n 0).
Proof using Hfd Hk.
  intros Ht Hev Hl Hn. revert w. induction Hl as [|l _ IH|l _ IH]; intros w Hw; cbn [callTurns].
  - exists w. rewrite (proj2 (Z.eqb_neq n (-1))) by lia. split; [done|]. cbn [ioProg] in Hw.
    by rewrite (proj2 (Z.eqb_neq n (-1))) in Hw by lia.
  - by apply IH.
  - destruct (attempt_turns fd type Hfd Ht Hk ev (0%nat, late (length l)) w c l k Hev Hw) as (w1 & E1 & Hw1).
    destruct (IH w1 Hw1) as (w2 & E2 & Hw2). exists w2. split; [|done].
    change ((-1 =? -1) && (EAGAIN =? EAGAIN)) with true. cbv iota. by rewrite (turns_app _ _ _ _ E1).
Qed.

Lemma recv_retried size u l :
  Retried (zlen (fst (fst (outcome (recvCalls (fun _ => tt) size u l))))) (answers (recvCalls (fun _ => tt) size u l)).
Proof using Type.
  revert u. induction l as [|[|d] l IH]; intros u; cbn [recvCalls]; [constructor|constructor; apply IH|].
  case_decide; constructor. apply IH.
Qed.

Lemma send_retried buf l :
  Retried (zlen (fst (outcome (sendCalls (fun _ => tt) buf l)))) (answers (sendCalls (fun _ => tt) buf l)).
Proof using Type.
  induction l as [|[|n] l IH]; cbn [sendCalls]; [constructor|constructor; apply IH|].
  destruct (n <=? 0); constructor. apply IH.
Qed.

(** ** A program over a connection *)

Section Program.
Context {X : Type} (fin : X -> Prog).

(** The program of the coroutine; [o] tells whether the socket is open.  A
    socket that is not makes no system call; [close] wakes who waits. *)
Fixpoint program (c : Talk X) (o : bool) (k : Kernel) : Prog :=
  match c with
  | Done x => fin x
  | Recv size c =>
      if o then
        let v := recvCalls (fun _ => tt) size (unread k) (arriving k) in
        let '(d, u, l) := outcome v in
        ioProg (answers v) fd EPOLLIN (fun n _ => program (c (n, d)) o (received u l k))
      else program (c (-1, [])) o k
  | Send buf c =>
      if o then
        let v := sendCalls (fun _ => tt) buf (space k) in
        let '(d, l) := outcome v in
        ioProg (answers v) fd EPOLLOUT (fun n _ => program (c n) o (accepted d l k))
      else program (c (-1)) o k
  | Connected c => program (c o) o k
  | Close c => if o then HandleAllEvent fd (fun _ => program c false k) else program c false k
  | ToCome c => program (c (zlen (stream k))) o k
  end.

(** The turns it takes, up to the one that ends it. *)
Fixpoint programTurns (c : Talk X) (o : bool) (k : Kernel) : list Round :=
  match c with
  | Done _ => []
  | Recv size c =>
      if o then
        let v := recvCalls (fun _ => tt) size (unread k) (arriving k) in
        let '(d, u, l) := outcome v in
        callTurns evIn (answers v) ++ programTurns (c (zlen d, d)) o (received u l k)
      else programTurns (c (-1, [])) o k
  | Send buf c =>
      if o then
        let v := sendCalls (fun _ => tt) buf (space k) in
        let '(d, l) := outcome v in
        callTurns evOut (answers v) ++ programTurns (c (zlen d)) o (accepted d l k)
      else programTurns (c (-1)) o k
  | Connected c => programTurns (c o) o k
  | Close c => programTurns c false k
  | ToCome c => programTurns (c (zlen (stream k))) o k
  end.

(** Its result, whether the socket is still open, and what the kernel has. *)
Fixpoint finish (c : Talk X) (o : bool) (k : Kernel) : X * bool * Kernel :=
  match c with
  | Done x => (x, o, k)
  | Recv size c =>
      if o then
        let '(d, u, l) := outcome (recvCalls (fun _ => tt) size (unread k) (arriving k)) in
        finish (c (zlen d, d)) o (received u l k)
      else finish (c (-1, [])) o k
  | Send buf c =>
      if o then
        let '(d, l) := outcome (sendCalls (fun _ => tt) buf (space k)) in
        finish (c (zlen d)) o (accepted d l k)
      else finish (c (-1)) o k
  | Connected c => finish (c o) o k
  | Close c => finish c false k
  | ToCome c => finish (c (zlen (stream k))) o k
  end.

(** On a closed socket nothing is left to do for the kernel. *)
Lemma closed_program c k :
  exists x, program c false k = fin x /\ programTurns c false k = [] /\ finish c false k = (x, false, k)
    /\ forall s, Met k s -> connected s = false -> Talk.run c s = (Ok x, s).
Proof using Type.
  induction c as [x|size c IH|buf c IH|c IH|c IH|c IH]; cbn [program programTurns finish Talk.run].
  - by exists x.
  - destruct (IH (-1, [])) as (x & E1 & E2 & E3 & E4). exists x. split_and!; try done. intros s Hm Hc.
    rewrite <- (E4 s Hm Hc). cbn [recvOn connSock]. unfold bind at 1, SocketStream.recv. by rewrite Hc.
  - destruct (IH (-1)) as (x & E1 & E2 & E3 & E4). exists x. split_and!; try done. intros s Hm Hc.
    rewrite <- (E4 s Hm Hc). cbn [sendOn connSock]. unfold bind at 1, SocketStream.send. by rewrite Hc.
  - destruct (IH false) as (x & E1 & E2 & E3 & E4). exists x. split_and!; try done. intros s Hm Hc.
    rewrite bind_gets. cbn [connectedOn connSock]. unfold isConnected. rewrite Hc. by apply E4.
  - destruct IH as (x & E1 & E2 & E3 & E4). exists x. split_and!; try done. intros s Hm Hc.
    rewrite <- (E4 s Hm Hc). destruct s. cbn in Hc. by subst.
  - destruct (IH (zlen (stream k))) as (x & E1 & E2 & E3 & E4). exists x. split_and!; try done. intros s Hm Hc.
    rewrite bind_gets. cbn [toCome connSock]. unfold pending. rewrite (mt_in _ _ Hm). by apply E4.
Qed.

(** The coroutine gets through all calls of its program, which does what it
    does on some pieces of the bytes; what is left is its end. *)
Lemma program_turns c w co k :
  fits c -> Runnable w co fd (program c true k) ->
  let '(x, o, k') := finish c true k in
  exists w' s s', turns (programTurns c true k) w = (Ok tt, w')
    /\ Runnable w' co fd (if o then fin x else HandleAllEvent fd (fun _ => fin x))
    /\ Met k s /\ connected s = true /\ Talk.run c s = (Ok x, s') /\ Met k' s' /\ connected s' = o.
Proof using Hfd Hk HevIn HevOut.
  revert w k. induction c as [x|size c IH|buf c IH|c IH|c IH|c IH]; intros w k Hf Hw;
    cbn [program programTurns finish Talk.run fits] in *.
  - destruct (met_exists true k) as (s & Hm & Hs). by exists w, s, s.
  - destruct Hf as [Hsz Hf]. pose proof (recv_retried size (unread k) (arriving k)) as Hr.
    destruct (outcome (recvCalls _ size (unread k) (arriving k))) as [[d u] l] eqn:Eo. cbn [fst] in Hr.
    destruct (call_turns EPOLLIN evIn _ _ w co _ ltac:(by left) HevIn Hr (zlen_nonneg d) Hw) as (w1 & E1 & Hw1).
    specialize (IH (zlen d, d) w1 _ (Hf _) Hw1). destruct (finish _ _ _) as [[x o] k'].
    destruct IH as (w' & s1 & s' & E & Hw' & Hm1 & Hc1 & Er & Hm' & Hc').
    destruct (recv_met _ size k d u l s1 ltac:(lia) Eo Hc1 Hm1) as (s & Hc & Hm & Es).
    exists w', s, s'. rewrite (turns_app _ _ _ _ E1). split_and!; try done.
    cbn [recvOn connSock]. by rewrite (bind_ok _ _ _ _ _ Es).
  - destruct Hf as [Hsz Hf]. pose proof (send_retried buf (space k)) as Hr.
    destruct (outcome (sendCalls _ buf (space k))) as [d l] eqn:Eo. cbn [fst] in Hr.
    destruct (call_turns EPOLLOUT evOut _ _ w co _ ltac:(by right) HevOut Hr (zlen_nonneg d) Hw) as (w1 & E1 & Hw1).
    specialize (IH (zlen d) w1 _ (Hf _) Hw1). destruct (finish _ _ _) as [[x o] k'].
    destruct IH as (w' & s1 & s' & E & Hw' & Hm1 & Hc1 & Er & Hm' & Hc').
    destruct (send_met _ buf k d l s1 Eo Hc1 Hm1) as (s & Hc & Hm & Es).
    exists w', s, s'. rewrite (turns_app _ _ _ _ E1). split_and!; try done.
    cbn [sendOn connSock]. by rewrite (bind_ok _ _ _ _ _ Es).
  - specialize (IH true w k (Hf _) Hw). destruct (finish _ _ _) as [[x o] k'].
    destruct IH as (w' & s & s' & E & Hw' & Hm & Hc & Er & Hm' & Hc'). exists w', s, s'. split_and!; try done.
    rewrite bind_gets. cbn [connectedOn connSock]. unfold isConnected. by rewrite Hc.
  - destruct (closed_program c k) as (x & E1 & E2 & E3 & E4). rewrite E2, E3. rewrite E1 in Hw.
    destruct (met_exists true k) as (s & Hm & Hs). pose proof (met_connected false k s Hm) as Hm'.
    exists w, s, (setConnected false s). split_and!; try done. by rewrite <- (E4 _ Hm' eq_refl).
  - specialize (IH (zlen (stream k)) w k (Hf _) Hw). destruct (finish _ _ _) as [[x o] k'].
    destruct IH as (w' & s & s' & E & Hw' & Hm & Hc & Er & Hm' & Hc'). exists w', s, s'. split_and!; try done.
    rewrite bind_gets. cbn [toCome connSock]. unfold pending. by rewrite (mt_in _ _ Hm).
Qed.
End Program.

(** ** The end of the coroutine *)

(** [MainFunc] ends after the function returns or throws. *)
Definition ending (r : result unit) : Prog := match r with Ok _ => Return | Throw _ => Raise end.
Definition ended (r : result unit) : State := match r with Ok _ => DONE | Throw _ => EXCEPT end.

Lemma ended_finished r : Worker.finished (ended r) = true.
Proof using Type. by destruct r. Qed.

Lemma ending_run r d (v : Worker) :
  exists g, (forall x, state_ (g x) = ended r)
    /\ exec d (ending r) v = (Ok tt, setCur None (setCoroutines (alter g d (coroutines v)) v)).
Proof using Type.
  destruct r as [u|e]; cbn [ending exec]; eexists; (split; [|unfold yield, updCoroutine; rewrite !bind_modify;
    unfold modify; cbn [coroutines setCoroutines]; rewrite alter_alter_eq; reflexivity]); done.
Qed.

(** [HandleAllEvent] when nobody waits. *)
Lemma handle_none (v : Worker) :
  Inv (poller_ v) -> Forall (fun x => x.1 <> self v) (scheduled (poller_ v)) ->
  (forall type, is_type type -> registered (poller_ v) fd type = None) ->
  exists ok v', onPoller (handleAllEvent fd) v = (Ok ok, v') /\ Same v v' /\ tasks_ v' = tasks_ v
    /\ Worker.running_ v' = Worker.running_ v /\ Inv (poller_ v')
    /\ Forall (fun x => x.1 <> self v) (scheduled (poller_ v'))
    /\ forall type, is_type type -> registered (poller_ v') fd type = None.
Proof using Hfd.
  intros HI Hn Hfree. destruct (handle_all_spec (poller_ v) fd HI ltac:(lia)) as (ok & q & E & HIq & Hno & Hyes).
  cbn [run_regop] in E.
  assert (Hq : scheduled q = scheduled (poller_ v) /\ forall type, is_type type -> registered q fd type = None).
  { destruct ok.
    - destruct (Hyes eq_refl) as [Hs Hr]. cbn [emitted] in Hs.
      rewrite (Hfree EPOLLIN (or_introl eq_refl)), (Hfree EPOLLOUT (or_intror eq_refl)) in Hs. cbn in Hs. rewrite app_nil_r in Hs.
      split; [done|]. intros type Ht. rewrite Hr by (done || lia). cbn [effect]. by rewrite decide_True.
    - destruct (Hno eq_refl) as [Hs Hr]. split; [done|]. intros type Ht. rewrite Hr by lia. by apply Hfree. }
  destruct Hq as [Hs Hr]. destruct (onPoller_run _ ok q v E) as (v' & Eo & HS & HP & HR & HT).
  exists ok, v'. split; [done|]. split; [done|]. rewrite HP. split_and!; try done.
  - by rewrite HT, Hs, mine_none, filter_nil, app_nil_r.
  - by apply inv_delivered.
  - apply delivered_none.
Qed.

(** The last turn: the coroutine ends, and the worker is at rest. *)
Lemma end_turn r (o : bool) (w : Worker) co :
  Runnable w co fd (if o then ending r else HandleAllEvent fd (fun _ => ending r)) ->
  exists w' x, iterate quiet w = (Ok true, w') /\ Rest w' [] /\ coroutines w' !! co = Some x /\ state_ x = ended r
    /\ forall type, is_type type -> registered (poller_ w') fd type = None.
Proof using Hfd.
  intros [Hrest (x & Hx & Hst & Hcx) Hfree]. pose proof Hrest as [HL HI Ht Hr Hi Hn].
  assert (Eit : iterate quiet w = (exec co (context_ x) ;;; ret true) (resumed co x [] w)) by (by apply iterate_resumes).
  set (v := resumed co x [] w) in *.
  assert (Hv : exists v', exec co (context_ x) v = exec co (ending r) v' /\ Same v v' /\ tasks_ v' = []
    /\ Worker.running_ v' = true /\ Inv (poller_ v') /\ Forall (fun x => x.1 <> self w) (scheduled (poller_ v'))
    /\ forall type, is_type type -> registered (poller_ v') fd type = None).
  { rewrite Hcx. destruct o.
    - exists v. by split_and!.
    - destruct (handle_none v HI Hn Hfree) as (ok & v' & E & HS & Ht' & Hr' & HI' & Hn' & Hfree').
      exists v'. cbn [exec]. rewrite (bind_ok _ _ _ _ _ E). split_and!; (done || by rewrite Hr'). }
  destruct Hv as (v' & Ev & HS & Ht' & Hr' & HI' & Hn' & Hfree').
  destruct (ending_run r co v') as (g & Hg & Eg). rewrite Eg in Ev.
  rewrite (bind_ok _ _ _ _ _ Ev) in Eit. set (w' := setCur None _) in *.
  destruct (turn_ok w quiet HL (quiet_ok w)) as (b & w'' & E' & HL' & _). rewrite Eit in E'. injection E' as <- <-.
  exists w', (g (setState RUNNING x)). destruct HS. split; [done|]. split; [|split; [|split; [apply Hg|done]]].
  - split; cbn; try done; [by rewrite sm_idle|by rewrite sm_self].
  - cbn. rewrite lookup_alter_eq, sm_coroutines. cbn. by rewrite lookup_insert_eq.
Qed.

Lemma program_ok {X} (fin : X -> Prog) c o k : (forall x, prog_ok (fin x)) -> prog_ok (program fin c o k).
Proof using Hfd.
  intros Hfin. revert o k. induction c as [x|size c IH|buf c IH|c IH|c IH|c IH]; intros o k; cbn [program]; try done.
  - destruct o; [|done]. destruct (outcome _) as [[d u] l]. by apply ioProg_ok; [lia|left|].
  - destruct o; [|done]. destruct (outcome _) as [d l]. by apply ioProg_ok; [lia|right|].
  - destruct o; [|done]. cbn. split; [lia|done].
Qed.

(** ** Computations on a connection, in a coroutine *)

Section Connection.
Context {T : Type} (m : forall K, SocketStream.Conn K -> M K T) (Hm : Says (fun K H => alone (m K H))).
Context (fin : result T -> result unit).

(** The coroutine that runs [m], and ends as [fin] makes of its result. *)
Definition coProgram (k : Kernel) : Prog :=
  program (fun x => ending (fin (fst x))) (proj1_sig Hm tt) true k.
Definition coTurns (k : Kernel) : list Round := programTurns (proj1_sig Hm tt) true k ++ [quiet].
Definition coResult (k : Kernel) : result T := fst (fst (fst (finish (proj1_sig Hm tt) true k))).
Definition coKernel (k : Kernel) : Kernel := snd (finish (proj1_sig Hm tt) true k).

(** It ends in these turns, the worker is at rest, and [m] does the same on
    some pieces of the bytes that came. *)
Lemma coroutine_run w co k :
  Runnable w co fd (coProgram k) ->
  exists w' x s s', turns (coTurns k) w = (Ok tt, w') /\ Rest w' []
    /\ coroutines w' !! co = Some x /\ state_ x = ended (fin (coResult k))
    /\ (forall type, is_type type -> registered (poller_ w') fd type = None)
    /\ flowing s /\ Met k s /\ m _ connSock s = (coResult k, s') /\ outgoing s' = sent (coKernel k).
Proof using Hfd Hk HevIn HevOut.
  intros Hw. unfold coProgram, coTurns, coResult, coKernel in *. destruct Hm as [c [Hf Hc]]. cbn [proj1_sig] in *.
  pose proof (program_turns _ (c tt) w co k (Hf tt) Hw) as Ht.
  destruct (finish (c tt) true k) as [[[r []] o] k']. cbn [fst snd] in *.
  destruct Ht as (w1 & s & s' & E1 & Hw1 & Hms & Hcs & Er & Hms' & _).
  destruct (end_turn (fin r) o w1 co Hw1) as (w2 & x & E2 & Hrest & Hx & Hst & Hfree).
  exists w2, x, s, s'. split; [by rewrite (turns_app _ _ _ _ E1), (turns_one _ _ _ E2)|].
  apply Hc in Er. unfold alone, zoom in Er. cbn [fst snd] in Er. destruct (m Sock connSock s) as [r1 s1].
  injection Er as -> ->. split_and!; try done; [by destruct Hms|apply (mt_out _ _ Hms')].
Qed.
End Connection.

(** C7: The HTTP server in a coroutine of a worker, over epoll, where no [send]
    takes a part of a response only and every response is smaller than 2^31
    bytes.  Whatever the peer sends, in whatever pieces, and however often the
    server's calls are interrupted or would block: the loop of the worker goes
    on meanwhile, resumes the coroutine at each report of the kernel, and after
    these turns the coroutine has ended, with nothing registered and the worker
    at rest; it has read off some pieces of what arrived the requests that
    [served] says, and sent their responses in order.  If what arrives is one
    well-formed request, the coroutine is done without an exception, and what
    it has sent is the response to this request. *)
Theorem http_on_worker fnmatch keepAlive d (Hsz : sizesFit keepAlive d fnmatch) w co k :
  let serving := says_handleHttp fnmatch keepAlive d Hsz in
  Runnable w co fd (coProgram _ serving id k) ->
  Forall delays (space k) -> sent k = [] -> zlen (stream k) <= 2 ^ 60 ->
  exists w' x s reqs, turns (coTurns _ serving k) w = (Ok tt, w') /\ Rest w' []
    /\ coroutines w' !! co = Some x /\ state_ x = ended (coResult _ serving k)
    /\ (forall type, is_type type -> registered (poller_ w') fd type = None)
    /\ flowing s /\ List.concat (incoming s) = stream k
    /\ served fnmatch keepAlive d s reqs (coResult _ serving k)
    /\ sent (coKernel _ serving k) = responses fnmatch keepAlive d reqs
    /\ forall req, request_ok req -> stream k = Request.dump req ->
         state_ x = DONE /\ reqs = [received_request false req].
Proof using Hfd Hk HevIn HevOut.
  intros serving Hw Hroom Hsent Hlen.
  destruct (coroutine_run _ serving id w co k Hw) as (w' & x & s & s' & E & Hrest & Hx & Hst & Hfree & Hfl & Hm & Es & Hout).
  pose proof (mt_room _ _ Hm Hroom) as Hac. pose proof (mt_in _ _ Hm) as Hin.
  assert (Hp : pending s <= 2 ^ 60) by (unfold pending; by rewrite Hin).
  destruct (serves_run fnmatch keepAlive d s Hfl Hac Hp) as (reqs & r & s1 & E1 & Hs1 & Ho1 & _).
  rewrite Es in E1. injection E1 as <- <-. exists w', x, s, reqs. split_and!; try done.
  - by rewrite <- Hout, Ho1, (mt_out _ _ Hm), Hsent.
  - intros req Hreq Hst'. rewrite Hst' in Hin.
    destruct (served_sends fnmatch keepAlive d s [req] [incoming s] [] _ _ Hs1 Hfl Hac Hp) as (more & -> & Hmore);
      [by apply Forall_singleton|cbn; by rewrite Hin|cbn; by rewrite !app_nil_r|].
    destruct Hmore as [-> Hr]; [by left|]. rewrite Hst, Hr. split; [done|].
    rewrite app_nil_r. cbn [map answered]. by destruct (keepsOn _ _).
Qed.
End OnWorker.

(** ** A concrete run *)

(** Nothing at first, a signal, then a request in two pieces; a signal and a
    full buffer before there is room. *)
Definition demoKernel (l : list bytes) : Kernel :=
  {| unread := []; arriving := Bytes [] :: SignalIn :: map Bytes l; space := [SignalOut; Space 0]; sent := [] |}.

Lemma http_on_worker_witness :
  let serving := says_handleHttp demo_fnmatch true demo_dispatch demo_sizes in
  let req := req_of (bs "/a/b") false in
  let k := demoKernel [take 10 (Request.dump req); drop 10 (Request.dump req)] in
  exists w' x, turns (coTurns 5 EPOLLIN EPOLLOUT (fun _ => 2%nat) _ serving k)
      (oneQueued (coProgram 5 _ serving id k)) = (Ok tt, w')
    /\ coroutines w' !! 1%nat = Some x /\ state_ x = DONE
    /\ sent (coKernel _ serving k) = responses demo_fnmatch true demo_dispatch [received_request false req].
Proof.
  intros serving req k.
  destruct (http_on_worker (KE := gmap Z Z) 5 ltac:(lia) (fun k => map_accepts k 5) EPOLLIN EPOLLOUT ltac:(reflexivity) ltac:(reflexivity)
    (fun _ => 2%nat) demo_fnmatch true demo_dispatch demo_sizes (oneQueued (coProgram 5 _ serving id k)) 1 k)
    as (w' & x & s & reqs & E & _ & Hx & Hst & _ & _ & _ & _ & Hsent & Hone).
  - split.
    + apply oneQueued_rest, program_ok; [lia|]. intros [[u|e] t]; exact I.
    + eexists. split; [reflexivity|]. done.
    + intros u _. done.
  - by repeat constructor.
  - reflexivity.
  - by vm_compute.
  - exists w', x. split; [exact E|]. split; [exact Hx|].
    destruct (Hone req) as [Hd Hr].
    + split; [done|by right|done| | | |..]; (repeat constructor; check_bytes).
    + by vm_compute.
    + split; [exact Hd|]. etrans; [exact Hsent|]. by rewrite Hr.
Defined.
