(* ===== verification/Server.v ===== *)
(** * The TCP server on the scheduler (src/reyao/tcp_server.cc, tcp_server.h)

    [TcpServer] with the socket it listens on, of Socket.v, and the scheduler
    that runs its handlers, of Scheduler.v.  The thread state inside [world]
    is the one of the worker that accepts. *)

From S2P Require Import Prelude Epoller Hook Worker Scheduler Socket.

Section Server.
Context {KE K A : Type} `{Epoll KE} `{Sys K}.

Abbreviation Scheduler := (Scheduler.Scheduler (KE := KE)).
Abbreviation World := (World (W := nat) (C := nat) (F := Prog) (KE := KE) (K := K) (A := A)).
Abbreviation Socket := (Socket.Socket (A := A)).

(** [opened]: [listenSock_] is not null. *)
Record TcpServer := mkServer {
  world : World;
  sche_ : Scheduler;
  running_ : bool;
  opened : bool;
  recvTimeout_ : Z
}.

Definition setWorld w s := mkServer w (sche_ s) (running_ s) (opened s) (recvTimeout_ s).
Definition setSche c s := mkServer (world s) c (running_ s) (opened s) (recvTimeout_ s).
Definition setRunning b s := mkServer (world s) (sche_ s) b (opened s) (recvTimeout_ s).
Definition setOpened s := mkServer (world s) (sche_ s) (running_ s) true (recvTimeout_ s).

Definition onWorld {B} (m : M World B) : M TcpServer B := zoom world setWorld m.
Definition onSche {B} (m : M Scheduler B) : M TcpServer B := zoom sche_ setSche m.

Definition newTcpServer (w : World) (c : Scheduler) : TcpServer := mkServer w c false false s_maxRecvTimeout.

(** What the class of the server makes of a client, as the program of its
    coroutine. *)
Context (handleClient : Socket -> Prog).

(** One turn of the loop of [accept]. *)
Definition acceptOne : M TcpServer unit :=
  client <-- onWorld accept ;;
  match client with
  | None => ret tt
  | Some c =>
      t <-- gets recvTimeout_ ;;
      r <-- onWorld (onSocket c (setRecvTimeout (i64 t))) ;;
      onSche (Scheduler.addTask (TaskFunc (handleClient (snd r))) (-1))
  end.

(** [accept]; the destructor, on another thread, clears [running_] after [n]
    turns. *)
Fixpoint accept (n : nat) : M TcpServer unit :=
  b <-- gets running_ ;;
  if b then
    match n with
    | O => modify (setRunning false)
    | S n => acceptOne ;;; accept n
    end
  else ret tt.

Definition listenAndAccpet (n : nat) : M TcpServer unit :=
  modify setOpened ;;;
  onWorld (updSock (fun _ => CreateTcp)) ;;;
  onWorld bind_ ;;;
  onWorld listen ;;;
  accept n.

(** [start], where [task] is the program of [listenAndAccpet]. *)
Definition start (task : Prog) : M TcpServer unit :=
  b <-- gets running_ ;;
  if b then ret tt
  else
    modify (setRunning true) ;;;
    onSche (onWorker mainWorker_ (Worker.addTask (TaskFunc task))).

(** The destructor. *)
Definition destroy : M TcpServer unit :=
  modify (setRunning false) ;;;
  o <-- gets opened ;;
  check o Undefined ;;;
  onWorld close ;;; ret tt.

(** ** What the scheduler gets *)

Lemma onWorld_run {B} (m : M World B) b w' s :
  m (world s) = (Ok b, w') -> onWorld m s = (Ok b, setWorld w' s).
Proof. intros E. unfold onWorld, zoom. by rewrite E. Qed.

Lemma onSche_run {B} (m : M Scheduler B) b c' s :
  m (sche_ s) = (Ok b, c') -> onSche m s = (Ok b, setSche c' s).
Proof. intros E. unfold onSche, zoom. by rewrite E. Qed.

Lemma acceptOne_deals lis cL fds c l ns s :
  Serving lis cL (recvTimeout_ s) fds (world s) -> type_ lis <> SOCK_STREAM -> newConn lis fds (world s) c ->
  calls (os (world s)) = connCalls c ++ l -> names (world s) = connNames c ++ ns -> 0 <= recvTimeout_ s < 2 ^ 63 ->
  SInv (sche_ s) ->
  exists w' c', acceptOne s = (Ok tt, setSche c' (setWorld w' s))
    /\ Scheduler.addTask (TaskFunc (handleClient (clientOf lis c))) (-1) (sche_ s) = (Ok tt, c')
    /\ SInv c' /\ Serving lis cL (recvTimeout_ s) (fds ++ [c_fd c]) w'
    /\ calls (os w') = l /\ names w' = ns
    /\ forall g, is_socket (Hook.sys (os w')) g = is_socket (Hook.sys (os (world s))) g.
Proof.
  intros Hsv Hty Hnew Hc Hn Ht Hs.
  destruct (accept_timed _ _ _ _ _ _ _ _ Hsv Hty Hnew Hc Hn Ht) as (w1 & w' & E1 & E2 & Hrest).
  destruct (addTask_next (sche_ s) (handleClient (clientOf lis c)) Hs) as (c' & Ec & Hs' & _).
  exists w', c'. split; [|exact (conj Ec (conj Hs' Hrest))]. unfold acceptOne.
  rewrite (bind_ok _ _ _ _ _ (onWorld_run _ _ _ s E1)), bind_gets.
  rewrite (bind_ok _ _ _ _ _ (onWorld_run _ _ _ (setWorld w1 s) E2)). exact (onSche_run _ _ c' (setWorld w' (setWorld w1 s)) Ec).
Qed.

(** C22: The accept loop deals the connections to the workers: every connection
    the kernel accepts becomes one task of the scheduler, in the order of
    arrival, on a connected socket of its own with the addresses of its
    connection and the receive timeout of the server; the tasks go to the
    workers in turn, behind what they have, and no other queue changes.  The
    loop ends when [running_] is cleared, with the listening socket and the
    clients as they were. *)
Theorem server_deals_clients lis cL fds cs l ns s :
  running_ s = true -> SInv (sche_ s) ->
  Serving lis cL (recvTimeout_ s) fds (world s) -> type_ lis <> SOCK_STREAM -> newConns lis fds (world s) cs ->
  0 <= recvTimeout_ s < 2 ^ 63 ->
  calls (os (world s)) = List.concat (map connCalls cs) ++ l ->
  names (world s) = List.concat (map connNames cs) ++ ns ->
  exists s', accept (length cs) s = (Ok tt, s')
    /\ (forall w, tasksOf (sche_ s') w
          = tasksOf (sche_ s) w ++ dealt (sche_ s) w 0 (map (fun c => handleClient (clientOf lis c)) cs))
    /\ SInv (sche_ s') /\ Serving lis cL (recvTimeout_ s) (fds ++ map c_fd cs) (world s')
    /\ calls (os (world s')) = l /\ running_ s' = false.
Proof.
  revert fds s. induction cs as [|c cs IH]; intros fds s Hr Hs Hsv Hty Hnew Ht Hc Hn; cbn [accept length];
    rewrite bind_gets, Hr.
  - eexists. split; [done|]. cbn. rewrite app_nil_r. split; [|done]. intros w. by rewrite app_nil_r.
  - cbn [map List.concat] in Hc, Hn. rewrite <- app_assoc in Hc, Hn. destruct Hnew as [Hc1 Hcs].
    destruct (acceptOne_deals _ _ _ _ _ _ s Hsv Hty Hc1 Hc Hn Ht Hs) as (w1 & c1 & E & Ec & Hs1 & Hsv1 & Hl1 & Hn1 & Hg1).
    rewrite (bind_ok _ _ _ _ _ E).
    destruct (IH (fds ++ [c_fd c]) (setSche c1 (setWorld w1 s))) as (s' & E' & Htk & Hrest); try done;
      [by eapply newConns_sys|].
    exists s'. split; [done|]. cbn [map]. rewrite <- app_assoc in Hrest. split; [|exact Hrest].
    destruct (addTask_next (sche_ s) (handleClient (clientOf lis c)) Hs) as (c2 & Ec2 & _ & Hw & Hnum & Hix & Htk2).
    rewrite Ec in Ec2. injection Ec2 as <-. intros w. rewrite Htk. cbn [sche_ setSche setWorld dealt].
    rewrite Htk2, (dealt_shift (sche_ s) c1) by (intros; by apply nextWorker_shift). by rewrite <- app_assoc.
Qed.

(** [start] queues the accept loop on the main worker, once however often it
    is called. *)
Theorem start_once task n s x :
  running_ s = false -> workers (sche_ s) !! mainWorker_ = Some x ->
  exists s', Nat.iter (S n) (fun m => start task ;;; m) (ret tt) s = (Ok tt, s')
    /\ running_ s' = true /\ tasksOf (sche_ s') mainWorker_ = tasksOf (sche_ s) mainWorker_ ++ [TaskFunc task].
Proof.
  intros Hr Hx. destruct (Worker.addTask_run x (TaskFunc task)) as (x' & Ex & _ & _ & _ & Ht). cbn [isTask] in Ht.
  set (s1 := setSche (setWorkers (<[mainWorker_ := x']> (workers (sche_ s))) (sche_ s)) (setRunning true s)).
  assert (E : start task s = (Ok tt, s1)).
  { unfold start. rewrite bind_gets, Hr, bind_modify. apply onSche_run. by apply (onWorker_run mainWorker_ _ (sche_ s) x). }
  assert (Hn : forall n, Nat.iter n (fun m => start task ;;; m) (ret tt) s1 = (Ok tt, s1)).
  { clear n. induction n as [|n IH]; cbn [Nat.iter nat_rect]; [done|]. rewrite (bind_ok _ _ _ tt s1); [exact IH|].
    unfold start. by rewrite bind_gets. }
  exists s1. cbn [Nat.iter nat_rect]. rewrite (bind_ok _ _ _ _ _ E). split; [apply Hn|]. split; [done|].
  unfold s1. cbn [sche_ setSche]. rewrite tasksOf_put, decide_True by done. unfold tasksOf. by rewrite Hx.
Qed.

(** A server destroyed before its accept task has run calls [close] through a
    null pointer. *)
Theorem destroy_before_listening s : opened s = false -> fst (destroy s) = Throw Undefined.
Proof. intros Ho. unfold destroy. rewrite bind_modify, bind_gets. cbn. by rewrite Ho. Qed.
End Server.

(** ** A server with two connections and three workers *)

Definition demoThread (script : list (Z * Z)) : St (W := nat) (C := nat) (F := Prog) (KE := gmap Z Z) (K := gmap Z Z) :=
  {| t_hookEnable := true; Hook.self := 0%nat; Hook.cur := 7%nat; poller := newEpoller ∅;
     fdcontexts_ := [None; None; None; Some demoCtx]; sys := {[ 3 := 2050; 4 := 2; 6 := 2 ]}; errno := 0;
     calls := script; wakes := []; acts := [] |}.

(** The handler waits for the connection to become readable. *)
Definition demoHandler (c : Socket.Socket (A := string)) : Prog :=
  AddEvent (sockfd_ c) EPOLLIN None (fun _ => Return).

Definition demoTcpServer : TcpServer (KE := gmap Z Z) (K := gmap Z Z) (A := string) :=
  setRunning true (newTcpServer
    (mkWorld demoListen (demoThread (List.concat (map connCalls demoConns))) (List.concat (map connNames demoConns)) [])
    four).

Lemma server_deals_clients_witness :
  exists s', accept demoHandler 2 demoTcpServer = (Ok tt, s')
    /\ tasksOf (sche_ s') 1 ++ tasksOf (sche_ s') 2
       = map (fun c => TaskFunc (demoHandler (clientOf demoListen c))) demoConns
    /\ tasksOf (sche_ s') 3 = [].
Proof.
  destruct (server_deals_clients demoHandler demoListen demoCtx [] demoConns [] [] demoTcpServer) as (s' & E & Ht & _).
  - reflexivity.
  - exact four_inv.
  - split; [reflexivity|by split|]. intros fd H. by apply elem_of_nil in H.
  - vm_compute. discriminate.
  - unfold newConns, newConn. cbn [demoConns].
    split; [|split; [|done]]; (split; [vm_compute; discriminate|]); (split; [vm_compute; discriminate|]);
      (split; [|vm_compute; reflexivity]).
    + intros H. inversion H.
    + intros H. apply list_elem_of_singleton in H. discriminate.
  - unfold demoTcpServer, newTcpServer, s_maxRecvTimeout. cbn. lia.
  - vm_compute. reflexivity.
  - vm_compute. reflexivity.
  - exists s'. split; [exact E|]. rewrite !Ht. split_and!; by vm_compute.
Defined.
